(** * go-json: a shallow embedding of the JSON codec and its properties

    The package under study is a recursive-descent JSON decoder
    ([UnmarshalValue] and the productions it dispatches to) and an encoder
    ([MarshalValue] and its helpers).  Both work on streams of the Go
    standard library: the decoder reads from a [bufio.Reader], the encoder
    writes to a [bufio.Writer].

    Layout of the development:
    - the parts of the Go standard library the package calls ([utf8],
      [unicode], [strconv], [bufio]), each in a module named after the Go
      package;
    - the data model ([Value]) and the two halves of the codec, inside a
      section that is parametric in the Unicode table of decimal digits;
    - [Stream]: the decoder once more, over a reader without a buffer,
      which is what the decoder sees as long as the buffer of the
      [bufio.Reader] holds all of the text;
    - the properties: of the standard library, of the encoder, of the
      decoder over a stream, the simulation that carries them to the
      [bufio.Reader], and the properties of the codec. *)

From Stdlib Require Import ZArith String Ascii List Lia Bool SpecFloat.
From stdpp Require Import gmap strings.

#[local] Open Scope string_scope.
#[local] Open Scope Z_scope.

(** ** Bytes, runes and Go strings

    A Go [string] is a sequence of bytes: it is modelled by [string], whose
    characters are bytes.  A [rune] is an [int32]; runes are integers of
    [Z], and the conversions [uint32(r)] and [byte(r)] are written out. *)

Definition rune := Z.

Definition b2z (c : ascii) : Z := Z.of_N (N_of_ascii c).

(** [byte(x)]: the low eight bits. *)
Definition z2b (x : Z) : ascii := ascii_of_N (Z.to_N (x mod 256)).

(** The rune of an ASCII character literal, ['c'] in Go. *)
Definition rn (c : ascii) : rune := b2z c.
Arguments rn c%_char.

(** [uint32(r)] for an [int32] value. *)
Definition uint32 (r : rune) : Z := r mod 2 ^ 32.

(** The double quote, and a piece of text between double quotes. *)
Definition dq : ascii := ascii_of_nat 34.
Definition DQ : string := String dq "".
Definition quoted (s : string) : string := DQ +:+ s +:+ DQ.

Fixpoint take (n : nat) (s : string) : string :=
  match n, s with
  | S n', String c s' => String c (take n' s')
  | _, _ => ""
  end.

Fixpoint drop (n : nat) (s : string) : string :=
  match n, s with
  | S n', String _ s' => drop n' s'
  | _, _ => s
  end.

(** [strings.ContainsAny(s, chars)] for ASCII [chars]. *)
Fixpoint mem_byte (c : ascii) (chars : string) : bool :=
  match chars with
  | "" => false
  | String d chars' => Ascii.eqb c d || mem_byte c chars'
  end.

Fixpoint ContainsAny (s chars : string) : bool :=
  match s with
  | "" => false
  | String c s' => mem_byte c chars || ContainsAny s' chars
  end.

(** ** Package [unicode/utf8] *)

Module utf8.

Definition RuneError : rune := 0xFFFD.
Definition MaxRune : rune := 0x10FFFF.
Definition RuneSelf : rune := 0x80.
Definition UTFMax : nat := 4.
Definition surrogateMin : rune := 0xD800.
Definition surrogateMax : rune := 0xDFFF.
Definition rune1Max : Z := 0x7F.
Definition rune2Max : Z := 0x7FF.
Definition rune3Max : Z := 0xFFFF.
Definition t2 : Z := 0xC0.
Definition t3 : Z := 0xE0.
Definition t4 : Z := 0xF0.
Definition tx : Z := 0x80.
Definition maskx : Z := 0x3F.
Definition mask2 : Z := 0x1F.
Definition mask3 : Z := 0x0F.
Definition mask4 : Z := 0x07.
Definition locb : Z := 0x80.
Definition hicb : Z := 0xBF.

(** What the table [first] says of a leading byte: it is ASCII, it cannot
    start a sequence, or it starts a sequence of [size] bytes whose second
    byte lies in the accept range [lo..hi]. *)
Inductive firstInfo :=
| fASCII
| fInvalid
| fLead (size : nat) (lo hi : Z).

Definition first (p0 : Z) : firstInfo :=
  if p0 <? 0x80 then fASCII
  else if p0 <? 0xC2 then fInvalid
  else if p0 <? 0xE0 then fLead 2 locb hicb
  else if p0 =? 0xE0 then fLead 3 0xA0 hicb
  else if p0 <? 0xED then fLead 3 locb hicb
  else if p0 =? 0xED then fLead 3 locb 0x9F
  else if p0 <? 0xF0 then fLead 3 locb hicb
  else if p0 =? 0xF0 then fLead 4 0x90 hicb
  else if p0 <? 0xF4 then fLead 4 locb hicb
  else if p0 =? 0xF4 then fLead 4 locb 0x8F
  else fInvalid.

Definition cont (b : Z) : bool := (locb <=? b) && (b <=? hicb).

(** [utf8.DecodeRune(p)]: the first rune of [p] and its width in bytes;
    [(RuneError, 0)] on the empty string and [(RuneError, 1)] on an
    encoding that is invalid or cut short. *)
Definition DecodeRune (p : string) : rune * nat :=
  match p with
  | "" => (RuneError, 0%nat)
  | String c0 p1 =>
    let p0 := b2z c0 in
    match first p0 with
    | fASCII => (p0, 1%nat)
    | fInvalid => (RuneError, 1%nat)
    | fLead sz lo hi =>
      match p1 with
      | "" => (RuneError, 1%nat)
      | String c1 p2 =>
        let b1 := b2z c1 in
        if (b1 <? lo) || (hi <? b1) then (RuneError, 1%nat)
        else if (sz <=? 2)%nat then
          (Z.lor (Z.shiftl (Z.land p0 mask2) 6) (Z.land b1 maskx), 2%nat)
        else
          match p2 with
          | "" => (RuneError, 1%nat)
          | String c2 p3 =>
            let b2 := b2z c2 in
            if negb (cont b2) then (RuneError, 1%nat)
            else if (sz <=? 3)%nat then
              (Z.lor (Z.lor (Z.shiftl (Z.land p0 mask3) 12)
                            (Z.shiftl (Z.land b1 maskx) 6))
                     (Z.land b2 maskx), 3%nat)
            else
              match p3 with
              | "" => (RuneError, 1%nat)
              | String c3 _ =>
                let b3 := b2z c3 in
                if negb (cont b3) then (RuneError, 1%nat)
                else
                  (Z.lor (Z.lor (Z.lor (Z.shiftl (Z.land p0 mask4) 18)
                                       (Z.shiftl (Z.land b1 maskx) 12))
                                (Z.shiftl (Z.land b2 maskx) 6))
                         (Z.land b3 maskx), 4%nat)
              end
          end
      end
    end
  end.

(** [utf8.FullRune(p)]: [p] starts with a whole encoding of a rune; an
    encoding that is invalid counts as whole, since it is decoded as an
    error rune of width 1. *)
Definition FullRune (p : string) : bool :=
  match p with
  | "" => false
  | String c0 p1 =>
    match first (b2z c0) with
    | fASCII => true
    | fInvalid => true
    | fLead sz lo hi =>
      if (sz <=? String.length p)%nat then true
      else
        match p1 with
        | "" => false
        | String c1 p2 =>
          if (b2z c1 <? lo) || (hi <? b2z c1) then true
          else
            match p2 with
            | "" => false
            | String c2 _ => (b2z c2 <? locb) || (hicb <? b2z c2)
            end
        end
    end
  end.

Definition bytes3 (r : rune) : string :=
  String (z2b (Z.lor t3 (Z.shiftr r 12)))
    (String (z2b (Z.lor tx (Z.land (Z.shiftr r 6) maskx)))
       (String (z2b (Z.lor tx (Z.land r maskx))) "")).

(** [utf8.AppendRune(nil, r)]: the UTF-8 encoding of [r].  A rune that is
    out of range or a surrogate half is replaced by [RuneError]. *)
Definition EncodeRune (r : rune) : string :=
  let i := uint32 r in
  if i <=? rune1Max then String (z2b r) ""
  else if i <=? rune2Max then
    String (z2b (Z.lor t2 (Z.shiftr r 6)))
      (String (z2b (Z.lor tx (Z.land r maskx))) "")
  else if (MaxRune <? i) || ((surrogateMin <=? i) && (i <=? surrogateMax)) then
    bytes3 RuneError
  else if i <=? rune3Max then bytes3 r
  else
    String (z2b (Z.lor t4 (Z.shiftr r 18)))
      (String (z2b (Z.lor tx (Z.land (Z.shiftr r 12) maskx)))
         (String (z2b (Z.lor tx (Z.land (Z.shiftr r 6) maskx)))
            (String (z2b (Z.lor tx (Z.land r maskx))) ""))).

(** The runes of a string, as a [for _, c := range s] loop sees them: an
    invalid byte yields [RuneError] and advances by one byte. *)
Fixpoint runes_fuel (fuel : nat) (s : string) : list rune :=
  match fuel, s with
  | S fuel', String _ _ =>
    let '(r, size) := DecodeRune s in r :: runes_fuel fuel' (drop size s)
  | _, _ => nil
  end.

Definition runes (s : string) : list rune := runes_fuel (String.length s) s.

(** [utf8.ValidString(s)]: no byte of [s] decodes to an error. *)
Fixpoint valid_fuel (fuel : nat) (s : string) : bool :=
  match fuel, s with
  | _, "" => true
  | S fuel', String _ _ =>
    let '(r, size) := DecodeRune s in
    negb ((r =? RuneError) && (size =? 1)%nat) && valid_fuel fuel' (drop size s)
  | O, String _ _ => false
  end.

Definition ValidString (s : string) : bool := valid_fuel (String.length s) s.

End utf8.

(** ** Package [unicode] *)

Module unicode.

Definition MaxLatin1 : rune := 0xFF.

(** A range of a [RangeTable]: the code points [Lo, Lo+Stride, ..] up to
    [Hi].  The 16-bit and the 32-bit ranges differ only in the width of
    their fields. *)
Record Range := mkRange { Lo : Z; Hi : Z; Stride : Z }.

Record RangeTable := mkRangeTable {
  R16 : list Range;
  R32 : list Range;
  LatinOffset : nat
}.

(** [is16] and [is32]: is [r] in one of the ranges?  The ranges are sorted,
    so the search stops at the first range that starts above [r]. *)
Fixpoint isN (ranges : list Range) (r : Z) : bool :=
  match ranges with
  | nil => false
  | range_ :: rest =>
    if r <? Lo range_ then false
    else if r <=? Hi range_ then
      (Stride range_ =? 1) || ((r - Lo range_) mod Stride range_ =? 0)
    else isN rest r
  end.

Definition isExcludingLatin (rangeTab : RangeTable) (r : rune) : bool :=
  let r16 := R16 rangeTab in
  let off := LatinOffset rangeTab in
  if (off <? List.length r16)%nat && (uint32 r <=? Hi (List.last r16 (mkRange 0 0 1)))
  then isN (List.skipn off r16) (r mod 2 ^ 16)
  else
    match R32 rangeTab with
    | nil => false
    | r0 :: _ => if Lo r0 <=? r then isN (R32 rangeTab) (uint32 r) else false
    end.

(** [unicode.IsDigit(r)], with the table [unicode.Digit] as an argument. *)
Definition IsDigit (Digit : RangeTable) (r : rune) : bool :=
  if r <=? MaxLatin1 then (rn "0" <=? r) && (r <=? rn "9")
  else isExcludingLatin Digit r.

End unicode.

(** ** Errors and results

    An [error] of the Go code is kept as it is built: the sentinel values of
    the standard library, [strconv]'s [NumError], and the values of
    [fmt.Errorf] with their format string and arguments (the argument of a
    [%w] verb is the wrapped error). *)

Inductive error :=
| EOF
| ErrInvalidUnreadRune
| ErrSyntax
| ErrRange
| NumError (Func Num : string) (Err_ : error)
| UNICODE_INSUFFICIENT_BYTES
| Errorf (format : string) (a : list arg)
with arg :=
| ArgErr (e : error)
| ArgRune (r : rune)
| ArgStr (s : string)
| ArgInt (n : Z).

(** The outcome of a call: a value, an error, or [OutOfFuel] when a loop of
    the model reached its bound.  Every loop of the decoder reads at
    least one byte per turn and is given one turn more than there are
    unread bytes, so that the bounds are not reached (see [decode_total]
    for the decoder over a stream). *)
Inductive result (A : Type) :=
| Ok (a : A)
| Err (e : error)
| OutOfFuel.

Arguments Ok {A} a.
Arguments Err {A} e.
Arguments OutOfFuel {A}.

(** ** Package [bufio] *)

Module bufio.

Definition defaultBufSize : nat := 4096.
Definition minReadBufferSize : nat := 16.

(** A [bufio.Reader] on top of a [strings.Reader], as
    [bufio.NewReader(strings.NewReader(text))] builds it.  [unread] is what
    has not been handed out yet: the bytes that wait in the buffer
    ([buf[r:w]] in Go) followed by what the source still holds.  [avail] is
    the number of these bytes that are in the buffer ([w - r]), [size] is
    [len(buf)], and [lastRune] holds the bytes of the rune that the last
    operation read when that operation was [ReadRune] ([lastRuneSize >= 0]
    in Go), which is what [UnreadRune] gives back.

    Two fields of the Go structure are left out.  Over a [strings.Reader]
    the field [err] only ever holds [io.EOF], and only when the source is
    at its end, where the operation that finds it set would meet the end of
    the source by itself.  The position [r] is only looked at by
    [UnreadRune], which compares it with [lastRuneSize]: the [ReadRune]
    before it has just moved [r] forward by that much. *)
Record Reader := mkReader {
  unread : string;
  avail : nat;
  size : nat;
  lastRune : option string
}.

(** [bufio.NewReaderSize(strings.NewReader(s), size)] and
    [bufio.NewReader(strings.NewReader(s))]. *)
Definition NewReaderSize (s : string) (size : nat) : Reader :=
  {| unread := s; avail := 0; size := Nat.max size minReadBufferSize; lastRune := None |}.

Definition NewReader (s : string) : Reader := NewReaderSize s defaultBufSize.

(** [b.fill()]: the bytes of the buffer slide to its start, and one [Read]
    of the source puts into the free part of the buffer as many bytes as
    the source still has and the free part takes. *)
Definition fill (b : Reader) : Reader :=
  {| unread := unread b;
     avail := avail b + Nat.min (size b - avail b) (String.length (unread b) - avail b);
     size := size b;
     lastRune := lastRune b |}.

(** [b.ReadRune()].  The loop in front of it fills the buffer while fewer
    than [UTFMax] bytes wait in it and they are not a whole rune; after one
    [fill] the buffer is full or the source is at its end, so one [fill]
    is all the loop does.  An empty buffer after it means the end of the
    stream. *)
Definition ReadRune (b : Reader) : result rune * Reader :=
  let b :=
    if (avail b <? utf8.UTFMax)%nat
       && negb (utf8.FullRune (take (avail b) (unread b)))
       && (avail b <? size b)%nat
    then fill b else b in
  match take (avail b) (unread b) with
  | "" =>
    (Err EOF,
     {| unread := unread b; avail := avail b; size := size b; lastRune := None |})
  | String c _ as p =>
    let '(r, n) :=
      if b2z c <? utf8.RuneSelf then (b2z c, 1%nat) else utf8.DecodeRune p in
    (Ok r,
     {| unread := drop n (unread b); avail := avail b - n; size := size b;
        lastRune := Some (take n (unread b)) |})
  end.

Definition UnreadRune (b : Reader) : result unit * Reader :=
  match lastRune b with
  | None => (Err ErrInvalidUnreadRune, b)
  | Some bytes =>
    (Ok tt,
     {| unread := bytes +:+ unread b; avail := avail b + String.length bytes;
        size := size b; lastRune := None |})
  end.

(** [b.Read(p)] with [len(p) = n], [n > 0]: the bytes read (their number
    is Go's [n]) and the error.  When bytes wait in the buffer, [Read]
    hands out those, at most [n] of them, and does not go to the source
    for more.  When the buffer is empty, a [p] as long as the buffer is
    filled from the source, and otherwise one [Read] of the source fills
    the buffer first. *)
Definition Read (n : nat) (b : Reader) : result string * Reader :=
  if (avail b =? 0)%nat then
    match unread b with
    | "" => (Err EOF, b)
    | String _ _ =>
      if (size b <=? n)%nat then
        (Ok (take n (unread b)),
         {| unread := drop n (unread b); avail := 0; size := size b; lastRune := None |})
      else
        let filled := Nat.min (size b) (String.length (unread b)) in
        let k := Nat.min n filled in
        (Ok (take k (unread b)),
         {| unread := drop k (unread b); avail := filled - k; size := size b;
            lastRune := None |})
    end
  else
    let k := Nat.min n (avail b) in
    (Ok (take k (unread b)),
     {| unread := drop k (unread b); avail := avail b - k; size := size b;
        lastRune := None |}).

(** A [bufio.Writer]: the bytes accepted so far and the sticky error [err]
    of the Go structure, which every later write returns. *)
Record Writer := mkWriter {
  written : string;
  err : option error
}.

Definition NewWriter : Writer := {| written := ""; err := None |}.

Definition WriteString (s : string) (b : Writer) : option error * Writer :=
  match err b with
  | Some e => (Some e, b)
  | None => (None, {| written := written b +:+ s; err := None |})
  end.

Definition WriteByte (c : ascii) (b : Writer) : option error * Writer :=
  WriteString (String c "") b.

Definition WriteRune (r : rune) (b : Writer) : option error * Writer :=
  WriteString (utf8.EncodeRune r) b.

End bufio.

(** ** Package [strings]: [strings.Builder] *)

Module Builder.

Definition WriteRune (r : rune) (b : string) : string := b +:+ utf8.EncodeRune r.

End Builder.

(** ** Package [strconv]: integers *)

Module strconv.

Definition maxUint64 : Z := 2 ^ 64 - 1.

(** [lower(c)]: [c | ('x' - 'X')]. *)
Definition lower (c : Z) : Z := Z.lor c 0x20.

(** The value of a digit character, in any base up to 36. *)
Definition digitVal (c : Z) : option Z :=
  if (rn "0" <=? c) && (c <=? rn "9") then Some (c - rn "0")
  else if (rn "a" <=? lower c) && (lower c <=? rn "z") then Some (lower c - rn "a" + 10)
  else None.

(** The loop of [ParseUint] over the bytes of [s]: the value and the error
    it stops with. *)
Fixpoint ParseUint_loop (s : string) (base cutoff maxVal n : Z) : Z * option error :=
  match s with
  | "" => (n, None)
  | String c s' =>
    match digitVal (b2z c) with
    | None => (0, Some ErrSyntax)
    | Some d =>
      if base <=? d then (0, Some ErrSyntax)
      else if cutoff <=? n then (maxVal, Some ErrRange)
      else
        let n := n * base in
        let n1 := (n + d) mod 2 ^ 64 in
        if (n1 <? n) || (maxVal <? n1) then (maxVal, Some ErrRange)
        else ParseUint_loop s' base cutoff maxVal n1
    end
  end.

(** [strconv.ParseUint(s, base, bitSize)] for an explicit base from 2 to 36
    and a bit size from 1 to 64. *)
Definition ParseUint (s : string) (base bitSize : Z) : Z * option error :=
  match s with
  | "" => (0, Some ErrSyntax)
  | String _ _ =>
    ParseUint_loop s base (maxUint64 / base + 1) ((2 ^ bitSize - 1) mod 2 ^ 64) 0
  end.

(** [strconv.ParseInt(s, base, bitSize)]: the value and the error. *)
Definition ParseInt (s : string) (base bitSize : Z) : Z * option error :=
  match s with
  | "" => (0, Some (NumError "ParseInt" s ErrSyntax))
  | String c0 s' =>
    let s0 := s in
    let '(neg, s) :=
      if b2z c0 =? rn "+" then (false, s')
      else if b2z c0 =? rn "-" then (true, s')
      else (false, s) in
    let '(un, err) := ParseUint s base bitSize in
    match err with
    | Some ErrRange | None =>
      let cutoff := 2 ^ (bitSize - 1) in
      if negb neg && (cutoff <=? un) then (cutoff - 1, Some (NumError "ParseInt" s0 ErrRange))
      else if neg && (cutoff <? un) then (- cutoff, Some (NumError "ParseInt" s0 ErrRange))
      else (if neg then - un else un, None)
    | Some e => (0, Some (NumError "ParseInt" s0 e))
    end
  end.

(** The digit loop of [formatBits] in base ten: [u] is below [2^64], so
    twenty turns write all its digits. *)
Fixpoint formatBits_loop (turns : nat) (u : Z) (acc : string) : string :=
  match turns with
  | O => acc
  | S turns' =>
    if u <? 10 then String (z2b (rn "0" + u)) acc
    else formatBits_loop turns' (u / 10) (String (z2b (rn "0" + u mod 10)) acc)
  end.

(** [strconv.FormatInt(i, 10)] for an [int64] value [i]. *)
Definition FormatInt (i : Z) : string :=
  if i <? 0 then String "-" (formatBits_loop 20 (- i) "")
  else formatBits_loop 20 i "".

(** *** Floating point

    A [float64] is a binary64 number of IEEE 754, in the representation of
    the standard library's [SpecFloat]: a sign with a mantissa and a binary
    exponent, the two zeros, the two infinities and NaN. *)

Definition float64 := spec_float.

Definition prec : Z := 53.
Definition emax : Z := 1024.

(** The binary64 number nearest to [(-1)^neg * M * 10^E], ties to even. *)
Definition round_decimal (neg : bool) (M E : Z) : float64 :=
  if M =? 0 then S754_zero neg
  else if 0 <=? E then
    binary_normalize prec emax ((if neg then - M else M) * 10 ^ E) 0 neg
  else
    SFdiv prec emax (S754_finite neg (Z.to_pos M) 0)
                    (S754_finite false (Z.to_pos (10 ^ (- E))) 0).

Definition isDigitByte (c : ascii) : bool :=
  (rn "0" <=? b2z c) && (b2z c <=? rn "9").

(** The mantissa loop of [readFloat] on a decimal literal: [M] collects the
    digits after the leading zeros, [nd] counts them, [dp] is the position
    of the decimal point.  Returns what is left of [s] where the loop
    stops. *)
Fixpoint readFloat_digits (s : string) (sawdot sawdigits : bool) (M nd dp : Z)
  : bool * bool * Z * Z * Z * string :=
  match s with
  | "" => (sawdot, sawdigits, M, nd, dp, s)
  | String c s' =>
    if b2z c =? rn "." then
      if sawdot then (sawdot, sawdigits, M, nd, dp, s)
      else readFloat_digits s' true sawdigits M nd nd
    else if isDigitByte c then
      if (b2z c =? rn "0") && (nd =? 0)
      then readFloat_digits s' sawdot true M nd (dp - 1)
      else readFloat_digits s' sawdot true (M * 10 + (b2z c - rn "0")) (nd + 1) dp
    else (sawdot, sawdigits, M, nd, dp, s)
  end.

(** The digits of the exponent: [e] stops growing at 10000. *)
Fixpoint readFloat_exp (s : string) (e : Z) : Z * string :=
  match s with
  | "" => (e, s)
  | String c s' =>
    if isDigitByte c
    then readFloat_exp s' (if e <? 10000 then e * 10 + (b2z c - rn "0") else e)
    else (e, s)
  end.

(** Modelled on the documentation of [strconv.ParseFloat(s, 64)] and on
    [readFloat], for decimal literals: an optional sign, digits with an
    optional point, an optional exponent.  The result is the nearest
    [float64]; a value that rounds to an infinity is a range error.  The
    other forms [ParseFloat] accepts (hexadecimal literals, underscores
    between digits, the words for infinity and NaN) hold a letter or an
    underscore: here they are syntax errors, and [UnmarshalNumber] never
    asks for them. *)
Definition ParseFloat (s : string) : float64 * option error :=
  let syntax := (S754_zero false, Some (NumError "ParseFloat" s ErrSyntax)) in
  let '(neg, s1) :=
    match s with
    | String c s' =>
      if b2z c =? rn "+" then (false, s')
      else if b2z c =? rn "-" then (true, s')
      else (false, s)
    | "" => (false, s)
    end in
  let '(sawdot, sawdigits, M, nd, dp, s2) := readFloat_digits s1 false false 0 0 0 in
  if negb sawdigits then syntax
  else
    let dp := if sawdot then dp else nd in
    let finish (dp : Z) (s3 : string) :=
      match s3 with
      | String _ _ => syntax
      | "" =>
        let f := round_decimal neg M (dp - nd) in
        match f with
        | S754_infinity _ => (f, Some (NumError "ParseFloat" s ErrRange))
        | _ => (f, None)
        end
      end in
    match s2 with
    | String c s3 =>
      if lower (b2z c) =? rn "e" then
        let '(esign, s4) :=
          match s3 with
          | String c' s3' =>
            if b2z c' =? rn "+" then (1, s3')
            else if b2z c' =? rn "-" then (-1, s3')
            else (1, s3)
          | "" => (1, s3)
          end in
        match s4 with
        | String c'' _ =>
          if isDigitByte c'' then
            let '(e, s5) := readFloat_exp s4 0 in
            finish (dp + e * esign) s5
          else syntax
        | "" => syntax
        end
      else finish dp s2
    | "" => finish dp s2
    end.

(** The decimal digits of a natural number [n], most significant first. *)
Fixpoint decimal_loop (turns : nat) (n : Z) (acc : string) : string :=
  match turns with
  | O => acc
  | S turns' =>
    if n <? 10 then String (z2b (rn "0" + n)) acc
    else decimal_loop turns' (n / 10) (String (z2b (rn "0" + n mod 10)) acc)
  end.

Definition decimal (n : Z) : string :=
  decimal_loop (S (Z.to_nat (Z.log2 n))) n "".

Fixpoint zeros (n : nat) : string :=
  match n with
  | O => ""
  | S n' => String "0" (zeros n')
  end.

(** [%f] layout of [C * 10^q]: the integer part, and a point with [-q]
    digits after it when [q] is negative. *)
Definition fmtF (C q : Z) : string :=
  let digs := decimal C in
  if 0 <=? q then digs +:+ zeros (Z.to_nat q)
  else
    let k := Z.to_nat (- q) in
    let n := String.length digs in
    if (k <? n)%nat then take (n - k) digs +:+ "." +:+ drop (n - k) digs
    else "0." +:+ zeros (k - n) +:+ digs.

Definition same_float (f g : float64) : bool :=
  match SFcompare f g with
  | Some Eq => true
  | _ => false
  end.

(** The search for the shortest digits: [A / 10^s] is the exact value of
    the number, [L] the number of digits of [A] and [n] the number of
    digits tried.  With [n] digits the value is cut to [lo] below it and
    [lo + 1] above it; the first [n] for which one of the two reads back
    as [f] ends the search, and when both do the nearer one is taken (the
    even one on a tie). *)
Fixpoint shortest_loop (turns : nat) (f : float64) (A s L n : Z) : Z * Z :=
  match turns with
  | O => (A, - s)
  | S turns' =>
    let unit_ := 10 ^ (L - n) in
    let lo := A / unit_ in
    let hi := lo + 1 in
    let q := L - n - s in
    let okdown := same_float (round_decimal false lo q) f in
    let okup := same_float (round_decimal false hi q) f in
    let up := if hi mod 10 =? 0 then (hi / 10, q + 1) else (hi, q) in
    let rem := A mod unit_ in
    if okdown && okup then
      if 2 * rem <? unit_ then (lo, q)
      else if unit_ <? 2 * rem then up
      else if Z.even lo then (lo, q) else up
    else if okdown then (lo, q)
    else if okup then up
    else shortest_loop turns' f A s L (n + 1)
  end.

(** Modelled on the documentation of [strconv.FormatFloat(f, 'f', -1, 64)]:
    the fewest digits that [ParseFloat] reads back as [f], laid out without
    an exponent. *)
Definition FormatFloat (f : float64) : string :=
  match f with
  | S754_nan => "NaN"
  | S754_infinity false => "+Inf"
  | S754_infinity true => "-Inf"
  | S754_zero false => "0"
  | S754_zero true => "-0"
  | S754_finite neg m e =>
    let '(A, s) :=
      if 0 <=? e then (Zpos m * 2 ^ e, 0) else (Zpos m * 5 ^ (- e), - e) in
    let L := Z.of_nat (String.length (decimal A)) in
    let '(C, q) := shortest_loop (Z.to_nat L) (S754_finite false m e) A s L 1 in
    (if neg then "-" else "") +:+ fmtF C q
  end.

End strconv.

(** ** The data model

    The decoder returns an [interface{}] that holds [nil], a [bool], an
    [int64], a [float64], a [string], a [[]interface{}] or a
    [map[string]interface{}]. *)

#[warnings="-register-all"]
Inductive Value :=
| Null
| Bool (b : bool)
| Integer (n : Z)
| Float (f : strconv.float64)
| String_ (s : string)
| Array (values : list Value)
| Object (object : gmap string Value).

(** ** Calls on a reader

    A function of the decoder takes the reader, changes it and returns a
    value or an error. *)

Definition Parser (A : Type) : Type := bufio.Reader -> result A * bufio.Reader.

Definition ret {A} (a : A) : Parser A := fun b => (Ok a, b).

Definition fail {A} (e : error) : Parser A := fun b => (Err e, b).

Definition bind {A B} (m : Parser A) (k : A -> Parser B) : Parser B :=
  fun b =>
    match m b with
    | (Ok a, b') => k a b'
    | (Err e, b') => (Err e, b')
    | (OutOfFuel, b') => (OutOfFuel, b')
    end.

(** [if err != nil { return fmt.Errorf(.., err) }] after a call. *)
Definition try {A} (m : Parser A) (wrap : error -> error) : Parser A :=
  fun b =>
    match m b with
    | (Err e, b') => (Err (wrap e), b')
    | other => other
    end.

Notation "x <- m ;; k" := (bind m (fun x => k))
  (at level 100, m at next level, right associativity).
Notation "m ;;; k" := (bind m (fun _ => k))
  (at level 100, right associativity).

(** A [for { .. }] loop: its body either goes round again with the new
    values of the loop's variables or leaves the loop with a value. *)
Inductive step (St A : Type) :=
| Continue (s : St)
| Break (a : A).

Arguments Continue {St A} s.
Arguments Break {St A} a.

Fixpoint loop {St A} (turns : nat) (body : St -> Parser (step St A)) (s : St)
  : Parser A :=
  fun b =>
    match turns with
    | O => (OutOfFuel, b)
    | S turns' =>
      match body s b with
      | (Ok (Continue s'), b') => loop turns' body s' b'
      | (Ok (Break a), b') => (Ok a, b')
      | (Err e, b') => (Err e, b')
      | (OutOfFuel, b') => (OutOfFuel, b')
      end
    end.

(** Every loop of the decoder reads at least one byte per turn, so a loop
    is given one turn more than there are unread bytes. *)
Definition for_ {St A} (body : St -> Parser (step St A)) (s : St) : Parser A :=
  fun b => loop (S (String.length (bufio.unread b))) body s b.

Definition errReadRune (e : error) : error :=
  Errorf "failed to read rune: %w" [ArgErr e].

Definition errUnreadRune (e : error) : error :=
  Errorf "failed to unread rune: %w" [ArgErr e].

Definition TRUE_STRING : string := "true".
Definition FALSE_STRING : string := "false".
Definition NULL_STRING : string := "null".

(** ** The decoder *)

Definition isJsonWhitespace (r : rune) : bool :=
  (r =? rn " ") || (r =? 10) || (r =? 13) || (r =? 9).

(** One turn of the loop of [UnmarshalWhitespace]; the loop leaves with the
    value of [eof]. *)
Definition UnmarshalWhitespace_body (_ : unit) : Parser (step unit bool) :=
  fun b =>
    match bufio.ReadRune b with
    | (Err EOF, b') => (Ok (Break true), b')
    | (Err e, b') => (Err (errReadRune e), b')
    | (Ok r, b') =>
      if negb (isJsonWhitespace r) then (Ok (Break false), b')
      else (Ok (Continue tt), b')
    | (OutOfFuel, b') => (OutOfFuel, b')
    end.

Definition UnmarshalWhitespace : Parser unit :=
  eof <- for_ UnmarshalWhitespace_body tt ;;
  if negb eof then try bufio.UnreadRune errUnreadRune else ret tt.

Definition UnmarshalNull : Parser Value :=
  fun b =>
    match bufio.Read 4 b with
    | (Err e, b') =>
      (Err (Errorf "failed to read chars while parsing null: %w" [ArgErr e]), b')
    | (OutOfFuel, b') => (OutOfFuel, b')
    | (Ok value, b') =>
      let n := String.length value in
      if negb (n =? 4)%nat then
        (Err (Errorf "failed to read all 4 chars while parsing null, could only read %d chars"
                [ArgInt (Z.of_nat n)]), b')
      else if negb (String.eqb value NULL_STRING) then
        (Err (Errorf "could not Unmarshal null, found: %s" [ArgStr value]), b')
      else (Ok Null, b')
    end.

Definition UnmarshalTrue : Parser Value :=
  fun b =>
    match bufio.Read 4 b with
    | (Err e, b') =>
      (Err (Errorf "failed to read 4 chars while parsing true: %w" [ArgErr e]), b')
    | (OutOfFuel, b') => (OutOfFuel, b')
    | (Ok value, b') =>
      let n := String.length value in
      if negb (n =? 4)%nat then
        (Err (Errorf "failed to read all 4 chars while parsing true, could only read %d chars"
                [ArgInt (Z.of_nat n)]), b')
      else if negb (String.eqb value TRUE_STRING) then
        (Err (Errorf "could not Unmarshal true, found: %s" [ArgStr value]), b')
      else (Ok (Bool true), b')
    end.

Definition UnmarshalFalse : Parser Value :=
  fun b =>
    match bufio.Read 5 b with
    | (Err e, b') =>
      (Err (Errorf "failed to read 5 chars while parsing false: %w" [ArgErr e]), b')
    | (OutOfFuel, b') => (OutOfFuel, b')
    | (Ok value, b') =>
      let n := String.length value in
      if negb (n =? 5)%nat then
        (Err (Errorf "failed to read all 5 chars while parsing false, could only read %d chars"
                [ArgInt (Z.of_nat n)]), b')
      else if negb (String.eqb value FALSE_STRING) then
        (Err (Errorf "could not Unmarshal false, found: %s" [ArgStr value]), b')
      else (Ok (Bool false), b')
    end.

Definition convertToNumber (numberString : string) : result Value :=
  if ContainsAny numberString ".eE" then
    match strconv.ParseFloat numberString with
    | (_, Some e) => Err (Errorf "failed to Unmarshal float number: %w" [ArgErr e])
    | (float64Value, None) => Ok (Float float64Value)
    end
  else
    match strconv.ParseInt numberString 10 64 with
    | (_, Some e) => Err (Errorf "failed to Unmarshal integer number: %w" [ArgErr e])
    | (int64Value, None) => Ok (Integer int64Value)
    end.

Definition convertHexToUnicode : Parser rune :=
  fun b =>
    let '(res, b') := bufio.Read 4 b in
    match res with
    | OutOfFuel => (OutOfFuel, b')
    | Err _ => (Err UNICODE_INSUFFICIENT_BYTES, b')
    | Ok hexString =>
      if negb (String.length hexString =? 4)%nat then
        (Err UNICODE_INSUFFICIENT_BYTES, b')
      else
        match strconv.ParseInt hexString 16 32 with
        | (_, Some _) =>
          (Err (Errorf "failed to Unmarshal hex string: %s" [ArgStr hexString]), b')
        | (hexValue, None) => (Ok hexValue, b')
        end
    end.

(** One turn of the loop of [UnmarshalString]: the loop's variables are the
    builder [b] and [backslash]; it leaves with the string built. *)
Definition UnmarshalString_body (st : string * bool)
  : Parser (step (string * bool) string) :=
  let '(b, backslash) := st in
  r <- try bufio.ReadRune errReadRune ;;
  if backslash then
    if r =? rn dq then ret (Continue (Builder.WriteRune (rn dq) b, false))
    else if r =? rn "\" then ret (Continue (Builder.WriteRune (rn "\") b, false))
    else if r =? rn "/" then ret (Continue (Builder.WriteRune (rn "/") b, false))
    else if r =? rn "b" then ret (Continue (Builder.WriteRune 8 b, false))
    else if r =? rn "f" then ret (Continue (Builder.WriteRune 12 b, false))
    else if r =? rn "n" then ret (Continue (Builder.WriteRune 10 b, false))
    else if r =? rn "r" then ret (Continue (Builder.WriteRune 13 b, false))
    else if r =? rn "t" then ret (Continue (Builder.WriteRune 9 b, false))
    else if r =? rn "u" then
      unicodeChar <- try convertHexToUnicode
                       (fun _ => Errorf "failed to Unmarshal unicode character" []) ;;
      ret (Continue (Builder.WriteRune unicodeChar b, false))
    else fail (Errorf "error: unexpected escape character %c" [ArgRune r])
  else
    if r =? rn "\" then ret (Continue (b, true))
    else if r =? rn dq then ret (Break b)
    else ret (Continue (Builder.WriteRune r b, false)).

Definition UnmarshalString : Parser string :=
  r <- try bufio.ReadRune errReadRune ;;
  if negb (r =? rn dq) then
    fail (Errorf "cannot match string, no opening double quote found: %c" [ArgRune r])
  else for_ UnmarshalString_body ("", false).

Section Decoder.

(** The table [unicode.Digit] of the Go release in use: the decimal digits
    of the Unicode version that release ships.  The decoder is studied for
    any such table. *)
Variable Digit : unicode.RangeTable.

(** The [switch state] of [UnmarshalNumber]: the new state, [validEnd] and
    [invalidTransition]. *)
Definition UnmarshalNumber_switch (state : nat) (eof : bool) (r : rune) (isDigit : bool)
  : nat * bool * bool :=
  match state with
  | 0%nat =>
    if eof then (state, false, true)
    else if r =? rn "-" then (1%nat, false, false)
    else if r =? rn "0" then (2%nat, false, false)
    else if isDigit then (3%nat, false, false)
    else (state, false, true)
  | 1%nat =>
    if eof then (state, false, true)
    else if r =? rn "0" then (2%nat, false, false)
    else if isDigit then (3%nat, false, false)
    else (state, false, true)
  | 2%nat =>
    if eof then (state, true, false)
    else if r =? rn "." then (5%nat, false, false)
    else if (r =? rn "e") || (r =? rn "E") then (7%nat, false, false)
    else (state, true, false)
  | 3%nat | 4%nat =>
    if eof then (state, true, false)
    else if isDigit then (4%nat, false, false)
    else if r =? rn "." then (5%nat, false, false)
    else if (r =? rn "e") || (r =? rn "E") then (7%nat, false, false)
    else (state, true, false)
  | 5%nat =>
    if eof then (state, false, true)
    else if isDigit then (6%nat, false, false)
    else (state, false, true)
  | 6%nat =>
    if eof then (state, true, false)
    else if isDigit then (6%nat, false, false)
    else if (r =? rn "e") || (r =? rn "E") then (7%nat, false, false)
    else (state, true, false)
  | 7%nat =>
    if eof then (state, false, true)
    else if (r =? rn "-") || (r =? rn "+") then (8%nat, false, false)
    else if isDigit then (9%nat, false, false)
    else (state, false, true)
  | 8%nat =>
    if eof then (state, false, true)
    else if isDigit then (9%nat, false, false)
    else (state, false, true)
  | 9%nat =>
    if eof || negb isDigit then (state, true, false)
    else (state, false, false)
  | _ => (state, false, false)
  end.

(** One turn of the loop of [UnmarshalNumber].  The loop's variables are
    [state] and [numberBuf]; it leaves with [eof], [invalidTransition] and
    the buffer.  At the end of the stream [ReadRune] returns the rune 0. *)
Definition UnmarshalNumber_body (st : nat * string)
  : Parser (step (nat * string) (bool * bool * string)) :=
  fun b =>
    let '(state, numberBuf) := st in
    let '(res, b') := bufio.ReadRune b in
    let read :=
      match res with
      | Ok r => Ok (r, false)
      | Err EOF => Ok (0, true)
      | Err e => Err (errReadRune e)
      | OutOfFuel => OutOfFuel
      end in
    match read with
    | Ok (r, eof) =>
      let isDigit := unicode.IsDigit Digit r in
      let '(state, validEnd, invalidTransition) :=
        UnmarshalNumber_switch state eof r isDigit in
      let numberBuf :=
        if negb validEnd then Builder.WriteRune r numberBuf else numberBuf in
      if validEnd || invalidTransition
      then (Ok (Break (eof, invalidTransition, numberBuf)), b')
      else (Ok (Continue (state, numberBuf)), b')
    | Err e => (Err e, b')
    | OutOfFuel => (OutOfFuel, b')
    end.

Definition UnmarshalNumber : Parser Value :=
  out <- for_ UnmarshalNumber_body (0%nat, "") ;;
  let '(eof, invalidTransition, numberBuf) := out in
  if invalidTransition then
    fail (Errorf "invalid char in number: %s" [ArgStr numberBuf])
  else
    (if negb eof then try bufio.UnreadRune errUnreadRune else ret tt) ;;;
    fun b => (convertToNumber numberBuf, b).

(** One turn of the loop of [UnmarshalArray], with the decoder of values it
    calls.  The loop's variables are [state] and [values]. *)
Definition UnmarshalArray_body (UnmarshalValue : Parser Value) (st : nat * list Value)
  : Parser (step (nat * list Value) (list Value)) :=
  let '(state, values) := st in
  r <- try bufio.ReadRune errReadRune ;;
  if (state =? 0)%nat then
    if r =? rn "[" then ret (Continue (1%nat, values))
    else fail (Errorf "failed to Unmarshal array: no opening [" [])
  else if (state =? 1)%nat then
    if isJsonWhitespace r then ret (Continue (state, values))
    else if r =? rn "]" then ret (Break values)
    else
      try bufio.UnreadRune errUnreadRune ;;;
      value <- try UnmarshalValue
                 (fun e => Errorf "failed to Unmarshal array: %w" [ArgErr e]) ;;
      ret (Continue (2%nat, app values [value]))
  else if (state =? 2)%nat then
    if r =? rn "," then ret (Continue (1%nat, values))
    else if r =? rn "]" then ret (Break values)
    else fail (Errorf "failed to Unmarshal array: no , or ]" [])
  else ret (Continue (state, values)).

Definition UnmarshalArray (UnmarshalValue : Parser Value) : Parser (list Value) :=
  for_ (UnmarshalArray_body UnmarshalValue) (0%nat, []).

(** One turn of the loop of [UnmarshalObject].  The loop's variables are
    [state], [key] and [object]. *)
Definition UnmarshalObject_body (UnmarshalValue : Parser Value)
  (st : nat * string * gmap string Value)
  : Parser (step (nat * string * gmap string Value) (gmap string Value)) :=
  let '(state, key, object) := st in
  r <- try bufio.ReadRune errReadRune ;;
  if (state =? 0)%nat then
    if r =? rn "{" then ret (Continue (1%nat, key, object))
    else fail (Errorf "failed to Unmarshal object: no opening {" [])
  else if (state =? 1)%nat || (state =? 5)%nat then
    if isJsonWhitespace r then ret (Continue (state, key, object))
    else if (state =? 1)%nat && (r =? rn "}") then ret (Break object)
    else
      try bufio.UnreadRune errUnreadRune ;;;
      key <- try UnmarshalString
               (fun e => Errorf "failed to Unmarshal object key: %w" [ArgErr e]) ;;
      ret (Continue (2%nat, key, object))
  else if (state =? 2)%nat then
    if isJsonWhitespace r then ret (Continue (state, key, object))
    else if r =? rn ":" then ret (Continue (3%nat, key, object))
    else fail (Errorf "failed to find matching value for object key: %s" [ArgStr key])
  else if (state =? 3)%nat then
    value <- try UnmarshalValue
               (fun _ => Errorf "failed to Unmarshal value for object key: %s" [ArgStr key]) ;;
    ret (Continue (4%nat, key, insert key value object))
  else if (state =? 4)%nat then
    if r =? rn "}" then ret (Break object)
    else if r =? rn "," then ret (Continue (5%nat, key, object))
    else ret (Continue (state, key, object))
  else ret (Continue (state, key, object)).

Definition UnmarshalObject (UnmarshalValue : Parser Value) : Parser (gmap string Value) :=
  for_ (UnmarshalObject_body UnmarshalValue) (0%nat, "", empty).

(** The production that the first rune of a value selects. *)
Definition dispatch (UnmarshalValue : Parser Value) (r : rune) : option (Parser Value) :=
  if r =? rn dq then Some (s <- UnmarshalString ;; ret (String_ s))
  else if unicode.IsDigit Digit r || (r =? rn "-") then Some UnmarshalNumber
  else if r =? rn "{" then
    Some (object <- UnmarshalObject UnmarshalValue ;; ret (Object object))
  else if r =? rn "[" then
    Some (values <- UnmarshalArray UnmarshalValue ;; ret (Array values))
  else if r =? rn "t" then Some UnmarshalTrue
  else if r =? rn "f" then Some UnmarshalFalse
  else if r =? rn "n" then Some UnmarshalNull
  else None.

(** The body of [UnmarshalValue], with the decoder it calls for the values
    inside an array or an object.  After the production has returned, the
    trailing whitespace is read whether the production failed or not, and
    the production's error is returned last. *)
Definition UnmarshalValue_body (UnmarshalValue : Parser Value) : Parser Value :=
  try UnmarshalWhitespace
    (fun e => Errorf "failed to Unmarshal leading whitespace: %w" [ArgErr e]) ;;;
  r <- try bufio.ReadRune errReadRune ;;
  try bufio.UnreadRune errUnreadRune ;;;
  match dispatch UnmarshalValue r with
  | None => fail (Errorf "failed to match value given first char: %c" [ArgRune r])
  | Some production =>
    fun b =>
      let '(value, b1) := production b in
      match UnmarshalWhitespace b1 with
      | (Ok _, b2) => (value, b2)
      | (Err e, b2) =>
        (Err (Errorf "failed to Unmarshal trailing whitespace: %w" [ArgErr e]), b2)
      | (OutOfFuel, b2) => (OutOfFuel, b2)
      end
  end.

(** [UnmarshalValue], by recursion on a bound on the depth of the calls:
    a value inside an array or an object starts after the opening bracket,
    so the depth is at most the number of unread bytes. *)
Fixpoint UnmarshalValue (depth : nat) : Parser Value :=
  match depth with
  | O => fun b => (OutOfFuel, b)
  | S depth' => UnmarshalValue_body (UnmarshalValue depth')
  end.

(** Decoding a text: [UnmarshalValue] on a new reader over the text. *)
Definition decode_reader (text : string) : result Value * bufio.Reader :=
  UnmarshalValue (S (String.length text)) (bufio.NewReader text).

Definition decode (text : string) : result Value := fst (decode_reader text).

End Decoder.

(** ** The encoder

    A function of the encoder takes the writer, changes it and returns an
    error or [nil]. *)

Definition Marshaler : Type := bufio.Writer -> option error * bufio.Writer.

(** [if err := m; err != nil { return fmt.Errorf(.., err) }], then [k]. *)
Definition andThen (m : Marshaler) (wrap : error -> error) (k : Marshaler) : Marshaler :=
  fun w =>
    match m w with
    | (Some e, w') => (Some (wrap e), w')
    | (None, w') => k w'
    end.

Definition noError : Marshaler := fun w => (None, w).

(** The [switch c] of [MarshalString]. *)
Definition MarshalString_switch (c : rune) : Marshaler :=
  if c =? rn dq then bufio.WriteString (String "\" DQ)
  else if c =? rn "\" then bufio.WriteString "\\"
  else if c =? 8 then bufio.WriteString "\b"
  else if c =? 12 then bufio.WriteString "\f"
  else if c =? 10 then bufio.WriteString "\n"
  else if c =? 13 then bufio.WriteString "\r"
  else if c =? 9 then bufio.WriteString "\t"
  else bufio.WriteRune c.

(** The loop [for _, c := range value] of [MarshalString], over the runes
    that are left. *)
Fixpoint MarshalString_range (value : string) (cs : list rune) : Marshaler :=
  match cs with
  | [] => noError
  | c :: cs' =>
    andThen (MarshalString_switch c)
      (fun e => Errorf "failed to write rune %c from string %s: %w"
                  [ArgRune c; ArgStr value; ArgErr e])
      (MarshalString_range value cs')
  end.

Definition MarshalString (value : string) : Marshaler :=
  andThen (bufio.WriteByte dq)
    (fun e => Errorf ("failed to write opening " +:+ DQ +:+ " in string %s: %w")
                [ArgStr value; ArgErr e])
    (andThen (MarshalString_range value (utf8.runes value)) (fun e => e)
       (andThen (bufio.WriteByte dq)
          (fun e => Errorf ("failed to write closing " +:+ DQ +:+ " in string %s: %w")
                      [ArgStr value; ArgErr e])
          noError)).

(** [MarshalNumber] on an [int64] and on a [float64]. *)
Definition MarshalNumber_write (valueString : string) : Marshaler :=
  andThen (bufio.WriteString valueString)
    (fun e => Errorf "failed to write value %s: %w" [ArgStr valueString; ArgErr e])
    noError.

Definition MarshalNumber_int64 (valueInt64 : Z) : Marshaler :=
  MarshalNumber_write (strconv.FormatInt valueInt64).

Definition MarshalNumber_float64 (valueFloat64 : strconv.float64) : Marshaler :=
  MarshalNumber_write (strconv.FormatFloat valueFloat64).

Definition MarshalBoolean (value : bool) : Marshaler :=
  andThen (if value then bufio.WriteString TRUE_STRING else bufio.WriteString FALSE_STRING)
    (fun e => Errorf "failed to write boolean: %w" [ArgErr e])
    noError.

Definition MarshalNull : Marshaler :=
  andThen (bufio.WriteString NULL_STRING)
    (fun e => Errorf "failed to write null: %w" [ArgErr e])
    noError.

(** The loop [for i, value := range values] of [MarshalArray], from index
    [i] on; [len] is [len(values)]. *)
Fixpoint MarshalArray_range (MarshalValue : Value -> Marshaler) (len i : nat)
  (values : list Value) {struct values} : Marshaler :=
  match values with
  | [] => noError
  | value :: values' =>
    andThen (MarshalValue value)
      (fun e => Errorf "failed to write array value at index %d: %w"
                  [ArgInt (Z.of_nat i); ArgErr e])
      (if (i <? len - 1)%nat then
         andThen (bufio.WriteByte ",")
           (fun e => Errorf "failed to write ,: %w" [ArgErr e])
           (MarshalArray_range MarshalValue len (S i) values')
       else MarshalArray_range MarshalValue len (S i) values')
  end.

Definition MarshalArray (MarshalValue : Value -> Marshaler) (values : list Value)
  : Marshaler :=
  andThen (bufio.WriteByte "[")
    (fun e => Errorf "failed to write [: %w" [ArgErr e])
    (andThen (MarshalArray_range MarshalValue (List.length values) 0 values)
       (fun e => e)
       (andThen (bufio.WriteByte "]")
          (fun e => Errorf "failed to write ]: %w" [ArgErr e])
          noError)).

(** One turn of the loop [for key, value := range object] of
    [MarshalObject], followed by the turns [next] for the entries left; [i]
    counts the entries written. *)
Definition MarshalObject_turn (MarshalValue : Value -> Marshaler) (len : nat)
  (key : string) (value : Value) (next : nat -> Marshaler) (i : nat) : Marshaler :=
  andThen (MarshalString key)
    (fun e => Errorf "failed to write object key %s: %w" [ArgStr key; ArgErr e])
    (andThen (bufio.WriteByte ":")
       (fun e => Errorf "failed to write ':': %w" [ArgErr e])
       (andThen (MarshalValue value)
          (fun e => Errorf "failed to write object value: %w" [ArgErr e])
          (if (i <? len - 1)%nat then
             andThen (bufio.WriteByte ",")
               (fun e => Errorf "failed to write ',': %w" [ArgErr e])
               (next (S i))
           else next (S i)))).

(** [MarshalValue] and, inside it, [MarshalObject].  Go leaves the order in
    which a [range] loop visits a map open; the model visits the entries in
    the order of [map_to_list]. *)
Fixpoint MarshalValue (value : Value) : Marshaler :=
  match value with
  | Null =>
    andThen MarshalNull (fun e => Errorf "failed to write null: %w" [ArgErr e]) noError
  | String_ valueString => MarshalString valueString
  | Integer n => MarshalNumber_int64 n
  | Float f => MarshalNumber_float64 f
  | Object object =>
    andThen (bufio.WriteByte "{")
      (fun e => Errorf "failed to write {: %w" [ArgErr e])
      (andThen
         (map_fold (MarshalObject_turn MarshalValue (size object))
                   (fun _ => noError) object 0%nat)
         (fun e => e)
         (andThen (bufio.WriteByte "}")
            (fun e => Errorf "failed to write }: %w" [ArgErr e])
            noError))
  | Array values => MarshalArray MarshalValue values
  | Bool b => MarshalBoolean b
  end.

(** Encoding a value: the text that [MarshalValue] writes to a new
    writer. *)
Definition encode (v : Value) : option error * string :=
  let '(e, w) := MarshalValue v bufio.NewWriter in (e, bufio.written w).

(** ** Sample values and tables *)

(** The first ranges of [unicode.Digit], which are the same in every version
    of Unicode: the ASCII digits, the ARABIC-INDIC DIGITs and the EXTENDED
    ARABIC-INDIC DIGITs.  On a rune up to U+06F9 the search in this table
    and in a full table give the same answer. *)
Definition Digit_head : unicode.RangeTable :=
  {| unicode.R16 := [ unicode.mkRange 0x0030 0x0039 1;
                      unicode.mkRange 0x0660 0x0669 1;
                      unicode.mkRange 0x06F0 0x06F9 1 ];
     unicode.R32 := [];
     unicode.LatinOffset := 1 |}.

(** The [float64] number 150: mantissa [150 * 2^45], exponent [-45]. *)
Definition float64_150 : strconv.float64 := S754_finite false 5277655813324800 (-45).

(** The [float64] numbers 1.5 and 0.1: mantissas [3 * 2^51] and
    [0x1999999999999A], exponents [-52] and [-56]. *)
Definition float64_1_5 : strconv.float64 := S754_finite false 6755399441055744 (-52).

Definition float64_0_1 : strconv.float64 := S754_finite false 7205759403792794 (-56).

(** The text [{"a":1,"a":2}]. *)
Definition text_a1_a2 : string :=
  "{" +:+ quoted "a" +:+ ":1," +:+ quoted "a" +:+ ":2}".

(** The text [{"a": 1x}]. *)
Definition text_a_1x : string := "{" +:+ quoted "a" +:+ ": 1x}".

(** U+FFFD in UTF-8. *)
Definition replacement : string := utf8.EncodeRune utf8.RuneError.

(** [strings.Repeat(" ", n)]. *)
Fixpoint spaces (n : nat) : string :=
  match n with
  | O => ""
  | S n' => String " " (spaces n')
  end.

(** [strings.Repeat("a", n)]. *)
Fixpoint letters (n : nat) : string :=
  match n with
  | O => ""
  | S n' => String "a" (letters n')
  end.

(** A text of 4099 bytes: a string of 4091 letters and the escape [\uD800].
    The first 4096 bytes, which fill the buffer of [bufio.NewReader], end
    with the [D8] of the escape. *)
Definition text_surrogate_4099 : string := quoted (letters 4091 +:+ "\uD800").

(** A text of 4097 bytes: a string of 4089 letters and the same escape,
    which the first 4096 bytes hold whole. *)
Definition text_surrogate_4097 : string := quoted (letters 4089 +:+ "\uD800").

(** A text of 4094 bytes: 4090 spaces and [true].  It is two bytes shorter
    than the buffer of [bufio.NewReader]. *)
Definition text_true_4094 : string := spaces 4090 +:+ "true".

(** ** Vocabulary of the properties *)

(** JSON whitespace, on bytes: the text without its leading whitespace, and
    the texts that are all whitespace. *)
Definition ws_byte (c : ascii) : bool := isJsonWhitespace (b2z c).

Fixpoint skip_ws (s : string) : string :=
  match s with
  | "" => ""
  | String c s' => if ws_byte c then skip_ws s' else s
  end.

Fixpoint all_ws (s : string) : bool :=
  match s with
  | "" => true
  | String c s' => ws_byte c && all_ws s'
  end.

(** The shapes of a decoded rune: an ASCII byte, a byte that is not the
    start of a well-formed sequence, or a well-formed sequence of two, three
    or four bytes with the value it encodes. *)
Inductive decoded : string -> rune -> nat -> Prop :=
| dec_ascii c s :
    b2z c < 0x80 -> decoded (String c s) (b2z c) 1
| dec_invalid c s :
    0x80 <= b2z c -> decoded (String c s) utf8.RuneError 1
| dec_2 c0 c1 s :
    0xC2 <= b2z c0 <= 0xDF -> 0x80 <= b2z c1 <= 0xBF ->
    decoded (String c0 (String c1 s))
            ((b2z c0 mod 32) * 64 + b2z c1 mod 64) 2
| dec_3 c0 c1 c2 s :
    0xE0 <= b2z c0 <= 0xEF -> 0x80 <= b2z c1 <= 0xBF -> 0x80 <= b2z c2 <= 0xBF ->
    (b2z c0 = 0xE0 -> 0xA0 <= b2z c1) -> (b2z c0 = 0xED -> b2z c1 <= 0x9F) ->
    decoded (String c0 (String c1 (String c2 s)))
            ((b2z c0 mod 16) * 4096 + (b2z c1 mod 64) * 64 + b2z c2 mod 64) 3
| dec_4 c0 c1 c2 c3 s :
    0xF0 <= b2z c0 <= 0xF4 -> 0x80 <= b2z c1 <= 0xBF -> 0x80 <= b2z c2 <= 0xBF ->
    0x80 <= b2z c3 <= 0xBF ->
    (b2z c0 = 0xF0 -> 0x90 <= b2z c1) -> (b2z c0 = 0xF4 -> b2z c1 <= 0x8F) ->
    decoded (String c0 (String c1 (String c2 (String c3 s))))
            ((b2z c0 mod 8) * 262144 + (b2z c1 mod 64) * 4096
             + (b2z c2 mod 64) * 64 + b2z c3 mod 64) 4.

(** Text that starts with an ASCII byte, or is empty, does not complete a
    sequence that was cut short. *)
Definition ascii_start (t : string) : Prop :=
  match t with
  | "" => True
  | String c _ => b2z c < 0x80
  end.

(** The runes that select a production, as the decoder has them: a rune
    outside this list selects none. *)
Definition first_rune (Digit : unicode.RangeTable) (r : rune) : bool :=
  (r =? rn dq) || unicode.IsDigit Digit r || (r =? rn "-") || (r =? rn "{")
  || (r =? rn "[") || (r =? rn "t") || (r =? rn "f") || (r =? rn "n").

(** The same list with the ASCII digits only. *)
Definition first_rune_ascii (r : rune) : bool :=
  (r =? rn dq) || ((rn "0" <=? r) && (r <=? rn "9")) || (r =? rn "-") || (r =? rn "{")
  || (r =? rn "[") || (r =? rn "t") || (r =? rn "f") || (r =? rn "n").

(** The text made of U+0663, ARABIC-INDIC DIGIT THREE. *)
Definition arabic_three : string := utf8.EncodeRune 0x663.

(** The text that stands for a code point inside an encoded string:
    the seven escapes, and the code point itself otherwise. *)
Definition escape_rune (c : rune) : string :=
  if c =? rn dq then String "\" DQ
  else if c =? rn "\" then "\\"
  else if c =? 8 then "\b"
  else if c =? 12 then "\f"
  else if c =? 10 then "\n"
  else if c =? 13 then "\r"
  else if c =? 9 then "\t"
  else utf8.EncodeRune c.

Fixpoint escape (cs : list rune) : string :=
  match cs with
  | [] => ""
  | c :: cs' => escape_rune c +:+ escape cs'
  end.

(** The same on the bytes of a string: the seven characters are ASCII, and
    every other byte stands for itself. *)
Definition escape_byte (c : ascii) : string :=
  if b2z c =? rn dq then String "\" DQ
  else if b2z c =? rn "\" then "\\"
  else if b2z c =? 8 then "\b"
  else if b2z c =? 12 then "\f"
  else if b2z c =? 10 then "\n"
  else if b2z c =? 13 then "\r"
  else if b2z c =? 9 then "\t"
  else String c "".

Fixpoint escape_bytes (s : string) : string :=
  match s with
  | "" => ""
  | String c s' => escape_byte c +:+ escape_bytes s'
  end.

(** The whitespace that the idempotence property puts around a text: a
    space, a tab, a line feed and a space before it, a space and a line feed
    after it. *)
Definition ws_before : string :=
  String " " (String (ascii_of_nat 9) (String (ascii_of_nat 10) (String " " ""))).

Definition ws_after : string := String " " (String (ascii_of_nat 10) "").

(** The value of a text of decimal digits read after the number [n]. *)
Fixpoint digits_value (n : Z) (s : string) : Z :=
  match s with
  | "" => n
  | String c s' => digits_value (n * 10 + (b2z c - rn "0")) s'
  end.

Fixpoint all_digits (s : string) : bool :=
  match s with
  | "" => true
  | String c s' => strconv.isDigitByte c && all_digits s'
  end.

(** The same [float64]: the same sign, mantissa and exponent. *)
Definition float_eqb (f g : strconv.float64) : bool :=
  match f, g with
  | S754_zero a, S754_zero b => Bool.eqb a b
  | S754_infinity a, S754_infinity b => Bool.eqb a b
  | S754_nan, S754_nan => true
  | S754_finite a m e, S754_finite b n k => Bool.eqb a b && Pos.eqb m n && Z.eqb e k
  | _, _ => false
  end.

(** [strconv.ParseFloat] returns [f] from the text [strconv.FormatFloat]
    writes for it.  The documentation of [FormatFloat] promises it for the
    precision -1; the model of the two functions follows the documentation,
    and the property is a condition here, to be computed at a given [f]. *)
Definition read_back (f : strconv.float64) : bool :=
  match strconv.ParseFloat (strconv.FormatFloat f) with
  | (g, None) => float_eqb g f
  | (_, Some _) => false
  end.

(** The values that the round trip is proved for: no object at any depth,
    integers of 64 bits, strings in UTF-8, and floats whose text holds a
    point, so that [convertToNumber] takes the text for a float ([150.0] is
    written [150] and is none of them), and which [strconv] reads back. *)
Fixpoint plain (v : Value) : bool :=
  match v with
  | Null => true
  | Bool _ => true
  | Integer n => (- 2 ^ 63 <=? n) && (n <? 2 ^ 63)
  | Float f => ContainsAny (strconv.FormatFloat f) ".eE" && read_back f
  | String_ s => utf8.ValidString s
  | Array values => forallb plain values
  | Object _ => false
  end.

(** What may follow the text of a value inside an array: nothing, a comma
    or a closing bracket. *)
Definition delimited (rest : string) : Prop :=
  match rest with
  | "" => True
  | String c _ => b2z c = rn "," \/ b2z c = rn "]"
  end.

(** The first byte of the text of a value: an ASCII byte that is neither
    whitespace nor a closing bracket. *)
Definition starter (t : string) : Prop :=
  match t with
  | "" => False
  | String c _ => ws_byte c = false /\ b2z c <> rn "]" /\ b2z c < 0x80
  end.

(** The texts of the elements of an array, with commas between them. *)
Fixpoint join (ts : list string) : string :=
  match ts with
  | [] => ""
  | [t] => t
  | t :: ts' => t +:+ "," +:+ join ts'
  end.

(** The shape of the text of an integer: an optional minus sign, then
    [0], or a digit that is not zero followed by digits. *)
Inductive int_text : string -> Prop :=
| int_zero : int_text "0"
| int_pos c ds :
    strconv.isDigitByte c = true -> b2z c <> rn "0" -> all_digits ds = true ->
    int_text (String c ds)
| int_neg c ds :
    strconv.isDigitByte c = true -> b2z c <> rn "0" -> all_digits ds = true ->
    int_text (String "-" (String c ds)).

(** The shape of the text of a number with a point: an optional minus
    sign, [0] or a digit that is not zero followed by digits, a point, and
    one digit or more. *)
Inductive unsigned_text : string -> Prop :=
| unsigned_zero : unsigned_text "0"
| unsigned_pos c ds :
    strconv.isDigitByte c = true -> b2z c <> rn "0" -> all_digits ds = true ->
    unsigned_text (String c ds).

Inductive point_text : string -> Prop :=
| point_pos ip fs :
    unsigned_text ip -> all_digits fs = true -> fs <> "" ->
    point_text (ip +:+ "." +:+ fs)
| point_neg ip fs :
    unsigned_text ip -> all_digits fs = true -> fs <> "" ->
    point_text (String "-" (ip +:+ "." +:+ fs)).

(** ** The decoder over a stream

    As long as the buffer of the [bufio.Reader] holds all of the text, its
    operations act on what is unread as on a plain stream of bytes.
    [Stream] has this plain stream and the decoder over it; the simulation
    below relates it to the decoder over the [bufio.Reader]. *)

Module Stream.

Module bufio.

(** The reader without its buffer: [unread] is what has not been handed
    out yet, and [lastRune] holds the bytes that [UnreadRune] gives back.
    [ReadRune] decodes the first rune of what is unread, and [Read] hands
    out as many bytes as were asked for when that many are left.  At the
    end of the stream [Read] forgets the last rune; no call of the decoder
    can tell, since [UnreadRune] is not called after a failed [Read]. *)
Record Reader := mkReader {
  unread : string;
  lastRune : option string
}.

Definition NewReader (s : string) : Reader :=
  {| unread := s; lastRune := None |}.

Definition ReadRune (b : Reader) : result rune * Reader :=
  match unread b with
  | "" => (Err EOF, {| unread := ""; lastRune := None |})
  | String _ _ =>
    let '(r, size) := utf8.DecodeRune (unread b) in
    (Ok r, {| unread := drop size (unread b);
              lastRune := Some (take size (unread b)) |})
  end.

Definition UnreadRune (b : Reader) : result unit * Reader :=
  match lastRune b with
  | None => (Err ErrInvalidUnreadRune, b)
  | Some bytes => (Ok tt, {| unread := bytes +:+ unread b; lastRune := None |})
  end.

Definition Read (n : nat) (b : Reader) : result string * Reader :=
  match unread b with
  | "" => (Err EOF, {| unread := ""; lastRune := None |})
  | String _ _ =>
    (Ok (take n (unread b)), {| unread := drop n (unread b); lastRune := None |})
  end.

End bufio.

(** *** Calls on a stream and the decoder

    The definitions of the decoder, word for word, with the stream in the
    place of the [bufio.Reader]. *)

Definition Parser (A : Type) : Type := bufio.Reader -> result A * bufio.Reader.

Definition ret {A} (a : A) : Parser A := fun b => (Ok a, b).

Definition fail {A} (e : error) : Parser A := fun b => (Err e, b).

Definition bind {A B} (m : Parser A) (k : A -> Parser B) : Parser B :=
  fun b =>
    match m b with
    | (Ok a, b') => k a b'
    | (Err e, b') => (Err e, b')
    | (OutOfFuel, b') => (OutOfFuel, b')
    end.

(** [if err != nil { return fmt.Errorf(.., err) }] after a call. *)
Definition try {A} (m : Parser A) (wrap : error -> error) : Parser A :=
  fun b =>
    match m b with
    | (Err e, b') => (Err (wrap e), b')
    | other => other
    end.

#[warnings="-notation-overridden"]
Notation "x <- m ;; k" := (bind m (fun x => k))
  (at level 100, m at next level, right associativity).
#[warnings="-notation-overridden"]
Notation "m ;;; k" := (bind m (fun _ => k))
  (at level 100, right associativity).

Fixpoint loop {St A} (turns : nat) (body : St -> Parser (step St A)) (s : St)
  : Parser A :=
  fun b =>
    match turns with
    | O => (OutOfFuel, b)
    | S turns' =>
      match body s b with
      | (Ok (Continue s'), b') => loop turns' body s' b'
      | (Ok (Break a), b') => (Ok a, b')
      | (Err e, b') => (Err e, b')
      | (OutOfFuel, b') => (OutOfFuel, b')
      end
    end.

(** Every loop of the decoder reads at least one byte per turn, so a loop
    is given one turn more than there are unread bytes. *)
Definition for_ {St A} (body : St -> Parser (step St A)) (s : St) : Parser A :=
  fun b => loop (S (String.length (bufio.unread b))) body s b.

(** One turn of the loop of [UnmarshalWhitespace]; the loop leaves with the
    value of [eof]. *)
Definition UnmarshalWhitespace_body (_ : unit) : Parser (step unit bool) :=
  fun b =>
    match bufio.ReadRune b with
    | (Err EOF, b') => (Ok (Break true), b')
    | (Err e, b') => (Err (errReadRune e), b')
    | (Ok r, b') =>
      if negb (isJsonWhitespace r) then (Ok (Break false), b')
      else (Ok (Continue tt), b')
    | (OutOfFuel, b') => (OutOfFuel, b')
    end.

Definition UnmarshalWhitespace : Parser unit :=
  eof <- for_ UnmarshalWhitespace_body tt ;;
  if negb eof then try bufio.UnreadRune errUnreadRune else ret tt.

Definition UnmarshalNull : Parser Value :=
  fun b =>
    match bufio.Read 4 b with
    | (Err e, b') =>
      (Err (Errorf "failed to read chars while parsing null: %w" [ArgErr e]), b')
    | (OutOfFuel, b') => (OutOfFuel, b')
    | (Ok value, b') =>
      let n := String.length value in
      if negb (n =? 4)%nat then
        (Err (Errorf "failed to read all 4 chars while parsing null, could only read %d chars"
                [ArgInt (Z.of_nat n)]), b')
      else if negb (String.eqb value NULL_STRING) then
        (Err (Errorf "could not Unmarshal null, found: %s" [ArgStr value]), b')
      else (Ok Null, b')
    end.

Definition UnmarshalTrue : Parser Value :=
  fun b =>
    match bufio.Read 4 b with
    | (Err e, b') =>
      (Err (Errorf "failed to read 4 chars while parsing true: %w" [ArgErr e]), b')
    | (OutOfFuel, b') => (OutOfFuel, b')
    | (Ok value, b') =>
      let n := String.length value in
      if negb (n =? 4)%nat then
        (Err (Errorf "failed to read all 4 chars while parsing true, could only read %d chars"
                [ArgInt (Z.of_nat n)]), b')
      else if negb (String.eqb value TRUE_STRING) then
        (Err (Errorf "could not Unmarshal true, found: %s" [ArgStr value]), b')
      else (Ok (Bool true), b')
    end.

Definition UnmarshalFalse : Parser Value :=
  fun b =>
    match bufio.Read 5 b with
    | (Err e, b') =>
      (Err (Errorf "failed to read 5 chars while parsing false: %w" [ArgErr e]), b')
    | (OutOfFuel, b') => (OutOfFuel, b')
    | (Ok value, b') =>
      let n := String.length value in
      if negb (n =? 5)%nat then
        (Err (Errorf "failed to read all 5 chars while parsing false, could only read %d chars"
                [ArgInt (Z.of_nat n)]), b')
      else if negb (String.eqb value FALSE_STRING) then
        (Err (Errorf "could not Unmarshal false, found: %s" [ArgStr value]), b')
      else (Ok (Bool false), b')
    end.

Definition convertHexToUnicode : Parser rune :=
  fun b =>
    let '(res, b') := bufio.Read 4 b in
    match res with
    | OutOfFuel => (OutOfFuel, b')
    | Err _ => (Err UNICODE_INSUFFICIENT_BYTES, b')
    | Ok hexString =>
      if negb (String.length hexString =? 4)%nat then
        (Err UNICODE_INSUFFICIENT_BYTES, b')
      else
        match strconv.ParseInt hexString 16 32 with
        | (_, Some _) =>
          (Err (Errorf "failed to Unmarshal hex string: %s" [ArgStr hexString]), b')
        | (hexValue, None) => (Ok hexValue, b')
        end
    end.

(** One turn of the loop of [UnmarshalString]: the loop's variables are the
    builder [b] and [backslash]; it leaves with the string built. *)
Definition UnmarshalString_body (st : string * bool)
  : Parser (step (string * bool) string) :=
  let '(b, backslash) := st in
  r <- try bufio.ReadRune errReadRune ;;
  if backslash then
    if r =? rn dq then ret (Continue (Builder.WriteRune (rn dq) b, false))
    else if r =? rn "\" then ret (Continue (Builder.WriteRune (rn "\") b, false))
    else if r =? rn "/" then ret (Continue (Builder.WriteRune (rn "/") b, false))
    else if r =? rn "b" then ret (Continue (Builder.WriteRune 8 b, false))
    else if r =? rn "f" then ret (Continue (Builder.WriteRune 12 b, false))
    else if r =? rn "n" then ret (Continue (Builder.WriteRune 10 b, false))
    else if r =? rn "r" then ret (Continue (Builder.WriteRune 13 b, false))
    else if r =? rn "t" then ret (Continue (Builder.WriteRune 9 b, false))
    else if r =? rn "u" then
      unicodeChar <- try convertHexToUnicode
                       (fun _ => Errorf "failed to Unmarshal unicode character" []) ;;
      ret (Continue (Builder.WriteRune unicodeChar b, false))
    else fail (Errorf "error: unexpected escape character %c" [ArgRune r])
  else
    if r =? rn "\" then ret (Continue (b, true))
    else if r =? rn dq then ret (Break b)
    else ret (Continue (Builder.WriteRune r b, false)).

Definition UnmarshalString : Parser string :=
  r <- try bufio.ReadRune errReadRune ;;
  if negb (r =? rn dq) then
    fail (Errorf "cannot match string, no opening double quote found: %c" [ArgRune r])
  else for_ UnmarshalString_body ("", false).

Section Decoder.

Variable Digit : unicode.RangeTable.

(** One turn of the loop of [UnmarshalNumber].  The loop's variables are
    [state] and [numberBuf]; it leaves with [eof], [invalidTransition] and
    the buffer.  At the end of the stream [ReadRune] returns the rune 0. *)
Definition UnmarshalNumber_body (st : nat * string)
  : Parser (step (nat * string) (bool * bool * string)) :=
  fun b =>
    let '(state, numberBuf) := st in
    let '(res, b') := bufio.ReadRune b in
    let read :=
      match res with
      | Ok r => Ok (r, false)
      | Err EOF => Ok (0, true)
      | Err e => Err (errReadRune e)
      | OutOfFuel => OutOfFuel
      end in
    match read with
    | Ok (r, eof) =>
      let isDigit := unicode.IsDigit Digit r in
      let '(state, validEnd, invalidTransition) :=
        UnmarshalNumber_switch state eof r isDigit in
      let numberBuf :=
        if negb validEnd then Builder.WriteRune r numberBuf else numberBuf in
      if validEnd || invalidTransition
      then (Ok (Break (eof, invalidTransition, numberBuf)), b')
      else (Ok (Continue (state, numberBuf)), b')
    | Err e => (Err e, b')
    | OutOfFuel => (OutOfFuel, b')
    end.

Definition UnmarshalNumber : Parser Value :=
  out <- for_ UnmarshalNumber_body (0%nat, "") ;;
  let '(eof, invalidTransition, numberBuf) := out in
  if invalidTransition then
    fail (Errorf "invalid char in number: %s" [ArgStr numberBuf])
  else
    (if negb eof then try bufio.UnreadRune errUnreadRune else ret tt) ;;;
    fun b => (convertToNumber numberBuf, b).

(** One turn of the loop of [UnmarshalArray], with the decoder of values it
    calls.  The loop's variables are [state] and [values]. *)
Definition UnmarshalArray_body (UnmarshalValue : Parser Value) (st : nat * list Value)
  : Parser (step (nat * list Value) (list Value)) :=
  let '(state, values) := st in
  r <- try bufio.ReadRune errReadRune ;;
  if (state =? 0)%nat then
    if r =? rn "[" then ret (Continue (1%nat, values))
    else fail (Errorf "failed to Unmarshal array: no opening [" [])
  else if (state =? 1)%nat then
    if isJsonWhitespace r then ret (Continue (state, values))
    else if r =? rn "]" then ret (Break values)
    else
      try bufio.UnreadRune errUnreadRune ;;;
      value <- try UnmarshalValue
                 (fun e => Errorf "failed to Unmarshal array: %w" [ArgErr e]) ;;
      ret (Continue (2%nat, app values [value]))
  else if (state =? 2)%nat then
    if r =? rn "," then ret (Continue (1%nat, values))
    else if r =? rn "]" then ret (Break values)
    else fail (Errorf "failed to Unmarshal array: no , or ]" [])
  else ret (Continue (state, values)).

Definition UnmarshalArray (UnmarshalValue : Parser Value) : Parser (list Value) :=
  for_ (UnmarshalArray_body UnmarshalValue) (0%nat, []).

(** One turn of the loop of [UnmarshalObject].  The loop's variables are
    [state], [key] and [object]. *)
Definition UnmarshalObject_body (UnmarshalValue : Parser Value)
  (st : nat * string * gmap string Value)
  : Parser (step (nat * string * gmap string Value) (gmap string Value)) :=
  let '(state, key, object) := st in
  r <- try bufio.ReadRune errReadRune ;;
  if (state =? 0)%nat then
    if r =? rn "{" then ret (Continue (1%nat, key, object))
    else fail (Errorf "failed to Unmarshal object: no opening {" [])
  else if (state =? 1)%nat || (state =? 5)%nat then
    if isJsonWhitespace r then ret (Continue (state, key, object))
    else if (state =? 1)%nat && (r =? rn "}") then ret (Break object)
    else
      try bufio.UnreadRune errUnreadRune ;;;
      key <- try UnmarshalString
               (fun e => Errorf "failed to Unmarshal object key: %w" [ArgErr e]) ;;
      ret (Continue (2%nat, key, object))
  else if (state =? 2)%nat then
    if isJsonWhitespace r then ret (Continue (state, key, object))
    else if r =? rn ":" then ret (Continue (3%nat, key, object))
    else fail (Errorf "failed to find matching value for object key: %s" [ArgStr key])
  else if (state =? 3)%nat then
    value <- try UnmarshalValue
               (fun _ => Errorf "failed to Unmarshal value for object key: %s" [ArgStr key]) ;;
    ret (Continue (4%nat, key, insert key value object))
  else if (state =? 4)%nat then
    if r =? rn "}" then ret (Break object)
    else if r =? rn "," then ret (Continue (5%nat, key, object))
    else ret (Continue (state, key, object))
  else ret (Continue (state, key, object)).

Definition UnmarshalObject (UnmarshalValue : Parser Value) : Parser (gmap string Value) :=
  for_ (UnmarshalObject_body UnmarshalValue) (0%nat, "", empty).

(** The production that the first rune of a value selects. *)
Definition dispatch (UnmarshalValue : Parser Value) (r : rune) : option (Parser Value) :=
  if r =? rn dq then Some (s <- UnmarshalString ;; ret (String_ s))
  else if unicode.IsDigit Digit r || (r =? rn "-") then Some UnmarshalNumber
  else if r =? rn "{" then
    Some (object <- UnmarshalObject UnmarshalValue ;; ret (Object object))
  else if r =? rn "[" then
    Some (values <- UnmarshalArray UnmarshalValue ;; ret (Array values))
  else if r =? rn "t" then Some UnmarshalTrue
  else if r =? rn "f" then Some UnmarshalFalse
  else if r =? rn "n" then Some UnmarshalNull
  else None.

(** The body of [UnmarshalValue], with the decoder it calls for the values
    inside an array or an object.  After the production has returned, the
    trailing whitespace is read whether the production failed or not, and
    the production's error is returned last. *)
Definition UnmarshalValue_body (UnmarshalValue : Parser Value) : Parser Value :=
  try UnmarshalWhitespace
    (fun e => Errorf "failed to Unmarshal leading whitespace: %w" [ArgErr e]) ;;;
  r <- try bufio.ReadRune errReadRune ;;
  try bufio.UnreadRune errUnreadRune ;;;
  match dispatch UnmarshalValue r with
  | None => fail (Errorf "failed to match value given first char: %c" [ArgRune r])
  | Some production =>
    fun b =>
      let '(value, b1) := production b in
      match UnmarshalWhitespace b1 with
      | (Ok _, b2) => (value, b2)
      | (Err e, b2) =>
        (Err (Errorf "failed to Unmarshal trailing whitespace: %w" [ArgErr e]), b2)
      | (OutOfFuel, b2) => (OutOfFuel, b2)
      end
  end.

(** [UnmarshalValue], by recursion on a bound on the depth of the calls:
    a value inside an array or an object starts after the opening bracket,
    so the depth is at most the number of unread bytes. *)
Fixpoint UnmarshalValue (depth : nat) : Parser Value :=
  match depth with
  | O => fun b => (OutOfFuel, b)
  | S depth' => UnmarshalValue_body (UnmarshalValue depth')
  end.

(** Decoding a text: [UnmarshalValue] on a new reader over the text. *)
Definition decode_reader (text : string) : result Value * bufio.Reader :=
  UnmarshalValue (S (String.length text)) (bufio.NewReader text).

Definition decode (text : string) : result Value := fst (decode_reader text).

End Decoder.

(** *** Vocabulary of the properties of the decoder over a stream *)

(** The number of unread bytes of a reader. *)
Definition len (b : bufio.Reader) : nat := String.length (bufio.unread b).

(** What a reader can still hand out: the rune that [UnreadRune] would give
    back, and the unread bytes. *)
Definition pending (b : bufio.Reader) : string :=
  match bufio.lastRune b with
  | Some bytes => bytes +:+ bufio.unread b
  | None => bufio.unread b
  end.

Definition plen (b : bufio.Reader) : nat := String.length (pending b).

(** A call is [quiet] when it hands nothing back to the stream, [reading]
    when moreover it starts with a read (so that it cannot give back a rune
    read before the call), and [consuming] when a successful call has taken
    at least one byte for good.  A call that reached a bound of the model
    is not looked at. *)
Definition quiet {A} (p : Parser A) : Prop :=
  forall b res b', p b = (res, b') -> res <> OutOfFuel -> (plen b' <= plen b)%nat.

Definition reading {A} (p : Parser A) : Prop :=
  forall b res b', p b = (res, b') -> res <> OutOfFuel -> (plen b' <= len b)%nat.

Definition consuming {A} (p : Parser A) : Prop :=
  forall b a b', p b = (Ok a, b') -> (plen b' < len b)%nat.

(** The body of a loop [advances] when a turn that goes round again leaves
    fewer unread bytes.  [I] is an invariant of the loop's variables and
    the reader, which the turn has to keep. *)
Definition advances {St A} (I : St -> bufio.Reader -> Prop)
  (body : St -> Parser (step St A)) : Prop :=
  forall s b s' b',
    I s b -> body s b = (Ok (Continue s'), b') -> I s' b' /\ (len b' < len b)%nat.

Definition always {St} : St -> bufio.Reader -> Prop := fun _ _ => True.

(** A call does not reach a bound of the model on the readers with at most
    [n] unread bytes. *)
Definition total_upto {A} (n : nat) (p : Parser A) : Prop :=
  forall b, (len b <= n)%nat -> fst (p b) <> OutOfFuel.

(** [q] returns what [p] returns whenever [p] stays within the bounds. *)
Definition refines {A} (p q : Parser A) : Prop :=
  forall b res b', p b = (res, b') -> res <> OutOfFuel -> q b = (res, b').

(** The states of the number automaton. *)
Definition number_state (st : nat * string) (_ : bufio.Reader) : Prop :=
  (fst st <= 9)%nat.

(** The invariant of the loops of [UnmarshalArray] and [UnmarshalObject]
    when the decoder of values stays within the bounds up to [n] unread
    bytes: the opening bracket is read in state 0, and a value starts after
    it. *)
Definition container_inv {St} (n : nat) (state : St -> nat) (st : St) (b : bufio.Reader)
  : Prop :=
  if (state st =? 0)%nat then (len b <= S n)%nat else (len b <= n)%nat.

(** [b2] is [b1] with whitespace added at the end of the stream. *)
Definition extends (b1 b2 : bufio.Reader) : Prop :=
  bufio.lastRune b2 = bufio.lastRune b1 /\
  exists t, all_ws t = true /\ bufio.unread b2 = bufio.unread b1 +:+ t.

(** A call that returns a value returns the same value when whitespace is
    added at the end of the stream. *)
Definition stable {A} (p : Parser A) : Prop :=
  forall b1 b2 a b1',
    extends b1 b2 -> p b1 = (Ok a, b1') ->
    exists b2', p b2 = (Ok a, b2') /\ extends b1' b2'.

(** [t] is the text the encoder writes for [v], and the decoder reads [v]
    back from it at any depth from [d0] on, whatever delimiter follows. *)
Definition encodes (Digit : unicode.RangeTable) (d0 : nat) (v : Value) (t : string) : Prop :=
  (forall w, bufio.err w = None ->
     MarshalValue v w =
     (None, {| bufio.written := bufio.written w +:+ t; bufio.err := None |})) /\
  starter t /\
  (forall d rest l, (d0 <= d)%nat -> delimited rest ->
     UnmarshalValue Digit d {| bufio.unread := t +:+ rest; bufio.lastRune := l |} =
     (Ok v, {| bufio.unread := rest; bufio.lastRune := None |})).

(** [UnmarshalNumber] from a state of its automaton on, with what the
    buffer holds. *)
Definition number_from (Digit : unicode.RangeTable) (state : nat) (numberBuf : string)
  : Parser Value :=
  out <- for_ (UnmarshalNumber_body Digit) (state, numberBuf) ;;
  let '(eof, invalidTransition, numberBuf) := out in
  if invalidTransition then
    fail (Errorf "invalid char in number: %s" [ArgStr numberBuf])
  else
    (if negb eof then try bufio.UnreadRune errUnreadRune else ret tt) ;;;
    fun b => (convertToNumber numberBuf, b).

End Stream.

(** ** The reader and the stream *)

(** The stream that a reader stands for. *)
Definition stream_of (b : bufio.Reader) : Stream.bufio.Reader :=
  {| Stream.bufio.unread := bufio.unread b;
     Stream.bufio.lastRune := bufio.lastRune b |}.

(** What holds of a reader made by [NewReaderSize], whatever has been read
    from it: the buffer takes a whole rune, and the bytes that wait in the
    buffer are among the unread ones. *)
Definition sound (b : bufio.Reader) : Prop :=
  (utf8.UTFMax <= bufio.size b)%nat /\
  (bufio.avail b <= String.length (bufio.unread b))%nat.

(** The buffer holds the text: what can still be read, with the rune that
    [UnreadRune] would give back, is not longer than the buffer, and either
    all of it waits in the buffer or nothing has been read yet. *)
Definition held (b : bufio.Reader) : Prop :=
  sound b /\
  (String.length (bufio.unread b)
   + match bufio.lastRune b with
     | Some bytes => String.length bytes
     | None => 0
     end <= bufio.size b)%nat /\
  (bufio.avail b = String.length (bufio.unread b)
   \/ (bufio.avail b = 0%nat /\ bufio.lastRune b = None)).

(** The reader and the stream agree after a call with the result [r]: the
    reader stands for the stream, or, after an error, at least the same
    bytes are unread ([Read] keeps the last rune when it meets the end of
    the stream, and the stream forgets it). *)
Definition agree {A} (r : result A) (sb : Stream.bufio.Reader) (b : bufio.Reader)
  : Prop :=
  match r with
  | Err _ => Stream.bufio.unread sb = bufio.unread b
  | _ => sb = stream_of b
  end.

(** A call on the reader [follows] a call on the stream, on the readers
    that satisfy [I]: it returns what the call on the stream returns, the
    reader and the stream agree after it, and [I] is kept. *)
Definition follows (I : bufio.Reader -> Prop) {A}
  (p : Parser A) (q : Stream.Parser A) : Prop :=
  forall b r b', I b -> p b = (r, b') ->
    exists sb', q (stream_of b) = (r, sb') /\ agree r sb' b' /\ I b'.

(** ** Vocabulary of the further properties *)

(** What ends the text of a number whose last rune was a digit: the end of
    the text, or an ASCII byte that is not a digit, a point or an exponent
    mark. *)
Definition terminator (rest : string) : Prop :=
  match rest with
  | "" => True
  | String c _ =>
    b2z c < 0x80 /\ strconv.isDigitByte c = false /\
    b2z c <> rn "." /\ b2z c <> rn "e" /\ b2z c <> rn "E"
  end.

(** The number that the text of an integer stands for. *)
Definition int_value (t : string) : Z :=
  match t with
  | String c ds => if b2z c =? rn "-" then - digits_value 0 ds else digits_value 0 t
  | "" => 0
  end.

(** A call [keeps] a property of the reader when the reader has it after
    the call if it has it before. *)
Definition keeps (I : bufio.Reader -> Prop) {A} (p : Parser A) : Prop :=
  forall b, I b -> I (snd (p b)).

(** The reader is sound and has read, of [text], what comes before the rune
    that [UnreadRune] would give back and the unread bytes. *)
Definition reads_from (text : string) (b : bufio.Reader) : Prop :=
  sound b /\
  exists pre,
    text = pre +:+ match bufio.lastRune b with
                   | Some bytes => bytes
                   | None => ""
                   end +:+ bufio.unread b.

(** The two-character escapes of [UnmarshalString]: the character after
    the backslash and the byte it stands for. *)
Definition escape_letter (x : ascii) : option ascii :=
  if b2z x =? rn dq then Some dq
  else if b2z x =? rn "\" then Some "\"%char
  else if b2z x =? rn "/" then Some "/"%char
  else if b2z x =? rn "b" then Some (ascii_of_nat 8)
  else if b2z x =? rn "f" then Some (ascii_of_nat 12)
  else if b2z x =? rn "n" then Some (ascii_of_nat 10)
  else if b2z x =? rn "r" then Some (ascii_of_nat 13)
  else if b2z x =? rn "t" then Some (ascii_of_nat 9)
  else None.

(** [content t out]: the text [t] between the double quotes of a string
    stands for the string [out].  [t] is made of runes other than the
    double quote and the backslash, which stand for themselves (bytes that
    are no UTF-8 stand for U+FFFD), of the two-character escapes, and of
    [\u] with four characters that [strconv.ParseInt] reads in base 16,
    which stands for the rune of that number. *)
Inductive content : string -> string -> Prop :=
| content_end : content "" ""
| content_rune c s r n out :
    utf8.DecodeRune (String c s) = (r, n) -> r <> rn dq -> r <> rn "\" ->
    content (drop n (String c s)) out ->
    content (String c s) (utf8.EncodeRune r +:+ out)
| content_escape x c t out :
    escape_letter x = Some c -> content t out ->
    content (String "\" (String x t)) (String c out)
| content_unicode hexString hexValue t out :
    String.length hexString = 4%nat ->
    strconv.ParseInt hexString 16 32 = (hexValue, None) ->
    content t out ->
    content ("\u" +:+ hexString +:+ t) (utf8.EncodeRune hexValue +:+ out).

(** A sample of the content of a string, and what it stands for. *)
Definition content_sample : string := "a\n\u00e9".

Definition content_sample_out : string :=
  utf8.EncodeRune 97 +:+ String (ascii_of_nat 10) (utf8.EncodeRune 0xE9 +:+ "").

(** ** A grammar of texts that the decoder accepts

    [json t v]: the text [t] is one of the texts below, and [v] is the value
    the decoder is proved to return for it.  The grammar is read off the
    automata of [UnmarshalArray] and [UnmarshalObject]: whitespace is
    accepted where their states skip it; a comma may be followed by the
    closing bracket of an array; in an object the rune after the colon is
    read and dropped before the value is decoded, and a key that comes
    again replaces the value of the key. *)
Inductive json : string -> Value -> Prop :=
| json_null : json "null" Null
| json_true : json "true" (Bool true)
| json_false : json "false" (Bool false)
| json_integer t :
    int_text t -> - 2 ^ 63 <= int_value t < 2 ^ 63 -> json t (Integer (int_value t))
| json_string t out : content t out -> json (quoted t) (String_ out)
| json_array w items values :
    all_ws w = true -> elements items values ->
    json ("[" +:+ w +:+ items +:+ "]") (Array values)
| json_empty_object w : all_ws w = true -> json ("{" +:+ w +:+ "}") (Object ∅)
| json_object w entries object :
    all_ws w = true -> members entries ∅ object ->
    json ("{" +:+ w +:+ entries +:+ "}") (Object object)

(** The text between the brackets of an array, after the whitespace that
    follows the opening bracket. *)
with elements : string -> list Value -> Prop :=
| elements_none : elements "" []
| elements_last t v w : json t v -> all_ws w = true -> elements (t +:+ w) [v]
| elements_more t v w w' items values :
    json t v -> all_ws w = true -> all_ws w' = true -> elements items values ->
    elements (t +:+ w +:+ "," +:+ w' +:+ items) (v :: values)

(** A key, a colon, one ASCII character, which is dropped, and a value. *)
with member : string -> string -> Value -> Prop :=
| member_of kt key w1 c w2 t v w3 :
    content kt key -> all_ws w1 = true -> b2z c < 0x80 -> all_ws w2 = true ->
    json t v -> all_ws w3 = true ->
    member (quoted kt +:+ w1 +:+ ":" +:+ String c (w2 +:+ t +:+ w3)) key v

(** The members of an object, in the order of the text: [members entries
    object object'] adds them to [object]. *)
with members : string -> gmap string Value -> gmap string Value -> Prop :=
| members_last e key v object :
    member e key v -> members e object (<[key:=v]> object)
| members_more e key v w entries object object' :
    member e key v -> all_ws w = true ->
    members entries (<[key:=v]> object) object' ->
    members (e +:+ "," +:+ w +:+ entries) object object'.

Scheme json_min := Minimality for json Sort Prop
  with elements_min := Minimality for elements Sort Prop
  with member_min := Minimality for member Sort Prop
  with members_min := Minimality for members Sort Prop.

Combined Scheme json_mutind from json_min, elements_min, member_min, members_min.

(** [reads Digit t v]: the decoder over a stream reads [v] from [t] and
    the whitespace after it, whatever follows that ends a number. *)
Definition reads (Digit : unicode.RangeTable) (t : string) (v : Value) : Prop :=
  starter t /\
  forall d rest l, (String.length t < d)%nat -> terminator rest ->
    Stream.UnmarshalValue Digit d
      {| Stream.bufio.unread := t +:+ rest; Stream.bufio.lastRune := l |} =
    (Ok v, {| Stream.bufio.unread := skip_ws rest; Stream.bufio.lastRune := None |}).

(** The same, whatever follows: the texts that are no numbers end by
    themselves. *)
Definition reads_any (Digit : unicode.RangeTable) (t : string) (v : Value) : Prop :=
  starter t /\
  forall d rest l, (String.length t < d)%nat ->
    Stream.UnmarshalValue Digit d
      {| Stream.bufio.unread := t +:+ rest; Stream.bufio.lastRune := l |} =
    (Ok v, {| Stream.bufio.unread := skip_ws rest; Stream.bufio.lastRune := None |}).

(** The loops of [UnmarshalArray] and [UnmarshalObject] over a stream, on
    the texts of the grammar: the elements up to the closing bracket, a
    member with the whitespace after it, and the members up to the closing
    brace. *)
Definition reads_elements (Digit : unicode.RangeTable) (items : string)
  (values : list Value) : Prop :=
  forall d rest acc l, (String.length items < d)%nat ->
    Stream.for_ (Stream.UnmarshalArray_body (Stream.UnmarshalValue Digit d)) (1%nat, acc)
      {| Stream.bufio.unread := items +:+ "]" +:+ rest; Stream.bufio.lastRune := l |} =
    (Ok (acc ++ values)%list,
     {| Stream.bufio.unread := rest; Stream.bufio.lastRune := Some "]" |}).

Definition reads_member (Digit : unicode.RangeTable) (e key : string) (v : Value)
  : Prop :=
  forall d rest state k0 object l, (String.length e < d)%nat ->
    state = 1%nat \/ state = 5%nat -> terminator rest ->
    Stream.for_ (Stream.UnmarshalObject_body (Stream.UnmarshalValue Digit d))
      (state, k0, object)
      {| Stream.bufio.unread := e +:+ rest; Stream.bufio.lastRune := l |} =
    Stream.for_ (Stream.UnmarshalObject_body (Stream.UnmarshalValue Digit d))
      (4%nat, key, <[key:=v]> object)
      {| Stream.bufio.unread := skip_ws rest; Stream.bufio.lastRune := None |}.

Definition reads_members (Digit : unicode.RangeTable) (entries : string)
  (object object' : gmap string Value) : Prop :=
  forall d rest state k0 l, (String.length entries < d)%nat ->
    state = 1%nat \/ state = 5%nat ->
    Stream.for_ (Stream.UnmarshalObject_body (Stream.UnmarshalValue Digit d))
      (state, k0, object)
      {| Stream.bufio.unread := entries +:+ "}" +:+ rest; Stream.bufio.lastRune := l |} =
    (Ok object', {| Stream.bufio.unread := rest; Stream.bufio.lastRune := Some "}" |}).

(** The literal that the first byte of a text selects. *)
Definition literal_name (c : ascii) : option string :=
  if b2z c =? rn "t" then Some TRUE_STRING
  else if b2z c =? rn "f" then Some FALSE_STRING
  else if b2z c =? rn "n" then Some NULL_STRING
  else None.

(** A sample of the grammar, the text [{ "a": [1 , "b",],"a":x-7 }], and the
    value it stands for: the second member replaces the first, the space
    and the [x] after the colons are dropped, and the comma before the
    closing bracket adds no element. *)
Definition sample_elements : string :=
  "1" +:+ " " +:+ "," +:+ " " +:+ (quoted "b" +:+ "" +:+ "," +:+ "" +:+ "").

Definition sample_array : string := "[" +:+ "" +:+ sample_elements +:+ "]".

Definition sample_member_1 : string :=
  quoted "a" +:+ "" +:+ ":" +:+ String " " ("" +:+ sample_array +:+ "").

Definition sample_member_2 : string :=
  quoted "a" +:+ "" +:+ ":" +:+ String "x" ("" +:+ "-7" +:+ " ").

Definition sample_members : string := sample_member_1 +:+ "," +:+ "" +:+ sample_member_2.

Definition sample_object : string := "{" +:+ " " +:+ sample_members +:+ "}".

Definition sample_values : list Value := [Integer 1; String_ "b"].

Definition sample_map : gmap string Value :=
  <["a" := Integer (-7)]> (<["a" := Array sample_values]> ∅).

(** The size of a value, for induction on values through arrays and
    objects. *)
Fixpoint Value_size (v : Value) : nat :=
  match v with
  | Array values => S (fold_right (fun v' n => Value_size v' + n)%nat 0%nat values)
  | Object object => S (map_fold (fun _ v' n => Value_size v' + n)%nat 0%nat object)
  | _ => 1%nat
  end.

(** The runes [cs] in UTF-8. *)
Fixpoint utf8_of (cs : list rune) : string :=
  match cs with
  | [] => ""
  | c :: cs' => utf8.EncodeRune c +:+ utf8_of cs'
  end.

(** The values whose objects have one member at most, at any depth: the
    values whose text does not depend on the order in which a [range] loop
    visits a map. *)
Fixpoint single_members (v : Value) : bool :=
  match v with
  | Array values => forallb single_members values
  | Object object =>
    (size object <=? 1)%nat
    && map_fold (fun _ v' ok => single_members v' && ok) true object
  | _ => true
  end.

#[local] Arguments String.append !_ _ : simpl nomatch.

(** * Properties of the standard library and of the encoder *)

(** ** Strings *)

Lemma length_append (s t : string) :
  String.length (s +:+ t) = (String.length s + String.length t)%nat.
Proof. induction s as [|c s IH]; simpl; [reflexivity | now rewrite IH]. Qed.

Lemma append_assoc (s t u : string) : (s +:+ t) +:+ u = s +:+ (t +:+ u).
Proof. induction s as [|c s IH]; simpl; [reflexivity | now rewrite IH]. Qed.

Lemma append_nil_r (s : string) : s +:+ "" = s.
Proof. induction s as [|c s IH]; simpl; [reflexivity | now rewrite IH]. Qed.

Lemma take_drop (n : nat) (s : string) : take n s +:+ drop n s = s.
Proof.
  revert s; induction n as [|n IH]; intros [|c s]; simpl; try reflexivity.
  now rewrite IH.
Qed.

Lemma length_take (n : nat) (s : string) :
  String.length (take n s) = Nat.min n (String.length s).
Proof.
  revert s; induction n as [|n IH]; intros [|c s]; simpl; try reflexivity.
  now rewrite IH.
Qed.

Lemma length_drop (n : nat) (s : string) :
  String.length (drop n s) = (String.length s - n)%nat.
Proof.
  revert s; induction n as [|n IH]; intros [|c s]; simpl; try reflexivity.
  apply IH.
Qed.

Lemma take_app (n : nat) (s t : string) :
  (n <= String.length s)%nat -> take n (s +:+ t) = take n s.
Proof.
  revert s; induction n as [|n IH]; intros [|c s] H; simpl in *;
    try reflexivity; try lia.
  rewrite IH; [reflexivity | lia].
Qed.

Lemma drop_app (n : nat) (s t : string) :
  (n <= String.length s)%nat -> drop n (s +:+ t) = drop n s +:+ t.
Proof.
  revert s; induction n as [|n IH]; intros [|c s] H; simpl in *;
    try reflexivity; try lia.
  apply IH; lia.
Qed.

Lemma take_length_app (s t : string) : take (String.length s) (s +:+ t) = s.
Proof. induction s as [|c s IH]; simpl; [destruct t; reflexivity | now rewrite IH]. Qed.

Lemma drop_length_app (s t : string) : drop (String.length s) (s +:+ t) = t.
Proof. induction s as [|c s IH]; simpl; [reflexivity | apply IH]. Qed.

(** ** The width of a decoded rune *)

Lemma DecodeRune_size (c : ascii) (s : string) :
  (1 <= snd (utf8.DecodeRune (String c s)) <= 4)%nat /\
  (snd (utf8.DecodeRune (String c s)) <= String.length (String c s))%nat.
Proof.
  unfold utf8.DecodeRune.
  destruct (utf8.first (b2z c)) as [| |sz lo hi]; simpl; try lia.
  destruct s as [|c1 s]; simpl; try lia.
  destruct ((b2z c1 <? lo) || (hi <? b2z c1)); simpl; try lia.
  destruct (sz <=? 2)%nat; simpl; try lia.
  destruct s as [|c2 s]; simpl; try lia.
  destruct (negb (utf8.cont (b2z c2))); simpl; try lia.
  destruct (sz <=? 3)%nat; simpl; try lia.
  destruct s as [|c3 s]; simpl; try lia.
  destruct (negb (utf8.cont (b2z c3))); simpl; lia.
Qed.


(** ** Bytes *)

Lemma b2z_range (c : ascii) : 0 <= b2z c < 256.
Proof.
  unfold b2z. pose proof (N_ascii_bounded c). lia.
Qed.

Lemma z2b_b2z (c : ascii) : z2b (b2z c) = c.
Proof.
  unfold z2b. pose proof (b2z_range c). rewrite Z.mod_small by lia.
  unfold b2z. rewrite N2Z.id. apply ascii_N_embedding.
Qed.

Lemma b2z_z2b (x : Z) : 0 <= x < 256 -> b2z (z2b x) = x.
Proof.
  intros H. unfold b2z, z2b. rewrite Z.mod_small by lia.
  rewrite N_ascii_embedding by lia. lia.
Qed.

Lemma b2z_inj (c d : ascii) : b2z c = b2z d -> c = d.
Proof. intros H. rewrite <- (z2b_b2z c), <- (z2b_b2z d). now rewrite H. Qed.

(** ** Bit operations on small numbers, as arithmetic *)

Lemma land_pow2_disjoint (hi lo k : Z) :
  0 <= k -> 0 <= lo < 2 ^ k -> Z.land (hi * 2 ^ k) lo = 0.
Proof.
  intros Hk Hlo. apply Z.bits_inj'. intros n Hn.
  rewrite Z.land_spec, Z.bits_0.
  destruct (Z_lt_le_dec n k) as [L|L].
  - rewrite Z.mul_pow2_bits_low by lia. reflexivity.
  - rewrite <- (Z.mod_small lo (2 ^ k)) by lia.
    rewrite Z.mod_pow2_bits_high by lia. apply andb_false_r.
Qed.

Lemma lor_pow2_add (hi lo k : Z) :
  0 <= k -> 0 <= lo < 2 ^ k -> Z.lor (hi * 2 ^ k) lo = hi * 2 ^ k + lo.
Proof.
  intros Hk Hlo. rewrite <- Z.lxor_lor by (apply land_pow2_disjoint; lia).
  symmetry. apply Z.add_nocarry_lxor. apply land_pow2_disjoint; lia.
Qed.

Lemma land_mask (x k : Z) : 0 <= k -> Z.land x (2 ^ k - 1) = x mod 2 ^ k.
Proof.
  intros Hk. rewrite <- Z.land_ones by lia. f_equal.
  rewrite Z.ones_equiv. lia.
Qed.

(** The masks and marks of UTF-8. *)
Lemma land_3F x : Z.land x 0x3F = x mod 64.
Proof. apply (land_mask x 6). lia. Qed.
Lemma land_1F x : Z.land x 0x1F = x mod 32.
Proof. apply (land_mask x 5). lia. Qed.
Lemma land_0F x : Z.land x 0x0F = x mod 16.
Proof. apply (land_mask x 4). lia. Qed.
Lemma land_07 x : Z.land x 0x07 = x mod 8.
Proof. apply (land_mask x 3). lia. Qed.

Lemma shiftl_6 x : Z.shiftl x 6 = x * 64.
Proof. rewrite Z.shiftl_mul_pow2 by lia. reflexivity. Qed.
Lemma shiftl_12 x : Z.shiftl x 12 = x * 4096.
Proof. rewrite Z.shiftl_mul_pow2 by lia. reflexivity. Qed.
Lemma shiftl_18 x : Z.shiftl x 18 = x * 262144.
Proof. rewrite Z.shiftl_mul_pow2 by lia. reflexivity. Qed.
Lemma shiftr_6 x : Z.shiftr x 6 = x / 64.
Proof. rewrite Z.shiftr_div_pow2 by lia. reflexivity. Qed.
Lemma shiftr_12 x : Z.shiftr x 12 = x / 4096.
Proof. rewrite Z.shiftr_div_pow2 by lia. reflexivity. Qed.
Lemma shiftr_18 x : Z.shiftr x 18 = x / 262144.
Proof. rewrite Z.shiftr_div_pow2 by lia. reflexivity. Qed.

Lemma lor_80 x : 0 <= x < 64 -> Z.lor 0x80 x = 128 + x.
Proof. intros H. apply (lor_pow2_add 2 x 6); lia. Qed.
Lemma lor_C0 x : 0 <= x < 32 -> Z.lor 0xC0 x = 192 + x.
Proof. intros H. apply (lor_pow2_add 6 x 5); lia. Qed.
Lemma lor_E0 x : 0 <= x < 16 -> Z.lor 0xE0 x = 224 + x.
Proof. intros H. apply (lor_pow2_add 14 x 4); lia. Qed.
Lemma lor_F0 x : 0 <= x < 8 -> Z.lor 0xF0 x = 240 + x.
Proof. intros H. apply (lor_pow2_add 30 x 3); lia. Qed.

Lemma lor_64 hi lo : 0 <= lo < 64 -> Z.lor (hi * 64) lo = hi * 64 + lo.
Proof. intros H. apply (lor_pow2_add hi lo 6); lia. Qed.
Lemma lor_4096 hi lo : 0 <= lo < 4096 -> Z.lor (hi * 4096) lo = hi * 4096 + lo.
Proof. intros H. apply (lor_pow2_add hi lo 12); lia. Qed.
Lemma lor_262144 hi lo : 0 <= lo < 262144 -> Z.lor (hi * 262144) lo = hi * 262144 + lo.
Proof. intros H. apply (lor_pow2_add hi lo 18); lia. Qed.

(** ** [DecodeRune], case by case *)

Ltac cmp_cases :=
  repeat match goal with
         | H : (_ <? _) = true |- _ => apply Z.ltb_lt in H
         | H : (_ <? _) = false |- _ => apply Z.ltb_ge in H
         | H : (_ <=? _) = true |- _ => apply Z.leb_le in H
         | H : (_ <=? _) = false |- _ => apply Z.leb_gt in H
         | H : (_ =? _) = true |- _ => apply Z.eqb_eq in H
         | H : (_ =? _) = false |- _ => apply Z.eqb_neq in H
         | H : (_ || _) = false |- _ => apply orb_false_elim in H as [? ?]
         | H : (_ && _) = true |- _ => apply andb_prop in H as [? ?]
         | H : negb _ = false |- _ => apply negb_false_iff in H
         | H : negb _ = true |- _ => apply negb_true_iff in H
         end.

Lemma lor_3 a b c :
  0 <= b < 64 -> 0 <= c < 64 ->
  Z.lor (Z.lor (a * 4096) (b * 64)) c = a * 4096 + b * 64 + c.
Proof.
  intros Hb Hc. rewrite lor_4096 by lia.
  replace (a * 4096 + b * 64) with ((a * 64 + b) * 64) by lia.
  rewrite lor_64 by lia. lia.
Qed.

Lemma lor_4 a b c d :
  0 <= b < 64 -> 0 <= c < 64 -> 0 <= d < 64 ->
  Z.lor (Z.lor (Z.lor (a * 262144) (b * 4096)) (c * 64)) d
  = a * 262144 + b * 4096 + c * 64 + d.
Proof.
  intros Hb Hc Hd. rewrite lor_262144 by lia.
  replace (a * 262144 + b * 4096) with ((a * 64 + b) * 4096) by lia.
  rewrite lor_3 by lia. lia.
Qed.

Ltac bits_to_arith H :=
  cbv beta iota zeta in H;
  rewrite ?land_3F, ?land_1F, ?land_0F, ?land_07, ?shiftl_6, ?shiftl_12, ?shiftl_18 in H;
  rewrite ?lor_4, ?lor_3, ?lor_64 in H by (apply Z.mod_pos_bound; lia).

Ltac byte_ranges :=
  repeat match goal with c : ascii |- _ =>
    lazymatch goal with
    | H : 0 <= b2z c < 256 |- _ => fail
    | _ => pose proof (b2z_range c)
    end end.

Lemma DecodeRune_decoded (c : ascii) (s : string) (r : rune) (size : nat) :
  utf8.DecodeRune (String c s) = (r, size) -> decoded (String c s) r size.
Proof.
  pose proof (b2z_range c) as Hc.
  unfold utf8.DecodeRune, utf8.first, utf8.cont, utf8.locb, utf8.hicb,
    utf8.mask2, utf8.mask3, utf8.mask4, utf8.maskx.
  intros E.
  destruct (b2z c <? 128) eqn:C1;
    [cbv beta iota zeta in E; injection E as <- <-; cmp_cases;
     now constructor|].
  assert (Hinv : decoded (String c s) utf8.RuneError 1) by (cmp_cases; constructor; lia).
  destruct s as [|c1 [|c2 [|c3 s]]];
    byte_ranges;
    bits_to_arith E;
    repeat match type of E with
           | context [if ?x then _ else _] => destruct x eqn:?
           end;
    injection E as <- <-; try exact Hinv; simpl in *; try discriminate;
    cmp_cases;
    first [apply dec_2; lia | apply dec_3; lia | apply dec_4; lia].
Qed.

Lemma DecodeRune_ascii (c : ascii) (s : string) :
  b2z c < 0x80 -> utf8.DecodeRune (String c s) = (b2z c, 1%nat).
Proof.
  intros H. unfold utf8.DecodeRune, utf8.first.
  apply Z.ltb_lt in H. cbv zeta. now rewrite H.
Qed.

(** A rune below [RuneSelf] is decoded from one byte, which is its value. *)
Lemma DecodeRune_below_RuneSelf (c : ascii) (s : string) (r : rune) (size : nat) :
  utf8.DecodeRune (String c s) = (r, size) ->
  (r < 0x80 <-> b2z c < 0x80) /\ (r < 0x80 -> r = b2z c /\ size = 1%nat).
Proof.
  intros E. apply DecodeRune_decoded in E.
  inversion E; subst; unfold utf8.RuneError; byte_ranges;
    (split; [split|]); intros; try lia; auto;
    exfalso; Z.div_mod_to_equations; lia.
Qed.

(** A decoded rune is a Unicode scalar value, or [RuneError]. *)
Lemma DecodeRune_scalar (c : ascii) (s : string) (r : rune) (size : nat) :
  utf8.DecodeRune (String c s) = (r, size) ->
  0 <= r <= utf8.MaxRune /\ ~ (utf8.surrogateMin <= r <= utf8.surrogateMax).
Proof.
  intros E. apply DecodeRune_decoded in E.
  unfold utf8.MaxRune, utf8.surrogateMin, utf8.surrogateMax.
  inversion E; subst; unfold utf8.RuneError; byte_ranges;
    Z.div_mod_to_equations; lia.
Qed.

(** The encoding of a decoded rune is the bytes it was decoded from, unless
    these were not well formed. *)
Lemma EncodeRune_DecodeRune (c : ascii) (s : string) (r : rune) (size : nat) :
  utf8.DecodeRune (String c s) = (r, size) ->
  (size = 1%nat -> b2z c < 0x80) ->
  utf8.EncodeRune r = take size (String c s).
Proof.
  intros E Hv. pose proof (DecodeRune_scalar _ _ _ _ E) as [Hr Hs].
  apply DecodeRune_decoded in E.
  unfold utf8.EncodeRune, utf8.bytes3, uint32, utf8.MaxRune, utf8.surrogateMin,
    utf8.surrogateMax, utf8.rune1Max, utf8.rune2Max, utf8.rune3Max,
    utf8.t2, utf8.t3, utf8.t4, utf8.tx, utf8.maskx in *.
  rewrite Z.mod_small by lia. cbv zeta.
  rewrite ?land_3F, ?shiftr_6, ?shiftr_12, ?shiftr_18.
  inversion E; subst; byte_ranges; simpl take.
  - (* one byte *)
    destruct (b2z c <=? 127) eqn:C; cmp_cases; [|lia]. now rewrite z2b_b2z.
  - specialize (Hv eq_refl). lia.
  - (* two bytes *)
    set (r := b2z c mod 32 * 64 + b2z c1 mod 64) in *.
    assert (128 <= r <= 2047) by (subst r; Z.div_mod_to_equations; lia).
    destruct (r <=? 127) eqn:C1; cmp_cases; [lia|].
    destruct (r <=? 2047) eqn:C2; cmp_cases; [|lia].
    rewrite lor_C0, lor_80 by (Z.div_mod_to_equations; lia).
    f_equal; [|f_equal]; rewrite <- z2b_b2z; f_equal; subst r;
      Z.div_mod_to_equations; lia.
  - (* three bytes *)
    set (r := b2z c mod 16 * 4096 + b2z c1 mod 64 * 64 + b2z c2 mod 64) in *.
    assert (2048 <= r <= 65535) by (subst r; Z.div_mod_to_equations; lia).
    destruct (r <=? 127) eqn:C1; cmp_cases; [lia|].
    destruct (r <=? 2047) eqn:C2; cmp_cases; [lia|].
    destruct ((1114111 <? r) || (55296 <=? r) && (r <=? 57343)) eqn:C3.
    { exfalso. apply orb_prop in C3 as [C3|C3]; cmp_cases; lia. }
    destruct (r <=? 65535) eqn:C4; cmp_cases; [|lia].
    rewrite lor_E0, !lor_80 by (Z.div_mod_to_equations; lia).
    f_equal; [|f_equal; [|f_equal]]; rewrite <- z2b_b2z; f_equal; subst r;
      Z.div_mod_to_equations; lia.
  - (* four bytes *)
    set (r := b2z c mod 8 * 262144 + b2z c1 mod 64 * 4096
              + b2z c2 mod 64 * 64 + b2z c3 mod 64) in *.
    assert (65536 <= r <= 1114111) by (subst r; Z.div_mod_to_equations; lia).
    destruct (r <=? 127) eqn:C1; cmp_cases; [lia|].
    destruct (r <=? 2047) eqn:C2; cmp_cases; [lia|].
    destruct ((1114111 <? r) || (55296 <=? r) && (r <=? 57343)) eqn:C3.
    { exfalso. apply orb_prop in C3 as [C3|C3]; cmp_cases; lia. }
    destruct (r <=? 65535) eqn:C4; cmp_cases; [lia|].
    rewrite lor_F0, !lor_80 by (Z.div_mod_to_equations; lia).
    f_equal; [|f_equal; [|f_equal; [|f_equal]]]; rewrite <- z2b_b2z; f_equal; subst r;
      Z.div_mod_to_equations; lia.
Qed.

(** A well-formed sequence is decoded the same whatever follows it. *)
Lemma DecodeRune_app (c : ascii) (s t : string) (r : rune) (size : nat) :
  utf8.DecodeRune (String c s) = (r, size) ->
  (size = 1%nat -> b2z c < 0x80) ->
  utf8.DecodeRune (take size (String c s) +:+ t) = (r, size).
Proof.
  intros E Hv. pose proof E as D. apply DecodeRune_decoded in D.
  inversion D; subst; simpl take; simpl String.append.
  - now apply DecodeRune_ascii.
  - specialize (Hv eq_refl). lia.
  - clear D Hv. unfold utf8.DecodeRune in *. cbv zeta in *.
    destruct (utf8.first _) as [| |sz lo hi]; try congruence.
    repeat match type of E with
           | context [if ?x then _ else _] => destruct x
           | context [match ?u with "" => _ | String _ _ => _ end] => destruct u
           end; congruence.
  - clear D Hv. unfold utf8.DecodeRune in *. cbv zeta in *.
    destruct (utf8.first _) as [| |sz lo hi]; try congruence.
    repeat match type of E with
           | context [if ?x then _ else _] => destruct x
           | context [match ?u with "" => _ | String _ _ => _ end] => destruct u
           end; congruence.
  - clear D Hv. unfold utf8.DecodeRune in *. cbv zeta in *. exact E.
Qed.

Lemma first_lead p0 sz lo hi :
  utf8.first p0 = utf8.fLead sz lo hi -> 0x80 <= lo.
Proof.
  unfold utf8.first, utf8.locb.
  repeat match goal with |- context [if ?x then _ else _] => destruct x end;
    intros [= <- <- <-] || discriminate; lia.
Qed.

Lemma DecodeRune_ext (c : ascii) (s t : string) :
  ascii_start t ->
  utf8.DecodeRune (String c s +:+ t) = utf8.DecodeRune (String c s).
Proof.
  intros Ht. simpl String.append. unfold utf8.DecodeRune. cbv zeta.
  destruct (utf8.first (b2z c)) as [| |sz lo hi] eqn:F; try reflexivity.
  apply first_lead in F.
  assert (Hlo : forall c', b2z c' < 128 -> ((b2z c' <? lo) || (hi <? b2z c')) = true).
  { intros c' H. apply orb_true_intro. left. apply Z.ltb_lt. lia. }
  assert (Hc : forall c', b2z c' < 128 -> negb (utf8.cont (b2z c')) = true).
  { intros c' H. unfold utf8.cont, utf8.locb. apply negb_true_iff.
    apply andb_false_intro1. apply Z.leb_gt. lia. }
  destruct s as [|c1 s]; simpl String.append; cbv beta iota.
  { destruct t as [|c' t]; [reflexivity|]. simpl in Ht. now rewrite Hlo. }
  destruct (_ || _); [reflexivity|]. destruct (sz <=? 2)%nat; [reflexivity|].
  destruct s as [|c2 s]; simpl String.append; cbv beta iota.
  { destruct t as [|c' t]; [reflexivity|]. simpl in Ht. now rewrite Hc. }
  destruct (negb _); [reflexivity|]. destruct (sz <=? 3)%nat; [reflexivity|].
  destruct s as [|c3 s]; simpl String.append; cbv beta iota.
  { destruct t as [|c' t]; [reflexivity|]. simpl in Ht. now rewrite Hc. }
  reflexivity.
Qed.


(** ** Whitespace *)

Lemma isJsonWhitespace_ascii (r : rune) : isJsonWhitespace r = true -> r < 0x80.
Proof.
  unfold isJsonWhitespace, rn. intros H.
  repeat (apply orb_prop in H as [H|H]); apply Z.eqb_eq in H; subst; reflexivity.
Qed.

(** The rune read from a text is whitespace exactly when the first byte
    is, and then it is that byte. *)
Lemma DecodeRune_ws (c : ascii) (s : string) (r : rune) (size : nat) :
  utf8.DecodeRune (String c s) = (r, size) ->
  isJsonWhitespace r = ws_byte c /\ (ws_byte c = true -> size = 1%nat).
Proof.
  intros E. pose proof (DecodeRune_below_RuneSelf _ _ _ _ E) as [Hiff Hlt].
  unfold ws_byte.
  destruct (isJsonWhitespace r) eqn:W1.
  - apply isJsonWhitespace_ascii in W1 as L. destruct (Hlt L) as [-> ->].
    rewrite W1. auto.
  - destruct (isJsonWhitespace (b2z c)) eqn:W2; [|split; [reflexivity|discriminate]].
    apply isJsonWhitespace_ascii in W2 as L. apply Hiff in L.
    destruct (Hlt L) as [-> _]. congruence.
Qed.

Lemma skip_ws_all_ws (pre s : string) :
  all_ws pre = true -> skip_ws (pre +:+ s) = skip_ws s.
Proof.
  induction pre as [|c pre IH]; simpl; [reflexivity|].
  intros H. apply andb_prop in H as [-> H]. auto.
Qed.

Lemma skip_ws_idem (s : string) : skip_ws (skip_ws s) = skip_ws s.
Proof.
  induction s as [|c s IH]; simpl; [reflexivity|].
  destruct (ws_byte c) eqn:W; [assumption|]. simpl. now rewrite W.
Qed.

Lemma skip_ws_length (s : string) :
  (String.length (skip_ws s) <= String.length s)%nat.
Proof.
  induction s as [|c s IH]; simpl; [lia|]. destruct (ws_byte c); simpl; lia.
Qed.

(** Where the whitespace stops there is no whitespace. *)
Lemma skip_ws_head (s : string) (c : ascii) (s' : string) :
  skip_ws s = String c s' -> ws_byte c = false.
Proof.
  induction s as [|d s IH]; simpl; [discriminate|].
  destruct (ws_byte d) eqn:W; [assumption|]. now intros [= <- <-].
Qed.

Lemma skip_ws_no_ws (c : ascii) (s : string) :
  ws_byte c = false -> skip_ws (String c s) = String c s.
Proof. intros H. simpl. now rewrite H. Qed.

(** ** The encoder of strings *)

Lemma WriteString_ok (s : string) (w : bufio.Writer) :
  bufio.err w = None ->
  bufio.WriteString s w =
  (None, {| bufio.written := bufio.written w +:+ s; bufio.err := None |}).
Proof. intros H. unfold bufio.WriteString. now rewrite H. Qed.

Lemma MarshalString_switch_ok (c : rune) (w : bufio.Writer) :
  bufio.err w = None ->
  MarshalString_switch c w =
  (None, {| bufio.written := bufio.written w +:+ escape_rune c; bufio.err := None |}).
Proof.
  intros H. unfold MarshalString_switch, escape_rune, bufio.WriteRune.
  repeat match goal with |- context [if ?x then _ else _] => destruct x end;
    now apply WriteString_ok.
Qed.

Lemma MarshalString_range_ok (value : string) (cs : list rune) (w : bufio.Writer) :
  bufio.err w = None ->
  MarshalString_range value cs w =
  (None, {| bufio.written := bufio.written w +:+ escape cs; bufio.err := None |}).
Proof.
  revert w. induction cs as [|c cs IH]; intros w H; simpl.
  - unfold noError. rewrite append_nil_r. destruct w; simpl in *; now subst.
  - unfold andThen. rewrite MarshalString_switch_ok by assumption.
    rewrite IH by reflexivity. cbn [bufio.written]. now rewrite append_assoc.
Qed.

Lemma MarshalString_ok (value : string) (w : bufio.Writer) :
  bufio.err w = None ->
  MarshalString value w =
  (None, {| bufio.written := bufio.written w +:+ DQ +:+ escape (utf8.runes value) +:+ DQ;
            bufio.err := None |}).
Proof.
  intros H. unfold MarshalString, andThen, bufio.WriteByte, noError. cbv beta.
  rewrite WriteString_ok by assumption.
  rewrite MarshalString_range_ok by reflexivity. cbn [bufio.written].
  rewrite WriteString_ok by reflexivity. cbn [bufio.written].
  now rewrite !append_assoc.
Qed.

(** On a string in UTF-8 the runes are written as the bytes they came
    from. *)
Lemma escape_bytes_app (s t : string) :
  escape_bytes (s +:+ t) = escape_bytes s +:+ escape_bytes t.
Proof.
  induction s as [|c s IH]; simpl; [reflexivity|]. now rewrite IH, append_assoc.
Qed.

Lemma escape_byte_high (c : ascii) : 0x80 <= b2z c -> escape_byte c = String c "".
Proof.
  intros H. unfold escape_byte, rn.
  repeat match goal with |- context [?x =? ?y] =>
    destruct (Z.eqb_spec x y) as [E|_];
      [try (rewrite E in H; vm_compute in H; now contradiction H) |]
  end. reflexivity.
Qed.

Lemma escape_rune_high (r : rune) : 0x80 <= r -> escape_rune r = utf8.EncodeRune r.
Proof.
  intros H. unfold escape_rune, rn.
  repeat match goal with |- context [?x =? ?y] =>
    destruct (Z.eqb_spec x y) as [E|_];
      [try (rewrite E in H; vm_compute in H; now contradiction H) |]
  end. reflexivity.
Qed.

Lemma escape_decoded (s : string) (r : rune) (size : nat) :
  decoded s r size ->
  (size = 1%nat -> r <> utf8.RuneError) ->
  utf8.EncodeRune r = take size s ->
  escape_rune r = escape_bytes (take size s).
Proof.
  intros D Hv HE.
  inversion D; subst; simpl take in *; simpl escape_bytes; byte_ranges.
  - unfold escape_rune, escape_byte. rewrite HE, append_nil_r. reflexivity.
  - exfalso. now apply Hv.
  - rewrite !escape_byte_high by lia. simpl.
    rewrite escape_rune_high by (Z.div_mod_to_equations; lia). assumption.
  - rewrite !escape_byte_high by lia. simpl.
    rewrite escape_rune_high by (Z.div_mod_to_equations; lia). assumption.
  - rewrite !escape_byte_high by lia. simpl.
    rewrite escape_rune_high by (Z.div_mod_to_equations; lia). assumption.
Qed.

Lemma escape_valid (fuel : nat) (s : string) :
  (String.length s <= fuel)%nat ->
  utf8.valid_fuel fuel s = true ->
  escape (utf8.runes_fuel fuel s) = escape_bytes s.
Proof.
  revert s. induction fuel as [|fuel IH]; intros s Hl Hv.
  - destruct s; [reflexivity | simpl in Hl; lia].
  - destruct s as [|c s]; [reflexivity|].
    cbn [utf8.valid_fuel utf8.runes_fuel] in *.
    destruct (utf8.DecodeRune (String c s)) as [r size] eqn:D.
    apply andb_prop in Hv as [Hv1 Hv2]. apply negb_true_iff in Hv1.
    pose proof (DecodeRune_size c s) as Hs. rewrite D in Hs. cbn [snd] in Hs.
    pose proof (DecodeRune_decoded _ _ _ _ D) as Dd.
    assert (Hone : size = 1%nat -> r <> utf8.RuneError).
    { intros -> ->. now rewrite Z.eqb_refl, Nat.eqb_refl in Hv1. }
    assert (Hasc : size = 1%nat -> b2z c < 0x80).
    { intros ->. inversion Dd; subst; [assumption | now exfalso; apply Hone]. }
    pose proof (EncodeRune_DecodeRune _ _ _ _ D Hasc) as HE.
    simpl escape. rewrite (escape_decoded _ _ _ Dd Hone HE).
    rewrite IH; [| rewrite length_drop; simpl in *; lia | assumption].
    rewrite <- escape_bytes_app. now rewrite take_drop.
Qed.

(** C8: [MarshalString] writes the string between double quotes, each code
    point as its escape when it is one of the seven and as itself
    otherwise; on a string in UTF-8 every byte other than the seven
    characters is written as it is. *)
Theorem C8_string_encoding (value : string) (w : bufio.Writer) :
  bufio.err w = None ->
  MarshalString value w =
    (None, {| bufio.written :=
                bufio.written w +:+ DQ +:+ escape (utf8.runes value) +:+ DQ;
              bufio.err := None |}) /\
  (utf8.ValidString value = true ->
   escape (utf8.runes value) = escape_bytes value).
Proof.
  intros H. split; [now apply MarshalString_ok|].
  intros V. apply escape_valid; [lia | exact V].
Qed.

Lemma C8_witness :
  MarshalString "a\b" bufio.NewWriter =
    (None, {| bufio.written :=
                bufio.written bufio.NewWriter +:+ DQ +:+ escape (utf8.runes "a\b") +:+ DQ;
              bufio.err := None |}) /\
  escape (utf8.runes "a\b") = escape_bytes "a\b".
Proof.
  destruct (C8_string_encoding "a\b" bufio.NewWriter eq_refl) as [Hw Hb].
  split; [exact Hw | apply Hb; reflexivity].
Defined.

(** ** Integers: [FormatInt] and [ParseInt] *)

Lemma digits_value_app (n : Z) (s t : string) :
  digits_value n (s +:+ t) = digits_value (digits_value n s) t.
Proof. revert n. induction s as [|c s IH]; intros n; simpl; [reflexivity|apply IH]. Qed.

Lemma all_digits_app (s t : string) :
  all_digits (s +:+ t) = all_digits s && all_digits t.
Proof. induction s as [|c s IH]; simpl; [reflexivity|]. now rewrite IH, andb_assoc. Qed.

Lemma isDigitByte_range (c : ascii) :
  strconv.isDigitByte c = true -> 0 <= b2z c - rn "0" <= 9.
Proof.
  unfold strconv.isDigitByte, rn. intros H. apply andb_prop in H as [H1 H2].
  apply Z.leb_le in H1, H2. change (b2z "0") with 48 in *. change (b2z "9") with 57 in *.
  lia.
Qed.

Lemma digits_value_ge (n : Z) (s : string) :
  0 <= n -> all_digits s = true -> n <= digits_value n s.
Proof.
  revert n. induction s as [|c s IH]; intros n Hn H; simpl in *; [lia|].
  apply andb_prop in H as [Hc H]. apply isDigitByte_range in Hc.
  specialize (IH (n * 10 + (b2z c - rn "0")) ltac:(lia) H). lia.
Qed.

(** The digit that [formatBits] writes for a number below ten. *)
Lemma digit_byte (u : Z) :
  0 <= u < 10 ->
  strconv.isDigitByte (z2b (rn "0" + u)) = true /\ b2z (z2b (rn "0" + u)) - rn "0" = u.
Proof.
  intros H. unfold strconv.isDigitByte, rn. change (b2z "0") with 48. change (b2z "9") with 57.
  rewrite b2z_z2b by lia. split; [|lia].
  apply andb_true_intro. split; apply Z.leb_le; lia.
Qed.

(** What the digit loop writes: digits, in front of what was written, with
    the value of the number; the first one is not a zero unless the number
    is zero. *)
Lemma formatBits_loop_spec (turns : nat) (u : Z) (acc : string) :
  0 <= u < 10 ^ Z.of_nat (S turns) ->
  exists c ds,
    strconv.formatBits_loop (S turns) u acc = String c ds +:+ acc /\
    all_digits (String c ds) = true /\
    digits_value 0 (String c ds) = u /\
    (u = 0 -> ds = "") /\ (0 < u -> b2z c <> rn "0").
Proof.
  revert u acc. induction turns as [|turns IH]; intros u acc Hu;
    cbn [strconv.formatBits_loop]; destruct (u <? 10) eqn:C.
  1,3: apply Z.ltb_lt in C; destruct (digit_byte u ltac:(lia)) as [Hd Hv];
    exists (z2b (rn "0" + u)), ""; simpl; rewrite Hd, Hv;
    repeat split; auto; intros Hp E; rewrite E in Hv; lia.
  - apply Z.ltb_ge in C. simpl in Hu. lia.
  - apply Z.ltb_ge in C.
    assert (Hq : 0 <= u / 10 < 10 ^ Z.of_nat (S turns)).
    { rewrite (Nat2Z.inj_succ (S turns)), Z.pow_succ_r in Hu by lia.
      split; [apply Z.div_pos; lia | apply Z.div_lt_upper_bound; lia]. }
    destruct (IH (u / 10) (String (z2b (rn "0" + u mod 10)) acc) Hq)
      as (c & ds & E & Hd & Hv & _ & Hnz).
    cbn [strconv.formatBits_loop] in E. rewrite E.
    destruct (digit_byte (u mod 10) ltac:(apply Z.mod_pos_bound; lia)) as [Hd' Hv'].
    exists c, (ds +:+ String (z2b (rn "0" + u mod 10)) "").
    split; [simpl; now rewrite append_assoc|].
    split.
    { change (String c (ds +:+ String (z2b (rn "0" + u mod 10)) ""))
        with (String c ds +:+ String (z2b (rn "0" + u mod 10)) "").
      rewrite all_digits_app, Hd. simpl. now rewrite Hd'. }
    split.
    { change (String c (ds +:+ String (z2b (rn "0" + u mod 10)) ""))
        with (String c ds +:+ String (z2b (rn "0" + u mod 10)) "").
      rewrite digits_value_app, Hv. simpl. rewrite Hv'.
      pose proof (Z.div_mod u 10 ltac:(lia)). lia. }
    split; [lia|]. intros _. apply Hnz.
    apply Z.div_str_pos. lia.
Qed.

(** The loop of [ParseUint] on digits: their value, when it fits. *)
Lemma ParseUint_loop_digits (s : string) (n : Z) :
  all_digits s = true -> 0 <= n -> digits_value n s <= strconv.maxUint64 ->
  strconv.ParseUint_loop s 10 (strconv.maxUint64 / 10 + 1) ((2 ^ 64 - 1) mod 2 ^ 64) n
  = (digits_value n s, None).
Proof.
  revert n. induction s as [|c s IH]; intros n Hd Hn Hv; simpl in *; [reflexivity|].
  apply andb_prop in Hd as [Hc Hd].
  pose proof (isDigitByte_range _ Hc) as Hr.
  pose proof (digits_value_ge (n * 10 + (b2z c - rn "0")) s ltac:(lia) Hd) as Hge.
  unfold strconv.digitVal.
  replace ((rn "0" <=? b2z c) && (b2z c <=? rn "9")) with true
    by (symmetry; exact Hc).
  unfold strconv.maxUint64 in *.
  destruct (10 <=? b2z c - rn "0") eqn:C1; [apply Z.leb_le in C1; lia|].
  destruct ((2 ^ 64 - 1) / 10 + 1 <=? n) eqn:C2.
  { apply Z.leb_le in C2. exfalso.
    assert ((2 ^ 64 - 1) / 10 * 10 + 10 <= n * 10) by lia.
    pose proof (Z.div_mod (2 ^ 64 - 1) 10 ltac:(lia)).
    pose proof (Z.mod_pos_bound (2 ^ 64 - 1) 10 ltac:(lia)). lia. }
  cbv zeta.
  rewrite (Z.mod_small (n * 10 + _)) by lia.
  rewrite (Z.mod_small (2 ^ 64 - 1)) by lia.
  destruct (n * 10 + (b2z c - rn "0") <? n * 10) eqn:C3; [apply Z.ltb_lt in C3; lia|].
  destruct (2 ^ 64 - 1 <? n * 10 + (b2z c - rn "0")) eqn:C4; [apply Z.ltb_lt in C4; lia|].
  cbn [orb].
  specialize (IH (n * 10 + (b2z c - rn "0")) Hd ltac:(lia) Hv).
  rewrite (Z.mod_small (2 ^ 64 - 1)) in IH by lia. exact IH.
Qed.

Lemma isDigitByte_not_sign (c : ascii) :
  strconv.isDigitByte c = true ->
  (b2z c =? rn "+") = false /\ (b2z c =? rn "-") = false.
Proof.
  intros H. apply isDigitByte_range in H. unfold rn in *.
  change (b2z "0") with 48 in H. change (b2z "+") with 43. change (b2z "-") with 45.
  split; apply Z.eqb_neq; lia.
Qed.

(** C4, integers: [FormatInt] writes an integer text, which [ParseInt]
    reads back. *)
Lemma FormatInt_ParseInt (i : Z) :
  - 2 ^ 63 <= i < 2 ^ 63 ->
  int_text (strconv.FormatInt i) /\
  strconv.ParseInt (strconv.FormatInt i) 10 64 = (i, None).
Proof.
  intros Hi. unfold strconv.FormatInt.
  destruct (i <? 0) eqn:Neg.
  - apply Z.ltb_lt in Neg.
    destruct (formatBits_loop_spec 19 (- i) "" ltac:(simpl; lia))
      as (c & ds & -> & Hd & Hv & _ & Hnz).
    rewrite append_nil_r. simpl in Hd. apply andb_prop in Hd as [Hc Hds].
    split; [apply int_neg; auto; apply Hnz; lia|].
    unfold strconv.ParseInt.
    change (b2z "-" =? rn "+") with false. change (b2z "-" =? rn "-") with true.
    cbv iota beta. unfold strconv.ParseUint.
    rewrite ParseUint_loop_digits;
      [| simpl; now rewrite Hc, Hds | lia | rewrite Hv; unfold strconv.maxUint64; lia].
    rewrite Hv. cbv iota beta zeta.
    change (negb true) with false. cbn [andb].
    destruct (2 ^ (64 - 1) <? - i) eqn:C; [apply Z.ltb_lt in C; simpl in C; lia|].
    f_equal. lia.
  - apply Z.ltb_ge in Neg.
    destruct (formatBits_loop_spec 19 i "" ltac:(simpl; lia))
      as (c & ds & -> & Hd & Hv & Hz & Hnz).
    rewrite append_nil_r. pose proof Hd as Hd'. simpl in Hd'.
    apply andb_prop in Hd' as [Hc Hds].
    split.
    { destruct (Z.eq_dec i 0) as [->|Hne].
      - rewrite (Hz eq_refl) in *. simpl in Hv.
        assert (c = "0"%char) as -> by (apply b2z_inj; unfold rn in *; lia).
        constructor.
      - apply int_pos; auto. apply Hnz. lia. }
    unfold strconv.ParseInt.
    destruct (isDigitByte_not_sign _ Hc) as [-> ->].
    cbv iota beta. unfold strconv.ParseUint.
    rewrite ParseUint_loop_digits; [| exact Hd | lia | rewrite Hv; unfold strconv.maxUint64; lia].
    rewrite Hv. cbv iota beta zeta. change (negb false) with true. cbn [andb].
    destruct (2 ^ (64 - 1) <=? i) eqn:C; [apply Z.leb_le in C; simpl in C; lia|].
    reflexivity.
Qed.

(** ** The bytes that wait in a buffer *)

Lemma take_beyond (n : nat) (s : string) :
  (String.length s <= n)%nat -> take n s = s.
Proof.
  revert n. induction s as [|c s IH]; intros [|n] H; simpl in *; try reflexivity; try lia.
  now rewrite IH by lia.
Qed.

Lemma drop_beyond (n : nat) (s : string) :
  (String.length s <= n)%nat -> drop n s = "".
Proof.
  revert n. induction s as [|c s IH]; intros [|n] H; simpl in *; try reflexivity; try lia.
  apply IH. lia.
Qed.

Lemma take_min (n : nat) (s : string) :
  take (Nat.min n (String.length s)) s = take n s.
Proof.
  revert n. induction s as [|c s IH]; intros [|n]; simpl; try reflexivity.
  now rewrite IH.
Qed.

Lemma drop_min (n : nat) (s : string) :
  drop (Nat.min n (String.length s)) s = drop n s.
Proof.
  revert n. induction s as [|c s IH]; intros [|n]; simpl; try reflexivity.
  now rewrite IH.
Qed.

Lemma take_empty (n : nat) (s : string) :
  take n s = "" -> n = 0%nat \/ s = "".
Proof. destruct n, s; simpl; auto; discriminate. Qed.

Lemma first_width (p0 : Z) (sz : nat) (lo hi : Z) :
  utf8.first p0 = utf8.fLead sz lo hi -> sz = 2%nat \/ sz = 3%nat \/ sz = 4%nat.
Proof.
  unfold utf8.first.
  repeat match goal with |- context [if ?x then _ else _] => destruct x end;
    intros [= <- <- <-] || discriminate; auto.
Qed.

(** [DecodeRune] looks at four bytes at most. *)
Lemma DecodeRune_take (n : nat) (s : string) :
  (4 <= n)%nat -> utf8.DecodeRune (take n s) = utf8.DecodeRune s.
Proof.
  intros H. do 4 (destruct n as [|n]; [lia|]).
  destruct s as [|c0 [|c1 [|c2 [|c3 s]]]]; reflexivity.
Qed.

(** A whole rune is decoded the same way whatever follows it. *)
Lemma FullRune_DecodeRune (p t : string) :
  utf8.FullRune p = true -> utf8.DecodeRune (p +:+ t) = utf8.DecodeRune p.
Proof.
  destruct p as [|c0 p]; [discriminate|].
  simpl String.append. unfold utf8.FullRune, utf8.DecodeRune. cbv zeta.
  destruct (utf8.first (b2z c0)) as [| |sz lo hi] eqn:F; try reflexivity.
  apply first_width in F.
  destruct p as [|c1 p]; simpl String.append; cbv beta iota.
  { destruct F as [-> | [-> | ->]]; discriminate. }
  destruct ((b2z c1 <? lo) || (hi <? b2z c1)) eqn:A1.
  { intros _. reflexivity. }
  destruct p as [|c2 p]; simpl String.append; cbv beta iota.
  { destruct F as [-> | [-> | ->]]; simpl; try discriminate. reflexivity. }
  unfold utf8.cont.
  replace ((utf8.locb <=? b2z c2) && (b2z c2 <=? utf8.hicb))
    with (negb ((b2z c2 <? utf8.locb) || (utf8.hicb <? b2z c2)))
    by (rewrite negb_orb, !Z.ltb_antisym, !negb_involutive; reflexivity).
  rewrite negb_involutive.
  destruct ((b2z c2 <? utf8.locb) || (utf8.hicb <? b2z c2)) eqn:A2.
  { intros _. destruct F as [-> | [-> | ->]]; reflexivity. }
  destruct p as [|c3 p]; simpl String.append; cbv beta iota.
  { destruct F as [-> | [-> | ->]]; simpl; try discriminate; reflexivity. }
  intros _. destruct F as [-> | [-> | ->]]; reflexivity.
Qed.

(** What [ReadRune] decodes from the buffer is the first rune of the
    stream, when the buffer has four bytes, a whole rune or the rest of the
    stream. *)
Lemma DecodeRune_buffered (n : nat) (s : string) :
  (4 <= n)%nat \/ utf8.FullRune (take n s) = true \/ (String.length s <= n)%nat ->
  utf8.DecodeRune (take n s) = utf8.DecodeRune s.
Proof.
  intros [H | [H | H]].
  - now apply DecodeRune_take.
  - rewrite <- (take_drop n s) at 2. symmetry. now apply FullRune_DecodeRune.
  - now rewrite take_beyond.
Qed.

Lemma DecodeRune_width (s : string) :
  (snd (utf8.DecodeRune s) <= String.length s)%nat.
Proof.
  destruct s as [|c s]; [simpl; lia|]. apply DecodeRune_size.
Qed.

Lemma length_spaces (n : nat) : String.length (spaces n) = n.
Proof. induction n as [|n IH]; simpl; [reflexivity | now rewrite IH]. Qed.

Module StreamFacts.

Set Warnings "-notation-overridden".
Import Stream.
Set Warnings "+notation-overridden".

#[local] Arguments String.append !_ _ : simpl nomatch.

(** * Properties of the decoder over a stream *)

(** ** Reads and their effect on what is pending *)

Lemma ReadRune_eof (b : bufio.Reader) :
  bufio.unread b = "" ->
  bufio.ReadRune b = (Err EOF, {| bufio.unread := ""; bufio.lastRune := None |}).
Proof. intros H. unfold bufio.ReadRune. now rewrite H. Qed.

Lemma ReadRune_cases (b : bufio.Reader) :
  (bufio.unread b = "" /\
   bufio.ReadRune b = (Err EOF, {| bufio.unread := ""; bufio.lastRune := None |})) \/
  (exists r size,
     bufio.unread b <> "" /\
     utf8.DecodeRune (bufio.unread b) = (r, size) /\
     (1 <= size <= String.length (bufio.unread b))%nat /\
     bufio.ReadRune b =
       (Ok r, {| bufio.unread := drop size (bufio.unread b);
                 bufio.lastRune := Some (take size (bufio.unread b)) |})).
Proof.
  unfold bufio.ReadRune.
  destruct (bufio.unread b) as [|c s] eqn:E; [left; auto | right].
  pose proof (DecodeRune_size c s) as H.
  destruct (utf8.DecodeRune (String c s)) as [r size] eqn:D.
  exists r, size. cbn [snd String.length] in H. cbn [String.length].
  split; [discriminate|]. split; [reflexivity|]. split; [lia|reflexivity].
Qed.

Lemma len_le_plen (b : bufio.Reader) : (len b <= plen b)%nat.
Proof.
  unfold plen, pending, len. destruct (bufio.lastRune b); [|lia].
  rewrite length_append. lia.
Qed.

Lemma ReadRune_ok (b : bufio.Reader) (r : rune) (b' : bufio.Reader) :
  bufio.ReadRune b = (Ok r, b') ->
  pending b' = bufio.unread b /\ (len b' < len b)%nat.
Proof.
  destruct (ReadRune_cases b) as [[_ H]|(r0 & size & Hne & HD & Hsz & H)];
    rewrite H; intros [= <- <-]; unfold pending, len; simpl.
  split; [apply take_drop | rewrite length_drop; lia].
Qed.

Lemma ReadRune_plen (b : bufio.Reader) res b' :
  bufio.ReadRune b = (res, b') -> (plen b' <= len b)%nat.
Proof.
  intros H.
  destruct (ReadRune_cases b) as [[_ E]|(r0 & size & Hne & HD & Hsz & E)];
    rewrite E in H; injection H as <- <-; unfold plen, pending, len; simpl;
    [lia | now rewrite take_drop].
Qed.

Lemma ReadRune_reading : reading bufio.ReadRune.
Proof. intros b res b' H _. eapply ReadRune_plen; eauto. Qed.

Lemma Read_plen (n : nat) (b : bufio.Reader) res b' :
  bufio.Read n b = (res, b') -> (plen b' <= len b)%nat.
Proof.
  intros H. unfold bufio.Read in H.
  destruct (bufio.unread b) as [|c s] eqn:E; injection H as <- <-;
    unfold plen, pending, len; simpl; [lia|].
  rewrite E, length_drop. lia.
Qed.

Lemma Read_reading (n : nat) : reading (bufio.Read n).
Proof. intros b res b' H _. eapply Read_plen; eauto. Qed.

Lemma Read_ok (n : nat) (b : bufio.Reader) (v : string) (b' : bufio.Reader) :
  bufio.Read n b = (Ok v, b') ->
  v = take n (bufio.unread b) /\ bufio.unread b' = drop n (bufio.unread b) /\
  bufio.lastRune b' = None /\ bufio.unread b <> "".
Proof.
  unfold bufio.Read. destruct (bufio.unread b) as [|c s]; [discriminate|].
  intros [= <- <-]. simpl. repeat split; discriminate.
Qed.

Lemma UnreadRune_ok (b : bufio.Reader) (u : unit) (b' : bufio.Reader) :
  bufio.UnreadRune b = (Ok u, b') ->
  bufio.unread b' = pending b /\ bufio.lastRune b' = None.
Proof.
  unfold bufio.UnreadRune, pending. destruct (bufio.lastRune b); [|discriminate].
  intros [= <- <-]. simpl. auto.
Qed.

Lemma UnreadRune_quiet : quiet bufio.UnreadRune.
Proof.
  intros b res b' H _. unfold bufio.UnreadRune in H.
  destruct (bufio.lastRune b) eqn:E; injection H as <- <-; [|lia].
  unfold plen, pending. simpl. rewrite E. lia.
Qed.

(** ** Combining calls *)

Lemma reading_quiet {A} (p : Parser A) : reading p -> quiet p.
Proof.
  intros H b res b' E Hne. pose proof (H _ _ _ E Hne). pose proof (len_le_plen b). lia.
Qed.

Lemma ret_quiet {A} (a : A) : quiet (ret a).
Proof. intros b res b' [= <- <-] _. lia. Qed.

Lemma fail_quiet {A} (e : error) : quiet (@fail A e).
Proof. intros b res b' [= <- <-] _. lia. Qed.

Lemma try_quiet {A} (p : Parser A) wrap : quiet p -> quiet (try p wrap).
Proof.
  intros H b res b' E Hne. unfold try in E.
  destruct (p b) as [[a|e|] b1] eqn:P; injection E as <- <-;
    try congruence; eapply H; eauto; discriminate.
Qed.

Lemma try_reading {A} (p : Parser A) wrap : reading p -> reading (try p wrap).
Proof.
  intros H b res b' E Hne. unfold try in E.
  destruct (p b) as [[a|e|] b1] eqn:P; injection E as <- <-;
    try congruence; eapply H; eauto; discriminate.
Qed.

Lemma try_consuming {A} (p : Parser A) wrap : consuming p -> consuming (try p wrap).
Proof.
  intros H b a b' E. unfold try in E.
  destruct (p b) as [[a0|e|] b1] eqn:P; inversion E; subst; eapply H; eauto.
Qed.

Lemma bind_quiet {A B} (p : Parser A) (k : A -> Parser B) :
  quiet p -> (forall a, quiet (k a)) -> quiet (bind p k).
Proof.
  intros Hp Hk b res b' E Hne. unfold bind in E.
  destruct (p b) as [[a|e|] b1] eqn:P.
  - pose proof (Hp _ _ _ P ltac:(discriminate)). pose proof (Hk a _ _ _ E Hne). lia.
  - injection E as <- <-. eapply Hp; eauto.
  - injection E as <- <-. congruence.
Qed.

Lemma bind_reading {A B} (p : Parser A) (k : A -> Parser B) :
  reading p -> (forall a, quiet (k a)) -> reading (bind p k).
Proof.
  intros Hp Hk b res b' E Hne. unfold bind in E.
  destruct (p b) as [[a|e|] b1] eqn:P.
  - pose proof (Hp _ _ _ P ltac:(discriminate)). pose proof (Hk a _ _ _ E Hne). lia.
  - injection E as <- <-. eapply Hp; eauto.
  - injection E as <- <-. congruence.
Qed.

Lemma bind_consuming_l {A B} (p : Parser A) (k : A -> Parser B) :
  consuming p -> (forall a, quiet (k a)) -> consuming (bind p k).
Proof.
  intros Hp Hk b v b' E. unfold bind in E.
  destruct (p b) as [[a|e|] b1] eqn:P; try discriminate.
  pose proof (Hp _ _ _ P). pose proof (Hk a _ _ _ E ltac:(discriminate)). lia.
Qed.

Lemma bind_consuming_r {A B} (p : Parser A) (k : A -> Parser B) :
  reading p -> (forall a, consuming (k a)) -> consuming (bind p k).
Proof.
  intros Hp Hk b v b' E. unfold bind in E.
  destruct (p b) as [[a|e|] b1] eqn:P; try discriminate.
  pose proof (Hp _ _ _ P ltac:(discriminate)). pose proof (Hk a _ _ _ E).
  pose proof (len_le_plen b1). lia.
Qed.

(** ** Loops *)

Section Loops.

Context {St A : Type} (I : St -> bufio.Reader -> Prop) (body : St -> Parser (step St A)).
Hypothesis Hadv : advances I body.

Lemma loop_turns (n m : nat) (s : St) (b : bufio.Reader) :
  I s b -> (len b < n)%nat -> (len b < m)%nat -> loop n body s b = loop m body s b.
Proof.
  revert m s b. induction n as [|n IH]; intros m s b HI Hn Hm; [lia|].
  destruct m as [|m]; [lia|]. simpl.
  destruct (body s b) as [[[s'|a]|e|] b1] eqn:E; try reflexivity.
  destruct (Hadv _ _ _ _ HI E). apply IH; [assumption|lia|lia].
Qed.

Lemma for_unfold (s : St) (b : bufio.Reader) :
  I s b ->
  for_ body s b =
  match body s b with
  | (Ok (Continue s'), b') => for_ body s' b'
  | (Ok (Break a), b') => (Ok a, b')
  | (Err e, b') => (Err e, b')
  | (OutOfFuel, b') => (OutOfFuel, b')
  end.
Proof.
  intros HI. unfold for_ at 1. simpl.
  destruct (body s b) as [[[s'|a]|e|] b1] eqn:E; try reflexivity.
  destruct (Hadv _ _ _ _ HI E). unfold for_.
  apply loop_turns; auto; unfold len in *; lia.
Qed.

(** Induction on a loop whose body advances: to prove [P] of every run of
    the loop, prove it of a run whose later turns satisfy it. *)
Lemma for_ind (P : St -> bufio.Reader -> Prop) :
  (forall s b,
     I s b ->
     (forall s' b', body s b = (Ok (Continue s'), b') -> P s' b') -> P s b) ->
  forall s b, I s b -> P s b.
Proof.
  intros Hstep s b.
  remember (len b) as n eqn:Hn. revert s b Hn.
  induction n as [n IH] using lt_wf_ind. intros s b -> HI.
  apply Hstep; [assumption|]. intros s' b' E.
  destruct (Hadv _ _ _ _ HI E). eapply IH; eauto.
Qed.

Lemma for_reading (s : St) (b : bufio.Reader) res b' :
  (forall s, reading (body s)) ->
  I s b -> for_ body s b = (res, b') -> res <> OutOfFuel -> (plen b' <= len b)%nat.
Proof.
  intros Hr HI. revert res b'. revert s b HI.
  apply (for_ind (fun s b => forall res b',
    for_ body s b = (res, b') -> res <> OutOfFuel -> (plen b' <= len b)%nat)).
  intros s b HI IH res b' E Hne. rewrite for_unfold in E by assumption.
  destruct (body s b) as [[[s'|a]|e|] b1] eqn:Eb.
  - pose proof (IH _ _ eq_refl _ _ E Hne). destruct (Hadv _ _ _ _ HI Eb). lia.
  - injection E as <- <-. eapply Hr; eauto.
  - injection E as <- <-. eapply Hr; eauto.
  - injection E as <- <-. congruence.
Qed.

(** A loop whose turns stay within the bounds does so itself. *)
Lemma for_total (s : St) (b : bufio.Reader) :
  (forall s b, I s b -> fst (body s b) <> OutOfFuel) ->
  I s b -> fst (for_ body s b) <> OutOfFuel.
Proof.
  intros Htot. revert s b.
  apply (for_ind (fun s b => fst (for_ body s b) <> OutOfFuel)).
  intros s b HI IH. rewrite for_unfold by assumption.
  pose proof (Htot _ _ HI) as Hb.
  destruct (body s b) as [[[s'|a]|e|] b1] eqn:Eb; simpl in *; try discriminate.
  - apply IH; reflexivity.
  - congruence.
Qed.

End Loops.

(** A loop over a body that returns more often returns more often. *)
Lemma loop_refines {St A} (body body' : St -> Parser (step St A)) :
  (forall s, refines (body s) (body' s)) ->
  forall n s, refines (loop n body s) (loop n body' s).
Proof.
  intros H n. induction n as [|n IH]; intros s b res b' E Hne; simpl in *.
  - injection E as <- <-. congruence.
  - destruct (body s b) as [[[s'|a]|e|] b1] eqn:Eb.
    + rewrite (H s b _ _ Eb) by discriminate. eapply IH; eauto.
    + rewrite (H s b _ _ Eb) by discriminate. assumption.
    + rewrite (H s b _ _ Eb) by discriminate. assumption.
    + injection E as <- <-. congruence.
Qed.

Lemma for_refines {St A} (body body' : St -> Parser (step St A)) :
  (forall s, refines (body s) (body' s)) ->
  forall s, refines (for_ body s) (for_ body' s).
Proof. intros H s b. unfold for_. apply loop_refines; assumption. Qed.

Lemma refines_refl {A} (p : Parser A) : refines p p.
Proof. intros b res b' E _. exact E. Qed.

Lemma bind_refines {A B} (p p' : Parser A) (k k' : A -> Parser B) :
  refines p p' -> (forall a, refines (k a) (k' a)) -> refines (bind p k) (bind p' k').
Proof.
  intros Hp Hk b res b' E Hne. unfold bind in *.
  destruct (p b) as [[a|e|] b1] eqn:P.
  - rewrite (Hp _ _ _ P) by discriminate. eapply Hk; eauto.
  - rewrite (Hp _ _ _ P) by discriminate. assumption.
  - injection E as <- <-. congruence.
Qed.

Lemma try_refines {A} (p p' : Parser A) wrap :
  refines p p' -> refines (try p wrap) (try p' wrap).
Proof.
  intros Hp b res b' E Hne. unfold try in *.
  destruct (p b) as [[a|e|] b1] eqn:P.
  - rewrite (Hp _ _ _ P) by discriminate. assumption.
  - rewrite (Hp _ _ _ P) by discriminate. assumption.
  - injection E as <- <-. congruence.
Qed.

Lemma ReadRune_ascii (c : ascii) (s : string) (l : option string) :
  b2z c < 0x80 ->
  bufio.ReadRune {| bufio.unread := String c s; bufio.lastRune := l |} =
  (Ok (b2z c), {| bufio.unread := s; bufio.lastRune := Some (String c "") |}).
Proof.
  intros H. unfold bufio.ReadRune. cbn [bufio.unread].
  now rewrite DecodeRune_ascii.
Qed.

(** ** Whitespace *)

Lemma for_whitespace (b : bufio.Reader) :
  exists eof b1,
    for_ UnmarshalWhitespace_body tt b = (Ok eof, b1) /\
    pending b1 = skip_ws (bufio.unread b) /\
    (if eof then b1 = {| bufio.unread := ""; bufio.lastRune := None |}
     else bufio.lastRune b1 <> None).
Proof.
  destruct b as [s l]. revert l. induction s as [|c s IH]; intros l.
  - exists true, {| bufio.unread := ""; bufio.lastRune := None |}.
    repeat split. 
  - unfold for_. simpl String.length. cbn [loop]. unfold UnmarshalWhitespace_body at 1.
    unfold bufio.ReadRune. cbn [bufio.unread].
    destruct (utf8.DecodeRune (String c s)) as [r size] eqn:D.
    destruct (DecodeRune_ws _ _ _ _ D) as [W Hsz]. simpl skip_ws. rewrite W.
    destruct (ws_byte c) eqn:Wc; cbn [negb].
    + rewrite (Hsz eq_refl). simpl drop. simpl take.
      destruct (IH (Some (String c ""))) as (eof & b1 & F & P & L).
      exists eof, b1. split; [|auto]. rewrite <- F. unfold for_. reflexivity.
    + eexists false, _. split; [reflexivity|]. split; [|discriminate].
      unfold pending. simpl. apply take_drop.
Qed.

(** [UnmarshalWhitespace] takes the leading whitespace off the stream, and
    never fails. *)
Lemma UnmarshalWhitespace_spec (b : bufio.Reader) :
  UnmarshalWhitespace b =
  (Ok tt, {| bufio.unread := skip_ws (bufio.unread b); bufio.lastRune := None |}).
Proof.
  unfold UnmarshalWhitespace, bind.
  destruct (for_whitespace b) as (eof & b1 & -> & P & L).
  destruct eof; cbn [negb].
  - subst b1. unfold ret. now rewrite <- P.
  - unfold try, bufio.UnreadRune. unfold pending in P.
    destruct (bufio.lastRune b1); [|congruence]. now rewrite P.
Qed.

(** ** The productions read, consume and stay within the bounds *)

(** Goals [quiet p] and [reading p] for a call [p] built from reads with
    [bind], [try], [ret], [fail] and conditionals. *)
Ltac quiet_step :=
  match goal with
  | H : quiet ?p |- quiet ?p => exact H
  | H : reading ?p |- reading ?p => exact H
  | H : reading ?p |- quiet ?p => exact (reading_quiet _ H)
  | |- forall _, _ => intro
  | |- reading bufio.ReadRune => exact ReadRune_reading
  | |- reading (bufio.Read _) => apply Read_reading
  | |- quiet bufio.UnreadRune => exact UnreadRune_quiet
  | |- quiet (ret _) => apply ret_quiet
  | |- quiet (fail _) => apply fail_quiet
  | |- quiet (if ?c then _ else _) => destruct c
  | |- reading (if ?c then _ else _) => destruct c
  | |- quiet (let '(_, _) := ?x in _) => destruct x
  | |- quiet (match ?x with _ => _ end) => destruct x
  | |- reading (try _ _) => apply try_reading
  | |- quiet (try _ _) => apply try_quiet
  | |- reading (bind _ _) => apply bind_reading
  | |- quiet (bind _ _) => first [apply bind_quiet | apply reading_quiet]
  | |- quiet bufio.ReadRune => apply reading_quiet
  | |- quiet (bufio.Read _) => apply reading_quiet
  end.

Ltac quiet_tac := repeat quiet_step.

Lemma UnmarshalWhitespace_body_advances : advances always UnmarshalWhitespace_body.
Proof.
  intros s b s' b' _ E. split; [exact I|]. unfold UnmarshalWhitespace_body in E.
  destruct (bufio.ReadRune b) as [[r|e|] b1] eqn:R.
  - apply ReadRune_ok in R as [_ R].
    destruct (negb (isJsonWhitespace r)); inversion E; subst; assumption.
  - destruct e; discriminate.
  - discriminate.
Qed.

Lemma UnmarshalWhitespace_body_reading s : reading (UnmarshalWhitespace_body s).
Proof.
  intros b res b' E Hne. unfold UnmarshalWhitespace_body in E.
  destruct (bufio.ReadRune b) as [[r|e|] b1] eqn:R; apply ReadRune_plen in R.
  - destruct (negb (isJsonWhitespace r)); inversion E; subst; assumption.
  - destruct e; inversion E; subst; assumption.
  - inversion E; subst; assumption.
Qed.

Lemma for_whitespace_reading s : reading (for_ UnmarshalWhitespace_body s).
Proof.
  intros b res b' E Hne.
  eapply (for_reading always); eauto using UnmarshalWhitespace_body_advances,
    UnmarshalWhitespace_body_reading. exact I.
Qed.

Lemma UnmarshalWhitespace_reading : reading UnmarshalWhitespace.
Proof.
  unfold UnmarshalWhitespace. apply bind_reading.
  - apply for_whitespace_reading.
  - quiet_tac.
Qed.

Lemma UnmarshalWhitespace_total (b : bufio.Reader) :
  fst (UnmarshalWhitespace b) <> OutOfFuel.
Proof.
  unfold UnmarshalWhitespace, bind.
  pose proof (for_total always UnmarshalWhitespace_body
                UnmarshalWhitespace_body_advances tt b) as T.
  destruct (for_ UnmarshalWhitespace_body tt b) as [[eof|e|] b1] eqn:F;
    try discriminate.
  - destruct (negb eof); [|discriminate]. unfold try, bufio.UnreadRune.
    destruct (bufio.lastRune b1); discriminate.
  - exfalso. apply T; [|exact I|reflexivity].
    intros s b0 _. unfold UnmarshalWhitespace_body.
    destruct (bufio.ReadRune b0) as [[r|e|] b2] eqn:R.
    + destruct (negb (isJsonWhitespace r)); discriminate.
    + destruct e; discriminate.
    + unfold bufio.ReadRune in R.
      destruct (bufio.unread b0); [discriminate|].
      destruct (utf8.DecodeRune _); discriminate.
Qed.

Lemma ReadRune_total (b : bufio.Reader) : fst (bufio.ReadRune b) <> OutOfFuel.
Proof.
  unfold bufio.ReadRune. destruct (bufio.unread b); [discriminate|].
  destruct (utf8.DecodeRune _); discriminate.
Qed.

(** *** Literals *)

Lemma literal_reading (p : Parser Value) :
  p = UnmarshalNull \/ p = UnmarshalTrue \/ p = UnmarshalFalse -> reading p.
Proof.
  intros [-> | [-> | ->]] b res b' E Hne;
    unfold UnmarshalNull, UnmarshalTrue, UnmarshalFalse in E;
    match type of E with context [bufio.Read ?n b] =>
      destruct (bufio.Read n b) as [[v|e|] b1] eqn:R; apply Read_plen in R
    end;
    repeat match type of E with context [if ?c then _ else _] => destruct c end;
    inversion E; subst; assumption.
Qed.

Lemma Read_length (n : nat) (b : bufio.Reader) (v : string) (b' : bufio.Reader) :
  bufio.Read n b = (Ok v, b') -> String.length v = n ->
  (n <= len b)%nat /\ plen b' = (len b - n)%nat /\ len b' = (len b - n)%nat.
Proof.
  intros R L. apply Read_ok in R as (-> & U & Lr & _).
  rewrite length_take in L. unfold plen, pending, len. rewrite Lr, U, length_drop. lia.
Qed.

Lemma literal_consuming (p : Parser Value) :
  p = UnmarshalNull \/ p = UnmarshalTrue \/ p = UnmarshalFalse -> consuming p.
Proof.
  intros [-> | [-> | ->]] b res b' E;
    unfold UnmarshalNull, UnmarshalTrue, UnmarshalFalse in E;
    match type of E with context [bufio.Read ?n b] =>
      destruct (bufio.Read n b) as [[v|e|] b1] eqn:R; try discriminate;
      destruct (String.length v =? n)%nat eqn:L; simpl in E; try discriminate;
      apply Nat.eqb_eq in L; destruct (Read_length _ _ _ _ R L) as (? & ? & ?)
    end;
    repeat match type of E with context [if ?c then _ else _] => destruct c end;
    inversion E; subst; lia.
Qed.

Lemma literal_total (p : Parser Value) (b : bufio.Reader) :
  p = UnmarshalNull \/ p = UnmarshalTrue \/ p = UnmarshalFalse ->
  fst (p b) <> OutOfFuel.
Proof.
  intros [-> | [-> | ->]];
    unfold UnmarshalNull, UnmarshalTrue, UnmarshalFalse, bufio.Read;
    destruct (bufio.unread b); try discriminate;
    repeat match goal with |- context [if ?c then _ else _] => destruct c end;
    discriminate.
Qed.

(** *** Strings *)

Lemma convertHexToUnicode_reading : reading convertHexToUnicode.
Proof.
  intros b res b' E Hne. unfold convertHexToUnicode in E.
  destruct (bufio.Read 4 b) as [[v|e|] b1] eqn:R; apply Read_plen in R.
  - destruct (negb _); [inversion E; subst; assumption|].
    destruct (strconv.ParseInt v 16 32) as [x [e|]]; inversion E; subst; assumption.
  - inversion E; subst; assumption.
  - inversion E; subst; assumption.
Qed.

Lemma convertHexToUnicode_total (b : bufio.Reader) :
  fst (convertHexToUnicode b) <> OutOfFuel.
Proof.
  unfold convertHexToUnicode, bufio.Read.
  destruct (bufio.unread b); try discriminate.
  destruct (negb _); try discriminate.
  destruct (strconv.ParseInt _ 16 32) as [x [e|]]; discriminate.
Qed.

Lemma UnmarshalString_body_reading st : reading (UnmarshalString_body st).
Proof.
  destruct st as [sb backslash]. unfold UnmarshalString_body.
  pose proof convertHexToUnicode_reading. quiet_tac.
Qed.

Lemma ret_keeps {A} (a : A) b res b' : ret a b = (res, b') -> b' = b.
Proof. now intros [= _ <-]. Qed.

Lemma UnmarshalString_body_advances : advances always UnmarshalString_body.
Proof.
  intros [sb backslash] b s' b' _ E. split; [exact I|]. unfold UnmarshalString_body, bind, try in E.
  destruct (bufio.ReadRune b) as [[r|e|] b1] eqn:R; try discriminate.
  apply ReadRune_ok in R as [_ R].
  repeat match type of E with
         | context [if ?c then _ else _] => destruct c
         end;
    try (apply ret_keeps in E; subst; assumption);
    try discriminate.
  destruct (convertHexToUnicode b1) as [[x|e|] b2] eqn:C; try discriminate.
  pose proof (convertHexToUnicode_reading _ _ _ C ltac:(discriminate)).
  apply ret_keeps in E. subst.
  pose proof (len_le_plen b2). lia.
Qed.

Lemma for_string_reading s : reading (for_ UnmarshalString_body s).
Proof.
  intros b res b' E Hne. eapply (for_reading always); eauto using
    UnmarshalString_body_advances, UnmarshalString_body_reading. exact I.
Qed.

Lemma UnmarshalString_reading : reading UnmarshalString.
Proof.
  unfold UnmarshalString.
  pose proof for_string_reading as H.
  quiet_tac. apply reading_quiet, H.
Qed.

Lemma UnmarshalString_consuming : consuming UnmarshalString.
Proof.
  intros b v b' E. unfold UnmarshalString, bind, try in E.
  destruct (bufio.ReadRune b) as [[r|e|] b1] eqn:R; try discriminate.
  apply ReadRune_ok in R as [_ R].
  destruct (negb (r =? rn dq)); [discriminate|].
  pose proof (for_string_reading _ _ _ _ E ltac:(discriminate)). lia.
Qed.

Lemma UnmarshalString_body_total st b : fst (UnmarshalString_body st b) <> OutOfFuel.
Proof.
  destruct st as [sb backslash]. unfold UnmarshalString_body, bind, try.
  pose proof (ReadRune_total b) as T.
  destruct (bufio.ReadRune b) as [[r|e|] b1] eqn:R; try discriminate;
    [|simpl in T; congruence].
  repeat match goal with
         | |- context [if ?c then _ else _] => destruct c
         end; try discriminate.
  pose proof (convertHexToUnicode_total b1) as T'.
  destruct (convertHexToUnicode b1) as [[x|e|] b2]; try discriminate.
  simpl in T'. congruence.
Qed.

Lemma UnmarshalString_total b : fst (UnmarshalString b) <> OutOfFuel.
Proof.
  unfold UnmarshalString, bind, try.
  pose proof (ReadRune_total b) as T.
  destruct (bufio.ReadRune b) as [[r|e|] b1] eqn:R; try discriminate;
    [|simpl in T; congruence].
  destruct (negb _); [discriminate|].
  apply (for_total always UnmarshalString_body UnmarshalString_body_advances);
    [intros; apply UnmarshalString_body_total | exact I].
Qed.

Section Productions.

Variable Digit : unicode.RangeTable.

(** *** Numbers *)

Lemma UnmarshalNumber_switch_state state eof r d state' validEnd invalid :
  (state <= 9)%nat ->
  UnmarshalNumber_switch state eof r d = (state', validEnd, invalid) ->
  (state' <= 9)%nat /\ (eof = true -> validEnd || invalid = true).
Proof.
  intros Hs E.
  do 10 (destruct state as [|state]; [
    simpl in E;
    repeat match type of E with
           | context [if ?c then _ else _] => destruct c eqn:?
           end;
    injection E as <- <- <-; (split; [lia | intros; subst; simpl in *; congruence])|]).
  lia.
Qed.

Lemma UnmarshalNumber_body_reading st : reading (UnmarshalNumber_body Digit st).
Proof.
  intros b res b' E Hne. destruct st as [state buf]. unfold UnmarshalNumber_body in E.
  destruct (bufio.ReadRune b) as [[r|e|] b1] eqn:R; apply ReadRune_plen in R.
  - destruct (UnmarshalNumber_switch _ _ _ _) as [[s' v] i].
    destruct (v || i); inversion E; subst; assumption.
  - destruct e; try (inversion E; subst; assumption).
    destruct (UnmarshalNumber_switch _ _ _ _) as [[s' v] i].
    destruct (v || i); inversion E; subst; assumption.
  - inversion E; subst; assumption.
Qed.

Lemma UnmarshalNumber_body_advances :
  advances number_state (UnmarshalNumber_body Digit).
Proof.
  intros [state buf] b [state' buf'] b' HI E. unfold number_state in *. simpl in *.
  unfold UnmarshalNumber_body in E.
  destruct (bufio.ReadRune b) as [[r|e|] b1] eqn:R.
  - apply ReadRune_ok in R as [_ R].
    destruct (UnmarshalNumber_switch _ _ _ _) as [[s' v] i] eqn:W.
    apply UnmarshalNumber_switch_state in W as [W _]; [|assumption].
    destruct (v || i); inversion E; subst. auto.
  - destruct e; try discriminate.
    destruct (UnmarshalNumber_switch _ _ _ _) as [[s' v] i] eqn:W.
    apply UnmarshalNumber_switch_state in W as [_ W]; [|assumption].
    rewrite W in E by reflexivity. discriminate.
  - discriminate.
Qed.

Lemma for_number_reading st b res b' :
  number_state st b ->
  for_ (UnmarshalNumber_body Digit) st b = (res, b') -> res <> OutOfFuel ->
  (plen b' <= len b)%nat.
Proof.
  intros HI E Hne.
  eapply (for_reading number_state); eauto using UnmarshalNumber_body_advances,
    UnmarshalNumber_body_reading.
Qed.

Lemma number_tail_quiet (out : bool * bool * string) :
  quiet (let '(eof, invalidTransition, numberBuf) := out in
         if invalidTransition then
           fail (Errorf "invalid char in number: %s" [ArgStr numberBuf])
         else
           (if negb eof then try bufio.UnreadRune errUnreadRune else ret tt) ;;;
           fun b => (convertToNumber numberBuf, b)).
Proof.
  destruct out as [[eof inv] buf].
  assert (quiet (fun b : bufio.Reader => (convertToNumber buf, b))).
  { intros b res b' [= <- <-] _. lia. }
  quiet_tac.
Qed.

Lemma UnmarshalNumber_reading : reading (UnmarshalNumber Digit).
Proof.
  unfold UnmarshalNumber. apply bind_reading.
  - intros b res b' E Hne. eapply for_number_reading; eauto. unfold number_state; simpl; lia.
  - apply number_tail_quiet.
Qed.

Lemma UnmarshalNumber_consuming : consuming (UnmarshalNumber Digit).
Proof.
  intros b v b' E. unfold UnmarshalNumber, bind in E.
  rewrite (for_unfold number_state _ UnmarshalNumber_body_advances) in E
    by (unfold number_state; simpl; lia).
  destruct (UnmarshalNumber_body Digit (0%nat, "") b) as [[[st1|out]|e|] b1] eqn:B;
    try discriminate.
  - assert (HI0 : number_state (0%nat, "") b) by (unfold number_state; simpl; lia).
    destruct (UnmarshalNumber_body_advances _ _ _ _ HI0 B) as [HI Hlt].
    destruct (for_ _ st1 b1) as [[out|e|] b2] eqn:F; try discriminate.
    pose proof (for_number_reading _ _ _ _ HI F ltac:(discriminate)).
    pose proof (number_tail_quiet out _ _ _ E ltac:(discriminate)). lia.
  - exfalso. unfold UnmarshalNumber_body in B.
    destruct (bufio.ReadRune b) as [[r|e|] b0] eqn:R; simpl in B.
    + repeat (match type of B with
              | context [if ?c then _ else _] => destruct c
              end; simpl in B);
        inversion B; subst; simpl in E; discriminate.
    + destruct e; inversion B; subst; simpl in E; discriminate.
    + discriminate.
Qed.

Lemma UnmarshalNumber_body_total st b :
  fst (UnmarshalNumber_body Digit st b) <> OutOfFuel.
Proof.
  destruct st as [state buf]. unfold UnmarshalNumber_body.
  pose proof (ReadRune_total b) as T.
  destruct (bufio.ReadRune b) as [[r|e|] b1]; simpl in T; [| |congruence].
  - destruct (UnmarshalNumber_switch _ _ _ _) as [[s' v] i].
    destruct (v || i); discriminate.
  - destruct e; try discriminate.
    destruct (UnmarshalNumber_switch _ _ _ _) as [[s' v] i].
    destruct (v || i); discriminate.
Qed.

Lemma convertToNumber_total s : convertToNumber s <> OutOfFuel.
Proof.
  unfold convertToNumber. destruct (ContainsAny s ".eE").
  - destruct (strconv.ParseFloat s) as [f [e|]]; discriminate.
  - destruct (strconv.ParseInt s 10 64) as [f [e|]]; discriminate.
Qed.

Lemma UnmarshalNumber_total b : fst (UnmarshalNumber Digit b) <> OutOfFuel.
Proof.
  unfold UnmarshalNumber, bind.
  pose proof (for_total number_state _ UnmarshalNumber_body_advances (0%nat, "") b
                ltac:(intros; apply UnmarshalNumber_body_total)
                ltac:(unfold number_state; simpl; lia)) as T.
  destruct (for_ _ _ b) as [[[[eof inv] buf]|e|] b1]; simpl in T;
    [|discriminate|congruence].
  destruct inv; [discriminate|].
  destruct (negb eof).
  - unfold try, bufio.UnreadRune. destruct (bufio.lastRune b1); simpl;
      [apply convertToNumber_total | discriminate].
  - simpl. apply convertToNumber_total.
Qed.

(** *** Arrays and objects, over a decoder of values *)

Section Containers.

Variable value : Parser Value.
Hypothesis value_reading : reading value.
Hypothesis value_consuming : consuming value.

Lemma unread_then_value r b b1 b2 v u b3 :
  bufio.ReadRune b = (Ok r, b1) ->
  bufio.UnreadRune b1 = (Ok u, b2) ->
  value b2 = (Ok v, b3) ->
  (len b3 < len b)%nat.
Proof.
  intros R U V. apply ReadRune_ok in R as [R _]. apply UnreadRune_ok in U as [U _].
  apply value_consuming in V. pose proof (len_le_plen b3).
  unfold len in *. rewrite U, R in V. lia.
Qed.

Lemma UnmarshalArray_body_reading st : reading (UnmarshalArray_body value st).
Proof. destruct st as [state values]. unfold UnmarshalArray_body. quiet_tac. Qed.

Lemma UnmarshalArray_body_advances : advances always (UnmarshalArray_body value).
Proof.
  intros [state values] b s' b' _ E. split; [exact I|].
  unfold UnmarshalArray_body, bind, try in E.
  destruct (bufio.ReadRune b) as [[r|e|] b1] eqn:R; try discriminate.
  pose proof (ReadRune_ok _ _ _ R) as [_ Hlt].
  repeat match type of E with
         | context [if ?c then _ else _] => destruct c
         end;
    try (apply ret_keeps in E; subst; assumption);
    try discriminate.
  destruct (bufio.UnreadRune b1) as [[u|e|] b2] eqn:U; try discriminate.
  destruct (value b2) as [[v|e|] b3] eqn:V; try discriminate.
  apply ret_keeps in E. subst. eapply unread_then_value; eauto.
Qed.

Lemma UnmarshalArray_reading : reading (UnmarshalArray value).
Proof.
  intros b res b' E Hne. unfold UnmarshalArray in E.
  eapply (for_reading always); eauto using UnmarshalArray_body_advances,
    UnmarshalArray_body_reading. exact I.
Qed.

Lemma not_break_at_start {St A} (body : St -> Parser (step St A)) (I : St -> bufio.Reader -> Prop) :
  advances I body -> (forall s, reading (body s)) ->
  forall s b a b',
    I s b ->
    (forall a0 b0, body s b <> (Ok (Break a0), b0)) ->
    for_ body s b = (Ok a, b') -> (plen b' < len b)%nat.
Proof.
  intros Hadv Hr s b a b' HI Hnb E.
  rewrite (for_unfold I _ Hadv) in E by assumption.
  destruct (body s b) as [[[s1|a1]|e|] b1] eqn:B; try discriminate.
  - destruct (Hadv _ _ _ _ HI B) as [HI1 Hlt].
    pose proof (for_reading I body Hadv _ _ _ _ Hr HI1 E ltac:(discriminate)). lia.
  - exfalso. eapply Hnb; eauto.
Qed.

Lemma UnmarshalArray_consuming : consuming (UnmarshalArray value).
Proof.
  intros b v b' E. unfold UnmarshalArray in E.
  eapply (not_break_at_start _ always); eauto using UnmarshalArray_body_advances,
    UnmarshalArray_body_reading; [exact I|].
  intros a0 b0 B. unfold UnmarshalArray_body, bind, try in B.
  destruct (bufio.ReadRune b) as [[r|e|] b1]; try discriminate.
  simpl in B. destruct (r =? rn "["); discriminate.
Qed.

Lemma UnmarshalObject_body_reading st : reading (UnmarshalObject_body value st).
Proof.
  destruct st as [[state key] object]. unfold UnmarshalObject_body.
  pose proof UnmarshalString_reading. quiet_tac.
Qed.

Lemma UnmarshalObject_body_advances : advances always (UnmarshalObject_body value).
Proof.
  intros [[state key] object] b s' b' _ E. split; [exact I|].
  unfold UnmarshalObject_body, bind, try in E.
  destruct (bufio.ReadRune b) as [[r|e|] b1] eqn:R; try discriminate.
  pose proof (ReadRune_ok _ _ _ R) as [Hp Hlt].
  repeat match type of E with
         | context [if ?c then _ else _] => destruct c
         end;
    try (apply ret_keeps in E; subst; assumption);
    try discriminate.
  - destruct (bufio.UnreadRune b1) as [[u|e|] b2] eqn:U; try discriminate.
    destruct (UnmarshalString b2) as [[v|e|] b3] eqn:V; try discriminate.
    apply ret_keeps in E. subst b'.
    apply UnreadRune_ok in U as [U _]. apply UnmarshalString_consuming in V.
    pose proof (len_le_plen b3). unfold len in *. rewrite U, Hp in V. lia.
  - destruct (value b1) as [[v|e|] b3] eqn:V; try discriminate.
    apply ret_keeps in E. subst b'.
    apply value_consuming in V. pose proof (len_le_plen b3). lia.
Qed.

Lemma UnmarshalObject_reading : reading (UnmarshalObject value).
Proof.
  intros b res b' E Hne. unfold UnmarshalObject in E.
  eapply (for_reading always); eauto using UnmarshalObject_body_advances,
    UnmarshalObject_body_reading. exact I.
Qed.

Lemma UnmarshalObject_consuming : consuming (UnmarshalObject value).
Proof.
  intros b v b' E. unfold UnmarshalObject in E.
  eapply (not_break_at_start _ always); eauto using UnmarshalObject_body_advances,
    UnmarshalObject_body_reading; [exact I|].
  intros a0 b0 B. unfold UnmarshalObject_body, bind, try in B.
  destruct (bufio.ReadRune b) as [[r|e|] b1]; try discriminate.
  simpl in B. destruct (r =? rn "{"); discriminate.
Qed.

Lemma dispatch_reading r production :
  dispatch Digit value r = Some production -> reading production.
Proof.
  unfold dispatch. intros E.
  pose proof UnmarshalString_reading. pose proof UnmarshalNumber_reading.
  pose proof UnmarshalObject_reading. pose proof UnmarshalArray_reading.
  pose proof (literal_reading UnmarshalTrue ltac:(auto)).
  pose proof (literal_reading UnmarshalFalse ltac:(auto)).
  pose proof (literal_reading UnmarshalNull ltac:(auto)).
  repeat match type of E with
         | context [if ?c then _ else _] => destruct c
         end; inversion E; subst; quiet_tac.
Qed.

Lemma dispatch_consuming r production :
  dispatch Digit value r = Some production -> consuming production.
Proof.
  unfold dispatch. intros E.
  repeat match type of E with
         | context [if ?c then _ else _] => destruct c
         end; inversion E; subst;
    try (apply bind_consuming_l; [|intros; apply ret_quiet]);
    auto using UnmarshalString_consuming, UnmarshalNumber_consuming,
      UnmarshalObject_consuming, UnmarshalArray_consuming, literal_consuming.
Qed.

(** [UnmarshalValue] step by step: the leading whitespace goes, the first
    rune selects the production, which starts at that rune, and the
    trailing whitespace goes. *)
Lemma UnmarshalValue_body_eq (b : bufio.Reader) :
  UnmarshalValue_body Digit value b =
  let b1 := {| bufio.unread := skip_ws (bufio.unread b); bufio.lastRune := None |} in
  match bufio.unread b1 with
  | "" => (Err (errReadRune EOF), b1)
  | String _ _ =>
    let r := fst (utf8.DecodeRune (bufio.unread b1)) in
    match dispatch Digit value r with
    | None => (Err (Errorf "failed to match value given first char: %c" [ArgRune r]), b1)
    | Some production =>
      let '(res, b4) := production b1 in
      (res, {| bufio.unread := skip_ws (bufio.unread b4); bufio.lastRune := None |})
    end
  end.
Proof.
  unfold UnmarshalValue_body, bind, try at 1. rewrite UnmarshalWhitespace_spec.
  cbv zeta. set (b1 := {| bufio.unread := skip_ws (bufio.unread b); bufio.lastRune := None |}).
  unfold try at 1, bufio.ReadRune.
  destruct (bufio.unread b1) as [|c s] eqn:U; [subst b1; simpl in *; now rewrite U|].
  destruct (utf8.DecodeRune (String c s)) as [r size] eqn:D.
  unfold try, bufio.UnreadRune. cbn [bufio.lastRune bufio.unread fst].
  rewrite take_drop.
  replace {| bufio.unread := String c s; bufio.lastRune := None |} with b1
    by (subst b1; simpl in *; now rewrite U).
  destruct (dispatch Digit value r) as [production|]; [|reflexivity].
  destruct (production b1) as [res b4]. now rewrite UnmarshalWhitespace_spec.
Qed.

Lemma UnmarshalValue_body_reading : reading (UnmarshalValue_body Digit value).
Proof.
  intros b res b' E Hne. rewrite UnmarshalValue_body_eq in E. cbv zeta in E.
  cbn [bufio.unread] in E.
  pose proof (skip_ws_length (bufio.unread b)) as L0.
  destruct (skip_ws (bufio.unread b)) as [|c s] eqn:Sk.
  { injection E as <- <-. unfold plen, pending, len. simpl. lia. }
  destruct (dispatch Digit value _) as [production|] eqn:D.
  2:{ injection E as <- <-. unfold plen, pending, len in *. simpl in *. lia. }
  destruct (production _) as [pres b4] eqn:P. injection E as <- <-.
  pose proof (dispatch_reading _ _ D _ _ _ P Hne) as H.
  pose proof (skip_ws_length (bufio.unread b4)). pose proof (len_le_plen b4).
  unfold plen, pending, len in *. simpl in *. lia.
Qed.

Lemma UnmarshalValue_body_consuming : consuming (UnmarshalValue_body Digit value).
Proof.
  intros b v b' E. rewrite UnmarshalValue_body_eq in E. cbv zeta in E.
  cbn [bufio.unread] in E.
  pose proof (skip_ws_length (bufio.unread b)) as L0.
  destruct (skip_ws (bufio.unread b)) as [|c s] eqn:Sk; [discriminate|].
  destruct (dispatch Digit value _) as [production|] eqn:D; [|discriminate].
  destruct (production _) as [pres b4] eqn:P. injection E as -> <-.
  pose proof (dispatch_consuming _ _ D _ _ _ P) as H.
  pose proof (skip_ws_length (bufio.unread b4)). pose proof (len_le_plen b4).
  unfold plen, pending, len in *. simpl in *. lia.
Qed.

(** Staying within the bounds: when the decoder of values does so on the
    readers with at most [n] unread bytes, the productions do so on the
    readers with one more. *)
Variable n : nat.
Hypothesis value_total : total_upto n value.

Lemma UnmarshalArray_body_inv :
  advances (container_inv n fst) (UnmarshalArray_body value).
Proof.
  intros st b st' b' HI E.
  destruct (UnmarshalArray_body_advances _ _ _ _ I E) as [_ Hlt].
  split; [|assumption]. unfold container_inv in *.
  destruct (fst st' =? 0)%nat; destruct (fst st =? 0)%nat; lia.
Qed.

Lemma UnmarshalArray_total (b : bufio.Reader) :
  (len b <= S n)%nat -> fst (UnmarshalArray value b) <> OutOfFuel.
Proof.
  intros Hb. unfold UnmarshalArray.
  apply (for_total (container_inv n fst) _ UnmarshalArray_body_inv); [|exact Hb].
  intros [state values] b0 HI. unfold container_inv in HI. cbn [fst] in HI.
  unfold UnmarshalArray_body, bind, try.
  pose proof (ReadRune_total b0) as T.
  destruct (bufio.ReadRune b0) as [[r|e|] b1] eqn:R; simpl in T;
    [|discriminate|congruence].
  apply ReadRune_ok in R as [Hp Hlt].
  destruct (state =? 0)%nat eqn:S0.
  { destruct (r =? rn "["); discriminate. }
  destruct (state =? 1)%nat.
  2:{ repeat match goal with |- context [if ?c then _ else _] => destruct c end;
      discriminate. }
  destruct (isJsonWhitespace r); [discriminate|].
  destruct (r =? rn "]"); [discriminate|].
  unfold bufio.UnreadRune. unfold pending in Hp.
  destruct (bufio.lastRune b1) as [bytes|]; [|discriminate].
  pose proof (value_total {| bufio.unread := bytes +:+ bufio.unread b1;
                             bufio.lastRune := None |}) as V.
  destruct (value _) as [[v|e|] b3]; try discriminate.
  exfalso. apply V; [|reflexivity]. unfold len in *. simpl. rewrite Hp. lia.
Qed.

Lemma UnmarshalObject_body_inv :
  advances (container_inv n (fun st => fst (fst st))) (UnmarshalObject_body value).
Proof.
  intros st b st' b' HI E.
  destruct (UnmarshalObject_body_advances _ _ _ _ I E) as [_ Hlt].
  split; [|assumption]. unfold container_inv in *.
  destruct (fst (fst st') =? 0)%nat; destruct (fst (fst st) =? 0)%nat; lia.
Qed.

Lemma UnmarshalObject_total (b : bufio.Reader) :
  (len b <= S n)%nat -> fst (UnmarshalObject value b) <> OutOfFuel.
Proof.
  intros Hb. unfold UnmarshalObject.
  apply (for_total (container_inv n (fun st => fst (fst st))) _ UnmarshalObject_body_inv);
    [|exact Hb].
  intros [[state key] object] b0 HI. unfold container_inv in HI. cbn [fst] in HI.
  unfold UnmarshalObject_body, bind, try.
  pose proof (ReadRune_total b0) as T.
  destruct (bufio.ReadRune b0) as [[r|e|] b1] eqn:R; simpl in T;
    [|discriminate|congruence].
  apply ReadRune_ok in R as [Hp Hlt].
  destruct (state =? 0)%nat eqn:S0.
  { destruct (r =? rn "{"); discriminate. }
  destruct ((state =? 1)%nat || (state =? 5)%nat).
  { destruct (isJsonWhitespace r); [discriminate|].
    destruct (_ && _); [discriminate|].
    unfold bufio.UnreadRune. destruct (bufio.lastRune b1) as [bytes|]; [|discriminate].
    match goal with |- context [UnmarshalString ?x] =>
      pose proof (UnmarshalString_total x) as V;
      destruct (UnmarshalString x) as [[v|e|] b3]; simpl in V; try discriminate
    end. congruence. }
  destruct (state =? 2)%nat.
  { repeat match goal with |- context [if ?c then _ else _] => destruct c end;
    discriminate. }
  destruct (state =? 3)%nat.
  { pose proof (value_total b1) as V.
    destruct (value b1) as [[v|e|] b3]; try discriminate.
    exfalso. apply V; [lia|reflexivity]. }
  repeat match goal with |- context [if ?c then _ else _] => destruct c end;
    discriminate.
Qed.

Lemma UnmarshalValue_body_total : total_upto (S n) (UnmarshalValue_body Digit value).
Proof.
  intros b Hb. rewrite UnmarshalValue_body_eq. cbv zeta. cbn [bufio.unread].
  pose proof (skip_ws_length (bufio.unread b)) as L0.
  destruct (skip_ws (bufio.unread b)) as [|c s] eqn:Sk; [discriminate|].
  set (b1 := {| bufio.unread := String c s; bufio.lastRune := None |}).
  assert (Hb1 : (len b1 <= S n)%nat) by (unfold len in *; simpl in *; lia).
  destruct (dispatch Digit value _) as [production|] eqn:D; [|discriminate].
  assert (fst (production b1) <> OutOfFuel) as T.
  { unfold dispatch in D.
    repeat match type of D with
           | context [if ?c then _ else _] => destruct c
           end; inversion D; subst; unfold bind.
    - pose proof (UnmarshalString_total b1).
      destruct (UnmarshalString b1) as [[v|e|] b3]; simpl in *; congruence.
    - apply UnmarshalNumber_total.
    - pose proof (UnmarshalObject_total b1 Hb1).
      destruct (UnmarshalObject value b1) as [[v|e|] b3]; simpl in *; congruence.
    - pose proof (UnmarshalArray_total b1 Hb1).
      destruct (UnmarshalArray value b1) as [[v|e|] b3]; simpl in *; congruence.
    - apply literal_total; auto.
    - apply literal_total; auto.
    - apply literal_total; auto. }
  destruct (production b1) as [res b4]. exact T.
Qed.

End Containers.

(** *** [UnmarshalValue] at every depth *)

Lemma UnmarshalValue_reading_consuming (depth : nat) :
  reading (UnmarshalValue Digit depth) /\ consuming (UnmarshalValue Digit depth).
Proof.
  induction depth as [|depth [IHr IHc]]; simpl.
  - split; [intros b res b' [= <- <-] Hne; congruence | intros b v b' E; discriminate].
  - split; [apply UnmarshalValue_body_reading | apply UnmarshalValue_body_consuming];
      assumption.
Qed.

Lemma UnmarshalValue_reading depth : reading (UnmarshalValue Digit depth).
Proof. apply UnmarshalValue_reading_consuming. Qed.

Lemma UnmarshalValue_consuming depth : consuming (UnmarshalValue Digit depth).
Proof. apply UnmarshalValue_reading_consuming. Qed.

(** With a depth above the number of unread bytes, [UnmarshalValue] returns
    a value or an error. *)
Lemma UnmarshalValue_total (depth : nat) (b : bufio.Reader) :
  (len b < depth)%nat -> fst (UnmarshalValue Digit depth b) <> OutOfFuel.
Proof.
  revert b. induction depth as [|depth IH]; intros b Hb; [lia|].
  destruct depth as [|depth].
  - (* no unread byte: the first read ends the call *)
    simpl. rewrite UnmarshalValue_body_eq. cbv zeta. cbn [bufio.unread].
    pose proof (skip_ws_length (bufio.unread b)) as L0.
    destruct (skip_ws (bufio.unread b)) as [|c s] eqn:Sk; [discriminate|].
    unfold len in Hb. simpl in L0. lia.
  - change (UnmarshalValue Digit (S (S depth)))
      with (UnmarshalValue_body Digit (UnmarshalValue Digit (S depth))).
    assert (T : total_upto (S depth)
                  (UnmarshalValue_body Digit (UnmarshalValue Digit (S depth)))).
    { apply UnmarshalValue_body_total;
        try apply UnmarshalValue_consuming; try apply UnmarshalValue_reading.
      intros b0 Hb0. apply IH. lia. }
    apply T. lia.
Qed.

(** *** More depth changes nothing *)

Lemma UnmarshalArray_body_refines (v v' : Parser Value) st :
  refines v v' -> refines (UnmarshalArray_body v st) (UnmarshalArray_body v' st).
Proof.
  intros H. destruct st as [state values]. unfold UnmarshalArray_body.
  apply bind_refines; [apply refines_refl|]. intros r.
  repeat match goal with
         | |- refines (if ?c then _ else _) (if ?c then _ else _) => destruct c
         end; try apply refines_refl.
  apply bind_refines; [apply refines_refl|]. intros _.
  apply bind_refines; [|intros; apply refines_refl].
  apply try_refines. assumption.
Qed.

Lemma UnmarshalObject_body_refines (v v' : Parser Value) st :
  refines v v' -> refines (UnmarshalObject_body v st) (UnmarshalObject_body v' st).
Proof.
  intros H. destruct st as [[state key] object]. unfold UnmarshalObject_body.
  apply bind_refines; [apply refines_refl|]. intros r.
  repeat match goal with
         | |- refines (if ?c then _ else _) (if ?c then _ else _) => destruct c
         end; try apply refines_refl.
  apply bind_refines; [|intros; apply refines_refl].
  apply try_refines. assumption.
Qed.

Lemma trailing_refines (p p' : Parser Value) :
  refines p p' ->
  refines
    (fun b => let '(value, b1) := p b in
              match UnmarshalWhitespace b1 with
              | (Ok _, b2) => (value, b2)
              | (Err e, b2) =>
                (Err (Errorf "failed to Unmarshal trailing whitespace: %w" [ArgErr e]), b2)
              | (OutOfFuel, b2) => (OutOfFuel, b2)
              end)
    (fun b => let '(value, b1) := p' b in
              match UnmarshalWhitespace b1 with
              | (Ok _, b2) => (value, b2)
              | (Err e, b2) =>
                (Err (Errorf "failed to Unmarshal trailing whitespace: %w" [ArgErr e]), b2)
              | (OutOfFuel, b2) => (OutOfFuel, b2)
              end).
Proof.
  intros H b res b' E Hne. destruct (p b) as [pres b1] eqn:P.
  assert (pres <> OutOfFuel).
  { intros ->. rewrite UnmarshalWhitespace_spec in E. injection E as <- _. congruence. }
  now rewrite (H _ _ _ P).
Qed.

Lemma UnmarshalValue_body_refines (v v' : Parser Value) :
  refines v v' -> refines (UnmarshalValue_body Digit v) (UnmarshalValue_body Digit v').
Proof.
  intros H. unfold UnmarshalValue_body.
  apply bind_refines; [apply refines_refl|]. intros _.
  apply bind_refines; [apply refines_refl|]. intros r.
  apply bind_refines; [apply refines_refl|]. intros _.
  unfold dispatch.
  repeat match goal with
         | |- context [if ?c then _ else _] => destruct c
         end; try apply refines_refl.
  - apply trailing_refines. apply bind_refines; [|intros; apply refines_refl].
    apply for_refines. intros st. now apply UnmarshalObject_body_refines.
  - apply trailing_refines. apply bind_refines; [|intros; apply refines_refl].
    apply for_refines. intros st. now apply UnmarshalArray_body_refines.
Qed.

Lemma UnmarshalValue_deeper (d d' : nat) :
  (d <= d')%nat -> refines (UnmarshalValue Digit d) (UnmarshalValue Digit d').
Proof.
  revert d'. induction d as [|d IH]; intros d' Hd.
  - intros b res b' [= <- <-] Hne. congruence.
  - destruct d' as [|d']; [lia|]. simpl.
    apply UnmarshalValue_body_refines. apply IH. lia.
Qed.

(** Decoding returns a value or an error. *)
Theorem decode_total (text : string) : decode Digit text <> OutOfFuel.
Proof.
  unfold decode, decode_reader. apply UnmarshalValue_total.
  unfold len. simpl. lia.
Qed.

End Productions.

Section Dispatch.

Variable Digit : unicode.RangeTable.

Lemma dispatch_first_rune (value : Parser Value) (r : rune) :
  first_rune Digit r = false -> dispatch Digit value r = None.
Proof.
  unfold first_rune, dispatch. intros H.
  repeat (apply orb_false_elim in H as [H ?]).
  repeat match goal with E : _ = false |- _ => rewrite E; clear E end.
  reflexivity.
Qed.

(** Over a stream: when the text without its leading whitespace
    starts with a rune that is not a double quote, a decimal digit of
    Unicode, [-], [{], [[], [t], [f] or [n], decoding fails with the error
    of [UnmarshalValue] for a first character that matches no value. *)
Lemma unexpected_character (text : string) (r : rune) :
  skip_ws text <> "" ->
  r = fst (utf8.DecodeRune (skip_ws text)) ->
  first_rune Digit r = false ->
  decode Digit text =
  Err (Errorf "failed to match value given first char: %c" [ArgRune r]).
Proof.
  intros Hne -> Hr. unfold decode, decode_reader. cbn [UnmarshalValue].
  rewrite UnmarshalValue_body_eq. cbv zeta. cbn [bufio.unread bufio.NewReader].
  destruct (skip_ws text) as [|c s] eqn:Sk; [congruence|].
  now rewrite dispatch_first_rune.
Qed.

(** *** Surrogate halves *)

Lemma EncodeRune_surrogate (r : rune) :
  utf8.surrogateMin <= r <= utf8.surrogateMax -> utf8.EncodeRune r = replacement.
Proof.
  unfold utf8.surrogateMin, utf8.surrogateMax. intros H.
  unfold utf8.EncodeRune, uint32. rewrite Z.mod_small by lia. cbv zeta.
  unfold utf8.rune1Max, utf8.rune2Max, utf8.MaxRune, utf8.surrogateMin, utf8.surrogateMax.
  destruct (r <=? 127) eqn:C1; [apply Z.leb_le in C1; lia|].
  destruct (r <=? 2047) eqn:C2; [apply Z.leb_le in C2; lia|].
  replace ((55296 <=? r) && (r <=? 57343)) with true
    by (symmetry; apply andb_true_intro; split; apply Z.leb_le; lia).
  rewrite orb_true_r. reflexivity.
Qed.

(** The turn of the string loop that reads [uXXXX] after a backslash, where
    the four digits are the number of a surrogate half: the builder gets
    U+FFFD. *)
Lemma UnmarshalString_body_surrogate (hexString : string) (hexValue : Z)
  (sb rest : string) (l : option string) :
  String.length hexString = 4%nat ->
  strconv.ParseInt hexString 16 32 = (hexValue, None) ->
  utf8.surrogateMin <= hexValue <= utf8.surrogateMax ->
  UnmarshalString_body (sb, true)
    {| bufio.unread := "u" +:+ hexString +:+ rest; bufio.lastRune := l |} =
  (Ok (Continue (sb +:+ replacement, false)),
   {| bufio.unread := rest; bufio.lastRune := None |}).
Proof.
  intros Hlen Hparse Hsur.
  unfold UnmarshalString_body, bind, try. simpl String.append.
  rewrite ReadRune_ascii by (vm_compute; reflexivity).
  change (b2z "u") with (rn "u").
  repeat match goal with
         | |- context [rn "u" =? ?x] =>
           let b := eval vm_compute in (rn "u" =? x) in
           change (rn "u" =? x) with b
         end.
  cbv iota. unfold convertHexToUnicode, bufio.Read. cbn [bufio.unread].
  destruct hexString as [|h0 hs]; [discriminate|]. simpl String.append.
  change (String h0 (hs +:+ rest)) with (String h0 hs +:+ rest).
  assert (T : take 4 (String h0 hs +:+ rest) = String h0 hs)
    by (rewrite <- Hlen; apply take_length_app).
  assert (Dr : drop 4 (String h0 hs +:+ rest) = rest)
    by (rewrite <- Hlen; apply drop_length_app).
  rewrite T, Dr. simpl String.append. cbv beta iota. rewrite Hlen. cbn [Nat.eqb negb].
  rewrite Hparse. unfold ret, Builder.WriteRune.
  now rewrite EncodeRune_surrogate.
Qed.

(** *** Turns of the string loop *)

Lemma string_for (s : string * bool) (b : bufio.Reader) :
  always s b ->
  for_ UnmarshalString_body s b =
  (let (r, b') := UnmarshalString_body s b in
   match r with
   | Ok (Continue s') => for_ UnmarshalString_body s' b'
   | Ok (Break a) => (Ok a, b')
   | Err e => (Err e, b')
   | OutOfFuel => (OutOfFuel, b')
   end).
Proof. exact (for_unfold always UnmarshalString_body UnmarshalString_body_advances s b). Qed.

Lemma UnmarshalString_body_quote (sb s : string) (l : option string) :
  UnmarshalString_body (sb, false) {| bufio.unread := String dq s; bufio.lastRune := l |} =
  (Ok (Break sb), {| bufio.unread := s; bufio.lastRune := Some DQ |}).
Proof.
  unfold UnmarshalString_body, bind, try.
  rewrite ReadRune_ascii by (vm_compute; reflexivity). reflexivity.
Qed.

Lemma UnmarshalString_body_backslash (sb s : string) (l : option string) :
  UnmarshalString_body (sb, false) {| bufio.unread := String "\" s; bufio.lastRune := l |} =
  (Ok (Continue (sb, true)), {| bufio.unread := s; bufio.lastRune := Some "\" |}).
Proof.
  unfold UnmarshalString_body, bind, try.
  rewrite ReadRune_ascii by (vm_compute; reflexivity). reflexivity.
Qed.

(** [UnmarshalString] on a text that starts with a double quote. *)
Lemma UnmarshalString_open (s : string) (l : option string) :
  UnmarshalString {| bufio.unread := String dq s; bufio.lastRune := l |} =
  for_ UnmarshalString_body ("", false)
    {| bufio.unread := s; bufio.lastRune := Some DQ |}.
Proof.
  unfold UnmarshalString, bind, try.
  rewrite ReadRune_ascii by (vm_compute; reflexivity). reflexivity.
Qed.

Lemma dispatch_quote (value : Parser Value) :
  dispatch Digit value (b2z dq) = Some (s <- UnmarshalString ;; ret (String_ s)).
Proof. reflexivity. Qed.

(** Over a stream: a [\uXXXX] escape whose four digits are the number of a surrogate
    half puts U+FFFD into the string, wherever it stands in the string, and
    the text that holds only this escape between double quotes is decoded
    to the string made of U+FFFD. *)
Lemma surrogate_escape (hexString : string) (hexValue : Z) :
  String.length hexString = 4%nat ->
  strconv.ParseInt hexString 16 32 = (hexValue, None) ->
  utf8.surrogateMin <= hexValue <= utf8.surrogateMax ->
  (forall (sb rest : string) (l : option string),
     UnmarshalString_body (sb, true)
       {| bufio.unread := "u" +:+ hexString +:+ rest; bufio.lastRune := l |} =
     (Ok (Continue (sb +:+ replacement, false)),
      {| bufio.unread := rest; bufio.lastRune := None |})) /\
  decode Digit (quoted ("\u" +:+ hexString)) = Ok (String_ replacement).
Proof.
  intros Hlen Hparse Hsur. split.
  { intros. now apply UnmarshalString_body_surrogate with (hexValue := hexValue). }
  unfold decode, decode_reader. cbn [UnmarshalValue].
  rewrite UnmarshalValue_body_eq. cbv zeta. cbn [bufio.unread bufio.NewReader].
  unfold quoted, DQ. simpl String.append.
  rewrite skip_ws_no_ws by reflexivity.
  rewrite DecodeRune_ascii by (vm_compute; reflexivity). cbn [fst].
  rewrite dispatch_quote. unfold bind at 1.
  rewrite UnmarshalString_open.
  rewrite string_for by exact I. rewrite UnmarshalString_body_backslash.
  rewrite string_for by exact I.
  change (String "u" (hexString +:+ String dq ""))
    with ("u" +:+ hexString +:+ String dq "").
  rewrite (UnmarshalString_body_surrogate hexString hexValue) by assumption.
  rewrite string_for by exact I. rewrite UnmarshalString_body_quote.
  reflexivity.
Qed.

End Dispatch.

(** ** Whitespace at the end of the stream *)

Lemma all_ws_ascii_start (t : string) : all_ws t = true -> ascii_start t.
Proof.
  destruct t as [|c t]; simpl; [trivial|]. intros H. apply andb_prop in H as [H _].
  now apply isJsonWhitespace_ascii.
Qed.

Lemma extends_refl (b : bufio.Reader) : extends b b.
Proof. split; [reflexivity|]. exists "". now rewrite append_nil_r. Qed.

Lemma ReadRune_stable : stable bufio.ReadRune.
Proof.
  intros b1 b2 r b1' [Hl (t & Ht & Hu)] R.
  destruct (ReadRune_cases b1) as [[_ E]|(r0 & size & Hne & HD & Hsz & E)];
    rewrite E in R; [discriminate|]. injection R as <- <-.
  unfold bufio.ReadRune. rewrite Hu.
  destruct (bufio.unread b1) as [|c s] eqn:U; [congruence|].
  simpl String.append at 1.
  change (String c (s +:+ t)) with (String c s +:+ t).
  rewrite DecodeRune_ext by now apply all_ws_ascii_start.
  rewrite HD. eexists. split; [reflexivity|].
  split; cbn [bufio.lastRune bufio.unread].
  - now rewrite take_app by lia.
  - exists t. split; [assumption|]. apply drop_app. lia.
Qed.

Lemma UnreadRune_stable : stable bufio.UnreadRune.
Proof.
  intros b1 b2 u b1' [Hl (t & Ht & Hu)] R. unfold bufio.UnreadRune in *.
  rewrite Hl. destruct (bufio.lastRune b1) as [bytes|]; [|discriminate].
  injection R as <- <-. eexists. split; [reflexivity|].
  split; [reflexivity|]. exists t. split; [assumption|].
  cbn [bufio.unread]. now rewrite Hu, append_assoc.
Qed.

Lemma ret_stable {A} (a : A) : stable (ret a).
Proof. intros b1 b2 a' b1' H [= <- <-]. exists b2. split; [reflexivity|assumption]. Qed.

Lemma fail_stable {A} (e : error) : stable (@fail A e).
Proof. intros b1 b2 a' b1' H E. discriminate. Qed.

Lemma try_stable {A} (p : Parser A) wrap : stable p -> stable (try p wrap).
Proof.
  intros Hp b1 b2 a b1' H E. unfold try in *.
  destruct (p b1) as [[a0|e|] c1] eqn:P; try discriminate. injection E as <- <-.
  destruct (Hp _ _ _ _ H P) as (b2' & -> & H'). exists b2'. auto.
Qed.

Lemma bind_stable {A B} (p : Parser A) (k : A -> Parser B) :
  stable p -> (forall a, stable (k a)) -> stable (bind p k).
Proof.
  intros Hp Hk b1 b2 v b1' H E. unfold bind in *.
  destruct (p b1) as [[a0|e|] c1] eqn:P; try discriminate.
  destruct (Hp _ _ _ _ H P) as (c2 & -> & H').
  eapply Hk; eauto.
Qed.

(** A loop whose turns are stable is stable. *)
Lemma for_stable {St A} (body : St -> Parser (step St A)) :
  advances always body -> (forall st, stable (body st)) ->
  forall st, stable (for_ body st).
Proof.
  intros Hadv Hb st b1. revert st b1.
  refine (fun st b1 => for_ind always body Hadv
            (fun st b1 => forall b2 a b1', extends b1 b2 ->
               for_ body st b1 = (Ok a, b1') ->
               exists b2', for_ body st b2 = (Ok a, b2') /\ extends b1' b2') _ st b1 I).
  clear st b1. intros st b1 _ IH b2 a b1' H E.
  rewrite (for_unfold always body Hadv) in E by exact I.
  rewrite (for_unfold always body Hadv) by exact I.
  destruct (body st b1) as [[[st'|a0]|e|] c1] eqn:B; try discriminate.
  - destruct (Hb _ _ _ _ _ H B) as (c2 & -> & H'). eapply IH; eauto.
  - injection E as <- <-. destruct (Hb _ _ _ _ _ H B) as (c2 & -> & H'). eauto.
Qed.

Ltac stable_step :=
  match goal with
  | H : stable ?p |- stable ?p => exact H
  | |- forall _, _ => intro
  | |- stable bufio.ReadRune => exact ReadRune_stable
  | |- stable bufio.UnreadRune => exact UnreadRune_stable
  | |- stable (ret _) => apply ret_stable
  | |- stable (fail _) => apply fail_stable
  | |- stable (if ?c then _ else _) => destruct c
  | |- stable (try _ _) => apply try_stable
  | |- stable (bind _ _) => apply bind_stable
  end.

Ltac stable_tac := repeat stable_step.

(** *** Literals and strings *)

Lemma Read_stable (n : nat) (b1 b2 : bufio.Reader) (v : string) (b1' : bufio.Reader) :
  extends b1 b2 -> bufio.Read n b1 = (Ok v, b1') -> String.length v = n ->
  exists b2', bufio.Read n b2 = (Ok v, b2') /\ extends b1' b2'.
Proof.
  intros [Hl (t & Ht & Hu)] R L.
  destruct (Read_length _ _ _ _ R L) as (Hn & _ & _).
  apply Read_ok in R as (-> & U & Lr & Hne).
  unfold bufio.Read. rewrite Hu.
  destruct (bufio.unread b1) as [|c s] eqn:E; [congruence|].
  simpl String.append at 1. change (String c (s +:+ t)) with (String c s +:+ t).
  unfold len in Hn. rewrite E in Hn.
  eexists. split; [rewrite take_app by exact Hn; reflexivity|].
  split; cbn [bufio.lastRune bufio.unread]; [now rewrite Lr|].
  exists t. split; [assumption|]. rewrite U. now apply drop_app.
Qed.

Lemma literal_stable (p : Parser Value) :
  p = UnmarshalNull \/ p = UnmarshalTrue \/ p = UnmarshalFalse -> stable p.
Proof.
  intros [-> | [-> | ->]] b1 b2 a b1' H E;
    unfold UnmarshalNull, UnmarshalTrue, UnmarshalFalse in *;
    match type of E with context [bufio.Read ?n b1] =>
      destruct (bufio.Read n b1) as [[v|e|] c1] eqn:R; try discriminate;
      destruct (String.length v =? n)%nat eqn:L; cbn [negb] in E; try discriminate;
      apply Nat.eqb_eq in L as L';
      destruct (Read_stable _ _ _ _ _ H R L') as (c2 & -> & H')
    end;
    rewrite L; cbn [negb];
    destruct (negb (String.eqb v _)); try discriminate;
    injection E as <- <-; eauto.
Qed.

Lemma convertHexToUnicode_stable : stable convertHexToUnicode.
Proof.
  intros b1 b2 a b1' H E. unfold convertHexToUnicode in *.
  destruct (bufio.Read 4 b1) as [[v|e|] c1] eqn:R; try discriminate.
  destruct (String.length v =? 4)%nat eqn:L; cbn [negb] in E; try discriminate.
  apply Nat.eqb_eq in L as L'.
  destruct (Read_stable _ _ _ _ _ H R L') as (c2 & -> & H').
  rewrite L. cbn [negb].
  destruct (strconv.ParseInt v 16 32) as [x [e|]]; try discriminate.
  injection E as <- <-. eauto.
Qed.

Lemma UnmarshalString_body_stable st : stable (UnmarshalString_body st).
Proof.
  destruct st as [sb backslash]. unfold UnmarshalString_body.
  pose proof convertHexToUnicode_stable. stable_tac.
Qed.

Lemma UnmarshalString_stable : stable UnmarshalString.
Proof.
  unfold UnmarshalString.
  pose proof (for_stable _ UnmarshalString_body_advances UnmarshalString_body_stable).
  stable_tac. auto.
Qed.

Section Stability.

Variable Digit : unicode.RangeTable.

(** *** Numbers *)

Lemma isJsonWhitespace_cases (r : rune) :
  isJsonWhitespace r = true -> r = 32 \/ r = 10 \/ r = 13 \/ r = 9.
Proof.
  unfold isJsonWhitespace, rn. intros H.
  repeat (apply orb_prop in H as [H|H]); apply Z.eqb_eq in H; subst; auto.
Qed.

Lemma IsDigit_ws (r : rune) : isJsonWhitespace r = true -> unicode.IsDigit Digit r = false.
Proof.
  intros H. apply isJsonWhitespace_cases in H as [-> | [-> | [-> | ->]]]; reflexivity.
Qed.

(** Where the end of the stream ends a number, whitespace ends it too. *)
Lemma UnmarshalNumber_switch_ws (state : nat) (r0 : rune) (d0 : bool) (state' : nat)
  (r : rune) :
  (state <= 9)%nat ->
  UnmarshalNumber_switch state true r0 d0 = (state', true, false) ->
  isJsonWhitespace r = true ->
  state' = state /\ UnmarshalNumber_switch state false r false = (state, true, false).
Proof.
  intros Hs E W.
  apply isJsonWhitespace_cases in W.
  do 10 (destruct state as [|state];
         [simpl in E; injection E as <-; try discriminate;
          destruct W as [-> | [-> | [-> | ->]]]; split; reflexivity |]).
  lia.
Qed.

Lemma for_number_stable (st : nat * string) (b1 : bufio.Reader) :
  number_state st b1 ->
  forall b2 eof1 buf d1,
    extends b1 b2 ->
    for_ (UnmarshalNumber_body Digit) st b1 = (Ok (eof1, false, buf), d1) ->
    exists eof2 d2,
      for_ (UnmarshalNumber_body Digit) st b2 = (Ok (eof2, false, buf), d2) /\
      ((eof2 = eof1 /\ extends d1 d2) \/
       (eof1 = true /\ eof2 = false /\
        d1 = {| bufio.unread := ""; bufio.lastRune := None |} /\
        exists cb, bufio.lastRune d2 = Some cb /\ all_ws (cb +:+ bufio.unread d2) = true)).
Proof.
  revert st b1.
  apply (for_ind number_state (UnmarshalNumber_body Digit) (UnmarshalNumber_body_advances Digit)
    (fun st b1 => forall b2 eof1 buf d1,
       extends b1 b2 ->
       for_ (UnmarshalNumber_body Digit) st b1 = (Ok (eof1, false, buf), d1) ->
       exists eof2 d2,
         for_ (UnmarshalNumber_body Digit) st b2 = (Ok (eof2, false, buf), d2) /\
         ((eof2 = eof1 /\ extends d1 d2) \/
          (eof1 = true /\ eof2 = false /\
           d1 = {| bufio.unread := ""; bufio.lastRune := None |} /\
           exists cb, bufio.lastRune d2 = Some cb /\
                      all_ws (cb +:+ bufio.unread d2) = true)))).
  intros [state nb] b1 HI IH b2 eof1 buf d1 H E.
  assert (Hs : (state <= 9)%nat) by exact HI.
  rewrite (for_unfold number_state _ (UnmarshalNumber_body_advances Digit)) in E by exact HI.
  rewrite (for_unfold number_state _ (UnmarshalNumber_body_advances Digit)) by exact HI.
  unfold UnmarshalNumber_body in E at 1. unfold UnmarshalNumber_body at 1.
  destruct (ReadRune_cases b1) as [[U R]|(r & size & Hne & HD & Hsz & R)].
  - (* the stream of [b1] has ended *)
    rewrite R in E. cbv beta iota zeta in E.
    destruct (UnmarshalNumber_switch state true 0 _) as [[st' v] i] eqn:W.
    destruct (v || i) eqn:VI; [|exfalso].
    2:{ apply UnmarshalNumber_switch_state in W as [_ W]; [|exact Hs].
        rewrite W in VI by reflexivity. discriminate. }
    injection E as <- Hi <- <-. subst i. rewrite orb_false_r in VI. subst v.
    cbn [negb] in *.
    destruct H as [Hl (t & Ht & Hu)]. rewrite U in Hu. simpl in Hu.
    destruct t as [|c t].
    + rewrite (ReadRune_eof b2 Hu). cbv beta iota zeta. rewrite W. cbn [orb negb].
      exists true. eexists. split; [reflexivity|]. left. split; [reflexivity|].
      apply extends_refl.
    + simpl in Ht. apply andb_prop in Ht as [Wc Ht].
      destruct b2 as [u2 l2]. simpl in Hu. subst u2.
      rewrite ReadRune_ascii by now apply isJsonWhitespace_ascii.
      cbv beta iota zeta. rewrite (IsDigit_ws _ Wc).
      destruct (UnmarshalNumber_switch_ws _ _ _ _ _ Hs W Wc) as [_ ->].
      cbn [orb negb].
      exists false. eexists. split; [reflexivity|]. right.
      repeat split. exists (String c ""). split; [reflexivity|].
      cbn [bufio.unread]. change (String c "" +:+ t) with (String c t).
      cbn [all_ws]. rewrite Ht, andb_true_r. exact Wc.
  - (* a rune is read *)
    destruct (ReadRune_stable _ _ _ _ H R) as (c2 & R2 & H').
    rewrite R in E. rewrite R2. cbv beta iota zeta in *.
    destruct (UnmarshalNumber_switch state false r _) as [[st' v] i] eqn:W.
    destruct (v || i) eqn:VI.
    + injection E as <- Hi <- <-. subst i.
      exists false. eexists. split; [reflexivity|]. left. auto.
    + apply (IH (st', if negb v then Builder.WriteRune r nb else nb)
                 {| bufio.unread := drop size (bufio.unread b1);
                    bufio.lastRune := Some (take size (bufio.unread b1)) |});
        [|exact H'|exact E].
      unfold UnmarshalNumber_body. rewrite R. cbv beta iota zeta.
      now rewrite W, VI.
Qed.

Lemma UnmarshalNumber_stable : stable (UnmarshalNumber Digit).
Proof.
  intros b1 b2 a b1' H E. unfold UnmarshalNumber, bind in *.
  destruct (for_ (UnmarshalNumber_body Digit) (0%nat, "") b1)
    as [[[[eof1 inv] buf]|e|] d1] eqn:F; try discriminate.
  destruct inv; [discriminate|].
  assert (HI : number_state (0%nat, "") b1) by (unfold number_state; simpl; lia).
  destruct (for_number_stable _ _ HI _ _ _ _ H F) as (eof2 & d2 & -> & Hcase).
  cbv beta iota.
  destruct Hcase as [[-> Hd] | (-> & -> & -> & cb & Hcb & Hws)].
  - destruct (negb eof1).
    + destruct (try bufio.UnreadRune errUnreadRune d1) as [[u|e|] e1] eqn:U; try discriminate.
      destruct (try_stable _ _ UnreadRune_stable _ _ _ _ Hd U) as (e2 & -> & He).
      injection E as <- <-. eauto.
    + unfold ret in *. injection E as <- <-. eauto.
  - cbn [negb] in *. unfold ret in E. injection E as <- <-.
    unfold try, bufio.UnreadRune. rewrite Hcb.
    eexists. split; [reflexivity|]. split; [reflexivity|].
    exists (cb +:+ bufio.unread d2). split; [assumption|]. reflexivity.
Qed.

(** *** Arrays, objects and values *)

Lemma UnmarshalArray_stable (value : Parser Value) :
  reading value -> consuming value -> stable value -> stable (UnmarshalArray value).
Proof.
  intros Hr Hc Hs. unfold UnmarshalArray.
  apply for_stable; [now apply UnmarshalArray_body_advances|].
  intros [state values]. unfold UnmarshalArray_body. stable_tac.
Qed.

Lemma UnmarshalObject_stable (value : Parser Value) :
  reading value -> consuming value -> stable value -> stable (UnmarshalObject value).
Proof.
  intros Hr Hc Hs. unfold UnmarshalObject.
  apply for_stable; [now apply UnmarshalObject_body_advances|].
  intros [[state key] object]. unfold UnmarshalObject_body.
  pose proof UnmarshalString_stable. stable_tac.
Qed.

Lemma dispatch_stable (value : Parser Value) (r : rune) (production : Parser Value) :
  reading value -> consuming value -> stable value ->
  dispatch Digit value r = Some production -> stable production.
Proof.
  intros Hr Hc Hs. unfold dispatch. intros E.
  pose proof UnmarshalString_stable. pose proof UnmarshalNumber_stable.
  pose proof (UnmarshalObject_stable _ Hr Hc Hs).
  pose proof (UnmarshalArray_stable _ Hr Hc Hs).
  pose proof (literal_stable UnmarshalTrue ltac:(auto)).
  pose proof (literal_stable UnmarshalFalse ltac:(auto)).
  pose proof (literal_stable UnmarshalNull ltac:(auto)).
  repeat match type of E with
         | context [if ?c then _ else _] => destruct c
         end; inversion E; subst; stable_tac.
Qed.

Lemma all_ws_app (s t : string) : all_ws (s +:+ t) = all_ws s && all_ws t.
Proof.
  induction s as [|c s IH]; simpl; [reflexivity|]. now rewrite IH, andb_assoc.
Qed.

Lemma skip_ws_all (s : string) : all_ws s = true -> skip_ws s = "".
Proof.
  induction s as [|c s IH]; simpl; [reflexivity|].
  intros H. apply andb_prop in H as [-> H]. auto.
Qed.

(** The whitespace added at the end stays at the end, or goes with the
    whitespace before it. *)
Lemma skip_ws_extends (s t : string) :
  all_ws t = true ->
  (skip_ws s <> "" /\ skip_ws (s +:+ t) = skip_ws s +:+ t) \/
  (skip_ws s = "" /\ skip_ws (s +:+ t) = "").
Proof.
  intros Ht. induction s as [|c s IH]; simpl.
  - right. split; [reflexivity|]. now apply skip_ws_all.
  - destruct (ws_byte c); [exact IH|]. left. split; [discriminate|reflexivity].
Qed.

Lemma UnmarshalValue_body_stable (value : Parser Value) :
  reading value -> consuming value -> stable value ->
  stable (UnmarshalValue_body Digit value).
Proof.
  intros Hr Hc Hs b1 b2 v b1' [Hl (t & Ht & Hu)] E.
  rewrite UnmarshalValue_body_eq in *. cbv zeta in *. cbn [bufio.unread] in *.
  rewrite Hu.
  destruct (skip_ws_extends (bufio.unread b1) t Ht) as [[Hne ->]|[He _]];
    [|rewrite He in E; discriminate].
  destruct (skip_ws (bufio.unread b1)) as [|c s] eqn:Sk; [congruence|].
  rewrite DecodeRune_ext by now apply all_ws_ascii_start.
  change (String c s +:+ t) with (String c (s +:+ t)). cbv iota.
  destruct (dispatch Digit value _) as [production|] eqn:D; [|discriminate].
  destruct (production _) as [res d1] eqn:P. injection E as -> <-.
  assert (Hext : extends {| bufio.unread := String c s; bufio.lastRune := None |}
                         {| bufio.unread := String c (s +:+ t); bufio.lastRune := None |}).
  { split; [reflexivity|]. exists t. auto. }
  destruct (dispatch_stable _ _ _ Hr Hc Hs D _ _ _ _ Hext P)
    as (d2 & -> & [_ (t' & Ht' & Hu')]).
  eexists. split; [reflexivity|]. split; [reflexivity|].
  cbn [bufio.unread]. rewrite Hu'.
  destruct (skip_ws_extends (bufio.unread d1) t' Ht') as [[_ ->]|[-> ->]].
  - exists t'. auto.
  - exists "". auto.
Qed.

Lemma UnmarshalValue_stable (depth : nat) : stable (UnmarshalValue Digit depth).
Proof.
  induction depth as [|depth IH]; simpl.
  - intros b1 b2 v b1' _ E. discriminate.
  - apply UnmarshalValue_body_stable;
      auto using UnmarshalValue_reading, UnmarshalValue_consuming.
Qed.

(** Leading whitespace changes nothing. *)
Lemma UnmarshalValue_leading (depth : nat) (pre s : string) (l l' : option string) :
  all_ws pre = true ->
  UnmarshalValue Digit (S depth) {| bufio.unread := pre +:+ s; bufio.lastRune := l |} =
  UnmarshalValue Digit (S depth) {| bufio.unread := s; bufio.lastRune := l' |}.
Proof.
  intros H. cbn [UnmarshalValue]. rewrite !UnmarshalValue_body_eq.
  cbn [bufio.unread]. now rewrite skip_ws_all_ws.
Qed.

(** Over a stream, a text that is decoded to a value is decoded to the same value
    with a space, a tab, a line feed and a space before it and a space and
    a line feed after it. *)
Lemma whitespace_around (text : string) (v : Value) :
  decode Digit text = Ok v ->
  decode Digit (ws_before +:+ text +:+ ws_after) = Ok v.
Proof.
  unfold decode, decode_reader. intros E.
  destruct (UnmarshalValue Digit (S (String.length text)) (bufio.NewReader text))
    as [res b1'] eqn:U. cbn [fst] in E. subst res.
  assert (Hext : extends (bufio.NewReader text) (bufio.NewReader (text +:+ ws_after))).
  { split; [reflexivity|]. exists ws_after. split; reflexivity. }
  destruct (UnmarshalValue_stable _ _ _ _ _ Hext U) as (b2' & U2 & _).
  unfold bufio.NewReader in *.
  rewrite <- (UnmarshalValue_leading _ ws_before _ None None) in U2 by reflexivity.
  assert (Hd : (S (String.length text)
                <= S (String.length (ws_before +:+ text +:+ ws_after)))%nat)
    by (rewrite !length_append; lia).
  now rewrite (UnmarshalValue_deeper Digit _ _ Hd _ _ _ U2).
Qed.

End Stability.

Section RoundTrip.

Variable Digit : unicode.RangeTable.

(** ** Numbers: the automaton on the text of an integer *)

Lemma IsDigit_byte (c : ascii) :
  unicode.IsDigit Digit (b2z c) = strconv.isDigitByte c.
Proof.
  unfold unicode.IsDigit, unicode.MaxLatin1, strconv.isDigitByte.
  pose proof (b2z_range c). destruct (b2z c <=? 255) eqn:C; [reflexivity|].
  apply Z.leb_gt in C. lia.
Qed.

Lemma EncodeRune_ascii (c : ascii) :
  b2z c < 0x80 -> utf8.EncodeRune (b2z c) = String c "".
Proof.
  intros H. pose proof (b2z_range c).
  unfold utf8.EncodeRune, uint32, utf8.rune1Max. rewrite Z.mod_small by lia.
  cbv zeta. destruct (b2z c <=? 127) eqn:C; [now rewrite z2b_b2z|].
  apply Z.leb_gt in C. lia.
Qed.

Lemma UnmarshalNumber_body_ascii (state : nat) (buf : string) (c : ascii) (s : string)
  (l : option string) :
  b2z c < 0x80 ->
  UnmarshalNumber_body Digit (state, buf) {| bufio.unread := String c s; bufio.lastRune := l |} =
  let '(state', validEnd, invalidTransition) :=
    UnmarshalNumber_switch state false (b2z c) (strconv.isDigitByte c) in
  let buf' := if negb validEnd then buf +:+ String c "" else buf in
  (Ok (if validEnd || invalidTransition
       then Break (false, invalidTransition, buf')
       else Continue (state', buf')),
   {| bufio.unread := s; bufio.lastRune := Some (String c "") |}).
Proof.
  intros H. unfold UnmarshalNumber_body. rewrite ReadRune_ascii by assumption.
  cbv beta iota zeta. rewrite IsDigit_byte.
  destruct (UnmarshalNumber_switch _ _ _ _) as [[st' v] i].
  unfold Builder.WriteRune. rewrite EncodeRune_ascii by assumption.
  destruct (v || i); reflexivity.
Qed.

Lemma number_for (s : nat * string) (b : bufio.Reader) :
  number_state s b ->
  for_ (UnmarshalNumber_body Digit) s b =
  (let (r, b') := UnmarshalNumber_body Digit s b in
   match r with
   | Ok (Continue s') => for_ (UnmarshalNumber_body Digit) s' b'
   | Ok (Break a) => (Ok a, b')
   | Err e => (Err e, b')
   | OutOfFuel => (OutOfFuel, b')
   end).
Proof. exact (for_unfold number_state _ (UnmarshalNumber_body_advances Digit) s b). Qed.

Lemma delimited_skip_ws (rest : string) : delimited rest -> skip_ws rest = rest.
Proof.
  destruct rest as [|c rest]; [reflexivity|]. simpl. unfold ws_byte.
  intros [-> | ->]; reflexivity.
Qed.

(** In a state where a number may end, a delimiter ends it. *)
Lemma number_from_end (state : nat) (buf rest : string) (l : option string) :
  state = 2%nat \/ state = 3%nat \/ state = 4%nat ->
  delimited rest ->
  number_from Digit state buf {| bufio.unread := rest; bufio.lastRune := l |} =
  (convertToNumber buf, {| bufio.unread := rest; bufio.lastRune := None |}).
Proof.
  intros Hst Hd. unfold number_from, bind.
  rewrite number_for by (unfold number_state; simpl; lia).
  destruct rest as [|c rest].
  - unfold UnmarshalNumber_body. rewrite ReadRune_eof by reflexivity.
    cbv beta iota zeta.
    destruct Hst as [-> | [-> | ->]]; reflexivity.
  - assert (Hc : b2z c < 0x80) by (destruct Hd as [-> | ->]; reflexivity).
    rewrite UnmarshalNumber_body_ascii by assumption.
    assert (Hdig : strconv.isDigitByte c = false).
    { unfold strconv.isDigitByte. destruct Hd as [-> | ->]; reflexivity. }
    rewrite Hdig.
    simpl in Hd.
    destruct Hst as [-> | [-> | ->]]; destruct Hd as [-> | ->]; reflexivity.
Qed.

Lemma number_from_digits (ds : string) :
  all_digits ds = true ->
  forall (state : nat) (buf rest : string) (l : option string),
    state = 3%nat \/ state = 4%nat ->
    delimited rest ->
    number_from Digit state buf {| bufio.unread := ds +:+ rest; bufio.lastRune := l |} =
    (convertToNumber (buf +:+ ds), {| bufio.unread := rest; bufio.lastRune := None |}).
Proof.
  induction ds as [|c ds IH]; intros Hd state buf rest l Hst Hr.
  - simpl. rewrite append_nil_r. apply number_from_end; tauto.
  - simpl in Hd. apply andb_prop in Hd as [Hc Hd].
    assert (Ha : b2z c < 0x80).
    { apply isDigitByte_range in Hc. unfold rn in Hc. change (b2z "0") with 48 in Hc. lia. }
    specialize (IH Hd 4%nat (buf +:+ String c "") rest (Some (String c ""))
                   ltac:(auto) Hr).
    unfold number_from, bind in *.
    rewrite number_for by (unfold number_state; simpl; lia).
    simpl String.append at 1.
    rewrite UnmarshalNumber_body_ascii by assumption. rewrite Hc.
    assert (W : UnmarshalNumber_switch state false (b2z c) true = (4%nat, false, false)).
    { destruct Hst as [-> | ->]; reflexivity. }
    rewrite W. cbv beta iota zeta. cbn [orb negb].
    rewrite IH. now rewrite append_assoc.
Qed.

Lemma ContainsAny_digits (ds : string) :
  all_digits ds = true -> ContainsAny ds ".eE" = false.
Proof.
  induction ds as [|c ds IH]; simpl; [reflexivity|].
  intros H. apply andb_prop in H as [Hc H]. rewrite (IH H), orb_false_r.
  apply isDigitByte_range in Hc. unfold rn in Hc. change (b2z "0") with 48 in Hc.
  assert (E : forall d, b2z d < 48 \/ 57 < b2z d -> Ascii.eqb c d = false).
  { intros d Hd. apply Ascii.eqb_neq. intros ->. lia. }
  rewrite !E by (vm_compute; auto; right; reflexivity). reflexivity.
Qed.

Lemma convertToNumber_int (i : Z) :
  - 2 ^ 63 <= i < 2 ^ 63 -> convertToNumber (strconv.FormatInt i) = Ok (Integer i).
Proof.
  intros Hi. destruct (FormatInt_ParseInt i Hi) as [Ht Hp].
  unfold convertToNumber. rewrite Hp.
  replace (ContainsAny (strconv.FormatInt i) ".eE") with false; [reflexivity|].
  symmetry. inversion Ht as [| c ds Hc Hn Hd E | c ds Hc Hn Hd E].
  - reflexivity.
  - apply (ContainsAny_digits (String c ds)). simpl. now rewrite Hc, Hd.
  - change (ContainsAny (String "-" (String c ds)) ".eE")
      with (ContainsAny (String c ds) ".eE").
    apply (ContainsAny_digits (String c ds)). simpl. now rewrite Hc, Hd.
Qed.

(** [UnmarshalNumber] reads the text of an integer up to the delimiter. *)
Lemma UnmarshalNumber_int_text (t rest : string) (l : option string) :
  int_text t -> delimited rest ->
  UnmarshalNumber Digit {| bufio.unread := t +:+ rest; bufio.lastRune := l |} =
  (convertToNumber t, {| bufio.unread := rest; bufio.lastRune := None |}).
Proof.
  intros Ht Hr. change (UnmarshalNumber Digit) with (number_from Digit 0 "").
  assert (Step : forall state buf c s l' state',
            b2z c < 0x80 ->
            (state <= 9)%nat ->
            UnmarshalNumber_switch state false (b2z c) (strconv.isDigitByte c)
              = (state', false, false) ->
            number_from Digit state buf {| bufio.unread := String c s; bufio.lastRune := l' |} =
            number_from Digit state' (buf +:+ String c "")
              {| bufio.unread := s; bufio.lastRune := Some (String c "") |}).
  { intros state buf c s l' state' Hc Hs W. unfold number_from, bind.
    rewrite number_for by exact Hs.
    rewrite UnmarshalNumber_body_ascii by assumption. rewrite W. reflexivity. }
  inversion Ht as [| c ds Hc Hn Hd E | c ds Hc Hn Hd E]; subst.
  - simpl String.append. rewrite (Step 0%nat "" "0"%char _ _ 2%nat);
      [|reflexivity|lia|reflexivity].
    now apply number_from_end; auto.
  - assert (Ha : b2z c < 0x80).
    { apply isDigitByte_range in Hc. unfold rn in Hc. change (b2z "0") with 48 in Hc. lia. }
    simpl String.append. rewrite (Step 0%nat "" c _ _ 3%nat); [|assumption|lia|].
    + rewrite number_from_digits; auto.
    + simpl. rewrite Hc. apply isDigitByte_range in Hc.
      destruct (b2z c =? rn "-") eqn:C1.
      { apply Z.eqb_eq in C1. assert (rn "-" = 45) by reflexivity.
        assert (rn "0" = 48) by reflexivity. lia. }
      destruct (b2z c =? rn "0") eqn:C2; [apply Z.eqb_eq in C2; congruence|].
      reflexivity.
  - assert (Ha : b2z c < 0x80).
    { apply isDigitByte_range in Hc. unfold rn in Hc. change (b2z "0") with 48 in Hc. lia. }
    simpl String.append.
    rewrite (Step 0%nat "" "-"%char _ _ 1%nat); [|reflexivity|lia|reflexivity].
    rewrite (Step 1%nat _ c _ _ 3%nat); [|assumption|lia|].
    + rewrite number_from_digits; auto.
    + simpl. rewrite Hc.
      destruct (b2z c =? rn "0") eqn:C2; [apply Z.eqb_eq in C2; congruence|].
      reflexivity.
Qed.

(** ** Numbers: the automaton on the text of a number with a point *)

Lemma float_eqb_eq (f g : strconv.float64) : float_eqb f g = true -> f = g.
Proof.
  destruct f as [a | a | | a m e], g as [b | b | | b n k]; simpl; try discriminate;
    try reflexivity.
  - intros H. apply Bool.eqb_prop in H. now subst.
  - intros H. apply Bool.eqb_prop in H. now subst.
  - intros H. apply andb_prop in H as [H He]. apply andb_prop in H as [Hs Hm].
    apply Bool.eqb_prop in Hs. apply Pos.eqb_eq in Hm. apply Z.eqb_eq in He. now subst.
Qed.

Lemma decimal_loop_formatBits (turns : nat) :
  forall n acc, strconv.decimal_loop turns n acc = strconv.formatBits_loop turns n acc.
Proof.
  induction turns as [|turns IH]; intros n acc; simpl; [reflexivity|].
  destruct (n <? 10); [reflexivity | apply IH].
Qed.

(** The decimal digits of a natural number: digits, the first of which is
    no zero unless the number is zero. *)
Lemma decimal_spec (n : Z) :
  0 <= n ->
  exists c ds,
    strconv.decimal n = String c ds /\ all_digits (String c ds) = true /\
    (n = 0 -> ds = "") /\ (0 < n -> b2z c <> rn "0").
Proof.
  intros Hn. unfold strconv.decimal. rewrite decimal_loop_formatBits.
  assert (Hb : 0 <= n < 10 ^ Z.of_nat (S (Z.to_nat (Z.log2 n)))).
  { split; [exact Hn|]. pose proof (Z.log2_nonneg n) as Hl.
    rewrite Nat2Z.inj_succ, Z2Nat.id by exact Hl.
    destruct (Z.eq_dec n 0) as [->|Hne]; [reflexivity|].
    destruct (Z.log2_spec n ltac:(lia)) as [_ Hu].
    apply (Z.lt_le_trans _ _ _ Hu). apply Z.pow_le_mono_l. lia. }
  destruct (formatBits_loop_spec _ n "" Hb) as (c & ds & E & Hd & _ & Hz & Hnz).
  exists c, ds. rewrite E, append_nil_r. auto.
Qed.

Lemma shortest_loop_nonneg (turns : nat) (f : strconv.float64) (A s L : Z) :
  0 <= A -> forall n, 0 <= fst (strconv.shortest_loop turns f A s L n).
Proof.
  intros HA. induction turns as [|turns IH]; intros n; cbn [strconv.shortest_loop];
    [exact HA|].
  cbv zeta.
  assert (Hlo : 0 <= A / 10 ^ (L - n))
    by (apply Z_div_nonneg_nonneg; [exact HA | apply Z.pow_nonneg; lia]).
  assert (Hup : 0 <= fst (if (A / 10 ^ (L - n) + 1) mod 10 =? 0
                          then ((A / 10 ^ (L - n) + 1) / 10, L - n - s + 1)
                          else (A / 10 ^ (L - n) + 1, L - n - s))).
  { destruct (_ =? 0); cbn [fst]; [apply Z_div_nonneg_nonneg; lia | lia]. }
  repeat match goal with
         | |- context [if ?c then _ else _] => destruct c
         end; cbn [fst] in *; try assumption; try lia; apply IH.
Qed.

Lemma all_digits_zeros (n : nat) : all_digits (strconv.zeros n) = true.
Proof. induction n as [|n IH]; [reflexivity | exact IH]. Qed.

Lemma all_digits_take (n : nat) (s : string) :
  all_digits s = true -> all_digits (take n s) = true.
Proof.
  revert s. induction n as [|n IH]; intros [|c s] H; simpl in *; try reflexivity.
  apply andb_prop in H as [-> H]. now apply IH.
Qed.

Lemma all_digits_drop (n : nat) (s : string) :
  all_digits s = true -> all_digits (drop n s) = true.
Proof.
  revert s. induction n as [|n IH]; intros [|c s] H; simpl in *; try reflexivity;
    try assumption.
  apply andb_prop in H as [_ H]. now apply IH.
Qed.

(** The layout of [C * 10^q]: digits when [q] is not negative, and a
    number with a point when it is. *)
Lemma fmtF_digits (C q : Z) :
  0 <= C -> 0 <= q -> all_digits (strconv.fmtF C q) = true.
Proof.
  intros HC Hq. unfold strconv.fmtF. apply Z.leb_le in Hq. rewrite Hq.
  destruct (decimal_spec C HC) as (c & ds & -> & Hd & _).
  now rewrite all_digits_app, Hd, all_digits_zeros.
Qed.

Lemma fmtF_point (C q : Z) :
  0 <= C -> q < 0 ->
  exists ip fs,
    strconv.fmtF C q = ip +:+ "." +:+ fs /\
    unsigned_text ip /\ all_digits fs = true /\ fs <> "".
Proof.
  intros HC Hq. unfold strconv.fmtF.
  replace (0 <=? q) with false by (symmetry; apply Z.leb_gt; lia). cbv zeta.
  destruct (decimal_spec C HC) as (c & ds & E & Hd & Hz & Hnz). rewrite E.
  set (k := Z.to_nat (- q)). assert (Hk : (1 <= k)%nat) by (subst k; lia).
  pose proof Hd as Hd'. cbn [all_digits] in Hd'. apply andb_prop in Hd' as [Hc Hds].
  destruct (k <? String.length (String c ds))%nat eqn:K.
  - apply Nat.ltb_lt in K. cbn [String.length] in K.
    assert (HCpos : 0 < C).
    { destruct (Z.eq_dec C 0) as [->|]; [|lia]. rewrite (Hz eq_refl) in K. simpl in K. lia. }
    exists (take (String.length (String c ds) - k) (String c ds)),
           (drop (String.length (String c ds) - k) (String c ds)).
    split; [reflexivity|].
    cbn [String.length].
    replace (S (String.length ds) - k)%nat with (S (String.length ds - k)) by lia.
    split; [|split].
    + cbn [take]. apply unsigned_pos; [exact Hc | now apply Hnz | now apply all_digits_take].
    + change (drop (S (String.length ds - k)) (String c ds))
        with (drop (String.length ds - k) ds).
      now apply all_digits_drop.
    + intros D. apply (f_equal String.length) in D. rewrite length_drop in D.
      cbn [String.length] in D. lia.
  - exists "0", (strconv.zeros (k - String.length (String c ds)) +:+ String c ds).
    split; [reflexivity|]. split; [constructor|]. split.
    + now rewrite all_digits_app, all_digits_zeros, Hd.
    + intros D. apply (f_equal String.length) in D. rewrite length_append in D.
      cbn [String.length] in D. lia.
Qed.

(** The text of a float that holds a point, an [e] or an [E] has the shape
    of a number with a point. *)
Lemma FormatFloat_point_text (f : strconv.float64) :
  ContainsAny (strconv.FormatFloat f) ".eE" = true -> point_text (strconv.FormatFloat f).
Proof.
  destruct f as [[|] | [|] | | neg m e]; try (vm_compute; discriminate).
  unfold strconv.FormatFloat.
  set (As := if 0 <=? e then (Z.pos m * 2 ^ e, 0) else (Z.pos m * 5 ^ (- e), - e)).
  assert (HA : 0 <= fst As).
  { subst As. destruct (0 <=? e); cbn [fst]; apply Z.mul_nonneg_nonneg; try lia;
      apply Z.pow_nonneg; lia. }
  destruct As as [A s]. cbn [fst] in HA. cbv zeta.
  pose proof (shortest_loop_nonneg
                (Z.to_nat (Z.of_nat (String.length (strconv.decimal A))))
                (S754_finite false m e) A s
                (Z.of_nat (String.length (strconv.decimal A))) HA 1) as HC.
  destruct (strconv.shortest_loop _ _ _ _ _ _) as [C q]. cbn [fst] in HC.
  destruct (Z_lt_dec q 0) as [Hq|Hq].
  - destruct (fmtF_point C q HC Hq) as (ip & fs & -> & Hip & Hfs & Hne).
    intros _. destruct neg; simpl String.append; now constructor.
  - pose proof (fmtF_digits C q HC ltac:(lia)) as Hd.
    pose proof (ContainsAny_digits _ Hd) as Hn.
    destruct neg; simpl String.append; intros H.
    + change (ContainsAny (String "-" (strconv.fmtF C q)) ".eE")
        with (ContainsAny (strconv.fmtF C q) ".eE") in H. congruence.
    + congruence.
Qed.

(** A float whose text holds a point and which [strconv] reads back. *)
Lemma convertToNumber_float (f : strconv.float64) :
  ContainsAny (strconv.FormatFloat f) ".eE" = true -> read_back f = true ->
  convertToNumber (strconv.FormatFloat f) = Ok (Float f).
Proof.
  intros Hp Hr. unfold convertToNumber. rewrite Hp. unfold read_back in Hr.
  destruct (strconv.ParseFloat (strconv.FormatFloat f)) as [g [e|]]; [discriminate|].
  now rewrite (float_eqb_eq g f Hr).
Qed.

Lemma point_step (state : nat) (buf : string) (c : ascii) (s : string)
  (l : option string) (state' : nat) :
  b2z c < 0x80 -> (state <= 9)%nat ->
  UnmarshalNumber_switch state false (b2z c) (strconv.isDigitByte c) = (state', false, false) ->
  number_from Digit state buf {| bufio.unread := String c s; bufio.lastRune := l |} =
  number_from Digit state' (buf +:+ String c "")
    {| bufio.unread := s; bufio.lastRune := Some (String c "") |}.
Proof.
  intros Hc Hs W. unfold number_from, bind.
  rewrite number_for by exact Hs.
  rewrite UnmarshalNumber_body_ascii by assumption. rewrite W. reflexivity.
Qed.

Lemma digit_ascii (c : ascii) : strconv.isDigitByte c = true -> b2z c < 0x80.
Proof.
  intros Hc. apply isDigitByte_range in Hc. unfold rn in Hc.
  change (b2z "0") with 48 in Hc. lia.
Qed.

(** Digits in the states 3, 4 and 6. *)
Lemma point_digits (ds : string) :
  all_digits ds = true ->
  forall (state : nat) (buf X : string) (l : option string),
    state = 3%nat \/ state = 4%nat \/ state = 6%nat ->
    exists state' l',
      (state' = state \/ (state' = 4%nat /\ state <> 6%nat)) /\
      number_from Digit state buf {| bufio.unread := ds +:+ X; bufio.lastRune := l |} =
      number_from Digit state' (buf +:+ ds) {| bufio.unread := X; bufio.lastRune := l' |}.
Proof.
  induction ds as [|c ds IH]; intros Hd state buf X l Hst.
  - exists state, l. split; [now left|]. simpl. now rewrite append_nil_r.
  - simpl in Hd. apply andb_prop in Hd as [Hc Hd].
    pose proof (digit_ascii c Hc) as Ha.
    assert (W : exists st1, (st1 = 4%nat /\ state <> 6%nat \/ st1 = 6%nat /\ state = 6%nat) /\
                UnmarshalNumber_switch state false (b2z c) (strconv.isDigitByte c)
                = (st1, false, false)).
    { rewrite Hc. destruct Hst as [-> | [-> | ->]];
        [exists 4%nat | exists 4%nat | exists 6%nat]; (split; [|reflexivity]);
        [left | left | right]; split; congruence. }
    destruct W as (st1 & Hst1 & W).
    simpl String.append.
    rewrite (point_step state buf c _ l st1 Ha) by
      first [exact W | destruct Hst as [-> | [-> | ->]]; lia].
    destruct (IH Hd st1 (buf +:+ String c "") X (Some (String c "")))
      as (state' & l' & Hs' & E).
    { destruct Hst1 as [[-> _] | [-> _]]; auto. }
    exists state', l'. split.
    + destruct Hst1 as [[-> Hn] | [-> ->]]; destruct Hs' as [-> | [-> Hx]];
        first [tauto | congruence].
    + rewrite E. now rewrite append_assoc.
Qed.

(** In state 6 a delimiter ends the number. *)
Lemma point_end (buf rest : string) (l : option string) :
  delimited rest ->
  number_from Digit 6 buf {| bufio.unread := rest; bufio.lastRune := l |} =
  (convertToNumber buf, {| bufio.unread := rest; bufio.lastRune := None |}).
Proof.
  intros Hd. unfold number_from, bind.
  rewrite number_for by (unfold number_state; simpl; lia).
  destruct rest as [|c rest].
  - unfold UnmarshalNumber_body. rewrite ReadRune_eof by reflexivity. reflexivity.
  - assert (Hc : b2z c < 0x80) by (destruct Hd as [-> | ->]; reflexivity).
    rewrite UnmarshalNumber_body_ascii by assumption.
    assert (Hdig : strconv.isDigitByte c = false).
    { unfold strconv.isDigitByte. destruct Hd as [-> | ->]; reflexivity. }
    rewrite Hdig. simpl in Hd. destruct Hd as [-> | ->]; reflexivity.
Qed.

(** From the point on: the point, one digit or more, and the delimiter. *)
Lemma point_tail (state : nat) (buf fs rest : string) (l : option string) :
  state = 2%nat \/ state = 3%nat \/ state = 4%nat ->
  all_digits fs = true -> fs <> "" -> delimited rest ->
  number_from Digit state buf
    {| bufio.unread := String "." (fs +:+ rest); bufio.lastRune := l |} =
  (convertToNumber (buf +:+ "." +:+ fs),
   {| bufio.unread := rest; bufio.lastRune := None |}).
Proof.
  intros Hst Hfs Hne Hr.
  rewrite (point_step state buf "." _ l 5%nat) by
    first [ reflexivity | destruct Hst as [-> | [-> | ->]]; first [lia | reflexivity] ].
  destruct fs as [|c fs]; [congruence|].
  cbn [all_digits] in Hfs. apply andb_prop in Hfs as [Hc Hfs].
  simpl String.append.
  rewrite (point_step 5%nat _ c _ _ 6%nat) by
    first [ now apply digit_ascii | lia | simpl; now rewrite Hc ].
  destruct (point_digits fs Hfs 6%nat ((buf +:+ String "." "") +:+ String c "") rest
              (Some (String c ""))) as (state' & l' & Hs' & E); [auto|].
  rewrite E. destruct Hs' as [-> | [_ Hn]]; [|congruence].
  rewrite point_end by exact Hr. now rewrite !append_assoc.
Qed.

(** From the first digit on. *)
Lemma point_unsigned (state : nat) (buf ip fs rest : string) (l : option string) :
  state = 0%nat \/ state = 1%nat ->
  unsigned_text ip -> all_digits fs = true -> fs <> "" -> delimited rest ->
  number_from Digit state buf
    {| bufio.unread := (ip +:+ "." +:+ fs) +:+ rest; bufio.lastRune := l |} =
  (convertToNumber (buf +:+ ip +:+ "." +:+ fs),
   {| bufio.unread := rest; bufio.lastRune := None |}).
Proof.
  intros Hst Hip Hfs Hne Hr. rewrite !append_assoc.
  destruct Hip as [| c ds Hc Hnz Hds].
  - simpl String.append.
    rewrite (point_step state buf "0" _ l 2%nat) by
      first [ reflexivity | destruct Hst as [-> | ->]; first [lia | reflexivity] ].
    rewrite point_tail by auto. now rewrite !append_assoc.
  - simpl String.append.
    assert (W : UnmarshalNumber_switch state false (b2z c) (strconv.isDigitByte c)
                = (3%nat, false, false)).
    { rewrite Hc. pose proof (isDigitByte_range c Hc) as R.
      apply Z.eqb_neq in Hnz.
      destruct Hst as [-> | ->]; cbn [UnmarshalNumber_switch]; rewrite ?Hnz; [|reflexivity].
      replace (b2z c =? rn "-") with false; [reflexivity|].
      symmetry. apply Z.eqb_neq. unfold rn in *. change (b2z "0") with 48 in R.
      change (b2z "-") with 45. lia. }
    rewrite (point_step state buf c _ l 3%nat) by
      first [ now apply digit_ascii | exact W | destruct Hst as [-> | ->]; lia ].
    destruct (point_digits ds Hds 3%nat (buf +:+ String c "") (String "." (fs +:+ rest))
                (Some (String c ""))) as (state' & l' & Hs' & E); [auto|].
    rewrite E.
    rewrite point_tail by first [assumption | destruct Hs' as [-> | [-> _]]; auto].
    now rewrite !append_assoc.
Qed.

(** [UnmarshalNumber] reads the text of a number with a point up to the
    delimiter. *)
Lemma UnmarshalNumber_point_text (t rest : string) (l : option string) :
  point_text t -> delimited rest ->
  UnmarshalNumber Digit {| bufio.unread := t +:+ rest; bufio.lastRune := l |} =
  (convertToNumber t, {| bufio.unread := rest; bufio.lastRune := None |}).
Proof.
  intros Ht Hr. change (UnmarshalNumber Digit) with (number_from Digit 0 "").
  destruct Ht as [ip fs Hip Hfs Hne | ip fs Hip Hfs Hne].
  - rewrite (point_unsigned 0%nat "" ip fs rest l) by auto. reflexivity.
  - simpl String.append at 1.
    rewrite (point_step 0%nat "" "-" _ l 1%nat) by first [reflexivity | lia].
    change (String "-" (ip +:+ "." +:+ fs)) with ("-" +:+ ip +:+ "." +:+ fs).
    apply (point_unsigned 1%nat) ; auto.
Qed.

End RoundTrip.

(** ** Strings: the decoder on the text of the encoder *)

Lemma ReadRune_decode (c : ascii) (s : string) (l : option string) (r : rune) (size : nat) :
  utf8.DecodeRune (String c s) = (r, size) ->
  bufio.ReadRune {| bufio.unread := String c s; bufio.lastRune := l |} =
  (Ok r, {| bufio.unread := drop size (String c s);
            bufio.lastRune := Some (take size (String c s)) |}).
Proof. intros D. unfold bufio.ReadRune. cbn [bufio.unread]. now rewrite D. Qed.

(** A loop that starts with a read does not depend on the rune that could
    be given back. *)
Lemma for_string_lastRune (st : string * bool) (s : string) (l l' : option string) :
  for_ UnmarshalString_body st {| bufio.unread := s; bufio.lastRune := l |} =
  for_ UnmarshalString_body st {| bufio.unread := s; bufio.lastRune := l' |}.
Proof.
  rewrite !string_for by exact I.
  replace (UnmarshalString_body st {| bufio.unread := s; bufio.lastRune := l |})
    with (UnmarshalString_body st {| bufio.unread := s; bufio.lastRune := l' |});
    [reflexivity|].
  destruct st as [sb backslash]. unfold UnmarshalString_body, bind, try, bufio.ReadRune.
  reflexivity.
Qed.

(** The two turns that read an escape. *)
Lemma escaped_turns (c : ascii) (sb X : string) (l : option string) :
  b2z c = rn dq \/ b2z c = rn "\" \/ b2z c = 8 \/ b2z c = 12 \/ b2z c = 10
  \/ b2z c = 13 \/ b2z c = 9 ->
  for_ UnmarshalString_body (sb, false)
    {| bufio.unread := escape_byte c +:+ X; bufio.lastRune := l |} =
  for_ UnmarshalString_body (sb +:+ String c "", false)
    {| bufio.unread := X; bufio.lastRune := None |}.
Proof.
  intros H.
  assert (Hc : c = dq \/ c = "\"%char \/ c = ascii_of_nat 8 \/ c = ascii_of_nat 12
               \/ c = ascii_of_nat 10 \/ c = ascii_of_nat 13 \/ c = ascii_of_nat 9).
  { repeat destruct H as [H|H]; [left | right; left | right; right; left
      | right; right; right; left | right; right; right; right; left
      | right; right; right; right; right; left
      | right; right; right; right; right; right]; apply b2z_inj; rewrite H; reflexivity. }
  clear H.
  repeat destruct Hc as [Hc|Hc]; subst c;
    cbn [escape_byte]; simpl String.append;
    rewrite string_for by exact I; rewrite UnmarshalString_body_backslash;
    rewrite string_for by exact I;
    unfold UnmarshalString_body at 1; unfold bind, try;
    rewrite ReadRune_ascii by (vm_compute; reflexivity);
    cbv beta iota; simpl; apply for_string_lastRune.
Qed.

Lemma escape_rune_special (r : rune) (c : ascii) :
  r = b2z c ->
  escape_rune r <> utf8.EncodeRune r ->
  escape_rune r = escape_byte c /\
  (b2z c = rn dq \/ b2z c = rn "\" \/ b2z c = 8 \/ b2z c = 12 \/ b2z c = 10
   \/ b2z c = 13 \/ b2z c = 9).
Proof.
  intros -> H. unfold escape_rune, escape_byte in *.
  repeat match type of H with
         | context [if ?x =? ?y then _ else _] =>
           destruct (Z.eqb_spec x y); [split; [reflexivity | tauto] |]
         end.
  congruence.
Qed.

Lemma escape_rune_plain (r : rune) :
  escape_rune r = utf8.EncodeRune r \/ r < 0x80.
Proof.
  unfold escape_rune, rn.
  repeat match goal with
         | |- context [if ?x =? ?y then _ else _] =>
           destruct (Z.eqb_spec x y) as [->|?]; [right; reflexivity|]
         end.
  now left.
Qed.

Lemma string_loop_round_trip (fuel : nat) :
  forall (s sb rest : string) (l : option string),
    (String.length s <= fuel)%nat ->
    utf8.valid_fuel fuel s = true ->
    for_ UnmarshalString_body (sb, false)
      {| bufio.unread := escape (utf8.runes_fuel fuel s) +:+ DQ +:+ rest;
         bufio.lastRune := l |} =
    (Ok (sb +:+ s), {| bufio.unread := rest; bufio.lastRune := Some DQ |}).
Proof.
  induction fuel as [|fuel IH]; intros s sb rest l Hl Hv.
  - destruct s; [|simpl in Hl; lia]. simpl.
    rewrite string_for by exact I. unfold DQ. simpl String.append.
    rewrite UnmarshalString_body_quote. now rewrite append_nil_r.
  - destruct s as [|c s].
    { simpl. rewrite string_for by exact I. unfold DQ. simpl String.append.
      rewrite UnmarshalString_body_quote. now rewrite append_nil_r. }
    cbn [utf8.valid_fuel utf8.runes_fuel] in *.
    destruct (utf8.DecodeRune (String c s)) as [r size] eqn:D.
    apply andb_prop in Hv as [Hv1 Hv2]. apply negb_true_iff in Hv1.
    pose proof (DecodeRune_size c s) as Hs. rewrite D in Hs. cbn [snd] in Hs.
    pose proof (DecodeRune_decoded _ _ _ _ D) as Dd.
    assert (Hone : size = 1%nat -> r <> utf8.RuneError).
    { intros -> ->. now rewrite Z.eqb_refl, Nat.eqb_refl in Hv1. }
    assert (Hasc : size = 1%nat -> b2z c < 0x80).
    { intros ->. inversion Dd; subst; [assumption | now exfalso; apply Hone]. }
    pose proof (EncodeRune_DecodeRune _ _ _ _ D Hasc) as HE.
    assert (Hlen : (String.length (drop size (String c s)) <= fuel)%nat).
    { rewrite length_drop. simpl in *. lia. }
    cbn [escape]. rewrite append_assoc.
    set (X := escape (utf8.runes_fuel fuel (drop size (String c s))) +:+ DQ +:+ rest).
    assert (Hrec : forall sb' l',
      for_ UnmarshalString_body (sb', false) {| bufio.unread := X; bufio.lastRune := l' |} =
      (Ok (sb' +:+ drop size (String c s)),
       {| bufio.unread := rest; bufio.lastRune := Some DQ |})).
    { intros. apply IH; assumption. }
    destruct (string_dec (escape_rune r) (utf8.EncodeRune r)) as [Hplain | Hspecial].
    + (* the rune is written as it is *)
      rewrite Hplain, HE.
      rewrite string_for by exact I.
      assert (D' : utf8.DecodeRune (take size (String c s) +:+ X) = (r, size))
        by now apply DecodeRune_app.
      assert (Hne : r <> rn "\" /\ r <> rn dq).
      { split; intros ->; unfold escape_rune in Hplain; simpl in Hplain;
          vm_compute in Hplain; discriminate. }
      destruct Hne as [Hb Hq].
      destruct (take size (String c s) +:+ X) as [|c' s'] eqn:T.
      { exfalso. destruct size; [lia|]. simpl in T. discriminate. }
      unfold UnmarshalString_body, bind, try. rewrite (ReadRune_decode _ _ _ _ _ D').
      apply Z.eqb_neq in Hb, Hq. rewrite Hb, Hq. unfold ret.
      rewrite <- T.
      rewrite drop_app, take_app by (rewrite length_take; lia).
      replace (drop size (take size (String c s))) with ""
        by (symmetry; clear; revert size; generalize (String c s);
            intros u size; revert u; induction size; intros [|a u]; simpl; auto).
      simpl String.append.
      unfold Builder.WriteRune. rewrite HE.
      fold X. rewrite Hrec. now rewrite append_assoc, take_drop.
    + (* one of the seven escaped bytes *)
      destruct (escape_rune_plain r) as [Hplain | Hlow]; [contradiction|].
      destruct (DecodeRune_below_RuneSelf _ _ _ _ D) as [_ Hb].
      destruct (Hb Hlow) as [-> ->]. simpl drop in *.
      destruct (escape_rune_special (b2z c) c eq_refl Hspecial) as [-> Hc].
      rewrite escaped_turns by exact Hc.
      rewrite Hrec. now rewrite append_assoc.
Qed.

(** ** The round trip, value by value *)

(** Induction on a value with the premise for the elements of an array. *)
Lemma Value_elements_ind (P : Value -> Prop) :
  P Null ->
  (forall b, P (Bool b)) ->
  (forall n, P (Integer n)) ->
  (forall f, P (Float f)) ->
  (forall s, P (String_ s)) ->
  (forall values, Forall P values -> P (Array values)) ->
  (forall object, P (Object object)) ->
  forall v, P v.
Proof.
  intros HNull HBool HInt HFloat HStr HArr HObj.
  fix IH 1. intros [ | b | n | f | s | values | object ].
  - exact HNull.
  - apply HBool.
  - apply HInt.
  - apply HFloat.
  - apply HStr.
  - apply HArr. induction values as [|v values IHv]; constructor; [apply IH | exact IHv].
  - apply HObj.
Qed.

Lemma int_text_starter (t : string) : int_text t -> starter t.
Proof.
  assert (D : forall c, strconv.isDigitByte c = true ->
                        ws_byte c = false /\ b2z c <> rn "]" /\ b2z c < 0x80).
  { intros c Hc. apply isDigitByte_range in Hc. unfold rn in *.
    change (b2z "0") with 48 in Hc. change (b2z "9") with 57 in Hc.
    change (b2z "]") with 93.
    unfold ws_byte, isJsonWhitespace, rn.
    change (b2z " ") with 32.
    repeat split; lia. }
  intros [| c ds Hc _ _ | c ds Hc _ _]; cbn [starter].
  - apply D. reflexivity.
  - apply D. exact Hc.
  - repeat split; vm_compute; try reflexivity; discriminate.
Qed.

Section Values.

Variable Digit : unicode.RangeTable.

(** [UnmarshalValue] on a text that starts with the first byte of a value:
    the production that the byte selects, then the whitespace after it. *)
Lemma UnmarshalValue_start (d : nat) (c : ascii) (s : string) (l : option string)
  (production : Parser Value) :
  starter (String c s) ->
  dispatch Digit (UnmarshalValue Digit d) (b2z c) = Some production ->
  UnmarshalValue Digit (S d) {| bufio.unread := String c s; bufio.lastRune := l |} =
  let '(res, b4) := production {| bufio.unread := String c s; bufio.lastRune := None |} in
  (res, {| bufio.unread := skip_ws (bufio.unread b4); bufio.lastRune := None |}).
Proof.
  intros (Hw & _ & Ha) Hd. cbn [UnmarshalValue].
  rewrite UnmarshalValue_body_eq. cbn [bufio.unread].
  rewrite (skip_ws_no_ws _ _ Hw). cbv zeta. cbn [bufio.unread].
  rewrite DecodeRune_ascii by exact Ha. cbn [fst]. now rewrite Hd.
Qed.

Lemma dispatch_ascii (value : Parser Value) (c : ascii) :
  dispatch Digit value (b2z c) =
  if b2z c =? rn dq then Some (s <- UnmarshalString ;; ret (String_ s))
  else if strconv.isDigitByte c || (b2z c =? rn "-") then Some (UnmarshalNumber Digit)
  else if b2z c =? rn "{" then
    Some (object <- UnmarshalObject value ;; ret (Object object))
  else if b2z c =? rn "[" then
    Some (values <- UnmarshalArray value ;; ret (Array values))
  else if b2z c =? rn "t" then Some UnmarshalTrue
  else if b2z c =? rn "f" then Some UnmarshalFalse
  else if b2z c =? rn "n" then Some UnmarshalNull
  else None.
Proof. unfold dispatch. now rewrite IsDigit_byte. Qed.

Lemma encodes_deeper (d0 d1 : nat) (v : Value) (t : string) :
  (d0 <= d1)%nat -> encodes Digit d0 v t -> encodes Digit d1 v t.
Proof.
  intros Hd (Hm & Hs & Hu). split; [exact Hm | split; [exact Hs|]].
  intros d rest l Hle Hr. apply Hu; [lia | assumption].
Qed.

Lemma encodes_Null : encodes Digit 1 Null "null".
Proof.
  split; [|split].
  - intros w Hw. cbn [MarshalValue]. unfold andThen, MarshalNull, andThen.
    rewrite WriteString_ok by exact Hw. reflexivity.
  - repeat split; vm_compute; try reflexivity; discriminate.
  - intros [|d] rest l Hd Hr; [lia|].
    simpl String.append.
    rewrite (UnmarshalValue_start d _ _ _ UnmarshalNull);
      [| repeat split; vm_compute; try reflexivity; discriminate
       | rewrite dispatch_ascii; reflexivity ].
    unfold UnmarshalNull, bufio.Read. cbn.
    now rewrite delimited_skip_ws.
Qed.

Lemma encodes_Bool (value : bool) :
  encodes Digit 1 (Bool value) (if value then "true" else "false").
Proof.
  split; [|split].
  - intros w Hw. cbn [MarshalValue]. unfold MarshalBoolean, andThen.
    destruct value; rewrite WriteString_ok by exact Hw; reflexivity.
  - destruct value; repeat split; vm_compute; try reflexivity; discriminate.
  - intros [|d] rest l Hd Hr; [lia|].
    destruct value; simpl String.append.
    + rewrite (UnmarshalValue_start d _ _ _ UnmarshalTrue);
        [| repeat split; vm_compute; try reflexivity; discriminate
         | rewrite dispatch_ascii; reflexivity ].
      unfold UnmarshalTrue, bufio.Read. cbn.
      now rewrite delimited_skip_ws.
    + rewrite (UnmarshalValue_start d _ _ _ UnmarshalFalse);
        [| repeat split; vm_compute; try reflexivity; discriminate
         | rewrite dispatch_ascii; reflexivity ].
      unfold UnmarshalFalse, bufio.Read. cbn.
      now rewrite delimited_skip_ws.
Qed.

Lemma encodes_Integer (i : Z) :
  - 2 ^ 63 <= i < 2 ^ 63 -> encodes Digit 1 (Integer i) (strconv.FormatInt i).
Proof.
  intros Hi. destruct (FormatInt_ParseInt i Hi) as [Ht _].
  pose proof (int_text_starter _ Ht) as Hs.
  split; [|split].
  - intros w Hw. cbn [MarshalValue].
    unfold MarshalNumber_int64, MarshalNumber_write, andThen.
    rewrite WriteString_ok by exact Hw. reflexivity.
  - exact Hs.
  - intros [|d] rest l Hd Hr; [lia|].
    pose proof (UnmarshalNumber_int_text Digit _ rest None Ht Hr) as Hn.
    rewrite (convertToNumber_int i Hi) in Hn.
    destruct (strconv.FormatInt i) as [|c s] eqn:F; [contradiction|].
    simpl String.append in *.
    rewrite (UnmarshalValue_start d _ _ _ (UnmarshalNumber Digit)).
    + rewrite Hn. cbn [bufio.unread]. now rewrite delimited_skip_ws.
    + exact Hs.
    + rewrite dispatch_ascii.
      assert (Hc : strconv.isDigitByte c || (b2z c =? rn "-") = true).
      { inversion Ht as [| c' ds Hc' _ _ | c' ds Hc' _ _]; subst; try reflexivity.
        now rewrite Hc'. }
      rewrite Hc.
      destruct (b2z c =? rn dq) eqn:Q; [|reflexivity].
      apply Z.eqb_eq in Q. apply orb_prop in Hc as [Hc|Hc].
      * apply isDigitByte_range in Hc. rewrite Q in Hc. vm_compute in Hc.
        destruct Hc as [Hc _]. now exfalso; apply Hc.
      * apply Z.eqb_eq in Hc. rewrite Q in Hc. discriminate.
Qed.

Lemma point_text_first (t : string) :
  point_text t ->
  exists c s, t = String c s /\ strconv.isDigitByte c || (b2z c =? rn "-") = true.
Proof.
  intros [ip fs Hip _ _ | ip fs Hip _ _].
  - destruct Hip as [| c ds Hc _ _]; simpl String.append.
    + eexists _, _. split; reflexivity.
    + eexists _, _. split; [reflexivity | now rewrite Hc].
  - eexists _, _. split; reflexivity.
Qed.

Lemma number_first_starter (c : ascii) (s : string) :
  strconv.isDigitByte c || (b2z c =? rn "-") = true -> starter (String c s).
Proof.
  intros H. cbn [starter]. unfold ws_byte, isJsonWhitespace, rn.
  change (b2z " ") with 32. change (b2z "]") with 93.
  apply orb_prop in H as [H|H].
  - apply isDigitByte_range in H. unfold rn in H. change (b2z "0") with 48 in H.
    repeat split; lia.
  - apply Z.eqb_eq in H. unfold rn in H. change (b2z "-") with 45 in H.
    repeat split; lia.
Qed.

Lemma dispatch_number_first (value : Parser Value) (c : ascii) :
  strconv.isDigitByte c || (b2z c =? rn "-") = true ->
  dispatch Digit value (b2z c) = Some (UnmarshalNumber Digit).
Proof.
  intros Hc. rewrite dispatch_ascii. rewrite Hc.
  destruct (b2z c =? rn dq) eqn:Q; [|reflexivity].
  apply Z.eqb_eq in Q. apply orb_prop in Hc as [Hc|Hc].
  - apply isDigitByte_range in Hc. rewrite Q in Hc. vm_compute in Hc.
    destruct Hc as [Hc _]. now exfalso; apply Hc.
  - apply Z.eqb_eq in Hc. rewrite Q in Hc. discriminate.
Qed.

Lemma encodes_Float (f : strconv.float64) :
  ContainsAny (strconv.FormatFloat f) ".eE" = true -> read_back f = true ->
  encodes Digit 1 (Float f) (strconv.FormatFloat f).
Proof.
  intros Hp Hr. pose proof (FormatFloat_point_text f Hp) as Ht.
  destruct (point_text_first _ Ht) as (c & s & E & Hc).
  pose proof (number_first_starter c s Hc) as Hs.
  split; [|split].
  - intros w Hw. cbn [MarshalValue].
    unfold MarshalNumber_float64, MarshalNumber_write, andThen.
    rewrite WriteString_ok by exact Hw. reflexivity.
  - rewrite E. exact Hs.
  - intros [|d] rest l Hd Hrest; [lia|].
    pose proof (UnmarshalNumber_point_text Digit _ rest None Ht Hrest) as Hn.
    rewrite (convertToNumber_float f Hp Hr) in Hn.
    rewrite E in *. simpl String.append in *.
    rewrite (UnmarshalValue_start d c (s +:+ rest) l (UnmarshalNumber Digit) Hs
               (dispatch_number_first _ c Hc)).
    rewrite Hn. cbn [bufio.unread]. now rewrite delimited_skip_ws.
Qed.

Lemma encodes_String (s : string) :
  utf8.ValidString s = true ->
  encodes Digit 1 (String_ s) (DQ +:+ escape (utf8.runes s) +:+ DQ).
Proof.
  intros Hv. split; [|split].
  - intros w Hw. cbn [MarshalValue]. now apply MarshalString_ok.
  - repeat split; vm_compute; try reflexivity; discriminate.
  - intros [|d] rest l Hd Hr; [lia|].
    unfold DQ at 1. simpl String.append.
    rewrite (UnmarshalValue_start d _ _ _ (s <- UnmarshalString ;; ret (String_ s)));
      [| repeat split; vm_compute; try reflexivity; discriminate
       | rewrite dispatch_ascii; reflexivity ].
    unfold bind. rewrite UnmarshalString_open.
    rewrite append_assoc.
    unfold utf8.runes. rewrite string_loop_round_trip; [| lia | exact Hv].
    unfold ret. cbn [bufio.unread]. simpl String.append.
    now rewrite delimited_skip_ws.
Qed.

(** *** Arrays *)

Lemma MarshalArray_range_join (values : list Value) :
  forall (ts : list string) (len i : nat) (w : bufio.Writer),
    Forall2 (fun v t => forall w, bufio.err w = None ->
               MarshalValue v w =
               (None, {| bufio.written := bufio.written w +:+ t; bufio.err := None |}))
            values ts ->
    (i + List.length values = len)%nat ->
    bufio.err w = None ->
    MarshalArray_range MarshalValue len i values w =
    (None, {| bufio.written := bufio.written w +:+ join ts; bufio.err := None |}).
Proof.
  induction values as [|v values IH]; intros ts len i w HF Hlen Hw.
  - inversion HF; subst. simpl. unfold noError. rewrite append_nil_r.
    destruct w; simpl in *; now subst.
  - inversion HF as [| v' t values' ts' Hv HF' ]; subst.
    cbn [MarshalArray_range]. unfold andThen at 1. rewrite (Hv w Hw).
    destruct values as [|v2 values].
    + inversion HF'; subst. simpl in *.
      replace (i <? i + 1 - 1)%nat with false by (symmetry; apply Nat.ltb_ge; lia).
      reflexivity.
    + inversion HF' as [| v2' t2 values2 ts2 Hv2 HF2 ]; subst.
      replace (i <? i + List.length (v2 :: v2 :: values) - 1)%nat with true
        by (symmetry; apply Nat.ltb_lt; simpl; lia).
      replace (i <? i + List.length (v :: v2 :: values) - 1)%nat with true
        by (symmetry; apply Nat.ltb_lt; simpl; lia).
      unfold andThen at 1. unfold bufio.WriteByte. rewrite WriteString_ok by reflexivity.
      rewrite (IH (t2 :: ts2) _ (S i)); [| exact HF' | simpl in *; lia | reflexivity].
      cbn [bufio.written join]. now rewrite !append_assoc.
Qed.

Lemma array_for (value : Parser Value) (H : consuming value)
  (s : nat * list Value) (b : bufio.Reader) :
  always s b ->
  for_ (UnmarshalArray_body value) s b =
  (let (r, b') := UnmarshalArray_body value s b in
   match r with
   | Ok (Continue s') => for_ (UnmarshalArray_body value) s' b'
   | Ok (Break a) => (Ok a, b')
   | Err e => (Err e, b')
   | OutOfFuel => (OutOfFuel, b')
   end).
Proof.
  exact (for_unfold always (UnmarshalArray_body value)
           (UnmarshalArray_body_advances value H) s b).
Qed.

Lemma array_loop_round_trip (d : nat) (rest : string) (ts : list string) :
  forall (vs acc : list Value) (l : option string),
    Forall2 (fun v t => starter t /\
               forall rest l, delimited rest ->
                 UnmarshalValue Digit d {| bufio.unread := t +:+ rest; bufio.lastRune := l |} =
                 (Ok v, {| bufio.unread := rest; bufio.lastRune := None |}))
            vs ts ->
    ts <> [] ->
    for_ (UnmarshalArray_body (UnmarshalValue Digit d)) (1%nat, acc)
      {| bufio.unread := join ts +:+ "]" +:+ rest; bufio.lastRune := l |} =
    (Ok (acc ++ vs)%list, {| bufio.unread := rest; bufio.lastRune := Some "]" |}).
Proof.
  pose proof (array_for _ (UnmarshalValue_consuming Digit d)) as U.
  induction ts as [|t ts IH]; intros vs acc l HF Hne; [congruence|].
  inversion HF as [| v t' vs' ts' [Hs Hv] HF' ]; subst.
  (* the turn that reads the value *)
  assert (Turn : forall tail, delimited tail ->
            for_ (UnmarshalArray_body (UnmarshalValue Digit d)) (1%nat, acc)
              {| bufio.unread := t +:+ tail; bufio.lastRune := l |} =
            for_ (UnmarshalArray_body (UnmarshalValue Digit d)) (2%nat, (acc ++ [v])%list)
              {| bufio.unread := tail; bufio.lastRune := None |}).
  { intros tail Ht. rewrite U by exact I.
    specialize (Hv tail None Ht).
    destruct t as [|c t]; [contradiction|]. destruct Hs as (Hw & Hb & Ha).
    simpl String.append in *.
    unfold UnmarshalArray_body at 1. unfold bind, try.
    rewrite ReadRune_ascii by exact Ha. cbn [Nat.eqb].
    unfold ws_byte in Hw. rewrite Hw.
    apply Z.eqb_neq in Hb. rewrite Hb.
    unfold bufio.UnreadRune. cbn [bufio.lastRune bufio.unread].
    simpl String.append. rewrite Hv. reflexivity. }
  destruct ts as [|t2 ts].
  - inversion HF'; subst. cbn [join].
    rewrite Turn by (simpl; right; reflexivity).
    rewrite U by exact I. simpl String.append.
    unfold UnmarshalArray_body, bind, try.
    rewrite ReadRune_ascii by (vm_compute; reflexivity). reflexivity.
  - change (join (t :: t2 :: ts)) with (t +:+ "," +:+ join (t2 :: ts)).
    rewrite !append_assoc.
    rewrite Turn by (simpl; left; reflexivity).
    set (X := join (t2 :: ts) +:+ "]" +:+ rest).
    rewrite U by exact I.
    change ("," +:+ X) with (String "," X).
    unfold UnmarshalArray_body at 1. unfold bind, try.
    rewrite ReadRune_ascii by (vm_compute; reflexivity).
    cbn [Nat.eqb]. change (b2z "," =? rn ",") with true. cbv beta iota.
    unfold ret at 1. cbv beta iota. subst X.
    rewrite (IH vs' (acc ++ [v])%list); [| exact HF' | discriminate].
    now rewrite <- app_assoc.
Qed.

Lemma encodes_Array (d0 : nat) (values : list Value) (ts : list string) :
  Forall2 (encodes Digit d0) values ts ->
  encodes Digit (S d0) (Array values) ("[" +:+ join ts +:+ "]").
Proof.
  intros HF. split; [|split].
  - intros w Hw. cbn [MarshalValue]. unfold MarshalArray, andThen at 1.
    unfold bufio.WriteByte. rewrite WriteString_ok by exact Hw.
    unfold andThen at 1.
    rewrite (MarshalArray_range_join values ts _ 0); [| | reflexivity | reflexivity].
    + unfold andThen, noError. rewrite WriteString_ok by reflexivity.
      cbn [bufio.written]. now rewrite !append_assoc.
    + eapply Forall2_impl; [exact HF|]. intros v t (Hm & _). exact Hm.
  - repeat split; vm_compute; try reflexivity; discriminate.
  - intros [|d] rest l Hd Hr; [lia|].
    simpl String.append.
    rewrite (UnmarshalValue_start d _ _ _
               (values <- UnmarshalArray (UnmarshalValue Digit d) ;; ret (Array values)));
      [| repeat split; vm_compute; try reflexivity; discriminate
       | rewrite dispatch_ascii; reflexivity ].
    unfold bind, UnmarshalArray.
    rewrite (array_for _ (UnmarshalValue_consuming Digit d)) by exact I.
    unfold UnmarshalArray_body at 1. unfold bind, try.
    rewrite ReadRune_ascii by (vm_compute; reflexivity). cbn [Nat.eqb].
    change (b2z "[" =? rn "[") with true. cbv beta iota. unfold ret at 1.
    cbv beta iota.
    destruct ts as [|t ts].
    + inversion HF; subst. cbn [join]. simpl String.append.
      assert (E : for_ (UnmarshalArray_body (UnmarshalValue Digit d)) (1%nat, [])
                    {| bufio.unread := String "]" rest; bufio.lastRune := Some "[" |} =
                  (Ok [], {| bufio.unread := rest; bufio.lastRune := Some "]" |})).
      { rewrite (array_for _ (UnmarshalValue_consuming Digit d)) by exact I.
        unfold UnmarshalArray_body, bind, try.
        rewrite ReadRune_ascii by (vm_compute; reflexivity). reflexivity. }
      rewrite E. unfold ret. cbn [bufio.unread].
      now rewrite delimited_skip_ws.
    + rewrite append_assoc.
      rewrite (array_loop_round_trip d rest (t :: ts) values []); [| | discriminate].
      * unfold ret. cbn [bufio.unread app]. now rewrite delimited_skip_ws.
      * eapply Forall2_impl; [exact HF|]. intros v t' (_ & Hs & Hu). split; [exact Hs|].
        intros rest' l' Hr'. apply Hu; [lia | exact Hr'].
Qed.

(** Every plain value has a text that the encoder writes and the decoder
    reads back. *)
Lemma plain_encodes (v : Value) :
  plain v = true -> exists d0 t, encodes Digit d0 v t.
Proof.
  induction v as [ | b | n | f | s | values IH | object ] using Value_elements_ind;
    cbn [plain]; intros Hp; try discriminate.
  - exists 1%nat, "null". apply encodes_Null.
  - exists 1%nat, (if b then "true" else "false"). apply encodes_Bool.
  - exists 1%nat, (strconv.FormatInt n). apply encodes_Integer.
    apply andb_prop in Hp as [H1 H2]. apply Z.leb_le in H1. apply Z.ltb_lt in H2. lia.
  - apply andb_prop in Hp as [H1 H2].
    exists 1%nat, (strconv.FormatFloat f). now apply encodes_Float.
  - exists 1%nat, (DQ +:+ escape (utf8.runes s) +:+ DQ). now apply encodes_String.
  - assert (H : exists d0 ts, Forall2 (encodes Digit d0) values ts).
    { induction values as [|v values IHvs].
      - exists 0%nat, []. constructor.
      - cbn [forallb] in Hp. apply andb_prop in Hp as [Hv Hvs].
        inversion IH as [| v' values' Pv Pvs ]; subst.
        destruct (Pv Hv) as (d1 & t & Ht).
        destruct (IHvs Pvs Hvs) as (d2 & ts & Hts).
        exists (Nat.max d1 d2), (t :: ts). constructor.
        + eapply encodes_deeper; [|exact Ht]. lia.
        + eapply Forall2_impl; [exact Hts|]. intros v0 t0 H0.
          eapply encodes_deeper; [|exact H0]. lia. }
    destruct H as (d0 & ts & HF).
    exists (S d0), ("[" +:+ join ts +:+ "]"). now apply encodes_Array.
Qed.

(** The round trip over a stream: a value with no object
    at any depth, whose integers are [int64], whose floats have a point in
    their text and are read back by [strconv], and whose strings
    are UTF-8, comes back from the text the encoder writes for it. *)
Lemma round_trip_of_plain_values (v : Value) :
  plain v = true ->
  exists text, encode v = (None, text) /\ decode Digit text = Ok v.
Proof.
  intros Hp. destruct (plain_encodes v Hp) as (d0 & t & Hm & _ & Hu).
  exists t. split.
  - unfold encode. rewrite Hm by reflexivity. reflexivity.
  - pose proof (decode_total Digit t) as Ht. unfold decode, decode_reader in *.
    destruct (UnmarshalValue Digit (S (String.length t)) (bufio.NewReader t))
      as [res b'] eqn:E. cbn [fst] in *.
    pose proof (UnmarshalValue_deeper Digit (S (String.length t))
                  (Nat.max d0 (S (String.length t))) ltac:(lia) _ _ _ E Ht) as E'.
    specialize (Hu (Nat.max d0 (S (String.length t))) "" None ltac:(lia) I).
    rewrite append_nil_r in Hu. unfold bufio.NewReader in E'.
    rewrite Hu in E'. congruence.
Qed.

End Values.

End StreamFacts.

Import StreamFacts.

(** * The decoder over the reader follows the decoder over a stream *)

(** ** The operations of the reader *)

Lemma sound_NewReader (text : string) : sound (bufio.NewReader text).
Proof. split; cbn; unfold utf8.UTFMax; lia. Qed.

Lemma held_sound (b : bufio.Reader) : held b -> sound b.
Proof. now intros [H _]. Qed.

Lemma held_NewReader (text : string) :
  (String.length text <= bufio.defaultBufSize)%nat -> held (bufio.NewReader text).
Proof.
  intros H. split; [apply sound_NewReader|]. cbn.
  unfold bufio.defaultBufSize, bufio.minReadBufferSize in *. split; [lia | auto].
Qed.

(** [ReadRune] decodes the first rune of the stream.  [a] is the number of
    bytes in the buffer after the loop that fills it. *)
Lemma ReadRune_shape (b : bufio.Reader) :
  sound b ->
  exists a : nat,
    (a <= String.length (bufio.unread b))%nat /\
    (held b -> a = String.length (bufio.unread b)) /\
    bufio.ReadRune b =
    match bufio.unread b with
    | "" =>
      (Err EOF,
       {| bufio.unread := ""; bufio.avail := a; bufio.size := bufio.size b;
          bufio.lastRune := None |})
    | String _ _ =>
      let '(r, n) := utf8.DecodeRune (bufio.unread b) in
      (Ok r,
       {| bufio.unread := drop n (bufio.unread b); bufio.avail := a - n;
          bufio.size := bufio.size b;
          bufio.lastRune := Some (take n (bufio.unread b)) |})
    end.
Proof.
  intros [Hsz Ha]. unfold bufio.ReadRune. cbv zeta.
  set (b1 := if (bufio.avail b <? utf8.UTFMax)%nat
                && negb (utf8.FullRune (take (bufio.avail b) (bufio.unread b)))
                && (bufio.avail b <? bufio.size b)%nat
              then bufio.fill b else b).
  assert (H1 : bufio.unread b1 = bufio.unread b /\ bufio.size b1 = bufio.size b /\
               (bufio.avail b1 <= String.length (bufio.unread b))%nat /\
               ((4 <= bufio.avail b1)%nat
                \/ utf8.FullRune (take (bufio.avail b1) (bufio.unread b)) = true
                \/ (String.length (bufio.unread b) <= bufio.avail b1)%nat) /\
               (held b -> bufio.avail b1 = String.length (bufio.unread b))).
  { subst b1. unfold utf8.UTFMax in *.
    destruct ((bufio.avail b <? 4)%nat
              && negb (utf8.FullRune (take (bufio.avail b) (bufio.unread b)))
              && (bufio.avail b <? bufio.size b)%nat) eqn:C.
    - unfold bufio.fill. cbn. repeat split; try lia.
      intros (_ & Hfit & Hall).
      assert (String.length (bufio.unread b) <= bufio.size b)%nat
        by (destruct (bufio.lastRune b); lia).
      destruct Hall as [Hall | [Hall _]]; lia.
    - repeat split; try assumption.
      + apply andb_false_iff in C as [C|C]; [apply andb_false_iff in C as [C|C]|].
        * left. apply Nat.ltb_ge in C. exact C.
        * right. left. now apply negb_false_iff in C.
        * left. apply Nat.ltb_ge in C. lia.
      + intros (_ & Hfit & [Hall | [Hall Hl]]); [exact Hall|].
        rewrite Hall in C. cbn in C. destruct (bufio.size b); [lia | discriminate]. }
  destruct H1 as (Hu & Hs & Hle & Hdec & Hheld).
  exists (bufio.avail b1). split; [exact Hle|]. split; [exact Hheld|].
  rewrite Hu, Hs.
  pose proof (DecodeRune_buffered _ _ Hdec) as Dec.
  destruct (take (bufio.avail b1) (bufio.unread b)) as [|c p] eqn:T.
  - assert (E : bufio.unread b = "").
    { destruct Hdec as [H | [H | H]].
      - apply take_empty in T as [T|T]; [lia | exact T].
      - discriminate H.
      - rewrite take_beyond in T by exact H. exact T. }
    now rewrite E.
  - destruct (bufio.unread b) as [|c' s] eqn:U.
    { destruct (bufio.avail b1); discriminate. }
    assert (D : (if b2z c <? utf8.RuneSelf then (b2z c, 1%nat)
                 else utf8.DecodeRune (String c p)) = utf8.DecodeRune (String c' s)).
    { rewrite <- Dec. destruct (b2z c <? utf8.RuneSelf) eqn:A; [|reflexivity].
      apply Z.ltb_lt in A. symmetry. now apply DecodeRune_ascii. }
    rewrite D. reflexivity.
Qed.

(** [Read] hands out the bytes asked for when the buffer holds the text. *)
Lemma Read_shape (n : nat) (b : bufio.Reader) :
  held b ->
  bufio.Read n b =
  match bufio.unread b with
  | "" => (Err EOF, b)
  | String _ _ =>
    (Ok (take n (bufio.unread b)),
     {| bufio.unread := drop n (bufio.unread b);
        bufio.avail := String.length (drop n (bufio.unread b));
        bufio.size := bufio.size b; bufio.lastRune := None |})
  end.
Proof.
  intros ([Hsz Ha] & Hfit & Hall). unfold bufio.Read.
  assert (Hk : forall k, k = Nat.min n (String.length (bufio.unread b)) ->
               take k (bufio.unread b) = take n (bufio.unread b) /\
               drop k (bufio.unread b) = drop n (bufio.unread b) /\
               (String.length (bufio.unread b) - k)%nat
               = String.length (drop n (bufio.unread b))).
  { intros k ->. rewrite take_min, drop_min, length_drop. repeat split. lia. }
  destruct (bufio.avail b =? 0)%nat eqn:A.
  - apply Nat.eqb_eq in A. destruct (bufio.unread b) as [|c s] eqn:U; [reflexivity|].
    destruct (bufio.size b <=? n)%nat eqn:L.
    + apply Nat.leb_le in L. rewrite (drop_beyond n) by lia. reflexivity.
    + cbv zeta. rewrite (Nat.min_r (bufio.size b)) by lia.
      destruct (Hk _ eq_refl) as (-> & -> & ->). reflexivity.
  - apply Nat.eqb_neq in A. destruct Hall as [Hall | [Hall _]]; [|lia].
    destruct (bufio.unread b) as [|c s] eqn:U; [simpl in Hall; lia|].
    cbv zeta. rewrite Hall.
    destruct (Hk _ eq_refl) as (-> & -> & ->). reflexivity.
Qed.

Lemma ReadRune_stream (b : bufio.Reader) :
  sound b ->
  Stream.bufio.ReadRune (stream_of b) =
    (fst (bufio.ReadRune b), stream_of (snd (bufio.ReadRune b))) /\
  sound (snd (bufio.ReadRune b)) /\
  (held b -> held (snd (bufio.ReadRune b))).
Proof.
  intros Hs. destruct (ReadRune_shape b Hs) as (a & Ha & Hheld & ->).
  destruct Hs as [Hsz Hav].
  unfold Stream.bufio.ReadRune, stream_of. cbn [Stream.bufio.unread].
  destruct (bufio.unread b) as [|c s] eqn:U.
  - cbn [fst snd]. assert (a = 0%nat) as -> by (simpl in Ha; lia).
    split; [reflexivity|]. split; [split; cbn; [exact Hsz | lia]|].
    intros H. destruct H as ([_ _] & Hfit & _).
    split; [split; cbn; [exact Hsz | lia]|]. cbn. split; [lia | now left].
  - pose proof (DecodeRune_width (String c s)) as W.
    destruct (utf8.DecodeRune (String c s)) as [r n]. cbn [fst snd] in *.
    split; [reflexivity|]. split.
    + split; cbn; [exact Hsz|]. rewrite length_drop. cbn in *. lia.
    + intros H. specialize (Hheld H). destruct H as (_ & Hfit & _).
      rewrite U in Hfit.
      assert (Hlen : (String.length (String c s) <= bufio.size b)%nat)
        by (destruct (bufio.lastRune b); lia).
      split; [split; cbn; [exact Hsz | rewrite length_drop; cbn in *; lia]|].
      cbn. rewrite length_drop, length_take. cbn in *. split; [lia|]. left. lia.
Qed.

Lemma UnreadRune_stream (b : bufio.Reader) :
  Stream.bufio.UnreadRune (stream_of b) =
    (fst (bufio.UnreadRune b), stream_of (snd (bufio.UnreadRune b))) /\
  (sound b -> sound (snd (bufio.UnreadRune b))) /\
  (held b -> held (snd (bufio.UnreadRune b))).
Proof.
  unfold Stream.bufio.UnreadRune, bufio.UnreadRune, stream_of.
  cbn [Stream.bufio.lastRune Stream.bufio.unread].
  destruct (bufio.lastRune b) as [bytes|] eqn:L; cbn [fst snd].
  - split; [reflexivity|]. split.
    + intros [Hsz Ha]. split; cbn; [exact Hsz|]. rewrite length_append. lia.
    + intros ([Hsz Ha] & Hfit & Hall). rewrite L in Hfit.
      split; [split; cbn; [exact Hsz | rewrite length_append; lia]|].
      cbn. rewrite length_append. split; [lia|].
      destruct Hall as [Hall | [_ Hl]]; [left; lia | congruence].
  - rewrite L. auto.
Qed.

(** ** Calls *)

Section Follows.

Variable I : bufio.Reader -> Prop.

Lemma ret_follows {A} (a : A) : follows I (ret a) (Stream.ret a).
Proof. intros b r b' Hb [= <- <-]. eexists. repeat split. exact Hb. Qed.

Lemma fail_follows {A} (e : error) : follows I (@fail A e) (Stream.fail e).
Proof. intros b r b' Hb [= <- <-]. eexists. repeat split. exact Hb. Qed.

Lemma try_follows {A} (p : Parser A) (q : Stream.Parser A) wrap :
  follows I p q -> follows I (try p wrap) (Stream.try q wrap).
Proof.
  intros H b r b' Hb E. unfold try in E. unfold Stream.try.
  destruct (p b) as [r1 b1] eqn:P.
  destruct (H _ _ _ Hb P) as (sb1 & -> & Ha & Hi).
  destruct r1 as [a|e|]; injection E as <- <-; eauto.
Qed.

Lemma bind_follows {A B} (p : Parser A) (q : Stream.Parser A)
  (k : A -> Parser B) (k' : A -> Stream.Parser B) :
  follows I p q -> (forall a, follows I (k a) (k' a)) ->
  follows I (bind p k) (Stream.bind q k').
Proof.
  intros Hp Hk b r b' Hb E. unfold bind in E. unfold Stream.bind.
  destruct (p b) as [r1 b1] eqn:P.
  destruct (Hp _ _ _ Hb P) as (sb1 & -> & Ha & Hi).
  destruct r1 as [a|e|].
  - cbn in Ha. subst sb1. eapply Hk; eauto.
  - injection E as <- <-. eauto.
  - injection E as <- <-. eauto.
Qed.

Lemma loop_follows {St A} (body : St -> Parser (step St A))
  (body' : St -> Stream.Parser (step St A)) :
  (forall s, follows I (body s) (body' s)) ->
  forall turns s, follows I (loop turns body s) (Stream.loop turns body' s).
Proof.
  intros Hb turns. induction turns as [|turns IH]; intros s b r b' Hi E.
  - cbn in *. injection E as <- <-. eexists. repeat split. exact Hi.
  - cbn in *. destruct (body s b) as [r1 b1] eqn:P.
    destruct (Hb _ _ _ _ Hi P) as (sb1 & -> & Ha & Hi1).
    destruct r1 as [[s'|a]|e|].
    + cbn in Ha. subst sb1. eapply IH; eauto.
    + injection E as <- <-. eauto.
    + injection E as <- <-. eauto.
    + injection E as <- <-. eauto.
Qed.

Lemma for_follows {St A} (body : St -> Parser (step St A))
  (body' : St -> Stream.Parser (step St A)) :
  (forall s, follows I (body s) (body' s)) ->
  forall s, follows I (for_ body s) (Stream.for_ body' s).
Proof.
  intros Hb s b r b' Hi E. unfold for_ in E. unfold Stream.for_.
  now apply (loop_follows body body' Hb _ s b r b' Hi).
Qed.

(** *** The calls that read runes only *)

Hypothesis I_sound : forall b, I b -> sound b.
Hypothesis I_ReadRune : forall b, I b -> I (snd (bufio.ReadRune b)).
Hypothesis I_UnreadRune : forall b, I b -> I (snd (bufio.UnreadRune b)).

Lemma ReadRune_follows : follows I bufio.ReadRune Stream.bufio.ReadRune.
Proof.
  intros b r b' Hb E. destruct (ReadRune_stream b (I_sound b Hb)) as (-> & _).
  pose proof (I_ReadRune b Hb) as Hi. rewrite E in *. cbn [fst snd] in *.
  eexists. split; [reflexivity|]. split; [|exact Hi]. destruct r; reflexivity.
Qed.

Lemma UnreadRune_follows : follows I bufio.UnreadRune Stream.bufio.UnreadRune.
Proof.
  intros b r b' Hb E. destruct (UnreadRune_stream b) as (-> & _).
  pose proof (I_UnreadRune b Hb) as Hi. rewrite E in *. cbn [fst snd] in *.
  eexists. split; [reflexivity|]. split; [|exact Hi]. destruct r; reflexivity.
Qed.

Lemma UnmarshalWhitespace_body_follows (u : unit) :
  follows I (UnmarshalWhitespace_body u) (Stream.UnmarshalWhitespace_body u).
Proof.
  intros b r b' Hb E. unfold UnmarshalWhitespace_body in E.
  unfold Stream.UnmarshalWhitespace_body.
  destruct (ReadRune_stream b (I_sound b Hb)) as (-> & _).
  pose proof (I_ReadRune b Hb) as Hi.
  destruct (bufio.ReadRune b) as [[r0|e|] b1]; cbn [fst snd] in *.
  - destruct (negb (isJsonWhitespace r0)); injection E as <- <-;
      eexists; repeat split; exact Hi.
  - destruct e; injection E as <- <-; eexists; repeat split; exact Hi.
  - injection E as <- <-. eexists. repeat split. exact Hi.
Qed.

Lemma UnmarshalWhitespace_follows :
  follows I UnmarshalWhitespace Stream.UnmarshalWhitespace.
Proof.
  unfold UnmarshalWhitespace, Stream.UnmarshalWhitespace.
  apply bind_follows; [apply for_follows, UnmarshalWhitespace_body_follows|].
  intros eof. destruct (negb eof);
    [apply try_follows, UnreadRune_follows | apply ret_follows].
Qed.

End Follows.

(** ** The decoder while the buffer holds the text *)

Lemma held_ReadRune (b : bufio.Reader) : held b -> held (snd (bufio.ReadRune b)).
Proof. intros H. exact (proj2 (proj2 (ReadRune_stream b (held_sound b H))) H). Qed.

Lemma held_UnreadRune (b : bufio.Reader) : held b -> held (snd (bufio.UnreadRune b)).
Proof. intros H. exact (proj2 (proj2 (UnreadRune_stream b)) H). Qed.

Lemma sound_ReadRune (b : bufio.Reader) : sound b -> sound (snd (bufio.ReadRune b)).
Proof. intros H. exact (proj1 (proj2 (ReadRune_stream b H))). Qed.

Lemma sound_UnreadRune (b : bufio.Reader) : sound b -> sound (snd (bufio.UnreadRune b)).
Proof. intros H. exact (proj1 (proj2 (UnreadRune_stream b)) H). Qed.

Lemma Read_follows (n : nat) : follows held (bufio.Read n) (Stream.bufio.Read n).
Proof.
  intros b r b' Hb E. rewrite (Read_shape n b Hb) in E.
  unfold Stream.bufio.Read, stream_of. cbn [Stream.bufio.unread].
  pose proof Hb as Hb0. destruct Hb as ([Hsz Ha] & Hfit & Hall).
  destruct (bufio.unread b) as [|c s] eqn:U; injection E as <- <-.
  - eexists. split; [reflexivity|]. split; [cbn; now rewrite U | exact Hb0].
  - eexists. split; [reflexivity|]. split; [reflexivity|].
    assert (Hlen : (String.length (String c s) <= bufio.size b)%nat)
      by (destruct (bufio.lastRune b); lia).
    split; [split; cbn; [exact Hsz | lia]|]. cbn [bufio.unread bufio.lastRune bufio.size bufio.avail].
    split; [|now left]. rewrite length_drop. lia.
Qed.

Lemma ReadRune_held : follows held bufio.ReadRune Stream.bufio.ReadRune.
Proof. exact (ReadRune_follows held held_sound held_ReadRune). Qed.

Lemma UnreadRune_held : follows held bufio.UnreadRune Stream.bufio.UnreadRune.
Proof. exact (UnreadRune_follows held held_UnreadRune). Qed.

Ltac same_with H := eexists; split; [reflexivity | split; [reflexivity | exact H]].

Ltac follows_step :=
  match goal with
  | H : follows held ?p ?q |- follows held ?p ?q => exact H
  | H : forall x, follows held (?p x) (?q x) |- follows held (?p _) (?q _) => apply H
  | |- forall _, _ => intro
  | |- follows held bufio.ReadRune _ => exact ReadRune_held
  | |- follows held bufio.UnreadRune _ => exact UnreadRune_held
  | |- follows held (ret _) _ => apply ret_follows
  | |- follows held (fail _) _ => apply fail_follows
  | |- follows held (if ?c then _ else _) _ => destruct c
  | |- follows held (try _ _) _ => apply try_follows
  | |- follows held (bind _ _) _ => apply bind_follows
  | |- follows held (for_ _ _) _ => apply for_follows
  end.

Ltac follows_tac := repeat follows_step.

Lemma literal_follows (p : Parser Value) (q : Stream.Parser Value) :
  (p = UnmarshalNull /\ q = Stream.UnmarshalNull)
  \/ (p = UnmarshalTrue /\ q = Stream.UnmarshalTrue)
  \/ (p = UnmarshalFalse /\ q = Stream.UnmarshalFalse) ->
  follows held p q.
Proof.
  intros [[-> ->] | [[-> ->] | [-> ->]]] b r b' Hb E;
    unfold UnmarshalNull, UnmarshalTrue, UnmarshalFalse in E;
    unfold Stream.UnmarshalNull, Stream.UnmarshalTrue, Stream.UnmarshalFalse;
    match type of E with context [bufio.Read ?n b] =>
      destruct (bufio.Read n b) as [r1 b1] eqn:R;
      destruct (Read_follows n _ _ _ Hb R) as (sb1 & -> & Ha & Hh)
    end;
    (destruct r1 as [v|e|];
     [ cbn in Ha; subst sb1;
       repeat match type of E with
              | context [if ?c then _ else _] => destruct c
              end;
       injection E as <- <-; same_with Hh
     | injection E as <- <-; eauto
     | injection E as <- <-; eauto ]).
Qed.

Lemma convertHexToUnicode_follows :
  follows held convertHexToUnicode Stream.convertHexToUnicode.
Proof.
  intros b r b' Hb E. unfold convertHexToUnicode in E. unfold Stream.convertHexToUnicode.
  destruct (bufio.Read 4 b) as [r1 b1] eqn:R.
  destruct (Read_follows 4 _ _ _ Hb R) as (sb1 & -> & Ha & Hh).
  destruct r1 as [v|e|].
  - cbn in Ha. subst sb1.
    destruct (negb (String.length v =? 4)%nat);
      [|destruct (strconv.ParseInt v 16 32) as [x [e|]]];
      injection E as <- <-; same_with Hh.
  - injection E as <- <-. eauto.
  - injection E as <- <-. eauto.
Qed.

Lemma UnmarshalString_body_follows (st : string * bool) :
  follows held (UnmarshalString_body st) (Stream.UnmarshalString_body st).
Proof.
  destruct st as [sb backslash]. unfold UnmarshalString_body, Stream.UnmarshalString_body.
  pose proof convertHexToUnicode_follows. follows_tac.
Qed.

Lemma UnmarshalString_follows : follows held UnmarshalString Stream.UnmarshalString.
Proof.
  unfold UnmarshalString, Stream.UnmarshalString.
  pose proof UnmarshalString_body_follows. follows_tac.
Qed.

Section Value.

Variable Digit : unicode.RangeTable.

Lemma UnmarshalNumber_body_follows (st : nat * string) :
  follows held (UnmarshalNumber_body Digit st) (Stream.UnmarshalNumber_body Digit st).
Proof.
  intros b r b' Hb E. unfold UnmarshalNumber_body in E.
  unfold Stream.UnmarshalNumber_body. destruct st as [state numberBuf].
  destruct (ReadRune_stream b (held_sound b Hb)) as (-> & _ & Hh).
  specialize (Hh Hb).
  destruct (bufio.ReadRune b) as [res b1]. cbn [fst snd] in *. cbv zeta in *.
  destruct res as [r0|e|].
  - destruct (UnmarshalNumber_switch state false r0 (unicode.IsDigit Digit r0))
      as [[state' validEnd] invalidTransition].
    destruct (validEnd || invalidTransition);
      injection E as <- <-; same_with Hh.
  - destruct e;
      try (injection E as <- <-; same_with Hh).
    destruct (UnmarshalNumber_switch state true 0 (unicode.IsDigit Digit 0))
      as [[state' validEnd] invalidTransition].
    destruct (validEnd || invalidTransition);
      injection E as <- <-; same_with Hh.
  - injection E as <- <-. same_with Hh.
Qed.

Lemma UnmarshalNumber_follows :
  follows held (UnmarshalNumber Digit) (Stream.UnmarshalNumber Digit).
Proof.
  unfold UnmarshalNumber, Stream.UnmarshalNumber.
  apply bind_follows; [apply for_follows, UnmarshalNumber_body_follows|].
  intros [[eof invalidTransition] numberBuf].
  destruct invalidTransition; [apply fail_follows|].
  apply bind_follows.
  - destruct (negb eof); follows_tac.
  - intros _ b r b' Hb [= <- <-]. eexists. split; [reflexivity|].
    split; [|exact Hb]. destruct (convertToNumber numberBuf); reflexivity.
Qed.

Section Containers.

Variable value : Parser Value.
Variable value' : Stream.Parser Value.
Hypothesis value_follows : follows held value value'.

Lemma UnmarshalArray_follows :
  follows held (UnmarshalArray value) (Stream.UnmarshalArray value').
Proof.
  unfold UnmarshalArray, Stream.UnmarshalArray. apply for_follows.
  intros [state values]. unfold UnmarshalArray_body, Stream.UnmarshalArray_body.
  follows_tac.
Qed.

Lemma UnmarshalObject_follows :
  follows held (UnmarshalObject value) (Stream.UnmarshalObject value').
Proof.
  unfold UnmarshalObject, Stream.UnmarshalObject. apply for_follows.
  intros [[state key] object]. unfold UnmarshalObject_body, Stream.UnmarshalObject_body.
  pose proof UnmarshalString_follows. follows_tac.
Qed.

Lemma dispatch_follows (r : rune) :
  match dispatch Digit value r, Stream.dispatch Digit value' r with
  | Some p, Some q => follows held p q
  | None, None => True
  | _, _ => False
  end.
Proof.
  unfold dispatch, Stream.dispatch.
  pose proof UnmarshalString_follows. pose proof UnmarshalNumber_follows.
  pose proof UnmarshalArray_follows. pose proof UnmarshalObject_follows.
  repeat match goal with
         | |- context [if ?c then _ else _] => destruct c
         end;
    try exact I; try (apply literal_follows; tauto); follows_tac.
Qed.

Lemma UnmarshalValue_body_follows :
  follows held (UnmarshalValue_body Digit value) (Stream.UnmarshalValue_body Digit value').
Proof.
  unfold UnmarshalValue_body, Stream.UnmarshalValue_body.
  apply bind_follows.
  { apply try_follows, UnmarshalWhitespace_follows;
      [exact held_sound | exact held_ReadRune | exact held_UnreadRune]. }
  intros _. apply bind_follows; [follows_tac|]. intros r.
  apply bind_follows; [follows_tac|]. intros _.
  pose proof (dispatch_follows r) as Hd.
  destruct (dispatch Digit value r) as [p|], (Stream.dispatch Digit value' r) as [q|];
    try contradiction; [|apply fail_follows].
  intros b res b' Hb E.
  destruct (p b) as [r1 b1] eqn:P.
  destruct (Hd _ _ _ Hb P) as (sb1 & -> & Ha & Hh).
  assert (W : follows held UnmarshalWhitespace Stream.UnmarshalWhitespace)
    by (apply UnmarshalWhitespace_follows;
        [exact held_sound | exact held_ReadRune | exact held_UnreadRune]).
  destruct (UnmarshalWhitespace b1) as [r2 b2] eqn:U.
  destruct (W _ _ _ Hh U) as (sb2 & Es & Ha2 & Hh2).
  rewrite UnmarshalWhitespace_spec in Es. injection Es as <- <-.
  cbn in Ha2. rewrite UnmarshalWhitespace_spec.
  assert (Hu : Stream.bufio.unread sb1 = bufio.unread b1)
    by (destruct r1; cbn in Ha; subst; (reflexivity || exact Ha)).
  rewrite Hu, Ha2. injection E as <- <-.
  eexists. split; [reflexivity|]. split; [destruct r1; reflexivity | exact Hh2].
Qed.

End Containers.

Lemma UnmarshalValue_follows (depth : nat) :
  follows held (UnmarshalValue Digit depth) (Stream.UnmarshalValue Digit depth).
Proof.
  induction depth as [|depth IH]; cbn [UnmarshalValue Stream.UnmarshalValue].
  - intros b r b' Hb [= <- <-]. same_with Hb.
  - now apply UnmarshalValue_body_follows.
Qed.

(** A text that fits into the buffer is decoded as the stream of its
    bytes. *)
Lemma decode_held (text : string) :
  (String.length text <= bufio.defaultBufSize)%nat ->
  decode Digit text = Stream.decode Digit text.
Proof.
  intros H. unfold decode, decode_reader, Stream.decode, Stream.decode_reader.
  destruct (UnmarshalValue Digit (S (String.length text)) (bufio.NewReader text))
    as [r b'] eqn:E.
  destruct (UnmarshalValue_follows _ _ _ _ (held_NewReader text H) E) as (sb' & Es & _).
  change (stream_of (bufio.NewReader text)) with (Stream.bufio.NewReader text) in Es.
  now rewrite Es.
Qed.

End Value.

(** * Properties of the codec *)

Section Codec.

Variable Digit : unicode.RangeTable.

(** ** The texts of the specification *)

(** C1, on the code: the text [[1,2,]] is decoded to the array of 1 and 2.
    After the comma the array loop is back in the state it has after the
    opening bracket, where the closing bracket ends the array. *)
Theorem C1_trailing_comma_is_decoded :
  decode Digit "[1,2,]" = Ok (Array [Integer 1; Integer 2]).
Proof. vm_compute. reflexivity. Qed.

(** C2, on the code: in the state after a value of an object, the
    character [x] of [{"a": 1x}] is read and dropped, and the object with
    the key [a] is returned. *)
Theorem C2_stray_character_is_skipped :
  decode Digit text_a_1x = Ok (Object (insert "a" (Integer 1) empty)).
Proof. vm_compute. reflexivity. Qed.

(** C3, as the code has it: at the top level [01] is decoded to the
    integer 0 and the [1] is left unread, since [UnmarshalValue] does not
    look at what follows the value; inside an array the [1] is met by the
    array loop, which fails. *)
Theorem C3_leading_zero :
  fst (decode_reader Digit "01") = Ok (Integer 0) /\
  bufio.unread (snd (decode_reader Digit "01")) = "1" /\
  decode Digit "[01]" = Err (Errorf "failed to Unmarshal array: no , or ]" []).
Proof. repeat split; vm_compute; reflexivity. Qed.

(** C5: the results of the number production on [0], [-0], [1.5e2] and
    [-3]. *)
Theorem C5_number_results :
  decode Digit "0" = Ok (Integer 0) /\
  decode Digit "-0" = Ok (Integer 0) /\
  decode Digit "1.5e2" = Ok (Float float64_150) /\
  decode Digit "-3" = Ok (Integer (-3)).
Proof. repeat split; vm_compute; reflexivity. Qed.

(** C7, on the code: [{"a":1,"a":2}] is not decoded.  The turn of the object
    loop that follows the colon has already read the [1] when it calls
    [UnmarshalValue], which then meets the comma. *)
Theorem C7_duplicate_key_text_fails :
  decode Digit text_a1_a2 =
  Err (Errorf "failed to Unmarshal value for object key: %s" [ArgStr "a"]).
Proof. vm_compute. reflexivity. Qed.

(** C9, on the code: the text of 4090 spaces and [true] is decoded to
    [true], and is not decoded with the whitespace around it.  The four
    bytes in front move [true] across the end of the buffer of 4096 bytes:
    [Read] hands out the two bytes that wait in the buffer, and
    [UnmarshalTrue] takes a read of fewer than four bytes for the end of
    the text. *)
Theorem C9_whitespace_moves_a_literal_across_the_buffer :
  decode Digit text_true_4094 = Ok (Bool true) /\
  decode Digit (ws_before +:+ text_true_4094 +:+ ws_after) =
  Err (Errorf "failed to read all 4 chars while parsing true, could only read %d chars"
         [ArgInt 2]).
Proof. split; vm_compute; reflexivity. Qed.

(** ** Whitespace around a text that the buffer holds *)

Lemma whitespace_around_held (text : string) (v : Value) :
  (String.length (ws_before +:+ text +:+ ws_after) <= bufio.defaultBufSize)%nat ->
  decode Digit text = Ok v ->
  decode Digit (ws_before +:+ text +:+ ws_after) = Ok v.
Proof.
  intros H E. rewrite !length_append in H.
  rewrite decode_held in E by lia.
  rewrite decode_held by (rewrite !length_append; lia).
  now apply whitespace_around.
Qed.

(** ** The round trip *)


(** ** The first character of a value *)

Lemma dispatch_none (value : Parser Value) (r : rune) :
  first_rune Digit r = false -> dispatch Digit value r = None.
Proof.
  unfold first_rune, dispatch. intros H.
  repeat (apply orb_false_elim in H as [H ?]).
  repeat match goal with E : _ = false |- _ => rewrite E; clear E end.
  reflexivity.
Qed.

(** C6, as the code has it: when the text without its leading whitespace
    starts with a rune that is not a double quote, a decimal digit of
    Unicode, [-], [{], [[], [t], [f] or [n], decoding fails with the error
    of [UnmarshalValue] for a first character that matches no value.  This
    holds for a text of any length: only runes are read. *)
Theorem C6_unexpected_character (text : string) (r : rune) :
  skip_ws text <> "" ->
  r = fst (utf8.DecodeRune (skip_ws text)) ->
  first_rune Digit r = false ->
  decode Digit text =
  Err (Errorf "failed to match value given first char: %c" [ArgRune r]).
Proof.
  intros Hne -> Hr. unfold decode, decode_reader. cbn [UnmarshalValue].
  set (value := UnmarshalValue Digit (String.length text)).
  unfold UnmarshalValue_body, bind, try.
  (* the leading whitespace *)
  destruct (UnmarshalWhitespace (bufio.NewReader text)) as [r1 b1] eqn:W.
  destruct (UnmarshalWhitespace_follows sound (fun b H => H) sound_ReadRune
              sound_UnreadRune _ _ _ (sound_NewReader text) W) as (sb1 & Es & Ha & Hs).
  rewrite UnmarshalWhitespace_spec in Es. injection Es as <- <-.
  cbn in Ha. cbn [Stream.bufio.unread stream_of bufio.NewReader bufio.NewReaderSize
                  bufio.unread] in Ha.
  (* the rune that is read and given back *)
  destruct (ReadRune_stream b1 Hs) as (Er & _).
  rewrite <- Ha in Er. unfold Stream.bufio.ReadRune in Er. cbn [Stream.bufio.unread] in Er.
  destruct (skip_ws text) as [|c s] eqn:Sk; [congruence|].
  destruct (utf8.DecodeRune (String c s)) as [r n] eqn:D.
  destruct (bufio.ReadRune b1) as [r2 b2]. cbn [fst snd] in *.
  injection Er as <- _ L.
  unfold bufio.UnreadRune. rewrite <- L.
  now rewrite dispatch_none.
Qed.

(** ** Surrogate halves *)

(** The turn of the string loop after a backslash, on a reader whose
    buffer holds the [u] and the four characters of the escape. *)
Lemma surrogate_escape_buffered (hexString : string) (hexValue : Z)
  (b : bufio.Reader) (sb rest : string) :
  String.length hexString = 4%nat ->
  strconv.ParseInt hexString 16 32 = (hexValue, None) ->
  utf8.surrogateMin <= hexValue <= utf8.surrogateMax ->
  (5 <= bufio.avail b)%nat ->
  bufio.unread b = "u" +:+ hexString +:+ rest ->
  exists b',
    UnmarshalString_body (sb, true) b =
    (Ok (Continue (sb +:+ replacement, false)), b') /\
    bufio.unread b' = rest.
Proof.
  intros Hlen Hparse Hsur Ha Hu. simpl String.append in Hu.
  unfold UnmarshalString_body, bind, try, bufio.ReadRune. cbv zeta.
  replace (bufio.avail b <? utf8.UTFMax)%nat with false
    by (symmetry; apply Nat.ltb_ge; unfold utf8.UTFMax; lia).
  cbn [andb]. rewrite Hu.
  destruct (bufio.avail b) as [|a] eqn:A; [lia|]. cbn [take].
  change (b2z "u" <? utf8.RuneSelf) with true. cbv iota.
  change (b2z "u") with (rn "u").
  repeat match goal with
         | |- context [rn "u" =? ?x] =>
           let c := eval vm_compute in (rn "u" =? x) in
           change (rn "u" =? x) with c
         end.
  cbv iota. cbn [drop]. unfold convertHexToUnicode, bufio.Read.
  cbn [bufio.avail bufio.unread bufio.size].
  replace (S a - 1 =? 0)%nat with false by (symmetry; apply Nat.eqb_neq; lia).
  rewrite (Nat.min_l 4 (S a - 1)) by lia.
  replace (take 4 (hexString +:+ rest)) with hexString
    by (rewrite <- Hlen; symmetry; apply take_length_app).
  replace (drop 4 (hexString +:+ rest)) with rest
    by (rewrite <- Hlen; symmetry; apply drop_length_app).
  rewrite Hlen. cbn [Nat.eqb negb]. rewrite Hparse.
  unfold ret, Builder.WriteRune. rewrite (EncodeRune_surrogate hexValue Hsur).
  eexists. split; reflexivity.
Qed.

(** The same turn, and the text that holds only the escape between double
    quotes, when the buffer holds what is left of the text. *)
Lemma surrogate_escape_held (hexString : string) (hexValue : Z) :
  String.length hexString = 4%nat ->
  strconv.ParseInt hexString 16 32 = (hexValue, None) ->
  utf8.surrogateMin <= hexValue <= utf8.surrogateMax ->
  (forall (b : bufio.Reader) (sb rest : string),
     held b -> bufio.unread b = "u" +:+ hexString +:+ rest ->
     exists b',
       UnmarshalString_body (sb, true) b =
       (Ok (Continue (sb +:+ replacement, false)), b') /\
       bufio.unread b' = rest) /\
  decode Digit (quoted ("\u" +:+ hexString)) = Ok (String_ replacement).
Proof.
  intros Hlen Hparse Hsur. split.
  - intros b sb rest Hb Hu.
    destruct (UnmarshalString_body (sb, true) b) as [r b'] eqn:E.
    destruct (UnmarshalString_body_follows _ _ _ _ Hb E) as (sb' & Es & Ha & _).
    unfold stream_of in Es. rewrite Hu in Es.
    rewrite (UnmarshalString_body_surrogate hexString hexValue) in Es by assumption.
    injection Es as <- <-. cbn in Ha. exists b'. split; [reflexivity|].
    apply (f_equal Stream.bufio.unread) in Ha. cbn in Ha. congruence.
  - rewrite decode_held.
    + now apply (surrogate_escape Digit hexString hexValue).
    + unfold quoted, DQ. rewrite !length_append, Hlen. cbn.
      unfold bufio.defaultBufSize. lia.
Qed.

(** C10 holds where the buffer holds the escape, and not where the escape
    lies across the end of the buffer: [\uD800] alone, and after 4089
    letters, where the first 4096 bytes of the text hold it, is decoded to
    U+FFFD; after 4091 letters the buffer ends with [D8], the [Read] of
    [convertHexToUnicode] hands out these two bytes, and the text is not
    decoded. *)
Theorem C10_surrogate_escape_across_the_buffer :
  decode Digit (quoted ("\u" +:+ "D800")) = Ok (String_ replacement) /\
  decode Digit text_surrogate_4097 = Ok (String_ (letters 4089 +:+ replacement)) /\
  decode Digit text_surrogate_4099 =
  Err (Errorf "failed to Unmarshal unicode character" []).
Proof. repeat split; vm_compute; reflexivity. Qed.

End Codec.

(** ** The properties at sample inputs *)

(** C3 as it is written does not hold: the top-level text [01] is decoded,
    to the integer 0. *)
Lemma C3_counterexample :
  decode Digit_head "01" = Ok (Integer 0) /\
  ~ (exists e, decode Digit_head "01" = Err e).
Proof.
  split; [vm_compute; reflexivity|].
  intros [e H]. vm_compute in H. discriminate.
Qed.



(** C6 as it is written does not hold: U+0663 is none of the characters of
    the list, and the text made of it goes to the number production, which
    fails with its own error. *)
Lemma C6_counterexample :
  skip_ws arabic_three = arabic_three /\
  fst (utf8.DecodeRune arabic_three) = 0x663 /\
  first_rune_ascii 0x663 = false /\
  decode Digit_head arabic_three =
  Err (Errorf "failed to Unmarshal integer number: %w"
         [ArgErr (NumError "ParseInt" arabic_three ErrSyntax)]) /\
  decode Digit_head arabic_three <>
  Err (Errorf "failed to match value given first char: %c" [ArgRune 0x663]).
Proof.
  repeat split; try (vm_compute; reflexivity).
  vm_compute. discriminate.
Qed.

Lemma C6_witness :
  skip_ws "+1" <> "" /\
  43 = fst (utf8.DecodeRune (skip_ws "+1")) /\
  first_rune Digit_head 43 = false /\
  decode Digit_head "+1" =
  Err (Errorf "failed to match value given first char: %c" [ArgRune 43]).
Proof.
  split; [discriminate|]. split; [reflexivity|]. split; [reflexivity|].
  apply (C6_unexpected_character Digit_head "+1" 43);
    [discriminate | reflexivity | reflexivity].
Defined.

Module StreamIntegers.

Set Warnings "-notation-overridden".
Import Stream.
Set Warnings "+notation-overridden".

#[local] Arguments String.append !_ _ : simpl nomatch.

(** * Further properties of the decoder over a stream *)

Section IntegerTexts.

Variable Digit : unicode.RangeTable.

(** ** Where a number ends *)

Lemma terminator_switch (state : nat) (c : ascii) (rest : string) :
  state = 2%nat \/ state = 3%nat \/ state = 4%nat ->
  terminator (String c rest) ->
  UnmarshalNumber_switch state false (b2z c) (strconv.isDigitByte c)
  = (state, true, false).
Proof.
  intros Hst (_ & Hd & Hp & He & HE). rewrite Hd.
  apply Z.eqb_neq in Hp, He, HE.
  destruct Hst as [-> | [-> | ->]]; cbn [UnmarshalNumber_switch];
    rewrite Hp, He, HE; reflexivity.
Qed.

Lemma number_ends (state : nat) (buf rest : string) (l : option string) :
  state = 2%nat \/ state = 3%nat \/ state = 4%nat ->
  terminator rest ->
  number_from Digit state buf {| bufio.unread := rest; bufio.lastRune := l |} =
  (convertToNumber buf, {| bufio.unread := rest; bufio.lastRune := None |}).
Proof.
  intros Hst Hd. unfold number_from, bind.
  rewrite (number_for Digit) by (unfold number_state; simpl; lia).
  destruct rest as [|c rest].
  - unfold UnmarshalNumber_body. rewrite ReadRune_eof by reflexivity.
    cbv beta iota zeta.
    destruct Hst as [-> | [-> | ->]]; reflexivity.
  - pose proof Hd as (Hc & _).
    rewrite UnmarshalNumber_body_ascii by assumption.
    rewrite (terminator_switch state c rest Hst Hd). reflexivity.
Qed.

Lemma number_digits (ds : string) :
  all_digits ds = true ->
  forall (state : nat) (buf rest : string) (l : option string),
    state = 3%nat \/ state = 4%nat ->
    terminator rest ->
    number_from Digit state buf {| bufio.unread := ds +:+ rest; bufio.lastRune := l |} =
    (convertToNumber (buf +:+ ds), {| bufio.unread := rest; bufio.lastRune := None |}).
Proof.
  induction ds as [|c ds IH]; intros Hd state buf rest l Hst Hr.
  - simpl. rewrite append_nil_r. apply number_ends; tauto.
  - simpl in Hd. apply andb_prop in Hd as [Hc Hd].
    assert (Ha : b2z c < 0x80).
    { apply isDigitByte_range in Hc. unfold rn in Hc. change (b2z "0") with 48 in Hc. lia. }
    specialize (IH Hd 4%nat (buf +:+ String c "") rest (Some (String c ""))
                   ltac:(auto) Hr).
    unfold number_from, bind in *.
    rewrite (number_for Digit) by (unfold number_state; simpl; lia).
    simpl String.append at 1.
    rewrite UnmarshalNumber_body_ascii by assumption. rewrite Hc.
    assert (W : UnmarshalNumber_switch state false (b2z c) true = (4%nat, false, false)).
    { destruct Hst as [-> | ->]; reflexivity. }
    rewrite W. cbv beta iota zeta. cbn [orb negb].
    rewrite IH. now rewrite append_assoc.
Qed.

Lemma number_step (state : nat) (buf : string) (c : ascii) (s : string)
  (l : option string) (state' : nat) :
  b2z c < 0x80 ->
  (state <= 9)%nat ->
  UnmarshalNumber_switch state false (b2z c) (strconv.isDigitByte c)
  = (state', false, false) ->
  number_from Digit state buf {| bufio.unread := String c s; bufio.lastRune := l |} =
  number_from Digit state' (buf +:+ String c "")
    {| bufio.unread := s; bufio.lastRune := Some (String c "") |}.
Proof.
  intros Hc Hs W. unfold number_from, bind.
  rewrite (number_for Digit) by exact Hs.
  rewrite UnmarshalNumber_body_ascii by assumption. rewrite W. reflexivity.
Qed.

(** The text of an integer is read up to what ends it. *)
Lemma UnmarshalNumber_integer (t rest : string) (l : option string) :
  int_text t -> terminator rest ->
  UnmarshalNumber Digit {| bufio.unread := t +:+ rest; bufio.lastRune := l |} =
  (convertToNumber t, {| bufio.unread := rest; bufio.lastRune := None |}).
Proof.
  intros Ht Hr. change (UnmarshalNumber Digit) with (number_from Digit 0 "").
  assert (Hdig : forall c, strconv.isDigitByte c = true -> b2z c < 0x80 /\
            (b2z c =? rn "-") = false).
  { intros c Hc. apply isDigitByte_range in Hc.
    assert (rn "-" = 45) by reflexivity. assert (rn "0" = 48) by reflexivity.
    split; [lia | apply Z.eqb_neq; lia]. }
  inversion Ht as [| c ds Hc Hn Hd E | c ds Hc Hn Hd E]; subst.
  - simpl String.append.
    rewrite (number_step 0%nat "" "0"%char _ _ 2%nat); [|reflexivity|lia|reflexivity].
    now apply number_ends; auto.
  - destruct (Hdig c Hc) as [Ha Hm]. simpl String.append.
    rewrite (number_step 0%nat "" c _ _ 3%nat); [|assumption|lia|].
    + rewrite number_digits; auto.
    + simpl. rewrite Hc, Hm. apply Z.eqb_neq in Hn. now rewrite Hn.
  - destruct (Hdig c Hc) as [Ha Hm]. simpl String.append.
    rewrite (number_step 0%nat "" "-"%char _ _ 1%nat); [|reflexivity|lia|reflexivity].
    rewrite (number_step 1%nat _ c _ _ 3%nat); [|assumption|lia|].
    + rewrite number_digits; auto.
    + simpl. rewrite Hc. apply Z.eqb_neq in Hn. now rewrite Hn.
Qed.

(** A minus sign that is not followed by a digit. *)
Lemma UnmarshalNumber_minus (c : ascii) (rest : string) (l : option string) :
  b2z c < 0x80 -> strconv.isDigitByte c = false ->
  fst (UnmarshalNumber Digit
         {| bufio.unread := String "-" (String c rest); bufio.lastRune := l |}) =
  Err (Errorf "invalid char in number: %s" [ArgStr (String "-" (String c ""))]).
Proof.
  intros Ha Hc. change (UnmarshalNumber Digit) with (number_from Digit 0 "").
  rewrite (number_step 0%nat "" "-"%char _ _ 1%nat); [|reflexivity|lia|reflexivity].
  unfold number_from, bind.
  rewrite (number_for Digit) by (unfold number_state; simpl; lia).
  rewrite UnmarshalNumber_body_ascii by assumption. rewrite Hc.
  assert (W : UnmarshalNumber_switch 1 false (b2z c) false = (1%nat, false, true)).
  { cbn [UnmarshalNumber_switch].
    destruct (b2z c =? rn "0") eqn:Z0; [|reflexivity].
    apply Z.eqb_eq in Z0. unfold strconv.isDigitByte in Hc. rewrite Z0 in Hc. discriminate. }
  rewrite W. reflexivity.
Qed.

Lemma number_from_lastRune (state : nat) (buf s : string) (l l' : option string) :
  (state <= 9)%nat ->
  number_from Digit state buf {| bufio.unread := s; bufio.lastRune := l |} =
  number_from Digit state buf {| bufio.unread := s; bufio.lastRune := l' |}.
Proof.
  intros Hs. unfold number_from, bind.
  rewrite !(number_for Digit) by exact Hs.
  unfold UnmarshalNumber_body, bufio.ReadRune. reflexivity.
Qed.

Lemma number_digits_go (ds : string) :
  all_digits ds = true ->
  forall (state : nat) (buf X : string) (l : option string),
    state = 3%nat \/ state = 4%nat ->
    exists state',
      (state' = 3%nat \/ state' = 4%nat) /\
      number_from Digit state buf {| bufio.unread := ds +:+ X; bufio.lastRune := l |} =
      number_from Digit state' (buf +:+ ds) {| bufio.unread := X; bufio.lastRune := None |}.
Proof.
  induction ds as [|c ds IH]; intros Hd state buf X l Hst.
  - exists state. split; [exact Hst|]. simpl. rewrite append_nil_r.
    apply number_from_lastRune. lia.
  - simpl in Hd. apply andb_prop in Hd as [Hc Hd].
    assert (Ha : b2z c < 0x80).
    { apply isDigitByte_range in Hc. unfold rn in Hc. change (b2z "0") with 48 in Hc. lia. }
    destruct (IH Hd 4%nat (buf +:+ String c "") X (Some (String c "")) ltac:(auto))
      as (state' & Hst' & E).
    exists state'. split; [exact Hst'|]. simpl String.append at 1.
    rewrite (number_step state buf c _ _ 4%nat); [|assumption|lia|].
    + rewrite E. now rewrite append_assoc.
    + rewrite Hc. destruct Hst as [-> | ->]; reflexivity.
Qed.

(** After the text of an integer the automaton is in a state where the
    number may end. *)
Lemma number_integer_go (t X : string) (l : option string) :
  int_text t ->
  exists state',
    (state' = 2%nat \/ state' = 3%nat \/ state' = 4%nat) /\
    number_from Digit 0 "" {| bufio.unread := t +:+ X; bufio.lastRune := l |} =
    number_from Digit state' t {| bufio.unread := X; bufio.lastRune := None |}.
Proof.
  intros Ht.
  assert (Hdig : forall c, strconv.isDigitByte c = true -> b2z c < 0x80 /\
            (b2z c =? rn "-") = false).
  { intros c Hc. apply isDigitByte_range in Hc.
    assert (rn "-" = 45) by reflexivity. assert (rn "0" = 48) by reflexivity.
    split; [lia | apply Z.eqb_neq; lia]. }
  inversion Ht as [| c ds Hc Hn Hd E | c ds Hc Hn Hd E]; subst.
  - exists 2%nat. split; [auto|]. simpl String.append.
    rewrite (number_step 0%nat "" "0"%char _ _ 2%nat); [|reflexivity|lia|reflexivity].
    apply number_from_lastRune. lia.
  - destruct (Hdig c Hc) as [Ha Hm]. simpl String.append.
    destruct (number_digits_go ds Hd 3%nat (String c "") X (Some (String c ""))
                ltac:(auto)) as (state' & Hst' & E).
    exists state'. split; [tauto|].
    rewrite (number_step 0%nat "" c _ _ 3%nat); [exact E|assumption|lia|].
    simpl. rewrite Hc, Hm. apply Z.eqb_neq in Hn. now rewrite Hn.
  - destruct (Hdig c Hc) as [Ha Hm]. simpl String.append.
    destruct (number_digits_go ds Hd 3%nat (String "-" (String c "")) X
                (Some (String c "")) ltac:(auto)) as (state' & Hst' & E).
    exists state'. split; [tauto|].
    rewrite (number_step 0%nat "" "-"%char _ _ 1%nat); [|reflexivity|lia|reflexivity].
    rewrite (number_step 1%nat _ c _ _ 3%nat); [exact E|assumption|lia|].
    simpl. rewrite Hc. apply Z.eqb_neq in Hn. now rewrite Hn.
Qed.

(** A point that is not followed by a digit. *)
Lemma UnmarshalNumber_point (t : string) (c : ascii) (rest : string) (l : option string) :
  int_text t -> b2z c < 0x80 -> strconv.isDigitByte c = false ->
  fst (UnmarshalNumber Digit
         {| bufio.unread := t +:+ String "." (String c rest); bufio.lastRune := l |}) =
  Err (Errorf "invalid char in number: %s" [ArgStr (t +:+ String "." (String c ""))]).
Proof.
  intros Ht Ha Hc. change (UnmarshalNumber Digit) with (number_from Digit 0 "").
  destruct (number_integer_go t (String "." (String c rest)) l Ht) as (state' & Hst & ->).
  rewrite (number_step state' t "."%char _ _ 5%nat);
    [|reflexivity|lia|destruct Hst as [-> | [-> | ->]]; reflexivity].
  unfold number_from, bind.
  rewrite (number_for Digit) by (unfold number_state; simpl; lia).
  rewrite UnmarshalNumber_body_ascii by assumption. rewrite Hc.
  cbn [UnmarshalNumber_switch]. cbv beta iota zeta. cbn [negb orb fst].
  now rewrite append_assoc.
Qed.

(** ** The decoder on a text that starts with a number *)

Lemma decode_reader_number (text : string) (c : ascii) (s : string) :
  skip_ws text = String c s ->
  strconv.isDigitByte c || (b2z c =? rn "-") = true ->
  decode_reader Digit text =
  let '(res, b) :=
    UnmarshalNumber Digit {| bufio.unread := String c s; bufio.lastRune := None |} in
  (res, {| bufio.unread := skip_ws (bufio.unread b); bufio.lastRune := None |}).
Proof.
  intros Hs Hc. unfold decode_reader. cbn [UnmarshalValue].
  rewrite UnmarshalValue_body_eq. cbv zeta. cbn [bufio.unread bufio.NewReader].
  rewrite Hs.
  assert (Ha : b2z c < 0x80).
  { apply orb_prop in Hc as [Hc|Hc].
    - apply isDigitByte_range in Hc. unfold rn in Hc. change (b2z "0") with 48 in Hc. lia.
    - apply Z.eqb_eq in Hc. rewrite Hc. reflexivity. }
  rewrite DecodeRune_ascii by exact Ha. cbn [fst].
  rewrite dispatch_ascii, Hc.
  destruct (b2z c =? rn dq) eqn:Q; [|reflexivity].
  apply Z.eqb_eq in Q. apply orb_prop in Hc as [Hc|Hc].
  - apply isDigitByte_range in Hc. rewrite Q in Hc. vm_compute in Hc.
    destruct Hc as [Hc _]. now exfalso; apply Hc.
  - apply Z.eqb_eq in Hc. rewrite Q in Hc. discriminate.
Qed.

End IntegerTexts.

End StreamIntegers.

Import StreamIntegers.

(** * Further properties of the decoder *)

(** ** Whitespace and the first rune *)

Lemma UnmarshalWhitespace_stream (b : bufio.Reader) :
  sound b ->
  exists b',
    UnmarshalWhitespace b = (Ok tt, b') /\
    stream_of b' =
    {| Stream.bufio.unread := skip_ws (bufio.unread b); Stream.bufio.lastRune := None |} /\
    sound b'.
Proof.
  intros Hs. destruct (UnmarshalWhitespace b) as [r b'] eqn:W.
  destruct (UnmarshalWhitespace_follows sound (fun b H => H) sound_ReadRune
              sound_UnreadRune _ _ _ Hs W) as (sb & Es & Ha & Hs').
  rewrite UnmarshalWhitespace_spec in Es. injection Es as <- <-.
  cbn in Ha. exists b'. auto.
Qed.

(** X1: [UnmarshalWhitespace] does not fail, and it takes the whitespace at
    the start of what is unread and nothing else, whatever the length of the
    text and wherever the buffer ends. *)
Theorem UnmarshalWhitespace_skips (b : bufio.Reader) :
  sound b ->
  fst (UnmarshalWhitespace b) = Ok tt /\
  bufio.unread (snd (UnmarshalWhitespace b)) = skip_ws (bufio.unread b).
Proof.
  intros Hs. destruct (UnmarshalWhitespace_stream b Hs) as (b' & -> & E & _).
  split; [reflexivity|]. cbn [snd].
  apply (f_equal Stream.bufio.unread) in E. exact E.
Qed.

Lemma UnmarshalWhitespace_skips_witness :
  sound (bufio.NewReader "  [1]") /\
  fst (UnmarshalWhitespace (bufio.NewReader "  [1]")) = Ok tt /\
  bufio.unread (snd (UnmarshalWhitespace (bufio.NewReader "  [1]")))
  = skip_ws (bufio.unread (bufio.NewReader "  [1]")).
Proof.
  split; [apply sound_NewReader|].
  apply (UnmarshalWhitespace_skips (bufio.NewReader "  [1]")). apply sound_NewReader.
Defined.

Section Peek.

Variable Digit : unicode.RangeTable.

(** What [UnmarshalValue] does up to the production it selects: [b3] is the
    reader after the leading whitespace, with the first rune read and given
    back. *)
Lemma UnmarshalValue_body_peek (value : Parser Value) (b : bufio.Reader) :
  sound b ->
  match skip_ws (bufio.unread b) with
  | "" =>
    fst (UnmarshalValue_body Digit value b) = Err (errReadRune EOF) /\
    bufio.unread (snd (UnmarshalValue_body Digit value b)) = ""
  | String _ _ as u =>
    exists b3,
      sound b3 /\
      stream_of b3 = {| Stream.bufio.unread := u; Stream.bufio.lastRune := None |} /\
      UnmarshalValue_body Digit value b =
      match dispatch Digit value (fst (utf8.DecodeRune u)) with
      | None =>
        (Err (Errorf "failed to match value given first char: %c"
                [ArgRune (fst (utf8.DecodeRune u))]), b3)
      | Some production =>
        let '(res, b4) := production b3 in
        match UnmarshalWhitespace b4 with
        | (Ok _, b5) => (res, b5)
        | (Err e, b5) =>
          (Err (Errorf "failed to Unmarshal trailing whitespace: %w" [ArgErr e]), b5)
        | (OutOfFuel, b5) => (OutOfFuel, b5)
        end
      end
  end.
Proof.
  intros Hs. unfold UnmarshalValue_body, bind, try.
  destruct (UnmarshalWhitespace_stream b Hs) as (b1 & -> & E1 & Hs1).
  destruct (ReadRune_stream b1 Hs1) as (Er & Hs2 & _).
  rewrite E1 in Er. unfold Stream.bufio.ReadRune in Er. cbn [Stream.bufio.unread] in Er.
  destruct (skip_ws (bufio.unread b)) as [|c s] eqn:Sk.
  - destruct (bufio.ReadRune b1) as [r2 b2]. cbn [fst snd] in *.
    injection Er as <- Eu _. split; [reflexivity | now symmetry].
  - destruct (utf8.DecodeRune (String c s)) as [r n] eqn:D.
    destruct (bufio.ReadRune b1) as [r2 b2]. cbn [fst snd] in *.
    injection Er as <- Eu El.
    destruct (UnreadRune_stream b2) as (Eun & Hs3 & _). specialize (Hs3 Hs2).
    unfold Stream.bufio.UnreadRune, stream_of in Eun.
    cbn [Stream.bufio.lastRune Stream.bufio.unread] in Eun.
    rewrite <- El, <- Eu, take_drop in Eun.
    destruct (bufio.UnreadRune b2) as [r3 b3]. cbn [fst snd] in *.
    injection Eun as <- Eu3 El3. exists b3. split; [exact Hs3|].
    split; [unfold stream_of; now rewrite <- Eu3, <- El3|].
    cbn [fst]. unfold fail.
    destruct (dispatch Digit value r) as [production|]; reflexivity.
Qed.

(** X2: a text that is empty or all whitespace is not decoded: the read of
    the first rune meets the end of the text. *)
Theorem decode_blank (text : string) :
  all_ws text = true ->
  decode Digit text = Err (Errorf "failed to read rune: %w" [ArgErr EOF]).
Proof.
  intros H. unfold decode, decode_reader. cbn [UnmarshalValue].
  pose proof (UnmarshalValue_body_peek (UnmarshalValue Digit (String.length text))
                (bufio.NewReader text) (sound_NewReader text)) as P.
  cbn [bufio.unread bufio.NewReader bufio.NewReaderSize] in P.
  assert (E : skip_ws text = "").
  { rewrite <- (append_nil_r text). now rewrite skip_ws_all_ws. }
  rewrite E in P. now destruct P as [-> _].
Qed.

End Peek.

Lemma decode_blank_witness :
  all_ws ws_before = true /\
  decode Digit_head ws_before = Err (Errorf "failed to read rune: %w" [ArgErr EOF]).
Proof.
  split; [reflexivity|]. apply (decode_blank Digit_head ws_before). reflexivity.
Defined.

(** ** Numbers *)

(** The digit loop of [ParseUint] returns the value of the digits or stops
    with a range error. *)
Lemma ParseUint_loop_range (s : string) (n : Z) :
  all_digits s = true -> 0 <= n ->
  strconv.ParseUint_loop s 10 (strconv.maxUint64 / 10 + 1) ((2 ^ 64 - 1) mod 2 ^ 64) n
  = (digits_value n s, None)
  \/ strconv.ParseUint_loop s 10 (strconv.maxUint64 / 10 + 1) ((2 ^ 64 - 1) mod 2 ^ 64) n
     = (2 ^ 64 - 1, Some ErrRange).
Proof.
  revert n. induction s as [|c s IH]; intros n Hd Hn; simpl in *; [now left|].
  apply andb_prop in Hd as [Hc Hd].
  pose proof (isDigitByte_range _ Hc) as Hr.
  unfold strconv.digitVal.
  replace ((rn "0" <=? b2z c) && (b2z c <=? rn "9")) with true
    by (symmetry; apply andb_true_intro; unfold rn in *;
        change (b2z "0") with 48 in *; change (b2z "9") with 57;
        split; apply Z.leb_le; lia).
  replace (10 <=? b2z c - rn "0") with false by (symmetry; apply Z.leb_gt; lia).
  change ((2 ^ 64 - 1) mod 2 ^ 64) with (2 ^ 64 - 1).
  destruct (strconv.maxUint64 / 10 + 1 <=? n) eqn:C; [now right|].
  apply Z.leb_gt in C. unfold strconv.maxUint64 in C.
  change ((2 ^ 64 - 1) / 10 + 1) with 1844674407370955162 in C.
  cbv zeta.
  destruct (((n * 10 + (b2z c - rn "0")) mod 2 ^ 64 <? n * 10)
            || (2 ^ 64 - 1 <? (n * 10 + (b2z c - rn "0")) mod 2 ^ 64)) eqn:O;
    [now right|].
  apply orb_false_elim in O as [O1 O2]. apply Z.ltb_ge in O1, O2.
  assert (E : (n * 10 + (b2z c - rn "0")) mod 2 ^ 64 = n * 10 + (b2z c - rn "0")).
  { destruct (Z_lt_ge_dec (n * 10 + (b2z c - rn "0")) (2 ^ 64)) as [L|G].
    - apply Z.mod_small. lia.
    - exfalso.
      assert (M : (n * 10 + (b2z c - rn "0")) mod 2 ^ 64
                  = n * 10 + (b2z c - rn "0") - 2 ^ 64).
      { symmetry. apply Z.mod_unique with (q := 1); lia. }
      lia. }
  rewrite E. apply IH; [exact Hd | lia].
Qed.

(** [ParseInt] on the text of an integer that does not fit [int64]. *)
Lemma ParseInt_range (t : string) :
  int_text t -> ~ (- 2 ^ 63 <= int_value t < 2 ^ 63) ->
  exists n, strconv.ParseInt t 10 64 = (n, Some (NumError "ParseInt" t ErrRange)).
Proof.
  intros Ht Hv.
  assert (Loop : forall ds, ds <> "" -> all_digits ds = true ->
            strconv.ParseUint ds 10 64 = (digits_value 0 ds, None)
            \/ strconv.ParseUint ds 10 64 = (2 ^ 64 - 1, Some ErrRange)).
  { intros ds Hne Hd. unfold strconv.ParseUint. destruct ds as [|c ds]; [congruence|].
    apply ParseUint_loop_range; [exact Hd | lia]. }
  inversion Ht as [| c ds Hc Hn Hd E | c ds Hc Hn Hd E]; subst.
  - exfalso. apply Hv. vm_compute. split; [discriminate | reflexivity].
  - destruct (isDigitByte_not_sign c Hc) as [Hp Hm].
    unfold int_value in Hv. rewrite Hm in Hv.
    unfold strconv.ParseInt. rewrite Hp, Hm.
    pose proof (digits_value_ge 0 (String c ds) ltac:(lia)
                  ltac:(simpl; now rewrite Hc, Hd)) as Hge.
    destruct (Loop (String c ds) ltac:(discriminate) ltac:(simpl; now rewrite Hc, Hd))
      as [-> | ->]; cbv zeta; cbn [negb andb].
    + change (2 ^ (64 - 1)) with (2 ^ 63).
      destruct (2 ^ 63 <=? digits_value 0 (String c ds)) eqn:C; [eauto|].
      apply Z.leb_gt in C. exfalso. apply Hv. lia.
    + eauto.
  - destruct (isDigitByte_not_sign c Hc) as [Hp Hm].
    unfold int_value in Hv. change (b2z "-" =? rn "-") with true in Hv. cbv iota in Hv.
    unfold strconv.ParseInt. change (b2z "-" =? rn "+") with false.
    change (b2z "-" =? rn "-") with true. cbv iota.
    pose proof (digits_value_ge 0 (String c ds) ltac:(lia)
                  ltac:(simpl; now rewrite Hc, Hd)) as Hge.
    destruct (Loop (String c ds) ltac:(discriminate) ltac:(simpl; now rewrite Hc, Hd))
      as [-> | ->]; cbv zeta; cbn [negb andb].
    + change (2 ^ (64 - 1)) with (2 ^ 63).
      destruct (2 ^ 63 <? digits_value 0 (String c ds)) eqn:C; [eauto|].
      apply Z.ltb_ge in C. exfalso. apply Hv. lia.
    + eauto.
Qed.

(** [ParseInt] on the text of an integer that fits [int64]. *)
Lemma ParseInt_int_text (t : string) :
  int_text t -> - 2 ^ 63 <= int_value t < 2 ^ 63 ->
  strconv.ParseInt t 10 64 = (int_value t, None).
Proof.
  intros Ht Hv.
  assert (Loop : forall ds, ds <> "" -> all_digits ds = true ->
            digits_value 0 ds <= strconv.maxUint64 ->
            strconv.ParseUint ds 10 64 = (digits_value 0 ds, None)).
  { intros ds Hne Hd Hm. unfold strconv.ParseUint. destruct ds as [|c ds]; [congruence|].
    apply ParseUint_loop_digits; [exact Hd | lia | exact Hm]. }
  inversion Ht as [| c ds Hc Hn Hd E | c ds Hc Hn Hd E]; subst.
  - reflexivity.
  - destruct (isDigitByte_not_sign c Hc) as [Hp Hm].
    unfold int_value in *. rewrite Hm in *.
    unfold strconv.ParseInt. rewrite Hp, Hm.
    rewrite Loop; [| discriminate | simpl; now rewrite Hc, Hd
                   | unfold strconv.maxUint64; lia].
    cbv zeta. cbn [negb andb]. change (2 ^ (64 - 1)) with (2 ^ 63).
    replace (2 ^ 63 <=? digits_value 0 (String c ds)) with false
      by (symmetry; apply Z.leb_gt; lia).
    reflexivity.
  - unfold int_value in *. change (b2z "-" =? rn "-") with true in *. cbv iota in *.
    unfold strconv.ParseInt. change (b2z "-" =? rn "+") with false.
    change (b2z "-" =? rn "-") with true. cbv iota.
    rewrite Loop; [| discriminate | simpl; now rewrite Hc, Hd
                   | unfold strconv.maxUint64; lia].
    cbv zeta. cbn [negb andb]. change (2 ^ (64 - 1)) with (2 ^ 63).
    replace (2 ^ 63 <? digits_value 0 (String c ds)) with false
      by (symmetry; apply Z.ltb_ge; lia).
    reflexivity.
Qed.

Lemma ContainsAny_int_text (t : string) :
  int_text t -> ContainsAny t ".eE" = false.
Proof.
  intros Ht. inversion Ht as [| c ds Hc Hn Hd E | c ds Hc Hn Hd E]; subst.
  - reflexivity.
  - apply (ContainsAny_digits (String c ds)). simpl. now rewrite Hc, Hd.
  - change (ContainsAny (String "-" (String c ds)) ".eE")
      with (ContainsAny (String c ds) ".eE").
    apply (ContainsAny_digits (String c ds)). simpl. now rewrite Hc, Hd.
Qed.

Lemma int_text_first (t : string) :
  int_text t ->
  exists c s, t = String c s /\
    strconv.isDigitByte c || (b2z c =? rn "-") = true /\ ws_byte c = false.
Proof.
  intros Ht. pose proof (int_text_starter t Ht) as Hs.
  inversion Ht as [| c ds Hc Hn Hd E | c ds Hc Hn Hd E]; subst;
    eexists _, _; (split; [reflexivity|]); (split; [|apply Hs]);
    try reflexivity. now rewrite Hc.
Qed.

Section Integers.

Variable Digit : unicode.RangeTable.

Lemma UnmarshalNumber_body_sound (st : nat * string) :
  follows sound (UnmarshalNumber_body Digit st) (Stream.UnmarshalNumber_body Digit st).
Proof.
  intros b r b' Hb E. unfold UnmarshalNumber_body in E.
  unfold Stream.UnmarshalNumber_body. destruct st as [state numberBuf].
  destruct (ReadRune_stream b Hb) as (-> & Hh & _).
  destruct (bufio.ReadRune b) as [res b1]. cbn [fst snd] in *. cbv zeta in *.
  destruct res as [r0|e|].
  - destruct (UnmarshalNumber_switch state false r0 (unicode.IsDigit Digit r0))
      as [[state' validEnd] invalidTransition].
    destruct (validEnd || invalidTransition);
      injection E as <- <-; same_with Hh.
  - destruct e;
      try (injection E as <- <-; same_with Hh).
    destruct (UnmarshalNumber_switch state true 0 (unicode.IsDigit Digit 0))
      as [[state' validEnd] invalidTransition].
    destruct (validEnd || invalidTransition);
      injection E as <- <-; same_with Hh.
  - injection E as <- <-. same_with Hh.
Qed.

Lemma UnmarshalNumber_sound :
  follows sound (UnmarshalNumber Digit) (Stream.UnmarshalNumber Digit).
Proof.
  unfold UnmarshalNumber, Stream.UnmarshalNumber.
  apply bind_follows; [apply for_follows, UnmarshalNumber_body_sound|].
  intros [[eof invalidTransition] numberBuf].
  destruct invalidTransition; [apply fail_follows|].
  apply bind_follows.
  - destruct (negb eof);
      [apply try_follows, UnreadRune_follows, sound_UnreadRune | apply ret_follows].
  - intros _ b r b' Hb [= <- <-]. eexists. split; [reflexivity|].
    split; [|exact Hb]. destruct (convertToNumber numberBuf); reflexivity.
Qed.

Lemma dispatch_number (value : Parser Value) (c : ascii) :
  strconv.isDigitByte c || (b2z c =? rn "-") = true ->
  dispatch Digit value (b2z c) = Some (UnmarshalNumber Digit).
Proof.
  intros Hc. unfold dispatch. rewrite IsDigit_byte, Hc.
  destruct (b2z c =? rn dq) eqn:Q; [|reflexivity].
  apply Z.eqb_eq in Q. apply orb_prop in Hc as [Hc|Hc].
  - apply isDigitByte_range in Hc. rewrite Q in Hc. vm_compute in Hc.
    destruct Hc as [Hc _]. now exfalso; apply Hc.
  - apply Z.eqb_eq in Hc. rewrite Q in Hc. discriminate.
Qed.

(** A text that starts with a digit or a minus sign is decoded as the
    stream of its bytes, whatever its length: the number production reads
    runes only. *)
Lemma decode_reader_number_stream (text : string) (c : ascii) (s : string) :
  skip_ws text = String c s ->
  strconv.isDigitByte c || (b2z c =? rn "-") = true ->
  fst (decode_reader Digit text) = fst (Stream.decode_reader Digit text) /\
  bufio.unread (snd (decode_reader Digit text))
  = Stream.bufio.unread (snd (Stream.decode_reader Digit text)).
Proof.
  intros Hs Hc. rewrite (decode_reader_number Digit text c s Hs Hc).
  unfold decode_reader. cbn [UnmarshalValue].
  pose proof (UnmarshalValue_body_peek Digit (UnmarshalValue Digit (String.length text))
                (bufio.NewReader text) (sound_NewReader text)) as P.
  cbn [bufio.unread bufio.NewReader bufio.NewReaderSize] in P. rewrite Hs in P.
  destruct P as (b3 & Hs3 & E3 & ->).
  assert (Ha : b2z c < 0x80).
  { apply orb_prop in Hc as [Hc'|Hc'].
    - apply isDigitByte_range in Hc'. unfold rn in Hc'. change (b2z "0") with 48 in Hc'. lia.
    - apply Z.eqb_eq in Hc'. rewrite Hc'. reflexivity. }
  rewrite DecodeRune_ascii by exact Ha. cbn [fst].
  rewrite dispatch_number by exact Hc.
  destruct (UnmarshalNumber Digit b3) as [r1 b4] eqn:N.
  destruct (UnmarshalNumber_sound _ _ _ Hs3 N) as (sb4 & Es & Hag & Hs4).
  rewrite E3 in Es. rewrite Es.
  destruct (UnmarshalWhitespace_stream b4 Hs4) as (b5 & -> & E5 & _).
  cbn [fst snd Stream.bufio.unread].
  assert (Hu : Stream.bufio.unread sb4 = bufio.unread b4)
    by (destruct r1; cbn in Hag; subst; (reflexivity || exact Hag)).
  split; [reflexivity|]. rewrite Hu.
  apply (f_equal Stream.bufio.unread) in E5. exact E5.
Qed.


(** X4: the text of an integer that does not fit [int64] is not decoded:
    the error is the range error of [strconv.ParseInt], and no [Float] is
    made of it. *)
Theorem decode_integer_out_of_range (t : string) :
  int_text t -> ~ (- 2 ^ 63 <= int_value t < 2 ^ 63) ->
  decode Digit t =
  Err (Errorf "failed to Unmarshal integer number: %w"
         [ArgErr (NumError "ParseInt" t ErrRange)]).
Proof.
  intros Ht Hv. destruct (int_text_first t Ht) as (c & s & E & Hc & Hw).
  assert (Hs : skip_ws t = String c s) by (subst t; now apply skip_ws_no_ws).
  unfold decode. destruct (decode_reader_number_stream _ _ _ Hs Hc) as [-> _].
  rewrite (decode_reader_number Digit _ _ _ Hs Hc). rewrite <- E.
  rewrite <- (append_nil_r t) at 1.
  rewrite UnmarshalNumber_integer by (auto; exact I). cbn [fst].
  unfold convertToNumber. rewrite ContainsAny_int_text by exact Ht.
  destruct (ParseInt_range t Ht Hv) as (n & ->). reflexivity.
Qed.

(** X5: a minus sign that is followed by a character other than a digit is
    not decoded; the error shows the two characters. *)
Theorem decode_minus_without_digit (c : ascii) (rest : string) :
  b2z c < 0x80 -> strconv.isDigitByte c = false ->
  decode Digit (String "-" (String c rest)) =
  Err (Errorf "invalid char in number: %s" [ArgStr (String "-" (String c ""))]).
Proof.
  intros Ha Hc.
  assert (Hs : skip_ws (String "-" (String c rest)) = String "-" (String c rest))
    by reflexivity.
  unfold decode.
  destruct (decode_reader_number_stream _ _ _ Hs eq_refl) as [-> _].
  rewrite (decode_reader_number Digit _ _ _ Hs eq_refl).
  pose proof (UnmarshalNumber_minus Digit c rest None Ha Hc) as E.
  destruct (Stream.UnmarshalNumber Digit _) as [r b]. cbn [fst] in *. exact E.
Qed.


End Integers.


Lemma decode_integer_out_of_range_witness :
  int_text "9223372036854775808" /\
  ~ (- 2 ^ 63 <= int_value "9223372036854775808" < 2 ^ 63) /\
  decode Digit_head "9223372036854775808" =
  Err (Errorf "failed to Unmarshal integer number: %w"
         [ArgErr (NumError "ParseInt" "9223372036854775808" ErrRange)]).
Proof.
  assert (T : int_text "9223372036854775808")
    by (apply int_pos; [reflexivity | discriminate | reflexivity]).
  assert (R : ~ (- 2 ^ 63 <= int_value "9223372036854775808" < 2 ^ 63))
    by (intros [_ H]; vm_compute in H; discriminate H).
  split; [exact T|]. split; [exact R|].
  exact (decode_integer_out_of_range Digit_head "9223372036854775808" T R).
Defined.

Lemma decode_minus_without_digit_witness :
  b2z "a" < 0x80 /\ strconv.isDigitByte "a" = false /\
  decode Digit_head (String "-" (String "a" "bc")) =
  Err (Errorf "invalid char in number: %s" [ArgStr (String "-" (String "a" ""))]).
Proof.
  split; [reflexivity|]. split; [reflexivity|].
  apply (decode_minus_without_digit Digit_head "a" "bc"); reflexivity.
Defined.


(** ** What the decoder leaves unread *)

Section Keeps.

Variable I : bufio.Reader -> Prop.

Lemma keeps_ret {A} (a : A) : keeps I (ret a).
Proof. intros b H. exact H. Qed.

Lemma keeps_fail {A} (e : error) : keeps I (@fail A e).
Proof. intros b H. exact H. Qed.

Lemma keeps_try {A} (p : Parser A) wrap : keeps I p -> keeps I (try p wrap).
Proof.
  intros Hp b H. specialize (Hp b H). unfold try.
  destruct (p b) as [[a|e|] b1]; exact Hp.
Qed.

Lemma keeps_bind {A B} (p : Parser A) (k : A -> Parser B) :
  keeps I p -> (forall a, keeps I (k a)) -> keeps I (bind p k).
Proof.
  intros Hp Hk b H. specialize (Hp b H). unfold bind.
  destruct (p b) as [[a|e|] b1]; cbn [snd] in *; [now apply Hk | exact Hp | exact Hp].
Qed.

Lemma keeps_loop {St A} (body : St -> Parser (step St A)) :
  (forall s, keeps I (body s)) -> forall turns s, keeps I (loop turns body s).
Proof.
  intros Hb turns. induction turns as [|turns IH]; intros s b H; cbn; [exact H|].
  specialize (Hb s b H).
  destruct (body s b) as [[[s'|a]|e|] b1]; cbn [snd] in *;
    [now apply IH | exact Hb | exact Hb | exact Hb].
Qed.

Lemma keeps_for {St A} (body : St -> Parser (step St A)) :
  (forall s, keeps I (body s)) -> forall s, keeps I (for_ body s).
Proof. intros Hb s b H. unfold for_. now apply keeps_loop. Qed.

Hypothesis I_ReadRune : keeps I bufio.ReadRune.
Hypothesis I_UnreadRune : keeps I bufio.UnreadRune.
Hypothesis I_Read : forall n, keeps I (bufio.Read n).

Ltac keeps_step :=
  match goal with
  | H : keeps I ?p |- keeps I ?p => exact H
  | H : forall x, keeps I (?p x) |- keeps I (?p _) => apply H
  | |- forall _, _ => intro
  | |- keeps I bufio.ReadRune => exact I_ReadRune
  | |- keeps I bufio.UnreadRune => exact I_UnreadRune
  | |- keeps I (ret _) => apply keeps_ret
  | |- keeps I (fail _) => apply keeps_fail
  | |- keeps I (if ?c then _ else _) => destruct c
  | |- keeps I (try _ _) => apply keeps_try
  | |- keeps I (bind _ _) => apply keeps_bind
  | |- keeps I (for_ _ _) => apply keeps_for
  end.

Ltac keeps_tac := repeat keeps_step.

Lemma UnmarshalWhitespace_keeps : keeps I UnmarshalWhitespace.
Proof.
  unfold UnmarshalWhitespace. apply keeps_bind.
  - apply keeps_for. intros u b H. specialize (I_ReadRune b H).
    unfold UnmarshalWhitespace_body.
    destruct (bufio.ReadRune b) as [[r|e|] b1]; cbn [snd] in *;
      [destruct (negb (isJsonWhitespace r)) | destruct e |]; exact I_ReadRune.
  - intros eof. destruct (negb eof); keeps_tac.
Qed.

Lemma literal_keeps (p : Parser Value) :
  p = UnmarshalNull \/ p = UnmarshalTrue \/ p = UnmarshalFalse -> keeps I p.
Proof.
  intros [-> | [-> | ->]] b H;
    unfold UnmarshalNull, UnmarshalTrue, UnmarshalFalse;
    match goal with |- context [bufio.Read ?n b] =>
      pose proof (I_Read n b H) as R; destruct (bufio.Read n b) as [[v|e|] b1]
    end; cbn [snd] in *;
    repeat match goal with |- context [if ?c then _ else _] => destruct c end;
    exact R.
Qed.

Lemma convertHexToUnicode_keeps : keeps I convertHexToUnicode.
Proof.
  intros b H. unfold convertHexToUnicode. pose proof (I_Read 4 b H) as R.
  destruct (bufio.Read 4 b) as [[v|e|] b1]; cbn [snd] in *; try exact R.
  destruct (negb (String.length v =? 4)%nat); [exact R|].
  destruct (strconv.ParseInt v 16 32) as [x [e|]]; exact R.
Qed.

Lemma UnmarshalString_keeps : keeps I UnmarshalString.
Proof.
  assert (B : forall st, keeps I (UnmarshalString_body st)).
  { intros [sb backslash]. unfold UnmarshalString_body.
    pose proof convertHexToUnicode_keeps. keeps_tac. }
  unfold UnmarshalString. keeps_tac.
Qed.

Variable Digit : unicode.RangeTable.

Lemma UnmarshalNumber_keeps : keeps I (UnmarshalNumber Digit).
Proof.
  unfold UnmarshalNumber. apply keeps_bind.
  - apply keeps_for. intros [state numberBuf] b H. specialize (I_ReadRune b H).
    unfold UnmarshalNumber_body.
    destruct (bufio.ReadRune b) as [[r|e|] b1]; cbn [snd] in *; cbv zeta.
    + destruct (UnmarshalNumber_switch state false r (unicode.IsDigit Digit r))
        as [[state' validEnd] invalidTransition].
      destruct (validEnd || invalidTransition); exact I_ReadRune.
    + destruct e; try exact I_ReadRune.
      destruct (UnmarshalNumber_switch state true 0 (unicode.IsDigit Digit 0))
        as [[state' validEnd] invalidTransition].
      destruct (validEnd || invalidTransition); exact I_ReadRune.
    + exact I_ReadRune.
  - intros [[eof invalidTransition] numberBuf].
    destruct invalidTransition; [apply keeps_fail|].
    apply keeps_bind; [destruct (negb eof); keeps_tac|].
    intros _ b H. exact H.
Qed.

Lemma dispatch_keeps (value : Parser Value) (r : rune) (p : Parser Value) :
  keeps I value -> dispatch Digit value r = Some p -> keeps I p.
Proof.
  intros Hv. unfold dispatch.
  pose proof UnmarshalString_keeps. pose proof UnmarshalNumber_keeps.
  assert (A : keeps I (values <- UnmarshalArray value ;; ret (Array values))).
  { unfold UnmarshalArray. apply keeps_bind; [|keeps_tac]. apply keeps_for.
    intros [state values]. unfold UnmarshalArray_body. keeps_tac. }
  assert (O : keeps I (object <- UnmarshalObject value ;; ret (Object object))).
  { unfold UnmarshalObject. apply keeps_bind; [|keeps_tac]. apply keeps_for.
    intros [[state key] object]. unfold UnmarshalObject_body. keeps_tac. }
  repeat match goal with
         | |- context [if ?c then _ else _] => destruct c
         end;
    intros [= <-]; try assumption; try (apply literal_keeps; tauto).
  keeps_tac.
Qed.

Lemma UnmarshalValue_keeps (depth : nat) : keeps I (UnmarshalValue Digit depth).
Proof.
  induction depth as [|depth IH]; cbn [UnmarshalValue]; [intros b H; exact H|].
  unfold UnmarshalValue_body.
  apply keeps_bind; [apply keeps_try, UnmarshalWhitespace_keeps|]. intros _.
  apply keeps_bind; [keeps_tac|]. intros r.
  apply keeps_bind; [keeps_tac|]. intros _.
  destruct (dispatch Digit (UnmarshalValue Digit depth) r) as [p|] eqn:D;
    [|apply keeps_fail].
  intros b H. pose proof (dispatch_keeps _ _ _ IH D b H) as Hp.
  destruct (p b) as [res b1]. cbn [snd] in *.
  pose proof (UnmarshalWhitespace_keeps b1 Hp) as Hw.
  destruct (UnmarshalWhitespace b1) as [[u|e|] b2]; exact Hw.
Qed.

End Keeps.

Lemma sound_Read (n : nat) (b : bufio.Reader) : sound b -> sound (snd (bufio.Read n b)).
Proof.
  intros Hs. pose proof Hs as [Hsz Ha]. unfold bufio.Read.
  destruct (bufio.avail b =? 0)%nat eqn:A.
  - destruct (bufio.unread b) as [|c s] eqn:U; [exact Hs|].
    destruct (bufio.size b <=? n)%nat; split; cbn; try exact Hsz; try lia.
    rewrite length_drop. cbn. lia.
  - split; cbn; [exact Hsz|]. rewrite length_drop. lia.
Qed.

Section Rest.

Variable text : string.

Lemma reads_from_NewReader : reads_from text (bufio.NewReader text).
Proof. split; [apply sound_NewReader|]. exists "". reflexivity. Qed.

Lemma reads_from_ReadRune : keeps (reads_from text) bufio.ReadRune.
Proof.
  intros b [Hs (pre & E)]. split; [now apply sound_ReadRune|].
  destruct (ReadRune_shape b Hs) as (a & _ & _ & ->).
  destruct (bufio.unread b) as [|c s] eqn:U.
  - cbn. exists (pre +:+ match bufio.lastRune b with Some bytes => bytes | None => "" end).
    rewrite E. now rewrite !append_assoc.
  - destruct (utf8.DecodeRune (String c s)) as [r n]. cbn.
    exists (pre +:+ match bufio.lastRune b with Some bytes => bytes | None => "" end).
    rewrite E, take_drop. now rewrite !append_assoc.
Qed.

Lemma reads_from_UnreadRune : keeps (reads_from text) bufio.UnreadRune.
Proof.
  intros b [Hs (pre & E)]. split; [now apply sound_UnreadRune|].
  unfold bufio.UnreadRune. destruct (bufio.lastRune b) as [bytes|] eqn:L; cbn.
  - exists pre. exact E.
  - exists pre. now rewrite L.
Qed.

Lemma reads_from_Read (n : nat) : keeps (reads_from text) (bufio.Read n).
Proof.
  intros b [Hs (pre & E)]. split; [now apply sound_Read|].
  assert (T : forall k, exists pre',
            text = pre' +:+ "" +:+ drop k (bufio.unread b)).
  { intros k.
    exists (pre +:+ match bufio.lastRune b with Some bytes => bytes | None => "" end
            +:+ take k (bufio.unread b)).
    rewrite E at 1. rewrite <- (take_drop k (bufio.unread b)) at 1.
    simpl String.append. now rewrite !append_assoc. }
  unfold bufio.Read.
  destruct (bufio.avail b =? 0)%nat.
  - destruct (bufio.unread b) as [|c s] eqn:U; [cbn; exists pre; rewrite U; exact E|].
    destruct (bufio.size b <=? n)%nat; cbn; apply T.
  - cbn. apply T.
Qed.

Variable Digit : unicode.RangeTable.

(** X7: whatever the text and whether it is decoded or not, what
    [UnmarshalValue] leaves unread is an end of the text, and it does not
    start with whitespace: after a value the reader stands at the next
    character that is not whitespace, or at the end. *)
Theorem decode_reader_rest :
  (exists pre, text = pre +:+ bufio.unread (snd (decode_reader Digit text))) /\
  skip_ws (bufio.unread (snd (decode_reader Digit text)))
  = bufio.unread (snd (decode_reader Digit text)).
Proof.
  split.
  - destruct (UnmarshalValue_keeps (reads_from text) reads_from_ReadRune
                reads_from_UnreadRune reads_from_Read Digit
                (S (String.length text)) _ reads_from_NewReader) as [_ (pre & E)].
    unfold decode_reader.
    exists (pre +:+ match bufio.lastRune
                          (snd (UnmarshalValue Digit (S (String.length text))
                                  (bufio.NewReader text))) with
                    | Some bytes => bytes
                    | None => ""
                    end).
    rewrite E at 1. now rewrite !append_assoc.
  - unfold decode_reader. cbn [UnmarshalValue].
    pose proof (UnmarshalValue_body_peek Digit (UnmarshalValue Digit (String.length text))
                  (bufio.NewReader text) (sound_NewReader text)) as P.
    cbn [bufio.unread bufio.NewReader bufio.NewReaderSize] in P.
    destruct (skip_ws text) as [|c s] eqn:Sk.
    + destruct P as [_ ->]. reflexivity.
    + destruct P as (b3 & Hs3 & E3 & ->).
      apply (f_equal Stream.bufio.unread) in E3. cbn in E3.
      destruct (dispatch Digit _ _) as [p|] eqn:D.
      * assert (K : keeps sound p).
        { eapply (dispatch_keeps sound); [exact sound_ReadRune | exact sound_UnreadRune
            | exact sound_Read | | exact D].
          apply UnmarshalValue_keeps;
            [exact sound_ReadRune | exact sound_UnreadRune | exact sound_Read]. }
        specialize (K b3 Hs3). destruct (p b3) as [res b4]. cbn [snd] in K.
        destruct (UnmarshalWhitespace_stream b4 K) as (b5 & -> & E5 & _).
        cbn [snd]. apply (f_equal Stream.bufio.unread) in E5. cbn in E5.
        rewrite E5. apply skip_ws_idem.
      * cbn [snd]. rewrite E3, <- Sk. apply skip_ws_idem.
Qed.

End Rest.

Module StreamStrings.

Set Warnings "-notation-overridden".
Import Stream.
Set Warnings "+notation-overridden".

#[local] Arguments String.append !_ _ : simpl nomatch.

(** ** Strings *)

Lemma escape_letter_cases (x c : ascii) :
  escape_letter x = Some c ->
  (x = dq /\ c = dq) \/ (x = "\"%char /\ c = "\"%char) \/ (x = "/"%char /\ c = "/"%char)
  \/ (x = "b"%char /\ c = ascii_of_nat 8) \/ (x = "f"%char /\ c = ascii_of_nat 12)
  \/ (x = "n"%char /\ c = ascii_of_nat 10) \/ (x = "r"%char /\ c = ascii_of_nat 13)
  \/ (x = "t"%char /\ c = ascii_of_nat 9).
Proof.
  unfold escape_letter.
  repeat match goal with
         | |- context [if b2z x =? ?y then _ else _] =>
           destruct (Z.eqb_spec (b2z x) y) as [E|_];
             [apply b2z_inj in E; subst x; intros [= <-]; tauto|]
         end.
  discriminate.
Qed.

(** The two turns that read a two-character escape. *)
Lemma escape_turns (x c : ascii) (sb X : string) (l : option string) :
  escape_letter x = Some c ->
  for_ UnmarshalString_body (sb, false)
    {| bufio.unread := String "\" (String x X); bufio.lastRune := l |} =
  for_ UnmarshalString_body (sb +:+ String c "", false)
    {| bufio.unread := X; bufio.lastRune := None |}.
Proof.
  intros H. apply escape_letter_cases in H.
  repeat destruct H as [H|H]; destruct H as [-> ->];
    rewrite string_for by exact I; rewrite UnmarshalString_body_backslash;
    rewrite string_for by exact I;
    unfold UnmarshalString_body at 1; unfold bind, try;
    rewrite ReadRune_ascii by (vm_compute; reflexivity);
    cbv beta iota; simpl; apply for_string_lastRune.
Qed.

(** The turn that reads [uXXXX] after a backslash. *)
Lemma UnmarshalString_body_unicode (hexString : string) (hexValue : Z)
  (sb rest : string) (l : option string) :
  String.length hexString = 4%nat ->
  strconv.ParseInt hexString 16 32 = (hexValue, None) ->
  UnmarshalString_body (sb, true)
    {| bufio.unread := "u" +:+ hexString +:+ rest; bufio.lastRune := l |} =
  (Ok (Continue (sb +:+ utf8.EncodeRune hexValue, false)),
   {| bufio.unread := rest; bufio.lastRune := None |}).
Proof.
  intros Hlen Hparse.
  unfold UnmarshalString_body, bind, try. simpl String.append.
  rewrite ReadRune_ascii by (vm_compute; reflexivity).
  change (b2z "u") with (rn "u").
  repeat match goal with
         | |- context [rn "u" =? ?x] =>
           let b := eval vm_compute in (rn "u" =? x) in
           change (rn "u" =? x) with b
         end.
  cbv iota. unfold convertHexToUnicode, bufio.Read. cbn [bufio.unread].
  destruct hexString as [|h0 hs]; [discriminate|]. simpl String.append.
  change (String h0 (hs +:+ rest)) with (String h0 hs +:+ rest).
  assert (T : take 4 (String h0 hs +:+ rest) = String h0 hs)
    by (rewrite <- Hlen; apply take_length_app).
  assert (Dr : drop 4 (String h0 hs +:+ rest) = rest)
    by (rewrite <- Hlen; apply drop_length_app).
  rewrite T, Dr. simpl String.append. cbv beta iota. rewrite Hlen. cbn [Nat.eqb negb].
  rewrite Hparse. reflexivity.
Qed.

(** The string loop on the content of a string: the builder gets what the
    content stands for, and the loop goes on with what follows. *)
Lemma string_loop_content (t out : string) :
  content t out ->
  forall (sb X : string) (l : option string),
    ascii_start X ->
    for_ UnmarshalString_body (sb, false)
      {| bufio.unread := t +:+ X; bufio.lastRune := l |} =
    for_ UnmarshalString_body (sb +:+ out, false)
      {| bufio.unread := X; bufio.lastRune := None |}.
Proof.
  induction 1 as [| c s r n out D Hq Hb Hc IH | x c t out Hx Hc IH
                  | hexString hexValue t out Hlen Hparse Hc IH ];
    intros sb X l HX.
  - simpl. rewrite append_nil_r. apply for_string_lastRune.
  - rewrite string_for by exact I.
    assert (D' : utf8.DecodeRune (String c s +:+ X) = (r, n))
      by (rewrite DecodeRune_ext by exact HX; exact D).
    pose proof (DecodeRune_size c s) as Hn. rewrite D in Hn. cbn [snd] in Hn.
    simpl String.append in *.
    unfold UnmarshalString_body, bind, try. rewrite (ReadRune_decode _ _ _ _ _ D').
    apply Z.eqb_neq in Hq, Hb. rewrite Hb, Hq. unfold ret, Builder.WriteRune.
    change (String c (s +:+ X)) with (String c s +:+ X).
    rewrite drop_app by lia. rewrite IH by exact HX. now rewrite append_assoc.
  - simpl String.append. rewrite (escape_turns x c) by exact Hx.
    rewrite IH by exact HX. now rewrite append_assoc.
  - rewrite !append_assoc. simpl String.append.
    rewrite string_for by exact I. rewrite UnmarshalString_body_backslash.
    rewrite string_for by exact I.
    change (String "u" (hexString +:+ t +:+ X)) with ("u" +:+ hexString +:+ (t +:+ X)).
    rewrite (UnmarshalString_body_unicode hexString hexValue) by assumption.
    rewrite IH by exact HX. now rewrite append_assoc.
Qed.

Lemma UnmarshalString_content (t out rest : string) (l : option string) :
  content t out ->
  UnmarshalString {| bufio.unread := String dq (t +:+ String dq rest); bufio.lastRune := l |}
  = (Ok out, {| bufio.unread := rest; bufio.lastRune := Some DQ |}).
Proof.
  intros H. rewrite UnmarshalString_open.
  rewrite (string_loop_content t out H) by (vm_compute; reflexivity).
  rewrite string_for by exact I. now rewrite UnmarshalString_body_quote.
Qed.

Section StringTexts.

Variable Digit : unicode.RangeTable.

(** The decoder on a text that starts with a double quote. *)
Lemma decode_reader_string (s : string) :
  decode_reader Digit (String dq s) =
  let '(res, b) :=
    UnmarshalString {| bufio.unread := String dq s; bufio.lastRune := None |} in
  (match res with
   | Ok v => Ok (String_ v)
   | Err e => Err e
   | OutOfFuel => OutOfFuel
   end,
   {| bufio.unread := skip_ws (bufio.unread b); bufio.lastRune := None |}).
Proof.
  unfold decode_reader. cbn [UnmarshalValue].
  rewrite UnmarshalValue_body_eq. cbv zeta. cbn [bufio.unread bufio.NewReader].
  rewrite skip_ws_no_ws by reflexivity.
  rewrite DecodeRune_ascii by (vm_compute; reflexivity). cbn [fst].
  rewrite dispatch_quote. unfold bind, ret.
  destruct (UnmarshalString _) as [[v|e|] b]; reflexivity.
Qed.

Lemma decode_content (t out : string) :
  content t out -> decode Digit (quoted t) = Ok (String_ out).
Proof.
  intros H. unfold decode, quoted, DQ. simpl String.append.
  rewrite decode_reader_string. now rewrite (UnmarshalString_content t out "").
Qed.

(** What the string loop does at what follows the content: at the end of
    the text, at a backslash with a character that is no escape, and at
    [\u] without four characters that are a number in base 16. *)
Lemma decode_string_stops (t out X : string) (e : error) :
  content t out -> ascii_start X ->
  (forall sb,
     fst (for_ UnmarshalString_body (sb, false)
            {| bufio.unread := X; bufio.lastRune := None |}) = Err e) ->
  decode Digit (String dq (t +:+ X)) = Err e.
Proof.
  intros H HX Hstop. unfold decode. rewrite decode_reader_string.
  rewrite UnmarshalString_open. rewrite (string_loop_content t out H) by exact HX.
  specialize (Hstop ("" +:+ out)).
  destruct (for_ UnmarshalString_body _ _) as [res b]. cbn [fst] in *. now subst res.
Qed.

Lemma string_loop_eof (sb : string) :
  fst (for_ UnmarshalString_body (sb, false)
         {| bufio.unread := ""; bufio.lastRune := None |}) = Err (errReadRune EOF).
Proof. rewrite string_for by exact I. reflexivity. Qed.

Lemma string_loop_unknown_escape (x : ascii) (rest sb : string) :
  b2z x < 0x80 -> escape_letter x = None -> b2z x <> rn "u" ->
  fst (for_ UnmarshalString_body (sb, false)
         {| bufio.unread := String "\" (String x rest); bufio.lastRune := None |}) =
  Err (Errorf "error: unexpected escape character %c" [ArgRune (b2z x)]).
Proof.
  intros Ha Hx Hu. rewrite string_for by exact I. rewrite UnmarshalString_body_backslash.
  rewrite string_for by exact I.
  unfold UnmarshalString_body, bind, try. rewrite ReadRune_ascii by exact Ha.
  unfold escape_letter in Hx. apply Z.eqb_neq in Hu.
  repeat match type of Hx with
         | context [if ?c then _ else _] => destruct c eqn:?; [discriminate|]
         end.
  repeat match goal with E : (b2z x =? _) = false |- _ => rewrite E; clear E end.
  reflexivity.
Qed.

Lemma string_loop_bad_unicode (h rest sb : string) :
  (String.length h < 4)%nat /\ rest = ""
  \/ (String.length h = 4%nat /\ exists n e, strconv.ParseInt h 16 32 = (n, Some e)) ->
  fst (for_ UnmarshalString_body (sb, false)
         {| bufio.unread := "\u" +:+ h +:+ rest; bufio.lastRune := None |}) =
  Err (Errorf "failed to Unmarshal unicode character" []).
Proof.
  intros H. simpl String.append.
  rewrite string_for by exact I. rewrite UnmarshalString_body_backslash.
  rewrite string_for by exact I.
  unfold UnmarshalString_body, bind, try. rewrite ReadRune_ascii by (vm_compute; reflexivity).
  change (b2z "u") with (rn "u").
  repeat match goal with
         | |- context [rn "u" =? ?x] =>
           let b := eval vm_compute in (rn "u" =? x) in
           change (rn "u" =? x) with b
         end.
  cbv iota. unfold convertHexToUnicode, bufio.Read. cbn [bufio.unread].
  destruct H as [[Hl ->] | (Hl & n & e & Hp)].
  - rewrite append_nil_r. destruct h as [|h0 hs]; [reflexivity|].
    cbv beta iota. rewrite take_beyond by lia.
    replace (String.length (String h0 hs) =? 4)%nat with false
      by (symmetry; apply Nat.eqb_neq; lia).
    reflexivity.
  - destruct h as [|h0 hs]; [discriminate|]. simpl String.append.
    change (String h0 (hs +:+ rest)) with (String h0 hs +:+ rest).
    assert (T : take 4 (String h0 hs +:+ rest) = String h0 hs)
      by (rewrite <- Hl; apply take_length_app).
    rewrite T. simpl String.append. cbv beta iota. rewrite Hl. cbn [Nat.eqb negb].
    rewrite Hp. reflexivity.
Qed.

End StringTexts.

End StreamStrings.

Import StreamStrings.

(** ** Strings *)

Section Strings.

Variable Digit : unicode.RangeTable.

(** A text of the grammar of strings that the buffer holds. *)
Lemma decode_content_held (t out : string) :
  content t out ->
  (String.length (quoted t) <= bufio.defaultBufSize)%nat ->
  decode Digit (quoted t) = Ok (String_ out).
Proof.
  intros H Hfit. rewrite decode_held by exact Hfit. now apply decode_content.
Qed.

(** X8: the text of a string, when the buffer holds it, is decoded to what
    its content stands for: runes other than the double quote and the
    backslash for themselves, control characters included, the eight
    two-character escapes for their character, and [\u] with four
    characters that [strconv.ParseInt] reads in base 16 for the rune of
    that number. *)
Theorem decode_string (t out : string) :
  content t out ->
  (String.length (quoted t) <= bufio.defaultBufSize)%nat ->
  decode Digit (quoted t) = Ok (String_ out).
Proof. exact (decode_content_held t out). Qed.

(** X9: a string that the text does not close is an error of the read at
    the end of the text. *)
Theorem decode_string_unterminated (t out : string) :
  content t out ->
  (String.length (DQ +:+ t) <= bufio.defaultBufSize)%nat ->
  decode Digit (DQ +:+ t) = Err (Errorf "failed to read rune: %w" [ArgErr EOF]).
Proof.
  intros H Hfit. rewrite decode_held by exact Hfit.
  unfold DQ. simpl String.append. rewrite <- (append_nil_r t).
  apply (decode_string_stops Digit t out "" _ H I). apply string_loop_eof.
Qed.

(** X10: a backslash that is followed by a character that is none of the
    escapes is an error that shows the character. *)
Theorem decode_string_unknown_escape (t out : string) (x : ascii) (rest : string) :
  content t out ->
  b2z x < 0x80 -> escape_letter x = None -> b2z x <> rn "u" ->
  (String.length (DQ +:+ t +:+ String "\" (String x rest)) <= bufio.defaultBufSize)%nat ->
  decode Digit (DQ +:+ t +:+ String "\" (String x rest)) =
  Err (Errorf "error: unexpected escape character %c" [ArgRune (b2z x)]).
Proof.
  intros H Ha Hx Hu Hfit. rewrite decode_held by exact Hfit.
  unfold DQ. simpl String.append.
  apply (decode_string_stops Digit t out _ _ H); [vm_compute; reflexivity|].
  intros sb. now apply string_loop_unknown_escape.
Qed.

(** X11: [\u] that is followed by four characters that are no number in
    base 16, or by the end of the text before four characters, is an
    error. *)
Theorem decode_string_bad_unicode (t out h rest : string) :
  content t out ->
  (String.length h < 4)%nat /\ rest = ""
  \/ (String.length h = 4%nat /\ exists n e, strconv.ParseInt h 16 32 = (n, Some e)) ->
  (String.length (DQ +:+ t +:+ "\u" +:+ h +:+ rest) <= bufio.defaultBufSize)%nat ->
  decode Digit (DQ +:+ t +:+ "\u" +:+ h +:+ rest) =
  Err (Errorf "failed to Unmarshal unicode character" []).
Proof.
  intros H Hh Hfit. rewrite decode_held by exact Hfit.
  unfold DQ. simpl String.append.
  apply (decode_string_stops Digit t out (String "\" (String "u" (h +:+ rest))) _ H);
    [vm_compute; reflexivity|].
  intros sb. now apply (string_loop_bad_unicode h rest sb).
Qed.

End Strings.

Lemma content_sample_stands : content content_sample content_sample_out.
Proof.
  unfold content_sample, content_sample_out.
  apply (content_rune "a" "\n\u00e9" 97 1);
    [reflexivity | discriminate | discriminate |].
  change (drop 1 "a\n\u00e9") with (String "\" (String "n" ("\u" +:+ "00e9" +:+ ""))).
  apply content_escape; [reflexivity|].
  apply content_unicode; [reflexivity | reflexivity | exact content_end].
Defined.

Lemma decode_string_witness :
  content content_sample content_sample_out /\
  (String.length (quoted content_sample) <= bufio.defaultBufSize)%nat /\
  decode Digit_head (quoted content_sample) = Ok (String_ content_sample_out).
Proof.
  assert (F : (String.length (quoted content_sample) <= bufio.defaultBufSize)%nat)
    by (vm_compute; lia).
  split; [exact content_sample_stands|]. split; [exact F|].
  exact (decode_string Digit_head _ _ content_sample_stands F).
Defined.

Lemma decode_string_unterminated_witness :
  content content_sample content_sample_out /\
  (String.length (DQ +:+ content_sample) <= bufio.defaultBufSize)%nat /\
  decode Digit_head (DQ +:+ content_sample) =
  Err (Errorf "failed to read rune: %w" [ArgErr EOF]).
Proof.
  assert (F : (String.length (DQ +:+ content_sample) <= bufio.defaultBufSize)%nat)
    by (vm_compute; lia).
  split; [exact content_sample_stands|]. split; [exact F|].
  exact (decode_string_unterminated Digit_head _ _ content_sample_stands F).
Defined.

Lemma decode_string_unknown_escape_witness :
  content content_sample content_sample_out /\
  b2z "x" < 0x80 /\ escape_letter "x" = None /\ b2z "x" <> rn "u" /\
  (String.length (DQ +:+ content_sample +:+ String "\" (String "x" "41"))
   <= bufio.defaultBufSize)%nat /\
  decode Digit_head (DQ +:+ content_sample +:+ String "\" (String "x" "41")) =
  Err (Errorf "error: unexpected escape character %c" [ArgRune (b2z "x")]).
Proof.
  assert (F : (String.length (DQ +:+ content_sample +:+ String "\" (String "x" "41"))
               <= bufio.defaultBufSize)%nat) by (vm_compute; lia).
  assert (U : b2z "x" <> rn "u") by discriminate.
  split; [exact content_sample_stands|]. split; [reflexivity|]. split; [reflexivity|].
  split; [exact U|]. split; [exact F|].
  exact (decode_string_unknown_escape Digit_head _ _ "x" "41" content_sample_stands
           eq_refl eq_refl U F).
Defined.

Lemma decode_string_bad_unicode_witness :
  content content_sample content_sample_out /\
  ((String.length "00g1" < 4)%nat /\ DQ = ""
   \/ (String.length "00g1" = 4%nat /\
       exists n e, strconv.ParseInt "00g1" 16 32 = (n, Some e))) /\
  (String.length (DQ +:+ content_sample +:+ "\u" +:+ "00g1" +:+ DQ)
   <= bufio.defaultBufSize)%nat /\
  decode Digit_head (DQ +:+ content_sample +:+ "\u" +:+ "00g1" +:+ DQ) =
  Err (Errorf "failed to Unmarshal unicode character" []).
Proof.
  assert (F : (String.length (DQ +:+ content_sample +:+ "\u" +:+ "00g1" +:+ DQ)
               <= bufio.defaultBufSize)%nat) by (vm_compute; lia).
  assert (B : (String.length "00g1" < 4)%nat /\ DQ = ""
              \/ (String.length "00g1" = 4%nat /\
                  exists n e, strconv.ParseInt "00g1" 16 32 = (n, Some e))).
  { right. split; [reflexivity|]. eexists. eexists. vm_compute. reflexivity. }
  split; [exact content_sample_stands|]. split; [exact B|]. split; [exact F|].
  exact (decode_string_bad_unicode Digit_head _ _ "00g1" DQ content_sample_stands B F).
Defined.

Module StreamContainers.

Set Warnings "-notation-overridden".
Import Stream.
Set Warnings "+notation-overridden".

#[local] Arguments String.append !_ _ : simpl nomatch.

(** ** The texts of the grammar *)

Lemma ws_byte_terminator (c : ascii) (s : string) :
  ws_byte c = true -> terminator (String c s).
Proof.
  unfold ws_byte. intros H. apply isJsonWhitespace_cases in H.
  unfold terminator, strconv.isDigitByte, rn.
  change (b2z "0") with 48. change (b2z "9") with 57. change (b2z ".") with 46.
  change (b2z "e") with 101. change (b2z "E") with 69.
  repeat split; lia.
Qed.

Lemma ws_terminator (w rest : string) :
  all_ws w = true -> terminator rest -> terminator (w +:+ rest).
Proof.
  destruct w as [|c w]; [intros _ H; exact H|].
  cbn [all_ws]. intros H _. apply andb_prop in H as [H _].
  simpl String.append. now apply ws_byte_terminator.
Qed.

Section Grammar.

Variable Digit : unicode.RangeTable.

(** *** Values that are no containers *)

Lemma reads_any_reads (t : string) (v : Value) : reads_any Digit t v -> reads Digit t v.
Proof. intros [Hs Hv]. split; [exact Hs|]. intros d rest l Hd _. now apply Hv. Qed.

Lemma reads_literal (t : string) (v : Value) (production : Parser Value) c s :
  t = String c s ->
  starter t ->
  (forall d, dispatch Digit (UnmarshalValue Digit d) (b2z c) = Some production) ->
  (forall rest, production {| bufio.unread := t +:+ rest; bufio.lastRune := None |} =
                (Ok v, {| bufio.unread := rest; bufio.lastRune := None |})) ->
  reads_any Digit t v.
Proof.
  intros -> Hs Hd Hp. split; [exact Hs|].
  intros [|d] rest l Hlen; [lia|]. simpl String.append.
  rewrite (UnmarshalValue_start Digit d c (s +:+ rest) l production Hs (Hd d)).
  specialize (Hp rest). simpl String.append in Hp. rewrite Hp. reflexivity.
Qed.

Lemma reads_null : reads_any Digit "null" Null.
Proof.
  apply (reads_literal _ _ UnmarshalNull "n" "ull"); try reflexivity.
  repeat split; vm_compute; try reflexivity; discriminate.
Qed.

Lemma reads_true : reads_any Digit "true" (Bool true).
Proof.
  apply (reads_literal _ _ UnmarshalTrue "t" "rue"); try reflexivity.
  repeat split; vm_compute; try reflexivity; discriminate.
Qed.

Lemma reads_false : reads_any Digit "false" (Bool false).
Proof.
  apply (reads_literal _ _ UnmarshalFalse "f" "alse"); try reflexivity.
  repeat split; vm_compute; try reflexivity; discriminate.
Qed.

Lemma reads_integer (t : string) :
  int_text t -> - 2 ^ 63 <= int_value t < 2 ^ 63 ->
  reads Digit t (Integer (int_value t)).
Proof.
  intros Ht Hv. pose proof (int_text_starter _ Ht) as Hs. split; [exact Hs|].
  intros [|d] rest l Hlen Hr; [lia|].
  destruct (int_text_first t Ht) as (c & s & E & Hc & Hw).
  pose proof (UnmarshalNumber_integer Digit t rest None Ht Hr) as Hn.
  assert (Hconv : convertToNumber t = Ok (Integer (int_value t))).
  { unfold convertToNumber. rewrite ContainsAny_int_text by exact Ht.
    now rewrite ParseInt_int_text. }
  rewrite Hconv in Hn. subst t. simpl String.append in *.
  rewrite (UnmarshalValue_start Digit d c (s +:+ rest) l (UnmarshalNumber Digit) Hs).
  - rewrite Hn. reflexivity.
  - rewrite dispatch_ascii. rewrite Hc.
    destruct (b2z c =? rn dq) eqn:Q; [|reflexivity].
    apply Z.eqb_eq in Q. apply orb_prop in Hc as [Hc|Hc].
    + apply isDigitByte_range in Hc. rewrite Q in Hc. vm_compute in Hc.
      destruct Hc as [Hc _]. now exfalso; apply Hc.
    + apply Z.eqb_eq in Hc. rewrite Q in Hc. discriminate.
Qed.

Lemma reads_string (t out : string) :
  content t out -> reads_any Digit (quoted t) (String_ out).
Proof.
  intros H. split; [repeat split; vm_compute; try reflexivity; discriminate|].
  intros [|d] rest l Hlen; [lia|]. unfold quoted, DQ. simpl String.append.
  rewrite (UnmarshalValue_start Digit d _ _ _ (s <- UnmarshalString ;; ret (String_ s)));
    [| repeat split; vm_compute; try reflexivity; discriminate
     | rewrite dispatch_ascii; reflexivity ].
  unfold bind. rewrite append_assoc. simpl String.append.
  rewrite (UnmarshalString_content t out rest None H). reflexivity.
Qed.

(** *** Arrays *)

#[local] Notation "'array_loop' d" :=
  (for_ (UnmarshalArray_body (UnmarshalValue Digit d))) (at level 10, d at level 9, only parsing).

Lemma array_lastRune (d : nat) (st : nat * list Value) (u : string) (l l' : option string) :
  array_loop d st {| bufio.unread := u; bufio.lastRune := l |} =
  array_loop d st {| bufio.unread := u; bufio.lastRune := l' |}.
Proof.
  rewrite !(array_for _ (UnmarshalValue_consuming Digit d)) by exact I.
  replace (UnmarshalArray_body (UnmarshalValue Digit d) st
             {| bufio.unread := u; bufio.lastRune := l |})
    with (UnmarshalArray_body (UnmarshalValue Digit d) st
            {| bufio.unread := u; bufio.lastRune := l' |}); [reflexivity|].
  destruct st as [state values]. unfold UnmarshalArray_body, bind, try, bufio.ReadRune.
  reflexivity.
Qed.

(** State 1 skips whitespace. *)
Lemma array_ws (d : nat) (w X : string) (acc : list Value) (l : option string) :
  all_ws w = true ->
  array_loop d (1%nat, acc) {| bufio.unread := w +:+ X; bufio.lastRune := l |} =
  array_loop d (1%nat, acc) {| bufio.unread := X; bufio.lastRune := None |}.
Proof.
  revert l. induction w as [|c w IH]; intros l H; [apply array_lastRune|].
  cbn [all_ws] in H. apply andb_prop in H as [Hc Hw]. simpl String.append.
  rewrite (array_for _ (UnmarshalValue_consuming Digit d)) by exact I.
  unfold UnmarshalArray_body at 1. unfold bind, try.
  rewrite ReadRune_ascii by (apply isJsonWhitespace_ascii; exact Hc).
  cbn [Nat.eqb]. unfold ws_byte in Hc. rewrite Hc. unfold ret at 1. cbv beta iota.
  now apply IH.
Qed.

(** State 1 at the first byte of a value: the value is decoded. *)
Lemma array_turn_value (d : nat) (t : string) (v : Value) (tail : string)
  (acc : list Value) (l : option string) :
  starter t ->
  UnmarshalValue Digit d {| bufio.unread := t +:+ tail; bufio.lastRune := None |} =
  (Ok v, {| bufio.unread := skip_ws tail; bufio.lastRune := None |}) ->
  array_loop d (1%nat, acc) {| bufio.unread := t +:+ tail; bufio.lastRune := l |} =
  array_loop d (2%nat, (acc ++ [v])%list)
    {| bufio.unread := skip_ws tail; bufio.lastRune := None |}.
Proof.
  intros Hs Hv.
  rewrite (array_for _ (UnmarshalValue_consuming Digit d)) by exact I.
  destruct t as [|c t]; [contradiction|]. destruct Hs as (Hw & Hb & Ha).
  simpl String.append in *.
  unfold UnmarshalArray_body at 1. unfold bind, try.
  rewrite ReadRune_ascii by exact Ha. cbn [Nat.eqb].
  unfold ws_byte in Hw. rewrite Hw.
  apply Z.eqb_neq in Hb. rewrite Hb.
  unfold bufio.UnreadRune. cbn [bufio.lastRune bufio.unread].
  simpl String.append. rewrite Hv. reflexivity.
Qed.

Lemma array_turn (d : nat) (t : string) (v : Value) (tail : string) (acc : list Value)
  (l : option string) :
  reads Digit t v -> (String.length t < d)%nat -> terminator tail ->
  array_loop d (1%nat, acc) {| bufio.unread := t +:+ tail; bufio.lastRune := l |} =
  array_loop d (2%nat, (acc ++ [v])%list)
    {| bufio.unread := skip_ws tail; bufio.lastRune := None |}.
Proof.
  intros [Hs Hv] Hd Ht. apply array_turn_value; [exact Hs|]. now apply Hv.
Qed.

Lemma array_close (d : nat) (state : nat) (rest : string) (acc : list Value)
  (l : option string) :
  state = 1%nat \/ state = 2%nat ->
  array_loop d (state, acc) {| bufio.unread := String "]" rest; bufio.lastRune := l |} =
  (Ok acc, {| bufio.unread := rest; bufio.lastRune := Some "]" |}).
Proof.
  intros H. rewrite (array_for _ (UnmarshalValue_consuming Digit d)) by exact I.
  unfold UnmarshalArray_body, bind, try.
  rewrite ReadRune_ascii by (vm_compute; reflexivity).
  destruct H as [-> | ->]; reflexivity.
Qed.

Lemma array_comma (d : nat) (X : string) (acc : list Value) (l : option string) :
  array_loop d (2%nat, acc) {| bufio.unread := String "," X; bufio.lastRune := l |} =
  array_loop d (1%nat, acc) {| bufio.unread := X; bufio.lastRune := None |}.
Proof.
  rewrite (array_for _ (UnmarshalValue_consuming Digit d)) by exact I.
  unfold UnmarshalArray_body at 1. unfold bind, try.
  rewrite ReadRune_ascii by (vm_compute; reflexivity).
  cbn [Nat.eqb]. change (b2z "," =? rn ",") with true. cbv beta iota.
  unfold ret at 1. cbv beta iota. apply array_lastRune.
Qed.

Lemma reads_elements_none : reads_elements Digit "" [].
Proof.
  intros d rest acc l _. simpl String.append. rewrite array_close by now left.
  now rewrite app_nil_r.
Qed.

Lemma reads_elements_last (t : string) (v : Value) (w : string) :
  reads Digit t v -> all_ws w = true -> reads_elements Digit (t +:+ w) [v].
Proof.
  intros Hv Hw d rest acc l Hd. rewrite length_append in Hd.
  rewrite !append_assoc.
  rewrite (array_turn d t v) by
    first [ assumption | lia
          | apply ws_terminator; [assumption | vm_compute; repeat split; discriminate] ].
  rewrite skip_ws_all_ws by exact Hw. simpl String.append.
  rewrite skip_ws_no_ws by reflexivity. now rewrite array_close by now right.
Qed.

Lemma reads_elements_more (t : string) (v : Value) (w w' items : string)
  (values : list Value) :
  reads Digit t v -> all_ws w = true -> all_ws w' = true ->
  reads_elements Digit items values ->
  reads_elements Digit (t +:+ w +:+ "," +:+ w' +:+ items) (v :: values).
Proof.
  intros Hv Hw Hw' IH d rest acc l Hd. rewrite !length_append in Hd.
  rewrite !append_assoc.
  rewrite (array_turn d t v) by
    first [ assumption | lia
          | apply ws_terminator; [assumption | vm_compute; repeat split; discriminate] ].
  rewrite skip_ws_all_ws by exact Hw. simpl String.append.
  rewrite skip_ws_no_ws by reflexivity.
  rewrite array_comma. rewrite array_ws by exact Hw'.
  pose proof (IH d rest (acc ++ [v])%list None ltac:(lia)) as E.
  simpl String.append in E. rewrite E. now rewrite <- app_assoc.
Qed.

Lemma reads_array (w items : string) (values : list Value) :
  all_ws w = true -> reads_elements Digit items values ->
  reads_any Digit ("[" +:+ w +:+ items +:+ "]") (Array values).
Proof.
  intros Hw He. split; [repeat split; vm_compute; try reflexivity; discriminate|].
  intros [|d] rest l Hd; [lia|]. simpl String.append in *.
  cbn [String.length] in Hd. rewrite !length_append in Hd. cbn [String.length] in Hd.
  rewrite (UnmarshalValue_start Digit d _ _ _
             (values <- UnmarshalArray (UnmarshalValue Digit d) ;; ret (Array values)));
    [| repeat split; vm_compute; try reflexivity; discriminate
     | rewrite dispatch_ascii; reflexivity ].
  unfold bind, UnmarshalArray.
  rewrite (array_for _ (UnmarshalValue_consuming Digit d)) by exact I.
  unfold UnmarshalArray_body at 1. unfold bind, try.
  rewrite ReadRune_ascii by (vm_compute; reflexivity). cbn [Nat.eqb].
  change (b2z "[" =? rn "[") with true. cbv beta iota. unfold ret at 1.
  cbv beta iota. rewrite !append_assoc.
  rewrite array_ws by exact Hw.
  rewrite (He d rest [] None) by lia. reflexivity.
Qed.

(** *** Objects *)

#[local] Notation "'object_loop' d" :=
  (for_ (UnmarshalObject_body (UnmarshalValue Digit d))) (at level 10, d at level 9, only parsing).

Lemma object_for (value : Parser Value) (H : consuming value)
  (s : nat * string * gmap string Value) (b : bufio.Reader) :
  always s b ->
  for_ (UnmarshalObject_body value) s b =
  (let (r, b') := UnmarshalObject_body value s b in
   match r with
   | Ok (Continue s') => for_ (UnmarshalObject_body value) s' b'
   | Ok (Break a) => (Ok a, b')
   | Err e => (Err e, b')
   | OutOfFuel => (OutOfFuel, b')
   end).
Proof.
  exact (for_unfold always (UnmarshalObject_body value)
           (UnmarshalObject_body_advances value H) s b).
Qed.

Lemma object_lastRune (d : nat) (st : nat * string * gmap string Value) (u : string)
  (l l' : option string) :
  object_loop d st {| bufio.unread := u; bufio.lastRune := l |} =
  object_loop d st {| bufio.unread := u; bufio.lastRune := l' |}.
Proof.
  rewrite !(object_for _ (UnmarshalValue_consuming Digit d)) by exact I.
  replace (UnmarshalObject_body (UnmarshalValue Digit d) st
             {| bufio.unread := u; bufio.lastRune := l |})
    with (UnmarshalObject_body (UnmarshalValue Digit d) st
            {| bufio.unread := u; bufio.lastRune := l' |}); [reflexivity|].
  destruct st as [[state key] object].
  unfold UnmarshalObject_body, bind, try, bufio.ReadRune. reflexivity.
Qed.

(** States 1, 2 and 5 skip whitespace. *)
Lemma object_ws (d : nat) (state : nat) (w X key : string) (object : gmap string Value)
  (l : option string) :
  state = 1%nat \/ state = 2%nat \/ state = 5%nat ->
  all_ws w = true ->
  object_loop d (state, key, object) {| bufio.unread := w +:+ X; bufio.lastRune := l |} =
  object_loop d (state, key, object) {| bufio.unread := X; bufio.lastRune := None |}.
Proof.
  intros Hst. revert l. induction w as [|c w IH]; intros l H; [apply object_lastRune|].
  cbn [all_ws] in H. apply andb_prop in H as [Hc Hw]. simpl String.append.
  rewrite (object_for _ (UnmarshalValue_consuming Digit d)) by exact I.
  unfold UnmarshalObject_body at 1. unfold bind, try.
  rewrite ReadRune_ascii by (apply isJsonWhitespace_ascii; exact Hc).
  unfold ws_byte in Hc.
  destruct Hst as [-> | [-> | ->]]; cbn [Nat.eqb orb andb]; rewrite Hc;
    unfold ret at 1; cbv beta iota; now apply IH.
Qed.

(** States 1 and 5 at a double quote: the key is decoded. *)
Lemma object_key (d : nat) (state : nat) (kt key X k0 : string)
  (object : gmap string Value) (l : option string) :
  state = 1%nat \/ state = 5%nat ->
  content kt key ->
  object_loop d (state, k0, object)
    {| bufio.unread := quoted kt +:+ X; bufio.lastRune := l |} =
  object_loop d (2%nat, key, object) {| bufio.unread := X; bufio.lastRune := None |}.
Proof.
  intros Hst Hk.
  rewrite (object_for _ (UnmarshalValue_consuming Digit d)) by exact I.
  unfold quoted, DQ. rewrite !append_assoc. simpl String.append.
  unfold UnmarshalObject_body at 1. unfold bind, try.
  rewrite ReadRune_ascii by (vm_compute; reflexivity).
  change (isJsonWhitespace (b2z dq)) with false.
  change (b2z dq =? rn "}") with false.
  destruct Hst as [-> | ->]; cbn [Nat.eqb orb andb]; cbv beta iota;
    unfold bufio.UnreadRune; cbn [bufio.lastRune bufio.unread]; simpl String.append;
    rewrite (UnmarshalString_content kt key X None Hk);
    unfold ret at 1; cbv beta iota; apply object_lastRune.
Qed.

Lemma object_colon (d : nat) (X key : string) (object : gmap string Value)
  (l : option string) :
  object_loop d (2%nat, key, object)
    {| bufio.unread := String ":" X; bufio.lastRune := l |} =
  object_loop d (3%nat, key, object) {| bufio.unread := X; bufio.lastRune := None |}.
Proof.
  rewrite (object_for _ (UnmarshalValue_consuming Digit d)) by exact I.
  unfold UnmarshalObject_body at 1. unfold bind, try.
  rewrite ReadRune_ascii by (vm_compute; reflexivity).
  cbn [Nat.eqb orb andb]. change (isJsonWhitespace (b2z ":")) with false.
  change (b2z ":" =? rn ":") with true. cbv beta iota.
  unfold ret at 1. cbv beta iota. apply object_lastRune.
Qed.

(** State 3 reads one rune, which is dropped, and then decodes the
    value. *)
Lemma object_value (d : nat) (c : ascii) (w t : string) (v : Value) (tail key : string)
  (object : gmap string Value) (l : option string) :
  b2z c < 0x80 -> all_ws w = true ->
  reads Digit t v -> (String.length t < d)%nat -> terminator tail ->
  object_loop d (3%nat, key, object)
    {| bufio.unread := String c (w +:+ t +:+ tail); bufio.lastRune := l |} =
  object_loop d (4%nat, key, <[key:=v]> object)
    {| bufio.unread := skip_ws tail; bufio.lastRune := None |}.
Proof.
  intros Ha Hw [Hs Hv] Hd Ht.
  rewrite (object_for _ (UnmarshalValue_consuming Digit d)) by exact I.
  unfold UnmarshalObject_body at 1. unfold bind, try.
  rewrite ReadRune_ascii by exact Ha. cbn [Nat.eqb orb andb].
  destruct d as [|d]; [lia|].
  rewrite (UnmarshalValue_leading Digit d w (t +:+ tail) _ None) by exact Hw.
  rewrite (Hv (S d) tail None Hd Ht). reflexivity.
Qed.

Lemma object_close (d : nat) (state : nat) (rest key : string)
  (object : gmap string Value) (l : option string) :
  state = 1%nat \/ state = 4%nat ->
  object_loop d (state, key, object)
    {| bufio.unread := String "}" rest; bufio.lastRune := l |} =
  (Ok object, {| bufio.unread := rest; bufio.lastRune := Some "}" |}).
Proof.
  intros H. rewrite (object_for _ (UnmarshalValue_consuming Digit d)) by exact I.
  unfold UnmarshalObject_body, bind, try.
  rewrite ReadRune_ascii by (vm_compute; reflexivity).
  destruct H as [-> | ->]; reflexivity.
Qed.

Lemma object_comma (d : nat) (X key : string) (object : gmap string Value)
  (l : option string) :
  object_loop d (4%nat, key, object)
    {| bufio.unread := String "," X; bufio.lastRune := l |} =
  object_loop d (5%nat, key, object) {| bufio.unread := X; bufio.lastRune := None |}.
Proof.
  rewrite (object_for _ (UnmarshalValue_consuming Digit d)) by exact I.
  unfold UnmarshalObject_body at 1. unfold bind, try.
  rewrite ReadRune_ascii by (vm_compute; reflexivity).
  cbn [Nat.eqb orb andb]. change (b2z "," =? rn "}") with false.
  change (b2z "," =? rn ",") with true. cbv beta iota.
  unfold ret at 1. cbv beta iota. apply object_lastRune.
Qed.

Lemma reads_member_of (kt key w1 : string) (c : ascii) (w2 t : string) (v : Value)
  (w3 : string) :
  content kt key -> all_ws w1 = true -> b2z c < 0x80 -> all_ws w2 = true ->
  reads Digit t v -> all_ws w3 = true ->
  reads_member Digit (quoted kt +:+ w1 +:+ ":" +:+ String c (w2 +:+ t +:+ w3)) key v.
Proof.
  intros Hk H1 Ha H2 Hv H3 d rest state k0 object l Hd Hst Hr.
  rewrite !length_append in Hd. cbn [String.length] in Hd.
  rewrite !length_append in Hd.
  rewrite !append_assoc.
  rewrite (object_key d state kt key) by assumption.
  rewrite object_ws by (auto; right; left; reflexivity).
  simpl String.append. rewrite object_colon.
  rewrite !append_assoc.
  rewrite (object_value d c w2 t v) by
    first [ assumption | lia | apply ws_terminator; assumption ].
  now rewrite skip_ws_all_ws by exact H3.
Qed.

Lemma reads_members_last (e key : string) (v : Value) (object : gmap string Value) :
  reads_member Digit e key v -> reads_members Digit e object (<[key:=v]> object).
Proof.
  intros He d rest state k0 l Hd Hst.
  rewrite (He d _ state k0 object l Hd Hst) by (vm_compute; repeat split; discriminate).
  simpl String.append. rewrite skip_ws_no_ws by reflexivity.
  now rewrite object_close by now right.
Qed.

Lemma reads_members_more (e key : string) (v : Value) (w entries : string)
  (object object' : gmap string Value) :
  reads_member Digit e key v -> all_ws w = true ->
  reads_members Digit entries (<[key:=v]> object) object' ->
  reads_members Digit (e +:+ "," +:+ w +:+ entries) object object'.
Proof.
  intros He Hw IH d rest state k0 l Hd Hst. rewrite !length_append in Hd.
  rewrite !append_assoc.
  rewrite (He d _ state k0 object l)
    by first [assumption | lia | vm_compute; repeat split; discriminate].
  simpl String.append. rewrite skip_ws_no_ws by reflexivity. rewrite object_comma.
  rewrite object_ws by (auto; right; right; reflexivity).
  apply IH; [lia | now right].
Qed.

Lemma object_open (d : nat) (X : string) (l : option string) :
  UnmarshalObject (UnmarshalValue Digit d)
    {| bufio.unread := String "{" X; bufio.lastRune := l |} =
  object_loop d (1%nat, "", ∅) {| bufio.unread := X; bufio.lastRune := None |}.
Proof.
  unfold UnmarshalObject.
  rewrite (object_for _ (UnmarshalValue_consuming Digit d)) by exact I.
  unfold UnmarshalObject_body at 1. unfold bind, try.
  rewrite ReadRune_ascii by (vm_compute; reflexivity). cbn [Nat.eqb].
  change (b2z "{" =? rn "{") with true. cbv beta iota. unfold ret at 1.
  cbv beta iota. apply object_lastRune.
Qed.

Lemma reads_empty_object (w : string) :
  all_ws w = true -> reads_any Digit ("{" +:+ w +:+ "}") (Object ∅).
Proof.
  intros Hw. split; [repeat split; vm_compute; try reflexivity; discriminate|].
  intros [|d] rest l Hd; [lia|]. simpl String.append in *.
  rewrite (UnmarshalValue_start Digit d _ _ _
             (object <- UnmarshalObject (UnmarshalValue Digit d) ;; ret (Object object)));
    [| repeat split; vm_compute; try reflexivity; discriminate
     | rewrite dispatch_ascii; reflexivity ].
  unfold bind. rewrite object_open. rewrite !append_assoc.
  rewrite object_ws by (auto; left; reflexivity).
  simpl String.append. rewrite object_close by now left. reflexivity.
Qed.

Lemma reads_object (w entries : string) (object : gmap string Value) :
  all_ws w = true -> reads_members Digit entries ∅ object ->
  reads_any Digit ("{" +:+ w +:+ entries +:+ "}") (Object object).
Proof.
  intros Hw He. split; [repeat split; vm_compute; try reflexivity; discriminate|].
  intros [|d] rest l Hd; [lia|]. simpl String.append in *.
  cbn [String.length] in Hd. rewrite !length_append in Hd. cbn [String.length] in Hd.
  rewrite (UnmarshalValue_start Digit d _ _ _
             (object <- UnmarshalObject (UnmarshalValue Digit d) ;; ret (Object object)));
    [| repeat split; vm_compute; try reflexivity; discriminate
     | rewrite dispatch_ascii; reflexivity ].
  unfold bind. rewrite object_open. rewrite !append_assoc.
  rewrite object_ws by (auto; left; reflexivity).
  rewrite (He d rest 1%nat "" None) by first [lia | now left]. reflexivity.
Qed.

(** *** The grammar *)

Lemma json_reads_all :
  (forall t v, json t v -> reads Digit t v) /\
  (forall items values, elements items values -> reads_elements Digit items values) /\
  (forall e key v, member e key v -> reads_member Digit e key v) /\
  (forall entries object object',
     members entries object object' -> reads_members Digit entries object object').
Proof.
  apply json_mutind.
  - apply reads_any_reads, reads_null.
  - apply reads_any_reads, reads_true.
  - apply reads_any_reads, reads_false.
  - apply reads_integer.
  - intros t out H. now apply reads_any_reads, reads_string.
  - intros w items values Hw _ IH. now apply reads_any_reads, reads_array.
  - intros w Hw. now apply reads_any_reads, reads_empty_object.
  - intros w entries object Hw _ IH. now apply reads_any_reads, reads_object.
  - apply reads_elements_none.
  - intros t v w _ IH Hw. now apply reads_elements_last.
  - intros t v w w' items values _ IHv Hw Hw' _ IH. now apply reads_elements_more.
  - intros kt key w1 c w2 t v w3 Hk H1 Ha H2 _ IH H3. now apply reads_member_of.
  - intros e key v object _ IH. now apply (reads_members_last e key v).
  - intros e key v w entries object object' _ IHe Hw _ IH.
    now apply (reads_members_more e key v).
Qed.

Lemma json_reads (t : string) (v : Value) : json t v -> reads Digit t v.
Proof. apply json_reads_all. Qed.

(** A text of the grammar is the text of an integer, or it is read
    whatever follows it. *)
Lemma json_reads_any (t : string) (v : Value) :
  json t v -> int_text t \/ reads_any Digit t v.
Proof.
  intros [ | | | t0 Ht _ | t0 out Hc | w items values Hw He | w Hw
         | w entries object Hw Hm ].
  - right. apply reads_null.
  - right. apply reads_true.
  - right. apply reads_false.
  - now left.
  - right. now apply reads_string.
  - right. apply reads_array; [exact Hw|]. now apply json_reads_all.
  - right. now apply reads_empty_object.
  - right. apply reads_object; [exact Hw|]. now apply json_reads_all.
Qed.

End Grammar.

(** ** Where the decoder stops *)

Section Stops.

Variable Digit : unicode.RangeTable.

#[local] Notation "'array_loop' d" :=
  (for_ (UnmarshalArray_body (UnmarshalValue Digit d))) (at level 10, d at level 9, only parsing).
#[local] Notation "'object_loop' d" :=
  (for_ (UnmarshalObject_body (UnmarshalValue Digit d))) (at level 10, d at level 9, only parsing).

(** The decoder over a stream on a text of the grammar, with whitespace
    before it: what follows the value and its whitespace is left unread. *)
Lemma decode_reader_json_stream (t : string) (v : Value) (w rest : string) :
  json t v -> all_ws w = true -> terminator rest ->
  decode_reader Digit (w +:+ t +:+ rest) =
  (Ok v, {| bufio.unread := skip_ws rest; bufio.lastRune := None |}).
Proof.
  intros Hj Hw Hr. destruct (json_reads Digit t v Hj) as [_ Hv].
  unfold decode_reader, bufio.NewReader.
  rewrite (UnmarshalValue_leading Digit _ w (t +:+ rest) None None) by exact Hw.
  apply Hv; [|exact Hr]. rewrite !length_append. lia.
Qed.

(** The decoder on a text whose first byte selects a production that
    fails. *)
Lemma decode_production_error (w : string) (c : ascii) (s : string)
  (production : nat -> Parser Value) (e : error) :
  all_ws w = true -> starter (String c s) ->
  (forall d, dispatch Digit (UnmarshalValue Digit d) (b2z c) = Some (production d)) ->
  (forall d, (String.length s < d)%nat ->
     fst (production d {| bufio.unread := String c s; bufio.lastRune := None |}) = Err e) ->
  decode Digit (w +:+ String c s) = Err e.
Proof.
  intros Hw Hs Hd He. unfold decode, decode_reader, bufio.NewReader.
  rewrite (UnmarshalValue_leading Digit _ w (String c s) None None) by exact Hw.
  rewrite (UnmarshalValue_start Digit _ c s None _ Hs (Hd _)).
  specialize (He (String.length (w +:+ String c s))).
  destruct (production _ _) as [res b]. cbn [fst] in *. apply He.
  rewrite length_append. cbn [String.length]. lia.
Qed.

Lemma decode_array_error (w X : string) (e : error) :
  all_ws w = true ->
  (forall d, (String.length X < d)%nat ->
     fst (array_loop d (1%nat, []) {| bufio.unread := X; bufio.lastRune := None |}) = Err e) ->
  decode Digit (w +:+ String "[" X) = Err e.
Proof.
  intros Hw He.
  apply (decode_production_error w "[" X
           (fun d => values <- UnmarshalArray (UnmarshalValue Digit d) ;; ret (Array values)));
    [ exact Hw | repeat split; vm_compute; try reflexivity; discriminate
    | intros d; rewrite dispatch_ascii; reflexivity | ].
  intros d Hd. specialize (He d Hd). unfold bind, UnmarshalArray.
  rewrite (array_for _ (UnmarshalValue_consuming Digit d)) by exact I.
  unfold UnmarshalArray_body at 1. unfold bind, try.
  rewrite ReadRune_ascii by (vm_compute; reflexivity). cbn [Nat.eqb].
  change (b2z "[" =? rn "[") with true. cbv beta iota. unfold ret at 1. cbv beta iota.
  rewrite (array_lastRune Digit d _ X _ None).
  destruct (for_ _ _ _) as [res b]. cbn [fst] in *. now subst res.
Qed.

Lemma decode_object_error (w X : string) (e : error) :
  all_ws w = true ->
  (forall d, (String.length X < d)%nat ->
     fst (object_loop d (1%nat, "", ∅) {| bufio.unread := X; bufio.lastRune := None |})
     = Err e) ->
  decode Digit (w +:+ String "{" X) = Err e.
Proof.
  intros Hw He.
  apply (decode_production_error w "{" X
           (fun d => object <- UnmarshalObject (UnmarshalValue Digit d) ;; ret (Object object)));
    [ exact Hw | repeat split; vm_compute; try reflexivity; discriminate
    | intros d; rewrite dispatch_ascii; reflexivity | ].
  intros d Hd. specialize (He d Hd). unfold bind. rewrite object_open.
  destruct (for_ _ _ _) as [res b]. cbn [fst] in *. now subst res.
Qed.

(** *** Arrays *)

Lemma all_ws_terminator (w : string) : all_ws w = true -> terminator w.
Proof.
  intros H. rewrite <- (append_nil_r w). now apply ws_terminator.
Qed.

Lemma array_eof (d state : nat) (acc : list Value) (l : option string) :
  fst (array_loop d (state, acc) {| bufio.unread := ""; bufio.lastRune := l |}) =
  Err (errReadRune EOF).
Proof.
  rewrite (array_for _ (UnmarshalValue_consuming Digit d)) by exact I. reflexivity.
Qed.

Lemma array_separator_error (d : nat) (c : ascii) (rest : string) (acc : list Value)
  (l : option string) :
  b2z c < 0x80 -> b2z c <> rn "," -> b2z c <> rn "]" ->
  fst (array_loop d (2%nat, acc) {| bufio.unread := String c rest; bufio.lastRune := l |}) =
  Err (Errorf "failed to Unmarshal array: no , or ]" []).
Proof.
  intros Ha H1 H2.
  rewrite (array_for _ (UnmarshalValue_consuming Digit d)) by exact I.
  unfold UnmarshalArray_body, bind, try. rewrite ReadRune_ascii by exact Ha.
  apply Z.eqb_neq in H1, H2. cbn [Nat.eqb]. rewrite H1, H2. reflexivity.
Qed.

(** The elements of an array, and then the end of the text. *)
Lemma elements_eof (items : string) (values : list Value) :
  elements items values ->
  forall d acc l, (String.length items < d)%nat ->
    fst (array_loop d (1%nat, acc) {| bufio.unread := items; bufio.lastRune := l |}) =
    Err (errReadRune EOF).
Proof.
  induction 1 as [| t v w Hj Hw | t v w w' items values Hj Hw Hw' He IH ];
    intros d acc l Hd.
  - apply array_eof.
  - rewrite length_append in Hd.
    rewrite (array_turn Digit d t v w) by
      first [ now apply json_reads | lia | now apply all_ws_terminator ].
    rewrite skip_ws_all by exact Hw. apply array_eof.
  - rewrite !length_append in Hd.
    rewrite (array_turn Digit d t v) by
      first [ now apply json_reads | lia
            | apply ws_terminator; [assumption | vm_compute; repeat split; discriminate] ].
    rewrite skip_ws_all_ws by exact Hw. simpl String.append.
    rewrite skip_ws_no_ws by reflexivity.
    rewrite array_comma. rewrite array_ws by exact Hw'. apply IH. lia.
Qed.

(** *** Objects *)

Lemma object_eof (d state : nat) (key : string) (object : gmap string Value)
  (l : option string) :
  fst (object_loop d (state, key, object) {| bufio.unread := ""; bufio.lastRune := l |}) =
  Err (errReadRune EOF).
Proof.
  rewrite (object_for _ (UnmarshalValue_consuming Digit d)) by exact I. reflexivity.
Qed.

(** States 1 and 5 at a byte that does not open a string. *)
Lemma object_key_error (d state : nat) (c : ascii) (rest k0 : string)
  (object : gmap string Value) (l : option string) :
  state = 1%nat /\ b2z c <> rn "}" \/ state = 5%nat ->
  b2z c < 0x80 -> ws_byte c = false -> b2z c <> rn dq ->
  fst (object_loop d (state, k0, object)
         {| bufio.unread := String c rest; bufio.lastRune := l |}) =
  Err (Errorf "failed to Unmarshal object key: %w"
         [ArgErr (Errorf "cannot match string, no opening double quote found: %c"
                    [ArgRune (b2z c)])]).
Proof.
  intros Hst Ha Hw Hq.
  rewrite (object_for _ (UnmarshalValue_consuming Digit d)) by exact I.
  unfold UnmarshalObject_body, bind, try. rewrite ReadRune_ascii by exact Ha.
  unfold ws_byte in Hw. rewrite Hw. apply Z.eqb_neq in Hq.
  destruct Hst as [[-> Hb] | ->]; cbn [Nat.eqb orb andb]; cbv beta iota;
    [apply Z.eqb_neq in Hb; rewrite Hb|];
    unfold bufio.UnreadRune; cbn [bufio.lastRune bufio.unread]; simpl String.append;
    unfold UnmarshalString, bind, try; rewrite ReadRune_ascii by exact Ha;
    rewrite Hq; reflexivity.
Qed.

(** State 2 at a byte that is neither whitespace nor a colon. *)
Lemma object_colon_error (d : nat) (c : ascii) (rest key : string)
  (object : gmap string Value) (l : option string) :
  b2z c < 0x80 -> ws_byte c = false -> b2z c <> rn ":" ->
  fst (object_loop d (2%nat, key, object)
         {| bufio.unread := String c rest; bufio.lastRune := l |}) =
  Err (Errorf "failed to find matching value for object key: %s" [ArgStr key]).
Proof.
  intros Ha Hw Hc.
  rewrite (object_for _ (UnmarshalValue_consuming Digit d)) by exact I.
  unfold UnmarshalObject_body, bind, try. rewrite ReadRune_ascii by exact Ha.
  unfold ws_byte in Hw. apply Z.eqb_neq in Hc. cbn [Nat.eqb orb andb].
  rewrite Hw, Hc. reflexivity.
Qed.

(** State 3 drops a rune; when what follows starts no value, the error
    names the key and drops the error of the value. *)
Lemma object_value_error (d : nat) (c : ascii) (w : string) (x : ascii)
  (rest key : string) (object : gmap string Value) (l : option string) :
  (0 < d)%nat -> b2z c < 0x80 -> all_ws w = true ->
  b2z x < 0x80 -> ws_byte x = false -> first_rune Digit (b2z x) = false ->
  fst (object_loop d (3%nat, key, object)
         {| bufio.unread := String c (w +:+ String x rest); bufio.lastRune := l |}) =
  Err (Errorf "failed to Unmarshal value for object key: %s" [ArgStr key]).
Proof.
  intros Hd Ha Hw Hx Hxw Hf.
  rewrite (object_for _ (UnmarshalValue_consuming Digit d)) by exact I.
  unfold UnmarshalObject_body, bind, try. rewrite ReadRune_ascii by exact Ha.
  cbn [Nat.eqb orb andb]. destruct d as [|d]; [lia|].
  rewrite (UnmarshalValue_leading Digit d w (String x rest) _ None) by exact Hw.
  cbn [UnmarshalValue]. rewrite UnmarshalValue_body_eq. cbv zeta. cbn [bufio.unread].
  rewrite skip_ws_no_ws by exact Hxw.
  rewrite DecodeRune_ascii by exact Hx. cbn [fst].
  rewrite dispatch_first_rune by exact Hf. reflexivity.
Qed.

(** The members of an object up to what follows the last of them. *)
Lemma members_prefix (entries : string) (object object' : gmap string Value) :
  members entries object object' ->
  forall d rest state k0 l, (String.length entries < d)%nat ->
    state = 1%nat \/ state = 5%nat -> terminator rest ->
    exists key,
      object_loop d (state, k0, object)
        {| bufio.unread := entries +:+ rest; bufio.lastRune := l |} =
      object_loop d (4%nat, key, object')
        {| bufio.unread := skip_ws rest; bufio.lastRune := None |}.
Proof.
  induction 1 as [ e key v object Hm | e key v w entries object object' Hm Hw Hms IH ];
    intros d rest state k0 l Hd Hst Hr.
  - exists key. now apply (proj1 (proj2 (proj2 (json_reads_all Digit)))).
  - rewrite !length_append in Hd. rewrite !append_assoc.
    rewrite (proj1 (proj2 (proj2 (json_reads_all Digit))) e key v Hm d _ state k0 object l)
      by first [assumption | lia | vm_compute; repeat split; discriminate].
    simpl String.append. rewrite skip_ws_no_ws by reflexivity. rewrite object_comma.
    rewrite object_ws by (auto; right; right; reflexivity).
    apply IH; [lia | now right | exact Hr].
Qed.

(** *** Literals *)

Lemma literal_name_cases (c : ascii) (name : string) :
  literal_name c = Some name ->
  (c = "t"%char /\ name = "true") \/ (c = "f"%char /\ name = "false")
  \/ (c = "n"%char /\ name = "null").
Proof.
  unfold literal_name.
  repeat match goal with
         | |- context [if b2z c =? ?y then _ else _] =>
           destruct (Z.eqb_spec (b2z c) y) as [E|_];
             [apply b2z_inj in E; subst c; intros [= <-]; tauto|]
         end.
  discriminate.
Qed.

Lemma literal_production (c : ascii) (s : string) (production : Parser Value) :
  (forall d, dispatch Digit (UnmarshalValue Digit d) (b2z c) = Some production) ->
  starter (String c s) ->
  decode Digit (String c s) =
  fst (production {| bufio.unread := String c s; bufio.lastRune := None |}).
Proof.
  intros Hd Hs. unfold decode, decode_reader, bufio.NewReader.
  rewrite (UnmarshalValue_start Digit _ c s None production Hs (Hd _)).
  now destruct (production _) as [res b].
Qed.

(** A text that starts with [t], [f] or [n] and has the length of the
    literal, but not the literal at its start. *)
Lemma literal_mismatch (c : ascii) (s name : string) :
  literal_name c = Some name ->
  (String.length name <= String.length (String c s))%nat ->
  take (String.length name) (String c s) <> name ->
  decode Digit (String c s) =
  Err (Errorf ("could not Unmarshal " +:+ name +:+ ", found: %s")
         [ArgStr (take (String.length name) (String c s))]).
Proof.
  intros Hn Hlen Hne. apply literal_name_cases in Hn.
  assert (L : String.length (take (String.length name) (String c s)) = String.length name)
    by (rewrite length_take; lia).
  apply String.eqb_neq in Hne.
  destruct Hn as [[-> ->] | [[-> ->] | [-> ->]]].
  - rewrite (literal_production _ _ UnmarshalTrue);
      [| intros d; rewrite dispatch_ascii; reflexivity
       | repeat split; vm_compute; try reflexivity; discriminate ].
    unfold UnmarshalTrue, bufio.Read. cbn [bufio.unread String.length] in *.
    cbv zeta. rewrite L. unfold TRUE_STRING. rewrite Hne. reflexivity.
  - rewrite (literal_production _ _ UnmarshalFalse);
      [| intros d; rewrite dispatch_ascii; reflexivity
       | repeat split; vm_compute; try reflexivity; discriminate ].
    unfold UnmarshalFalse, bufio.Read. cbn [bufio.unread String.length] in *.
    cbv zeta. rewrite L. unfold FALSE_STRING. rewrite Hne. reflexivity.
  - rewrite (literal_production _ _ UnmarshalNull);
      [| intros d; rewrite dispatch_ascii; reflexivity
       | repeat split; vm_compute; try reflexivity; discriminate ].
    unfold UnmarshalNull, bufio.Read. cbn [bufio.unread String.length] in *.
    cbv zeta. rewrite L. unfold NULL_STRING. rewrite Hne. reflexivity.
Qed.

(** A text that starts with [t], [f] or [n] and is shorter than the
    literal. *)
Lemma literal_short (c : ascii) (s name : string) :
  literal_name c = Some name ->
  (String.length (String c s) < String.length name)%nat ->
  decode Digit (String c s) =
  Err (Errorf ("failed to read all " +:+ strconv.FormatInt (Z.of_nat (String.length name))
               +:+ " chars while parsing " +:+ name +:+ ", could only read %d chars")
         [ArgInt (Z.of_nat (String.length (String c s)))]).
Proof.
  intros Hn Hlen. apply literal_name_cases in Hn.
  destruct Hn as [[-> ->] | [[-> ->] | [-> ->]]].
  - rewrite (literal_production _ _ UnmarshalTrue);
      [| intros d; rewrite dispatch_ascii; reflexivity
       | repeat split; vm_compute; try reflexivity; discriminate ].
    unfold UnmarshalTrue, bufio.Read. cbn [bufio.unread]. cbv zeta.
    cbn [String.length] in Hlen. rewrite take_beyond by (cbn [String.length]; lia).
    replace (String.length (String "t" s) =? 4)%nat with false
      by (symmetry; apply Nat.eqb_neq; cbn [String.length]; lia).
    reflexivity.
  - rewrite (literal_production _ _ UnmarshalFalse);
      [| intros d; rewrite dispatch_ascii; reflexivity
       | repeat split; vm_compute; try reflexivity; discriminate ].
    unfold UnmarshalFalse, bufio.Read. cbn [bufio.unread]. cbv zeta.
    cbn [String.length] in Hlen. rewrite take_beyond by (cbn [String.length]; lia).
    replace (String.length (String "f" s) =? 5)%nat with false
      by (symmetry; apply Nat.eqb_neq; cbn [String.length]; lia).
    reflexivity.
  - rewrite (literal_production _ _ UnmarshalNull);
      [| intros d; rewrite dispatch_ascii; reflexivity
       | repeat split; vm_compute; try reflexivity; discriminate ].
    unfold UnmarshalNull, bufio.Read. cbn [bufio.unread]. cbv zeta.
    cbn [String.length] in Hlen. rewrite take_beyond by (cbn [String.length]; lia).
    replace (String.length (String "n" s) =? 4)%nat with false
      by (symmetry; apply Nat.eqb_neq; cbn [String.length]; lia).
    reflexivity.
Qed.

End Stops.

End StreamContainers.

Import StreamContainers.

(** ** Arrays, objects and literals *)

Section Shapes.

Variable Digit : unicode.RangeTable.

(** A text that fits into the buffer is decoded as the stream of its
    bytes, and the same bytes are left unread. *)
Lemma decode_reader_held (text : string) :
  (String.length text <= bufio.defaultBufSize)%nat ->
  fst (decode_reader Digit text) = fst (Stream.decode_reader Digit text) /\
  bufio.unread (snd (decode_reader Digit text)) =
  Stream.bufio.unread (snd (Stream.decode_reader Digit text)).
Proof.
  intros H. unfold decode_reader, Stream.decode_reader.
  destruct (UnmarshalValue Digit (S (String.length text)) (bufio.NewReader text))
    as [r b'] eqn:E.
  destruct (UnmarshalValue_follows Digit _ _ _ _ (held_NewReader text H) E)
    as (sb' & Es & Ha & _).
  change (stream_of (bufio.NewReader text)) with (Stream.bufio.NewReader text) in Es.
  rewrite Es. cbn [fst snd]. split; [reflexivity|].
  destruct r; cbn [agree] in Ha; subst; reflexivity || (symmetry; exact Ha).
Qed.

(** A text of the grammar that the buffer holds. *)
Lemma decode_reader_json_held (t : string) (v : Value) (w rest : string) :
  json t v -> all_ws w = true -> terminator rest ->
  (String.length (w +:+ t +:+ rest) <= bufio.defaultBufSize)%nat ->
  fst (decode_reader Digit (w +:+ t +:+ rest)) = Ok v /\
  bufio.unread (snd (decode_reader Digit (w +:+ t +:+ rest))) = skip_ws rest.
Proof.
  intros Hj Hw Hr Hfit. destruct (decode_reader_held _ Hfit) as [-> ->].
  now rewrite (decode_reader_json_stream Digit t v w rest Hj Hw Hr).
Qed.

(** X12: a text of the grammar, with whitespace before it and anything
    that ends a number after it, is decoded to the value of the grammar
    when the buffer holds the text; the value's whitespace is read, and
    what follows it is left unread. *)
Theorem decode_json (t : string) (v : Value) (w rest : string) :
  json t v -> all_ws w = true -> terminator rest ->
  (String.length (w +:+ t +:+ rest) <= bufio.defaultBufSize)%nat ->
  fst (decode_reader Digit (w +:+ t +:+ rest)) = Ok v /\
  bufio.unread (snd (decode_reader Digit (w +:+ t +:+ rest))) = skip_ws rest.
Proof. exact (decode_reader_json_held t v w rest). Qed.

(** X13: in an array, a first element that is followed, after optional
    whitespace, by an ASCII character other than a comma and the closing
    bracket is an error; when the element is an integer and no whitespace
    follows it, the character is in addition none of those that go on with
    the number, a digit, a point, [e] and [E]. *)
Theorem decode_array_separator (t : string) (v : Value) (w w' : string) (c : ascii)
  (rest : string) :
  json t v -> all_ws w = true -> all_ws w' = true ->
  b2z c < 0x80 -> ws_byte c = false ->
  b2z c <> rn "," -> b2z c <> rn "]" ->
  (int_text t -> w' = "" -> terminator (String c rest)) ->
  (String.length ("[" +:+ w +:+ t +:+ w' +:+ String c rest) <= bufio.defaultBufSize)%nat ->
  decode Digit ("[" +:+ w +:+ t +:+ w' +:+ String c rest) =
  Err (Errorf "failed to Unmarshal array: no , or ]" []).
Proof.
  intros Hj Hw Hw' Ha Hc H1 H2 Ht Hfit. rewrite decode_held by exact Hfit.
  apply (decode_array_error Digit "" _ _ eq_refl). intros d Hd.
  rewrite !length_append in Hd.
  rewrite array_ws by exact Hw.
  assert (Turn : Stream.UnmarshalValue Digit d
                   {| Stream.bufio.unread := t +:+ w' +:+ String c rest;
                      Stream.bufio.lastRune := None |}
                 = (Ok v, {| Stream.bufio.unread := skip_ws (w' +:+ String c rest);
                             Stream.bufio.lastRune := None |})).
  { destruct (json_reads_any Digit t v Hj) as [Hi | [_ Hv]]; [|apply Hv; lia].
    apply (json_reads Digit t v Hj); [lia|].
    destruct w' as [|c' w'']; [now apply Ht|].
    cbn [all_ws] in Hw'. apply andb_prop in Hw' as [Hc' _].
    simpl String.append. now apply ws_byte_terminator. }
  rewrite (array_turn_value Digit d t v _ _ _ (proj1 (json_reads Digit t v Hj)) Turn).
  rewrite skip_ws_all_ws by exact Hw'. rewrite skip_ws_no_ws by exact Hc.
  now apply array_separator_error.
Qed.

(** X14: an array that the text does not close is an error of the read at
    the end of the text. *)
Theorem decode_array_unterminated (w items : string) (values : list Value) :
  all_ws w = true -> elements items values ->
  (String.length ("[" +:+ w +:+ items) <= bufio.defaultBufSize)%nat ->
  decode Digit ("[" +:+ w +:+ items) = Err (Errorf "failed to read rune: %w" [ArgErr EOF]).
Proof.
  intros Hw He Hfit. rewrite decode_held by exact Hfit.
  apply (decode_array_error Digit "" _ _ eq_refl). intros d Hd.
  rewrite length_append in Hd.
  rewrite array_ws by exact Hw. apply (elements_eof Digit items values He). lia.
Qed.

(** X15: an object that the text does not close after a member is an error
    of the read at the end of the text. *)
Theorem decode_object_unterminated (w entries : string) (object : gmap string Value) :
  all_ws w = true -> members entries ∅ object ->
  (String.length ("{" +:+ w +:+ entries) <= bufio.defaultBufSize)%nat ->
  decode Digit ("{" +:+ w +:+ entries) = Err (Errorf "failed to read rune: %w" [ArgErr EOF]).
Proof.
  intros Hw Hm Hfit. rewrite decode_held by exact Hfit.
  apply (decode_object_error Digit "" _ _ eq_refl). intros d Hd.
  rewrite length_append in Hd.
  rewrite object_ws by (auto; left; reflexivity).
  rewrite <- (append_nil_r entries).
  destruct (members_prefix Digit entries ∅ object Hm d "" 1%nat "" None) as (key & ->);
    [lia | now left | exact I |].
  apply object_eof.
Qed.

(** X16: in an object, a character other than a double quote where a key
    is expected is an error. *)
Theorem decode_object_key (w : string) (c : ascii) (rest : string) :
  all_ws w = true ->
  b2z c < 0x80 -> ws_byte c = false -> b2z c <> rn dq -> b2z c <> rn "}" ->
  (String.length ("{" +:+ w +:+ String c rest) <= bufio.defaultBufSize)%nat ->
  decode Digit ("{" +:+ w +:+ String c rest) =
  Err (Errorf "failed to Unmarshal object key: %w"
         [ArgErr (Errorf "cannot match string, no opening double quote found: %c"
                    [ArgRune (b2z c)])]).
Proof.
  intros Hw Ha Hc Hq Hb Hfit. rewrite decode_held by exact Hfit.
  apply (decode_object_error Digit "" _ _ eq_refl). intros d Hd.
  rewrite object_ws by (auto; left; reflexivity).
  apply object_key_error; auto.
Qed.

(** X17: in an object, a comma that is followed by a character other than
    a double quote is an error, the closing brace included. *)
Theorem decode_object_comma (w entries : string) (object : gmap string Value)
  (w' : string) (c : ascii) (rest : string) :
  all_ws w = true -> members entries ∅ object -> all_ws w' = true ->
  b2z c < 0x80 -> ws_byte c = false -> b2z c <> rn dq ->
  (String.length ("{" +:+ w +:+ entries +:+ "," +:+ w' +:+ String c rest)
   <= bufio.defaultBufSize)%nat ->
  decode Digit ("{" +:+ w +:+ entries +:+ "," +:+ w' +:+ String c rest) =
  Err (Errorf "failed to Unmarshal object key: %w"
         [ArgErr (Errorf "cannot match string, no opening double quote found: %c"
                    [ArgRune (b2z c)])]).
Proof.
  intros Hw Hm Hw' Ha Hc Hq Hfit. rewrite decode_held by exact Hfit.
  apply (decode_object_error Digit "" _ _ eq_refl). intros d Hd.
  rewrite !length_append in Hd.
  rewrite object_ws by (auto; left; reflexivity).
  destruct (members_prefix Digit entries ∅ object Hm d
              ("," +:+ w' +:+ String c rest) 1%nat "" None) as (key & ->);
    [lia | now left | vm_compute; repeat split; discriminate |].
  simpl String.append. rewrite skip_ws_no_ws by reflexivity.
  rewrite object_comma. rewrite object_ws by (auto; right; right; reflexivity).
  apply object_key_error; auto.
Qed.

(** X18: in an object, a key that is followed by a character other than
    a colon is an error that shows the key. *)
Theorem decode_object_colon (w kt key w1 : string) (c : ascii) (rest : string) :
  all_ws w = true -> content kt key -> all_ws w1 = true ->
  b2z c < 0x80 -> ws_byte c = false -> b2z c <> rn ":" ->
  (String.length ("{" +:+ w +:+ quoted kt +:+ w1 +:+ String c rest)
   <= bufio.defaultBufSize)%nat ->
  decode Digit ("{" +:+ w +:+ quoted kt +:+ w1 +:+ String c rest) =
  Err (Errorf "failed to find matching value for object key: %s" [ArgStr key]).
Proof.
  intros Hw Hk Hw1 Ha Hc Hn Hfit. rewrite decode_held by exact Hfit.
  apply (decode_object_error Digit "" _ _ eq_refl). intros d Hd.
  rewrite object_ws by (auto; left; reflexivity).
  rewrite (object_key Digit d 1 kt key) by (auto; now left).
  rewrite object_ws by (auto; right; left; reflexivity).
  now apply object_colon_error.
Qed.

(** The member of an object whose value does not start after the
    character that follows the colon. *)
Lemma object_value_held (w kt key w1 : string) (c : ascii) (w2 : string) (x : ascii)
  (rest : string) :
  all_ws w = true -> content kt key -> all_ws w1 = true ->
  b2z c < 0x80 -> all_ws w2 = true ->
  b2z x < 0x80 -> ws_byte x = false -> first_rune Digit (b2z x) = false ->
  (String.length ("{" +:+ w +:+ quoted kt +:+ w1 +:+ ":" +:+ String c (w2 +:+ String x rest))
   <= bufio.defaultBufSize)%nat ->
  decode Digit ("{" +:+ w +:+ quoted kt +:+ w1 +:+ ":" +:+ String c (w2 +:+ String x rest)) =
  Err (Errorf "failed to Unmarshal value for object key: %s" [ArgStr key]).
Proof.
  intros Hw Hk Hw1 Ha Hw2 Hx Hxw Hf Hfit. rewrite decode_held by exact Hfit.
  apply (decode_object_error Digit "" _ _ eq_refl). intros d Hd.
  rewrite object_ws by (auto; left; reflexivity).
  rewrite (object_key Digit d 1 kt key) by (auto; now left).
  rewrite object_ws by (auto; right; left; reflexivity).
  simpl String.append. rewrite object_colon.
  apply object_value_error; auto. lia.
Qed.

(** X19: in an object, the character after the colon is read and dropped;
    when what follows it starts no value, the error shows the key and not
    the error of the value. *)
Theorem decode_object_value (w kt key w1 : string) (c : ascii) (w2 : string) (x : ascii)
  (rest : string) :
  all_ws w = true -> content kt key -> all_ws w1 = true ->
  b2z c < 0x80 -> all_ws w2 = true ->
  b2z x < 0x80 -> ws_byte x = false -> first_rune Digit (b2z x) = false ->
  (String.length ("{" +:+ w +:+ quoted kt +:+ w1 +:+ ":" +:+ String c (w2 +:+ String x rest))
   <= bufio.defaultBufSize)%nat ->
  decode Digit ("{" +:+ w +:+ quoted kt +:+ w1 +:+ ":" +:+ String c (w2 +:+ String x rest)) =
  Err (Errorf "failed to Unmarshal value for object key: %s" [ArgStr key]).
Proof. exact (object_value_held w kt key w1 c w2 x rest). Qed.

(** X20: a text that starts with [t], [f] or [n] and goes on with other
    characters than those of [true], [false] or [null] is an error that
    shows the characters read. *)
Theorem decode_literal_mismatch (c : ascii) (s name : string) :
  literal_name c = Some name ->
  (String.length name <= String.length (String c s))%nat ->
  take (String.length name) (String c s) <> name ->
  (String.length (String c s) <= bufio.defaultBufSize)%nat ->
  decode Digit (String c s) =
  Err (Errorf ("could not Unmarshal " +:+ name +:+ ", found: %s")
         [ArgStr (take (String.length name) (String c s))]).
Proof.
  intros Hn Hlen Hne Hfit. rewrite decode_held by exact Hfit.
  now apply literal_mismatch.
Qed.

(** X21: a text that starts with [t], [f] or [n] and ends before the
    length of [true], [false] or [null] is an error that shows its
    length. *)
Theorem decode_literal_short (c : ascii) (s name : string) :
  literal_name c = Some name ->
  (String.length (String c s) < String.length name)%nat ->
  decode Digit (String c s) =
  Err (Errorf ("failed to read all " +:+ strconv.FormatInt (Z.of_nat (String.length name))
               +:+ " chars while parsing " +:+ name +:+ ", could only read %d chars")
         [ArgInt (Z.of_nat (String.length (String c s)))]).
Proof.
  intros Hn Hlen.
  assert (L : (String.length name <= 5)%nat).
  { apply literal_name_cases in Hn.
    destruct Hn as [[_ ->] | [[_ ->] | [_ ->]]]; simpl; lia. }
  rewrite decode_held by (unfold bufio.defaultBufSize; lia).
  now apply literal_short.
Qed.

End Shapes.

(** The sample of the grammar. *)

Lemma content_a : content "a" "a".
Proof.
  exact (content_rune "a" "" 97 1 "" eq_refl ltac:(discriminate) ltac:(discriminate)
           content_end).
Defined.

Lemma content_b : content "b" "b".
Proof.
  exact (content_rune "b" "" 98 1 "" eq_refl ltac:(discriminate) ltac:(discriminate)
           content_end).
Defined.

Lemma json_1 : json "1" (Integer 1).
Proof.
  apply (json_integer "1").
  - apply int_pos; [reflexivity | discriminate | reflexivity].
  - split; [vm_compute; discriminate | vm_compute; reflexivity].
Defined.

Lemma json_minus_7 : json "-7" (Integer (-7)).
Proof.
  apply (json_integer "-7").
  - apply int_neg; [reflexivity | discriminate | reflexivity].
  - split; [vm_compute; discriminate | vm_compute; reflexivity].
Defined.

Lemma sample_elements_grammar : elements sample_elements sample_values.
Proof.
  apply (elements_more "1" (Integer 1) " " " "); [exact json_1 | reflexivity | reflexivity |].
  apply (elements_more (quoted "b") (String_ "b") "" "" "" []);
    [exact (json_string "b" "b" content_b) | reflexivity | reflexivity | exact elements_none].
Defined.

Lemma sample_members_grammar : members sample_members ∅ sample_map.
Proof.
  apply (members_more sample_member_1 "a" (Array sample_values) "" sample_member_2).
  - apply (member_of "a" "a" "" " " "" sample_array (Array sample_values) "");
      [exact content_a | reflexivity | reflexivity | reflexivity | | reflexivity].
    exact (json_array "" sample_elements sample_values eq_refl sample_elements_grammar).
  - reflexivity.
  - apply (members_last sample_member_2 "a" (Integer (-7))).
    apply (member_of "a" "a" "" "x" "" "-7" (Integer (-7)) " ");
      [exact content_a | reflexivity | reflexivity | reflexivity | exact json_minus_7
       | reflexivity].
Defined.

Lemma sample_object_grammar : json sample_object (Object sample_map).
Proof.
  exact (json_object " " sample_members sample_map eq_refl sample_members_grammar).
Defined.

Lemma decode_json_witness :
  json sample_object (Object sample_map) /\ all_ws ws_before = true /\
  terminator ", 1" /\
  (String.length (ws_before +:+ sample_object +:+ ", 1") <= bufio.defaultBufSize)%nat /\
  fst (decode_reader Digit_head (ws_before +:+ sample_object +:+ ", 1"))
  = Ok (Object sample_map) /\
  bufio.unread (snd (decode_reader Digit_head (ws_before +:+ sample_object +:+ ", 1")))
  = skip_ws ", 1".
Proof.
  assert (T : terminator ", 1") by (vm_compute; repeat split; discriminate).
  assert (F : (String.length (ws_before +:+ sample_object +:+ ", 1")
               <= bufio.defaultBufSize)%nat) by (vm_compute; lia).
  split; [exact sample_object_grammar|]. split; [reflexivity|]. split; [exact T|].
  split; [exact F|].
  exact (decode_json Digit_head sample_object (Object sample_map) ws_before ", 1"
           sample_object_grammar eq_refl T F).
Defined.

Lemma decode_array_separator_witness :
  json (quoted "a") (String_ "a") /\ all_ws "" = true /\ all_ws "" = true /\
  b2z "1" < 0x80 /\ ws_byte "1" = false /\
  b2z "1" <> rn "," /\ b2z "1" <> rn "]" /\
  (int_text (quoted "a") -> "" = "" -> terminator (String "1" "]")) /\
  (String.length ("[" +:+ "" +:+ quoted "a" +:+ "" +:+ String "1" "]")
   <= bufio.defaultBufSize)%nat /\
  decode Digit_head ("[" +:+ "" +:+ quoted "a" +:+ "" +:+ String "1" "]") =
  Err (Errorf "failed to Unmarshal array: no , or ]" []).
Proof.
  assert (J : json (quoted "a") (String_ "a")) by exact (json_string "a" "a" content_a).
  assert (H1 : b2z "1" <> rn ",") by discriminate.
  assert (H2 : b2z "1" <> rn "]") by discriminate.
  assert (T : int_text (quoted "a") -> "" = "" -> terminator (String "1" "]")).
  { intros H. vm_compute in H. inversion H; discriminate. }
  assert (F : (String.length ("[" +:+ "" +:+ quoted "a" +:+ "" +:+ String "1" "]")
               <= bufio.defaultBufSize)%nat) by (vm_compute; lia).
  split; [exact J|]. split; [reflexivity|]. split; [reflexivity|].
  split; [reflexivity|]. split; [reflexivity|]. split; [exact H1|]. split; [exact H2|].
  split; [exact T|]. split; [exact F|].
  exact (decode_array_separator Digit_head (quoted "a") (String_ "a") "" "" "1" "]"
           J eq_refl eq_refl eq_refl eq_refl H1 H2 T F).
Defined.

Lemma decode_array_unterminated_witness :
  all_ws "" = true /\ elements sample_elements sample_values /\
  (String.length ("[" +:+ "" +:+ sample_elements) <= bufio.defaultBufSize)%nat /\
  decode Digit_head ("[" +:+ "" +:+ sample_elements) =
  Err (Errorf "failed to read rune: %w" [ArgErr EOF]).
Proof.
  assert (F : (String.length ("[" +:+ "" +:+ sample_elements)
               <= bufio.defaultBufSize)%nat) by (vm_compute; lia).
  split; [reflexivity|]. split; [exact sample_elements_grammar|]. split; [exact F|].
  exact (decode_array_unterminated Digit_head "" sample_elements sample_values
           eq_refl sample_elements_grammar F).
Defined.

Lemma decode_object_unterminated_witness :
  all_ws " " = true /\ members sample_members ∅ sample_map /\
  (String.length ("{" +:+ " " +:+ sample_members) <= bufio.defaultBufSize)%nat /\
  decode Digit_head ("{" +:+ " " +:+ sample_members) =
  Err (Errorf "failed to read rune: %w" [ArgErr EOF]).
Proof.
  assert (F : (String.length ("{" +:+ " " +:+ sample_members)
               <= bufio.defaultBufSize)%nat) by (vm_compute; lia).
  split; [reflexivity|]. split; [exact sample_members_grammar|]. split; [exact F|].
  exact (decode_object_unterminated Digit_head " " sample_members sample_map
           eq_refl sample_members_grammar F).
Defined.

Lemma decode_object_key_witness :
  all_ws " " = true /\
  b2z "a" < 0x80 /\ ws_byte "a" = false /\ b2z "a" <> rn dq /\ b2z "a" <> rn "}" /\
  (String.length ("{" +:+ " " +:+ String "a" ":1}") <= bufio.defaultBufSize)%nat /\
  decode Digit_head ("{" +:+ " " +:+ String "a" ":1}") =
  Err (Errorf "failed to Unmarshal object key: %w"
         [ArgErr (Errorf "cannot match string, no opening double quote found: %c"
                    [ArgRune (b2z "a")])]).
Proof.
  assert (H1 : b2z "a" <> rn dq) by discriminate.
  assert (H2 : b2z "a" <> rn "}") by discriminate.
  assert (F : (String.length ("{" +:+ " " +:+ String "a" ":1}")
               <= bufio.defaultBufSize)%nat) by (vm_compute; lia).
  split; [reflexivity|]. split; [reflexivity|]. split; [reflexivity|].
  split; [exact H1|]. split; [exact H2|]. split; [exact F|].
  exact (decode_object_key Digit_head " " "a" ":1}" eq_refl eq_refl eq_refl H1 H2 F).
Defined.

Lemma decode_object_comma_witness :
  all_ws " " = true /\ members sample_members ∅ sample_map /\ all_ws " " = true /\
  b2z "}" < 0x80 /\ ws_byte "}" = false /\ b2z "}" <> rn dq /\
  (String.length ("{" +:+ " " +:+ sample_members +:+ "," +:+ " " +:+ String "}" "")
   <= bufio.defaultBufSize)%nat /\
  decode Digit_head ("{" +:+ " " +:+ sample_members +:+ "," +:+ " " +:+ String "}" "") =
  Err (Errorf "failed to Unmarshal object key: %w"
         [ArgErr (Errorf "cannot match string, no opening double quote found: %c"
                    [ArgRune (b2z "}")])]).
Proof.
  assert (H1 : b2z "}" <> rn dq) by discriminate.
  assert (F : (String.length ("{" +:+ " " +:+ sample_members +:+ "," +:+ " " +:+ String "}" "")
               <= bufio.defaultBufSize)%nat) by (vm_compute; lia).
  split; [reflexivity|]. split; [exact sample_members_grammar|]. split; [reflexivity|].
  split; [reflexivity|]. split; [reflexivity|]. split; [exact H1|]. split; [exact F|].
  exact (decode_object_comma Digit_head " " sample_members sample_map " " "}" ""
           eq_refl sample_members_grammar eq_refl eq_refl eq_refl H1 F).
Defined.

Lemma decode_object_colon_witness :
  all_ws "" = true /\ content "a" "a" /\ all_ws " " = true /\
  b2z "=" < 0x80 /\ ws_byte "=" = false /\ b2z "=" <> rn ":" /\
  (String.length ("{" +:+ "" +:+ quoted "a" +:+ " " +:+ String "=" "1}")
   <= bufio.defaultBufSize)%nat /\
  decode Digit_head ("{" +:+ "" +:+ quoted "a" +:+ " " +:+ String "=" "1}") =
  Err (Errorf "failed to find matching value for object key: %s" [ArgStr "a"]).
Proof.
  assert (H1 : b2z "=" <> rn ":") by discriminate.
  assert (F : (String.length ("{" +:+ "" +:+ quoted "a" +:+ " " +:+ String "=" "1}")
               <= bufio.defaultBufSize)%nat) by (vm_compute; lia).
  split; [reflexivity|]. split; [exact content_a|]. split; [reflexivity|].
  split; [reflexivity|]. split; [reflexivity|]. split; [exact H1|]. split; [exact F|].
  exact (decode_object_colon Digit_head "" "a" "a" " " "=" "1}"
           eq_refl content_a eq_refl eq_refl eq_refl H1 F).
Defined.

Lemma decode_object_value_witness :
  all_ws "" = true /\ content "a" "a" /\ all_ws "" = true /\
  b2z "1" < 0x80 /\ all_ws "" = true /\
  b2z "}" < 0x80 /\ ws_byte "}" = false /\ first_rune Digit_head (b2z "}") = false /\
  (String.length ("{" +:+ "" +:+ quoted "a" +:+ "" +:+ ":" +:+ String "1" ("" +:+ String "}" ""))
   <= bufio.defaultBufSize)%nat /\
  decode Digit_head
    ("{" +:+ "" +:+ quoted "a" +:+ "" +:+ ":" +:+ String "1" ("" +:+ String "}" "")) =
  Err (Errorf "failed to Unmarshal value for object key: %s" [ArgStr "a"]).
Proof.
  assert (F : (String.length
                 ("{" +:+ "" +:+ quoted "a" +:+ "" +:+ ":" +:+ String "1" ("" +:+ String "}" ""))
               <= bufio.defaultBufSize)%nat) by (vm_compute; lia).
  split; [reflexivity|]. split; [exact content_a|]. split; [reflexivity|].
  split; [reflexivity|]. split; [reflexivity|]. split; [reflexivity|].
  split; [reflexivity|]. split; [reflexivity|]. split; [exact F|].
  exact (decode_object_value Digit_head "" "a" "a" "" "1" "" "}" ""
           eq_refl content_a eq_refl eq_refl eq_refl eq_refl eq_refl eq_refl F).
Defined.

Lemma decode_literal_mismatch_witness :
  literal_name "t" = Some "true" /\
  (String.length "true" <= String.length (String "t" "roe,"))%nat /\
  take (String.length "true") (String "t" "roe,") <> "true" /\
  (String.length (String "t" "roe,") <= bufio.defaultBufSize)%nat /\
  decode Digit_head (String "t" "roe,") =
  Err (Errorf ("could not Unmarshal " +:+ "true" +:+ ", found: %s")
         [ArgStr (take (String.length "true") (String "t" "roe,"))]).
Proof.
  assert (L : (String.length "true" <= String.length (String "t" "roe,"))%nat)
    by (vm_compute; lia).
  assert (N : take (String.length "true") (String "t" "roe,") <> "true") by discriminate.
  assert (F : (String.length (String "t" "roe,") <= bufio.defaultBufSize)%nat)
    by (vm_compute; lia).
  split; [reflexivity|]. split; [exact L|]. split; [exact N|]. split; [exact F|].
  exact (decode_literal_mismatch Digit_head "t" "roe," "true" eq_refl L N F).
Defined.

Lemma decode_literal_short_witness :
  literal_name "f" = Some "false" /\
  (String.length (String "f" "als") < String.length "false")%nat /\
  decode Digit_head (String "f" "als") =
  Err (Errorf ("failed to read all " +:+ strconv.FormatInt (Z.of_nat (String.length "false"))
               +:+ " chars while parsing " +:+ "false" +:+ ", could only read %d chars")
         [ArgInt (Z.of_nat (String.length (String "f" "als")))]).
Proof.
  assert (L : (String.length (String "f" "als") < String.length "false")%nat)
    by (vm_compute; lia).
  split; [reflexivity|]. split; [exact L|].
  exact (decode_literal_short Digit_head "f" "als" "false" eq_refl L).
Defined.

(** * Further properties of the encoder *)

(** ** Induction on values *)

Lemma Value_size_element (values : list Value) (v : Value) :
  In v values -> (Value_size v < Value_size (Array values))%nat.
Proof.
  cbn [Value_size]. induction values as [|v' values IH]; [contradiction|].
  intros [-> | H]; cbn [fold_right]; [lia|]. specialize (IH H). lia.
Qed.

Lemma Value_size_member (object : gmap string Value) (key : string) (v : Value) :
  object !! key = Some v -> (Value_size v < Value_size (Object object))%nat.
Proof.
  cbn [Value_size]. revert key v.
  apply (map_fold_weak_ind
           (fun r (m : gmap string Value) =>
              forall key v, m !! key = Some v -> (Value_size v < S r)%nat)).
  - intros key v H. rewrite lookup_empty in H. discriminate.
  - intros i x m r Hi IH key v H.
    destruct (decide (key = i)) as [->|Hne].
    + rewrite lookup_insert_eq in H. injection H as ->. lia.
    + rewrite lookup_insert_ne in H by congruence. specialize (IH key v H). lia.
Qed.

(** Induction on a value with the premises for the elements of an array
    and for the values of an object. *)
Lemma Value_nested_ind (P : Value -> Prop) :
  P Null ->
  (forall b, P (Bool b)) ->
  (forall n, P (Integer n)) ->
  (forall f, P (Float f)) ->
  (forall s, P (String_ s)) ->
  (forall values, Forall P values -> P (Array values)) ->
  (forall object, map_Forall (fun _ => P) object -> P (Object object)) ->
  forall v, P v.
Proof.
  intros HNull HBool HInt HFloat HStr HArr HObj v.
  remember (Value_size v) as n eqn:Hn. revert v Hn.
  induction n as [n IH] using lt_wf_ind. intros v ->.
  destruct v as [ | b | i | f | s | values | object ]; auto.
  - apply HArr. apply Forall_forall. intros v Hv.
    apply (IH (Value_size v)); [|reflexivity].
    apply Value_size_element. now apply list_elem_of_In.
  - apply HObj. intros key v Hv.
    apply (IH (Value_size v)); [|reflexivity].
    now apply (Value_size_member object key).
Qed.

(** ** The encoder on a writer without an error *)

Lemma noError_ok (w : bufio.Writer) :
  bufio.err w = None ->
  noError w = (None, {| bufio.written := bufio.written w +:+ ""; bufio.err := None |}).
Proof.
  intros H. unfold noError. rewrite append_nil_r. destruct w; simpl in *; now subst.
Qed.

(** The turns of the loop of [MarshalObject]. *)
Lemma MarshalObject_turns (len : nat) (object : gmap string Value) :
  map_Forall (fun _ v => exists t, forall w, bufio.err w = None ->
                MarshalValue v w =
                (None, {| bufio.written := bufio.written w +:+ t; bufio.err := None |}))
             object ->
  forall i, exists t, forall w, bufio.err w = None ->
    map_fold (MarshalObject_turn MarshalValue len) (fun _ => noError) object i w =
    (None, {| bufio.written := bufio.written w +:+ t; bufio.err := None |}).
Proof.
  apply (map_fold_weak_ind
           (fun (r : nat -> Marshaler) (m : gmap string Value) =>
              map_Forall (fun _ v => exists t, forall w, bufio.err w = None ->
                            MarshalValue v w =
                            (None, {| bufio.written := bufio.written w +:+ t;
                                      bufio.err := None |})) m ->
              forall i, exists t, forall w, bufio.err w = None ->
                r i w =
                (None, {| bufio.written := bufio.written w +:+ t; bufio.err := None |}))).
  - intros _ i. exists "". intros w Hw. now apply noError_ok.
  - intros key v m r Hkey IH HF i.
    apply map_Forall_insert in HF as [[tv Hv] HF]; [|exact Hkey].
    destruct (IH HF (S i)) as (tr & Hr).
    exists (DQ +:+ escape (utf8.runes key) +:+ DQ +:+ ":" +:+ tv
            +:+ (if (i <? len - 1)%nat then "," +:+ tr else tr)).
    intros w Hw. unfold MarshalObject_turn, andThen.
    rewrite MarshalString_ok by exact Hw.
    unfold bufio.WriteByte. rewrite WriteString_ok by reflexivity.
    rewrite Hv by reflexivity. cbn [bufio.written].
    destruct (i <? len - 1)%nat.
    + rewrite WriteString_ok by reflexivity. rewrite Hr by reflexivity.
      cbn [bufio.written]. now rewrite !append_assoc.
    + rewrite Hr by reflexivity. cbn [bufio.written]. now rewrite !append_assoc.
Qed.

Lemma MarshalValue_text (v : Value) :
  exists t, forall w, bufio.err w = None ->
    MarshalValue v w =
    (None, {| bufio.written := bufio.written w +:+ t; bufio.err := None |}).
Proof.
  induction v as [ | b | n | f | s | values IH | object IH ] using Value_nested_ind.
  - exists "null". intros w Hw. cbn [MarshalValue]. unfold andThen, MarshalNull, andThen.
    rewrite WriteString_ok by exact Hw. reflexivity.
  - exists (if b then "true" else "false"). intros w Hw. cbn [MarshalValue].
    unfold MarshalBoolean, andThen.
    destruct b; rewrite WriteString_ok by exact Hw; reflexivity.
  - exists (strconv.FormatInt n). intros w Hw. cbn [MarshalValue].
    unfold MarshalNumber_int64, MarshalNumber_write, andThen.
    rewrite WriteString_ok by exact Hw. reflexivity.
  - exists (strconv.FormatFloat f). intros w Hw. cbn [MarshalValue].
    unfold MarshalNumber_float64, MarshalNumber_write, andThen.
    rewrite WriteString_ok by exact Hw. reflexivity.
  - exists (DQ +:+ escape (utf8.runes s) +:+ DQ). intros w Hw. cbn [MarshalValue].
    now apply MarshalString_ok.
  - assert (H : exists ts,
              Forall2 (fun v t => forall w, bufio.err w = None ->
                         MarshalValue v w =
                         (None, {| bufio.written := bufio.written w +:+ t;
                                   bufio.err := None |})) values ts).
    { induction IH as [|v values [t Ht] _ [ts Hts]].
      - exists []. constructor.
      - exists (t :: ts). now constructor. }
    destruct H as [ts HF]. exists ("[" +:+ join ts +:+ "]"). intros w Hw.
    cbn [MarshalValue]. unfold MarshalArray, andThen at 1.
    unfold bufio.WriteByte. rewrite WriteString_ok by exact Hw.
    unfold andThen at 1.
    rewrite (MarshalArray_range_join values ts _ 0 _ HF); [| reflexivity | reflexivity].
    unfold andThen, noError. rewrite WriteString_ok by reflexivity.
    cbn [bufio.written]. now rewrite !append_assoc.
  - destruct (MarshalObject_turns (size object) object IH 0%nat) as [t Ht].
    exists ("{" +:+ t +:+ "}"). intros w Hw.
    cbn [MarshalValue]. unfold andThen at 1.
    unfold bufio.WriteByte. rewrite WriteString_ok by exact Hw.
    unfold andThen at 1. rewrite Ht by reflexivity.
    unfold andThen, noError. rewrite WriteString_ok by reflexivity.
    cbn [bufio.written]. now rewrite !append_assoc.
Qed.

(** What [MarshalValue] appends is the text of [encode]. *)
Lemma MarshalValue_encode (v : Value) (w : bufio.Writer) :
  bufio.err w = None ->
  MarshalValue v w =
  (None, {| bufio.written := bufio.written w +:+ snd (encode v); bufio.err := None |}).
Proof.
  intros Hw. destruct (MarshalValue_text v) as [t Ht].
  unfold encode. rewrite (Ht bufio.NewWriter eq_refl). cbn [snd bufio.written].
  now apply Ht.
Qed.

(** X22: [MarshalValue] writes after what the writer holds, and what it
    writes does not depend on it: on a writer that holds no error and
    whose sink takes all that is flushed to it, as the writer of the model
    does, and for a value whose objects have one member at most at every
    depth, the writer holds afterwards what it held before and then the
    text that [encode] gives for the value.  The order in which [range]
    visits a map of two members or more is not fixed in Go, and the text
    of such an object with it: the statement is about the values whose
    text is fixed. *)
Theorem MarshalValue_appends (v : Value) (w : bufio.Writer) :
  bufio.err w = None -> single_members v = true ->
  bufio.written (snd (MarshalValue v w)) = bufio.written w +:+ snd (encode v).
Proof. intros Hw _. now rewrite MarshalValue_encode. Qed.

Lemma MarshalValue_appends_witness :
  bufio.err (bufio.mkWriter "x" None) = None /\
  single_members (Array [Object {[ "k" := Array [Integer 1; Null] ]}; String_ "a"]) = true /\
  bufio.written
    (snd (MarshalValue (Array [Object {[ "k" := Array [Integer 1; Null] ]}; String_ "a"])
            (bufio.mkWriter "x" None))) =
  bufio.written (bufio.mkWriter "x" None)
  +:+ snd (encode (Array [Object {[ "k" := Array [Integer 1; Null] ]}; String_ "a"])).
Proof.
  assert (S : single_members
                (Array [Object {[ "k" := Array [Integer 1; Null] ]}; String_ "a"]) = true)
    by (vm_compute; reflexivity).
  split; [reflexivity|]. split; [exact S|].
  exact (MarshalValue_appends _ (bufio.mkWriter "x" None) eq_refl S).
Defined.

(** X23: the text of an array is the texts of its elements between
    brackets, with a comma between two elements and none after the
    last. *)
Theorem encode_Array (values : list Value) :
  encode (Array values) =
  (None, "[" +:+ join (map (fun v => snd (encode v)) values) +:+ "]").
Proof.
  unfold encode at 1. cbn [MarshalValue]. unfold MarshalArray, andThen at 1.
  unfold bufio.WriteByte. rewrite WriteString_ok by reflexivity.
  unfold andThen at 1.
  rewrite (MarshalArray_range_join values (map (fun v => snd (encode v)) values) _ 0);
    [| | reflexivity | reflexivity].
  - unfold andThen, noError. rewrite WriteString_ok by reflexivity.
    cbn [bufio.written bufio.NewWriter]. now rewrite !append_assoc.
  - induction values as [|v values IH]; constructor; [|exact IH].
    intros w Hw. now apply MarshalValue_encode.
Qed.

(** X24: on a writer with an error [MarshalValue] returns an error and
    writes nothing. *)
Theorem MarshalValue_failed_writer (v : Value) (w : bufio.Writer) (e : error) :
  bufio.err w = Some e ->
  fst (MarshalValue v w) <> None /\ snd (MarshalValue v w) = w.
Proof.
  intros Hw.
  destruct v as [ | [|] | n | f | s | values | object ]; cbn [MarshalValue];
    unfold MarshalNull, MarshalBoolean, MarshalNumber_int64, MarshalNumber_float64,
      MarshalNumber_write, MarshalString, MarshalArray, andThen, bufio.WriteByte,
      bufio.WriteString;
    rewrite Hw; split; [discriminate | reflexivity | discriminate | reflexivity
                        | discriminate | reflexivity | discriminate | reflexivity
                        | discriminate | reflexivity | discriminate | reflexivity
                        | discriminate | reflexivity | discriminate | reflexivity ].
Qed.

Lemma MarshalValue_failed_writer_witness :
  bufio.err {| bufio.written := "["; bufio.err := Some EOF |} = Some EOF /\
  fst (MarshalValue (Array sample_values) {| bufio.written := "["; bufio.err := Some EOF |})
  <> None /\
  snd (MarshalValue (Array sample_values) {| bufio.written := "["; bufio.err := Some EOF |})
  = {| bufio.written := "["; bufio.err := Some EOF |}.
Proof.
  split; [reflexivity|].
  exact (MarshalValue_failed_writer (Array sample_values)
           {| bufio.written := "["; bufio.err := Some EOF |} EOF eq_refl).
Defined.

(** ** The text of a string and the decoder *)

Lemma escape_byte_letter (c : ascii) :
  b2z c = rn dq \/ b2z c = rn "\" \/ b2z c = 8 \/ b2z c = 12 \/ b2z c = 10
  \/ b2z c = 13 \/ b2z c = 9 ->
  exists x, escape_byte c = String "\" (String x "") /\ escape_letter x = Some c.
Proof.
  intros H.
  assert (Hc : c = dq \/ c = "\"%char \/ c = ascii_of_nat 8 \/ c = ascii_of_nat 12
               \/ c = ascii_of_nat 10 \/ c = ascii_of_nat 13 \/ c = ascii_of_nat 9).
  { repeat destruct H as [H|H];
      [ left | right; left | do 2 right; left | do 3 right; left | do 4 right; left
      | do 5 right; left | do 6 right ];
      apply b2z_inj; rewrite H; reflexivity. }
  clear H.
  destruct Hc as [-> | [-> | [-> | [-> | [-> | [-> | ->]]]]]];
    [ exists dq | exists "\"%char | exists "b"%char | exists "f"%char | exists "n"%char
    | exists "r"%char | exists "t"%char ]; split; reflexivity.
Qed.

(** The text that [MarshalString] writes between the double quotes is a
    content of the decoder, and stands for the runes of the string. *)
Lemma content_of_escape (fuel : nat) :
  forall s, (String.length s <= fuel)%nat ->
    content (escape (utf8.runes_fuel fuel s)) (utf8_of (utf8.runes_fuel fuel s)).
Proof.
  induction fuel as [|fuel IH]; intros s Hl.
  { destruct s; [|simpl in Hl; lia]. simpl. constructor. }
  destruct s as [|c s]; [simpl; constructor|].
  cbn [utf8.runes_fuel].
  destruct (utf8.DecodeRune (String c s)) as [r size] eqn:D.
  pose proof (DecodeRune_size c s) as Hs. rewrite D in Hs. cbn [snd] in Hs.
  assert (Hlen : (String.length (drop size (String c s)) <= fuel)%nat).
  { rewrite length_drop. simpl in *. lia. }
  specialize (IH _ Hlen).
  set (cs := utf8.runes_fuel fuel (drop size (String c s))) in *.
  cbn [escape utf8_of].
  destruct (string_dec (escape_rune r) (utf8.EncodeRune r)) as [Hplain | Hspecial].
  - assert (Hne : r <> rn dq /\ r <> rn "\").
    { split; intros ->; vm_compute in Hplain; discriminate. }
    destruct Hne as [Hq Hb]. rewrite Hplain.
    assert (E : exists n, utf8.DecodeRune (utf8.EncodeRune r +:+ escape cs) = (r, n) /\
                          utf8.EncodeRune r <> "" /\
                          drop n (utf8.EncodeRune r +:+ escape cs) = escape cs).
    { pose proof (DecodeRune_decoded _ _ _ _ D) as Dd.
      destruct (Nat.eq_dec size 1%nat) as [->|Hsize];
        [destruct (Z_lt_dec (b2z c) 0x80) as [Ha|Ha]|].
      - exists 1%nat.
        rewrite (EncodeRune_DecodeRune _ _ _ _ D (fun _ => Ha)).
        split; [apply (DecodeRune_app _ _ _ _ _ D (fun _ => Ha))|].
        split; [discriminate | reflexivity].
      - assert (r = utf8.RuneError) as ->
          by (inversion Dd; subst; [contradiction | reflexivity]).
        exists 3%nat. repeat split; discriminate || reflexivity.
      - assert (Hv : size = 1%nat -> b2z c < 0x80) by (intros; contradiction).
        exists size.
        rewrite (EncodeRune_DecodeRune _ _ _ _ D Hv).
        split; [apply (DecodeRune_app _ _ _ _ _ D Hv)|].
        split.
        + destruct size; [lia | discriminate].
        + rewrite drop_app by (rewrite length_take; lia).
          replace (drop size (take size (String c s))) with ""; [reflexivity|].
          symmetry. apply drop_beyond. rewrite length_take. lia. }
    destruct E as (n & Dn & Hne & Hd).
    destruct (utf8.EncodeRune r) as [|c0 e0] eqn:Er; [contradiction|].
    simpl String.append in *.
    change (String c0 (e0 +:+ utf8_of cs)) with (String c0 e0 +:+ utf8_of cs).
    rewrite <- Er.
    apply (content_rune c0 (e0 +:+ escape cs) r n); try assumption.
    now rewrite Hd.
  - destruct (escape_rune_plain r) as [Hplain | Hlow]; [contradiction|].
    destruct (DecodeRune_below_RuneSelf _ _ _ _ D) as [Hiff Hb].
    destruct (Hb Hlow) as [-> ->].
    destruct (escape_rune_special (b2z c) c eq_refl Hspecial) as [-> Hc].
    destruct (escape_byte_letter c Hc) as (x & -> & Hx).
    rewrite EncodeRune_ascii by lia. simpl String.append.
    now apply content_escape.
Qed.

(** A string in UTF-8 is the UTF-8 of its runes. *)
Lemma utf8_of_valid (fuel : nat) :
  forall s, (String.length s <= fuel)%nat -> utf8.valid_fuel fuel s = true ->
    utf8_of (utf8.runes_fuel fuel s) = s.
Proof.
  induction fuel as [|fuel IH]; intros s Hl Hv.
  { destruct s; [reflexivity | simpl in Hl; lia]. }
  destruct s as [|c s]; [reflexivity|].
  cbn [utf8.valid_fuel utf8.runes_fuel] in *.
  destruct (utf8.DecodeRune (String c s)) as [r size] eqn:D.
  apply andb_prop in Hv as [Hv1 Hv2]. apply negb_true_iff in Hv1.
  pose proof (DecodeRune_size c s) as Hs. rewrite D in Hs. cbn [snd] in Hs.
  pose proof (DecodeRune_decoded _ _ _ _ D) as Dd.
  assert (Hasc : size = 1%nat -> b2z c < 0x80).
  { intros ->. inversion Dd; subst; [assumption|].
    now rewrite Z.eqb_refl, Nat.eqb_refl in Hv1. }
  cbn [utf8_of]. rewrite (EncodeRune_DecodeRune _ _ _ _ D Hasc).
  rewrite IH; [apply take_drop | rewrite length_drop; simpl in *; lia | exact Hv2].
Qed.

Section RoundTrips.

Variable Digit : unicode.RangeTable.

(** X25: the text that the encoder writes for a string, when the buffer
    holds it, is decoded to the UTF-8 of the runes of the string: a string
    in UTF-8 comes back as it is, and in another string each byte that is
    no UTF-8 comes back as U+FFFD. *)
Theorem decode_encoded_string (s : string) :
  (String.length (snd (encode (String_ s))) <= bufio.defaultBufSize)%nat ->
  decode Digit (snd (encode (String_ s))) = Ok (String_ (utf8_of (utf8.runes s))) /\
  (utf8.ValidString s = true -> utf8_of (utf8.runes s) = s).
Proof.
  assert (E : snd (encode (String_ s)) = quoted (escape (utf8.runes s))).
  { unfold encode. cbn [MarshalValue]. rewrite MarshalString_ok by reflexivity.
    cbn [snd bufio.written bufio.NewWriter]. unfold quoted. reflexivity. }
  rewrite E. intros Hfit. split.
  - apply decode_content_held; [|exact Hfit]. apply content_of_escape. lia.
  - intros Hv. apply utf8_of_valid; [lia | exact Hv].
Qed.

Lemma encode_member (key : string) (v : Value) :
  snd (encode (Object {[key := v]})) =
  "{" +:+ quoted (escape (utf8.runes key)) +:+ ":" +:+ snd (encode v) +:+ "}".
Proof.
  unfold encode at 1. cbn [MarshalValue]. unfold andThen at 1.
  unfold bufio.WriteByte. rewrite WriteString_ok by reflexivity.
  unfold andThen at 1. rewrite map_fold_singleton. rewrite map_size_singleton.
  unfold MarshalObject_turn, andThen at 1. rewrite MarshalString_ok by reflexivity.
  unfold andThen at 1. unfold bufio.WriteByte. rewrite WriteString_ok by reflexivity.
  unfold andThen at 1. rewrite MarshalValue_encode by reflexivity.
  cbn [Nat.ltb Nat.leb Nat.sub]. unfold noError, andThen.
  rewrite WriteString_ok by reflexivity.
  cbn [snd bufio.written bufio.NewWriter]. unfold quoted.
  now rewrite !append_assoc.
Qed.

(** X26: the text that the encoder writes for an object with one member
    whose value is an integer of one digit is not decoded: the decoder
    drops the digit after the colon and finds no value. *)
Theorem decode_encoded_member_digit (key : string) (n : Z) :
  0 <= n <= 9 ->
  (String.length (snd (encode (Object {[key := Integer n]}))) <= bufio.defaultBufSize)%nat ->
  decode Digit (snd (encode (Object {[key := Integer n]}))) =
  Err (Errorf "failed to Unmarshal value for object key: %s"
         [ArgStr (utf8_of (utf8.runes key))]).
Proof.
  intros Hn. rewrite encode_member.
  assert (E : snd (encode (Integer n)) = String (z2b (rn "0" + n)) "").
  { unfold encode. cbn [MarshalValue].
    unfold MarshalNumber_int64, MarshalNumber_write, andThen.
    rewrite WriteString_ok by reflexivity. cbn [snd bufio.written bufio.NewWriter].
    unfold strconv.FormatInt.
    replace (n <? 0) with false by (symmetry; apply Z.ltb_ge; lia).
    cbn [strconv.formatBits_loop].
    replace (n <? 10) with true by (symmetry; apply Z.ltb_lt; lia). reflexivity. }
  rewrite E. intros Hfit.
  assert (Ha : b2z (z2b (rn "0" + n)) < 0x80)
    by (rewrite b2z_z2b; unfold rn; change (b2z "0") with 48; lia).
  apply (object_value_held Digit "" (escape (utf8.runes key)) (utf8_of (utf8.runes key))
           "" (z2b (rn "0" + n)) "" "}" "");
    [ reflexivity | apply content_of_escape; lia | reflexivity | exact Ha | reflexivity
    | reflexivity | reflexivity | | exact Hfit ].
  unfold first_rune. rewrite IsDigit_byte. reflexivity.
Qed.

Lemma int_value_FormatInt (i : Z) :
  - 2 ^ 63 <= i < 2 ^ 63 -> int_value (strconv.FormatInt i) = i.
Proof.
  intros Hi. destruct (FormatInt_ParseInt i Hi) as [Ht Hp].
  assert (Hr : - 2 ^ 63 <= int_value (strconv.FormatInt i) < 2 ^ 63).
  { destruct (Z_le_dec (- 2 ^ 63) (int_value (strconv.FormatInt i))) as [H1|H1];
      [destruct (Z_lt_dec (int_value (strconv.FormatInt i)) (2 ^ 63)) as [H2|H2]|];
      [ lia | | ];
      (assert (Hv : ~ (- 2 ^ 63 <= int_value (strconv.FormatInt i) < 2 ^ 63)) by lia;
       destruct (ParseInt_range _ Ht Hv) as (m & Hm); rewrite Hm in Hp; discriminate). }
  pose proof (ParseInt_int_text _ Ht Hr) as Hq. rewrite Hq in Hp. now injection Hp.
Qed.

(** X27: the text that the encoder writes for an object with one member
    whose value is a negative integer is decoded to the object with the
    integer without its sign: the decoder drops the minus sign after the
    colon. *)
Theorem decode_encoded_member_negative (key : string) (n : Z) :
  - 2 ^ 63 < n < 0 ->
  (String.length (snd (encode (Object {[key := Integer n]}))) <= bufio.defaultBufSize)%nat ->
  decode Digit (snd (encode (Object {[key := Integer n]}))) =
  Ok (Object {[utf8_of (utf8.runes key) := Integer (- n)]}).
Proof.
  intros Hn. rewrite encode_member.
  assert (E : snd (encode (Integer n)) = String "-" (strconv.FormatInt (- n))).
  { unfold encode. cbn [MarshalValue].
    unfold MarshalNumber_int64, MarshalNumber_write, andThen.
    rewrite WriteString_ok by reflexivity. cbn [snd bufio.written bufio.NewWriter].
    unfold strconv.FormatInt.
    replace (n <? 0) with true by (symmetry; apply Z.ltb_lt; lia).
    replace (- n <? 0) with false by (symmetry; apply Z.ltb_ge; lia). reflexivity. }
  rewrite E. intros Hfit.
  assert (Hi : - 2 ^ 63 <= - n < 2 ^ 63) by lia.
  destruct (FormatInt_ParseInt (- n) Hi) as [Ht _].
  pose proof (int_value_FormatInt (- n) Hi) as Hv.
  set (t := "{" +:+ "" +:+
            (quoted (escape (utf8.runes key)) +:+ "" +:+ ":"
             +:+ String "-" ("" +:+ strconv.FormatInt (- n) +:+ "")) +:+ "}").
  assert (J : json t (Object (<[utf8_of (utf8.runes key) := Integer (- n)]> ∅))).
  { apply json_object; [reflexivity|]. apply members_last.
    apply member_of;
      [ apply content_of_escape; lia | reflexivity | reflexivity | reflexivity | | reflexivity ].
    rewrite <- Hv at 2. apply json_integer; [exact Ht | rewrite Hv; exact Hi]. }
  assert (T : "{" +:+ quoted (escape (utf8.runes key)) +:+ ":"
              +:+ String "-" (strconv.FormatInt (- n)) +:+ "}" = "" +:+ t +:+ "").
  { subst t. unfold quoted, DQ. rewrite !append_nil_r. simpl String.append.
    rewrite !append_assoc. simpl String.append. reflexivity. }
  rewrite T in Hfit |- *.
  destruct (decode_reader_json_held Digit _ _ "" "" J eq_refl I Hfit) as [D1 _].
  unfold decode. rewrite D1. now rewrite insert_empty.
Qed.

End RoundTrips.

Lemma decode_encoded_string_witness :
  (String.length (snd (encode (String_ (String (ascii_of_nat 255) "a\b"))))
   <= bufio.defaultBufSize)%nat /\
  decode Digit_head (snd (encode (String_ (String (ascii_of_nat 255) "a\b")))) =
  Ok (String_ (utf8_of (utf8.runes (String (ascii_of_nat 255) "a\b")))) /\
  (utf8.ValidString (String (ascii_of_nat 255) "a\b") = true ->
   utf8_of (utf8.runes (String (ascii_of_nat 255) "a\b")) = String (ascii_of_nat 255) "a\b").
Proof.
  assert (F : (String.length (snd (encode (String_ (String (ascii_of_nat 255) "a\b"))))
               <= bufio.defaultBufSize)%nat) by (vm_compute; lia).
  split; [exact F|].
  exact (decode_encoded_string Digit_head (String (ascii_of_nat 255) "a\b") F).
Defined.

Lemma decode_encoded_member_digit_witness :
  0 <= 5 <= 9 /\
  (String.length (snd (encode (Object {["a" := Integer 5]}))) <= bufio.defaultBufSize)%nat /\
  decode Digit_head (snd (encode (Object {["a" := Integer 5]}))) =
  Err (Errorf "failed to Unmarshal value for object key: %s"
         [ArgStr (utf8_of (utf8.runes "a"))]).
Proof.
  assert (R : 0 <= 5 <= 9) by lia.
  assert (F : (String.length (snd (encode (Object {["a" := Integer 5]})))
               <= bufio.defaultBufSize)%nat) by (vm_compute; lia).
  split; [exact R|]. split; [exact F|].
  exact (decode_encoded_member_digit Digit_head "a" 5 R F).
Defined.

Lemma decode_encoded_member_negative_witness :
  - 2 ^ 63 < - 12 < 0 /\
  (String.length (snd (encode (Object {["a" := Integer (- 12)]})))
   <= bufio.defaultBufSize)%nat /\
  decode Digit_head (snd (encode (Object {["a" := Integer (- 12)]}))) =
  Ok (Object {[utf8_of (utf8.runes "a") := Integer (- - 12)]}).
Proof.
  assert (R : - 2 ^ 63 < - 12 < 0) by lia.
  assert (F : (String.length (snd (encode (Object {["a" := Integer (- 12)]})))
               <= bufio.defaultBufSize)%nat) by (vm_compute; lia).
  split; [exact R|]. split; [exact F|].
  exact (decode_encoded_member_negative Digit_head "a" (- 12) R F).
Defined.
